(** * Daemon renderer: the material system (src/engine/renderer/Material.cpp)

    A shallow embedding of the CPU side of the material system: stage
    classification, buffer layout, batch numbering, the portal resolver,
    texture residency and the per-frame update of the materials buffer.

    Conventions.
    - A [uint32_t] is a [Z] in [0, 2^32); every addition, subtraction and
      multiplication of the source is followed by [wrap32].
    - A C array indexed by a [uint32_t] is a total function [Z -> A] updated
      with [upd]; a [std::vector] is a [list].
    - Pointers ([Texture*], [VBO_t*], [drawSurf_t*]) are compared by identity
      only, so they are represented by integers.
    - Constants, enumerations and types that the file takes from headers
      outside this file are section variables, or definitions marked as
      modelled. *)

From Stdlib Require Import ZArith Lia.
From stdpp Require Import base list sets strings sorting.

Local Open Scope Z_scope.

(** ** Machine integers *)

Definition wrap32 (z : Z) : Z := z mod 2 ^ 32.

Definition is_u32 (z : Z) : Prop := 0 <= z < 2 ^ 32.

Definition upd {A : Type} (f : Z -> A) (k : Z) (v : A) : Z -> A :=
  fun x => if x =? k then v else f x.

(** ** Outcome of a call that may leave through [Sys::Drop] *)

(** Modelled from the spec: [Sys::Drop] is defined outside this file; it
    aborts with the diagnostic it is given and does not return to its
    caller. [Dropped] is a call that left that way, [Returned] one that
    ran to its end. *)

Inductive Outcome (A : Type) : Type :=
| Returned (a : A)
| Dropped (diagnostic : string).
Arguments Returned {A} a.
Arguments Dropped {A} diagnostic.

(** ** ComputeDynamics *)

Module Dynamics.

(** The enumerators are those named in [ComputeDynamics]; every other
    enumerator of the header's enumeration falls into the [default:] label
    and is [*_OTHER] here. *)
Inductive colorGen_t :=
| CGEN_IDENTITY | CGEN_ONE_MINUS_VERTEX | CGEN_IDENTITY_LIGHTING | CGEN_VERTEX
| CGEN_CONST | CGEN_ENTITY | CGEN_ONE_MINUS_ENTITY
| CGEN_WAVEFORM | CGEN_CUSTOM_RGB | CGEN_CUSTOM_RGBs
| CGEN_OTHER.

Inductive alphaGen_t :=
| AGEN_IDENTITY | AGEN_ONE_MINUS_VERTEX | AGEN_VERTEX | AGEN_CONST
| AGEN_ENTITY | AGEN_ONE_MINUS_ENTITY
| AGEN_WAVEFORM | AGEN_CUSTOM
| AGEN_OTHER.

Inductive texMod_t :=
| TMOD_NONE | TMOD_SCALE | TMOD_TRANSFORM
| TMOD_TURBULENT | TMOD_ENTITY_TRANSLATE | TMOD_SCROLL
| TMOD_STRETCH | TMOD_ROTATE
| TMOD_SCROLL2 | TMOD_SCALE2 | TMOD_CENTERSCALE | TMOD_SHEAR
| TMOD_ROTATE2
| TMOD_OTHER.

Inductive genFunc_t :=
| GF_NONE | GF_SIN | GF_SQUARE | GF_TRIANGLE | GF_SAWTOOTH
| GF_INVERSE_SAWTOOTH | GF_NOISE.

(** An [expression_t] is used through [numOps] only, as a truth value. *)
Record expression_t := { numOps : Z }.

Definition hasOps (e : expression_t) : bool := negb (numOps e =? 0).

Record texModInfo_t := {
  type : texMod_t;
  wave_func : genFunc_t;
  sExp : expression_t;
  tExp : expression_t;
  rExp : expression_t
}.

(** [texMods] holds the entries [texMods[0 .. numTexMods)]. *)
Record textureBundle_t := {
  texMods : list texModInfo_t;
  isVideoMap : bool;
  numImages : Z
}.

Record shaderStage_t := {
  rgbGen : colorGen_t;
  alphaGen : alphaGen_t;
  bundle : list textureBundle_t;
  ifExp : expression_t;
  alphaExp : expression_t;
  alphaTestExp : expression_t;
  rgbExp : expression_t;
  redExp : expression_t;
  greenExp : expression_t;
  blueExp : expression_t;
  deformMagnitudeExp : expression_t;
  depthScaleExp : expression_t;
  fogDensityExp : expression_t;
  fresnelBiasExp : expression_t;
  fresnelPowerExp : expression_t;
  fresnelScaleExp : expression_t;
  normalIntensityExp : expression_t;
  refractionIndexExp : expression_t;
  dynamic : bool;
  colorDynamic : bool;
  texMatricesDynamic : bool;
  texturesDynamic : bool
}.

Definition isGF_NONE (f : genFunc_t) : bool :=
  match f with GF_NONE => true | _ => false end.

(** [switch ( pStage->rgbGen )]: the value [colorDynamic] has after it. *)
Definition rgbGenDynamic (g : colorGen_t) : bool :=
  match g with
  | CGEN_WAVEFORM | CGEN_CUSTOM_RGB | CGEN_CUSTOM_RGBs => true
  | _ => false
  end.

(** [switch ( pStage->alphaGen )]: whether it sets [colorDynamic]. *)
Definition alphaGenDynamic (g : alphaGen_t) : bool :=
  match g with
  | AGEN_WAVEFORM | AGEN_CUSTOM => true
  | _ => false
  end.

(** The wave function the [TMOD_STRETCH] case reads:
    [bundle.texMods->wave.func], the first entry of the array, whatever the
    loop index is. *)
Definition firstWaveFunc (b : textureBundle_t) : genFunc_t :=
  match texMods b with
  | tm :: _ => wave_func tm
  | [] => GF_NONE
  end.

(** One iteration of the loop over [bundle.texMods[i]]: whether it sets
    [texMatricesDynamic]. *)
Definition texModSets (b : textureBundle_t) (tm : texModInfo_t) : bool :=
  match type tm with
  | TMOD_NONE | TMOD_SCALE | TMOD_TRANSFORM => false
  | TMOD_TURBULENT | TMOD_ENTITY_TRANSLATE | TMOD_SCROLL => true
  | TMOD_STRETCH => negb (isGF_NONE (firstWaveFunc b))
  | TMOD_ROTATE => true
  | TMOD_SCROLL2 | TMOD_SCALE2 | TMOD_CENTERSCALE | TMOD_SHEAR =>
      hasOps (sExp tm) || hasOps (tExp tm)
  | TMOD_ROTATE2 => hasOps (rExp tm)
  | TMOD_OTHER => false
  end.

Definition bundleSetsTexMatrices (b : textureBundle_t) : bool :=
  existsb (texModSets b) (texMods b).

Definition bundleSetsTextures (b : textureBundle_t) : bool :=
  isVideoMap b || (1 <? numImages b).

Definition ComputeDynamics (pStage : shaderStage_t) : shaderStage_t :=
  let colorDynamic' :=
    rgbGenDynamic (rgbGen pStage) || alphaGenDynamic (alphaGen pStage) in
  let texMatricesDynamic' :=
    texMatricesDynamic pStage || existsb bundleSetsTexMatrices (bundle pStage) in
  let texturesDynamic' :=
    texturesDynamic pStage || existsb bundleSetsTextures (bundle pStage) in
  let d1 := dynamic pStage || hasOps (ifExp pStage) in
  let d2 := d1 || hasOps (alphaExp pStage) || hasOps (alphaTestExp pStage) in
  let d3 := d2 || hasOps (rgbExp pStage) || hasOps (redExp pStage)
               || hasOps (greenExp pStage) || hasOps (blueExp pStage) in
  let d4 := d3 || hasOps (deformMagnitudeExp pStage) in
  let d5 := d4 || hasOps (depthScaleExp pStage)
               || hasOps (fogDensityExp pStage) || hasOps (fresnelBiasExp pStage)
               || hasOps (fresnelPowerExp pStage) || hasOps (fresnelScaleExp pStage)
               || hasOps (normalIntensityExp pStage)
               || hasOps (refractionIndexExp pStage) in
  let d6 := d5 || colorDynamic' || texMatricesDynamic' || texturesDynamic' in
  {| rgbGen := rgbGen pStage;
     alphaGen := alphaGen pStage;
     bundle := bundle pStage;
     ifExp := ifExp pStage;
     alphaExp := alphaExp pStage;
     alphaTestExp := alphaTestExp pStage;
     rgbExp := rgbExp pStage;
     redExp := redExp pStage;
     greenExp := greenExp pStage;
     blueExp := blueExp pStage;
     deformMagnitudeExp := deformMagnitudeExp pStage;
     depthScaleExp := depthScaleExp pStage;
     fogDensityExp := fogDensityExp pStage;
     fresnelBiasExp := fresnelBiasExp pStage;
     fresnelPowerExp := fresnelPowerExp pStage;
     fresnelScaleExp := fresnelScaleExp pStage;
     normalIntensityExp := normalIntensityExp pStage;
     refractionIndexExp := refractionIndexExp pStage;
     dynamic := d6;
     colorDynamic := colorDynamic';
     texMatricesDynamic := texMatricesDynamic';
     texturesDynamic := texturesDynamic' |}.

(** What the specification calls a time-varying texture-matrix modifier:
    judged on the modifier itself. *)
Definition timeVarying (tm : texModInfo_t) : bool :=
  match type tm with
  | TMOD_TURBULENT | TMOD_ENTITY_TRANSLATE | TMOD_SCROLL | TMOD_ROTATE => true
  | TMOD_STRETCH => negb (isGF_NONE (wave_func tm))
  | TMOD_SCROLL2 | TMOD_SCALE2 | TMOD_CENTERSCALE | TMOD_SHEAR =>
      hasOps (sExp tm) || hasOps (tExp tm)
  | TMOD_ROTATE2 => hasOps (rExp tm)
  | _ => false
  end.

(** The condition under which the specification wants a stage dynamic. *)
Definition mustBeDynamic (s : shaderStage_t) : bool :=
  rgbGenDynamic (rgbGen s) || alphaGenDynamic (alphaGen s)
  || existsb (fun b => existsb timeVarying (texMods b)) (bundle s)
  || existsb bundleSetsTextures (bundle s).

Definition noExp : expression_t := {| numOps := 0 |}.

Definition plainTexMod (t : texMod_t) (w : genFunc_t) : texModInfo_t :=
  {| type := t; wave_func := w; sExp := noExp; tExp := noExp; rExp := noExp |}.

Definition plainStage (bs : list textureBundle_t) : shaderStage_t :=
  {| rgbGen := CGEN_IDENTITY; alphaGen := AGEN_IDENTITY; bundle := bs;
     ifExp := noExp; alphaExp := noExp; alphaTestExp := noExp;
     rgbExp := noExp; redExp := noExp; greenExp := noExp; blueExp := noExp;
     deformMagnitudeExp := noExp; depthScaleExp := noExp;
     fogDensityExp := noExp; fresnelBiasExp := noExp;
     fresnelPowerExp := noExp; fresnelScaleExp := noExp;
     normalIntensityExp := noExp; refractionIndexExp := noExp;
     dynamic := false; colorDynamic := false;
     texMatricesDynamic := false; texturesDynamic := false |}.

(** A stage of the shader script
    [tcMod scale 2 2] followed by [tcMod stretch sin 1 0.5 0 1]. *)
Definition scaleThenStretch : shaderStage_t :=
  plainStage
    [ {| texMods := [ plainTexMod TMOD_SCALE GF_NONE;
                      plainTexMod TMOD_STRETCH GF_SIN ];
         isVideoMap := false; numImages := 1 |} ].

End Dynamics.

(** ** MaterialSystem::AddTexture *)

Module DrawCommands.

Record DrawCommand := {
  textures : Z -> Z;
  textureCount : Z
}.

Definition emptyCommand : DrawCommand :=
  {| textures := fun _ => 0; textureCount := 0 |}.

Section AddTexture.
Variable MAX_DRAWCOMMAND_TEXTURES : Z.

Definition AddTexture (cmd : DrawCommand) (texture : Z) : Outcome DrawCommand :=
  if MAX_DRAWCOMMAND_TEXTURES <=? textureCount cmd then
    Dropped "Exceeded max DrawCommand textures"
  else
    Returned {| textures := upd (textures cmd) (textureCount cmd) texture;
                textureCount := wrap32 (textureCount cmd + 1) |}.
End AddTexture.

End DrawCommands.

(** ** Material and MaterialPack *)

Module MaterialTypes.
Export DrawCommands.

(** The [shaderBinder] function pointers, compared by address. *)
Inductive Binder :=
| BindShaderNONE | BindShaderNOP | BindShaderGeneric3D | BindShaderLightMapping
| BindShaderReflection | BindShaderSkybox | BindShaderScreen
| BindShaderHeatHaze | BindShaderLiquid | BindShaderFog.

(** The shader objects a [ProcessMaterial*] function can install in
    [material->shader]. *)
Inductive GLShader :=
| gl_genericShaderMaterial | gl_lightMappingShaderMaterial
| gl_reflectionShaderMaterial | gl_skyboxShaderMaterial
| gl_screenShaderMaterial | gl_heatHazeShaderMaterial
| gl_liquidShaderMaterial | gl_fogQuake3ShaderMaterial.

(** The fields of [Material] that this file reads or writes itself. The
    permutation flags, [program], [deformIndex] and [fog], which only the
    [ProcessMaterial*] and [BindShader*] collaborators touch, are left out.
    [shader] is [None] until a [ProcessMaterial*] function sets it. *)
Record Material := {
  id : Z;
  useSync : bool;
  syncMaterial : Z;
  stateBits : Z;
  shaderBinder : Binder;
  cullType : Z;
  usePolygonOffset : bool;
  vbo : Z;
  ibo : Z;
  sort : Z;
  bspSurface : bool;
  shader : option GLShader;
  totalDrawSurfCount : Z;
  totalStaticDrawSurfCount : Z;
  totalDynamicDrawSurfCount : Z;
  currentStaticDrawSurfCount : Z;
  currentDynamicDrawSurfCount : Z;
  staticMaterialsSSBOOffset : Z;
  dynamicMaterialsSSBOOffset : Z;
  globalID : Z;
  surfaceCommandBatchOffset : Z;
  surfaceCommandBatchCount : Z;
  drawSurfs : list Z;
  drawCommands : list DrawCommand;
  texturesResident : bool;
  textures : list Z
}.

Definition set_id (v : Z) (m : Material) : Material :=
  {| id := v; useSync := useSync m; syncMaterial := syncMaterial m;
     stateBits := stateBits m; shaderBinder := shaderBinder m; cullType := cullType m;
     usePolygonOffset := usePolygonOffset m; vbo := vbo m; ibo := ibo m;
     sort := sort m; bspSurface := bspSurface m; shader := shader m;
     totalDrawSurfCount := totalDrawSurfCount m;
     totalStaticDrawSurfCount := totalStaticDrawSurfCount m;
     totalDynamicDrawSurfCount := totalDynamicDrawSurfCount m;
     currentStaticDrawSurfCount := currentStaticDrawSurfCount m;
     currentDynamicDrawSurfCount := currentDynamicDrawSurfCount m;
     staticMaterialsSSBOOffset := staticMaterialsSSBOOffset m;
     dynamicMaterialsSSBOOffset := dynamicMaterialsSSBOOffset m;
     globalID := globalID m; surfaceCommandBatchOffset := surfaceCommandBatchOffset m;
     surfaceCommandBatchCount := surfaceCommandBatchCount m; drawSurfs := drawSurfs m;
     drawCommands := drawCommands m; texturesResident := texturesResident m;
     textures := textures m |}.

Definition set_shader (v : option GLShader) (m : Material) : Material :=
  {| id := id m; useSync := useSync m; syncMaterial := syncMaterial m;
     stateBits := stateBits m; shaderBinder := shaderBinder m; cullType := cullType m;
     usePolygonOffset := usePolygonOffset m; vbo := vbo m; ibo := ibo m;
     sort := sort m; bspSurface := bspSurface m; shader := v;
     totalDrawSurfCount := totalDrawSurfCount m;
     totalStaticDrawSurfCount := totalStaticDrawSurfCount m;
     totalDynamicDrawSurfCount := totalDynamicDrawSurfCount m;
     currentStaticDrawSurfCount := currentStaticDrawSurfCount m;
     currentDynamicDrawSurfCount := currentDynamicDrawSurfCount m;
     staticMaterialsSSBOOffset := staticMaterialsSSBOOffset m;
     dynamicMaterialsSSBOOffset := dynamicMaterialsSSBOOffset m;
     globalID := globalID m; surfaceCommandBatchOffset := surfaceCommandBatchOffset m;
     surfaceCommandBatchCount := surfaceCommandBatchCount m; drawSurfs := drawSurfs m;
     drawCommands := drawCommands m; texturesResident := texturesResident m;
     textures := textures m |}.

Definition set_totalDrawSurfCount (v : Z) (m : Material) : Material :=
  {| id := id m; useSync := useSync m; syncMaterial := syncMaterial m;
     stateBits := stateBits m; shaderBinder := shaderBinder m; cullType := cullType m;
     usePolygonOffset := usePolygonOffset m; vbo := vbo m; ibo := ibo m;
     sort := sort m; bspSurface := bspSurface m; shader := shader m;
     totalDrawSurfCount := v; totalStaticDrawSurfCount := totalStaticDrawSurfCount m;
     totalDynamicDrawSurfCount := totalDynamicDrawSurfCount m;
     currentStaticDrawSurfCount := currentStaticDrawSurfCount m;
     currentDynamicDrawSurfCount := currentDynamicDrawSurfCount m;
     staticMaterialsSSBOOffset := staticMaterialsSSBOOffset m;
     dynamicMaterialsSSBOOffset := dynamicMaterialsSSBOOffset m;
     globalID := globalID m; surfaceCommandBatchOffset := surfaceCommandBatchOffset m;
     surfaceCommandBatchCount := surfaceCommandBatchCount m; drawSurfs := drawSurfs m;
     drawCommands := drawCommands m; texturesResident := texturesResident m;
     textures := textures m |}.

Definition set_totalStaticDrawSurfCount (v : Z) (m : Material) : Material :=
  {| id := id m; useSync := useSync m; syncMaterial := syncMaterial m;
     stateBits := stateBits m; shaderBinder := shaderBinder m; cullType := cullType m;
     usePolygonOffset := usePolygonOffset m; vbo := vbo m; ibo := ibo m;
     sort := sort m; bspSurface := bspSurface m; shader := shader m;
     totalDrawSurfCount := totalDrawSurfCount m; totalStaticDrawSurfCount := v;
     totalDynamicDrawSurfCount := totalDynamicDrawSurfCount m;
     currentStaticDrawSurfCount := currentStaticDrawSurfCount m;
     currentDynamicDrawSurfCount := currentDynamicDrawSurfCount m;
     staticMaterialsSSBOOffset := staticMaterialsSSBOOffset m;
     dynamicMaterialsSSBOOffset := dynamicMaterialsSSBOOffset m;
     globalID := globalID m; surfaceCommandBatchOffset := surfaceCommandBatchOffset m;
     surfaceCommandBatchCount := surfaceCommandBatchCount m; drawSurfs := drawSurfs m;
     drawCommands := drawCommands m; texturesResident := texturesResident m;
     textures := textures m |}.

Definition set_totalDynamicDrawSurfCount (v : Z) (m : Material) : Material :=
  {| id := id m; useSync := useSync m; syncMaterial := syncMaterial m;
     stateBits := stateBits m; shaderBinder := shaderBinder m; cullType := cullType m;
     usePolygonOffset := usePolygonOffset m; vbo := vbo m; ibo := ibo m;
     sort := sort m; bspSurface := bspSurface m; shader := shader m;
     totalDrawSurfCount := totalDrawSurfCount m;
     totalStaticDrawSurfCount := totalStaticDrawSurfCount m;
     totalDynamicDrawSurfCount := v;
     currentStaticDrawSurfCount := currentStaticDrawSurfCount m;
     currentDynamicDrawSurfCount := currentDynamicDrawSurfCount m;
     staticMaterialsSSBOOffset := staticMaterialsSSBOOffset m;
     dynamicMaterialsSSBOOffset := dynamicMaterialsSSBOOffset m;
     globalID := globalID m; surfaceCommandBatchOffset := surfaceCommandBatchOffset m;
     surfaceCommandBatchCount := surfaceCommandBatchCount m; drawSurfs := drawSurfs m;
     drawCommands := drawCommands m; texturesResident := texturesResident m;
     textures := textures m |}.

Definition set_currentStaticDrawSurfCount (v : Z) (m : Material) : Material :=
  {| id := id m; useSync := useSync m; syncMaterial := syncMaterial m;
     stateBits := stateBits m; shaderBinder := shaderBinder m; cullType := cullType m;
     usePolygonOffset := usePolygonOffset m; vbo := vbo m; ibo := ibo m;
     sort := sort m; bspSurface := bspSurface m; shader := shader m;
     totalDrawSurfCount := totalDrawSurfCount m;
     totalStaticDrawSurfCount := totalStaticDrawSurfCount m;
     totalDynamicDrawSurfCount := totalDynamicDrawSurfCount m;
     currentStaticDrawSurfCount := v;
     currentDynamicDrawSurfCount := currentDynamicDrawSurfCount m;
     staticMaterialsSSBOOffset := staticMaterialsSSBOOffset m;
     dynamicMaterialsSSBOOffset := dynamicMaterialsSSBOOffset m;
     globalID := globalID m; surfaceCommandBatchOffset := surfaceCommandBatchOffset m;
     surfaceCommandBatchCount := surfaceCommandBatchCount m; drawSurfs := drawSurfs m;
     drawCommands := drawCommands m; texturesResident := texturesResident m;
     textures := textures m |}.

Definition set_currentDynamicDrawSurfCount (v : Z) (m : Material) : Material :=
  {| id := id m; useSync := useSync m; syncMaterial := syncMaterial m;
     stateBits := stateBits m; shaderBinder := shaderBinder m; cullType := cullType m;
     usePolygonOffset := usePolygonOffset m; vbo := vbo m; ibo := ibo m;
     sort := sort m; bspSurface := bspSurface m; shader := shader m;
     totalDrawSurfCount := totalDrawSurfCount m;
     totalStaticDrawSurfCount := totalStaticDrawSurfCount m;
     totalDynamicDrawSurfCount := totalDynamicDrawSurfCount m;
     currentStaticDrawSurfCount := currentStaticDrawSurfCount m;
     currentDynamicDrawSurfCount := v;
     staticMaterialsSSBOOffset := staticMaterialsSSBOOffset m;
     dynamicMaterialsSSBOOffset := dynamicMaterialsSSBOOffset m;
     globalID := globalID m; surfaceCommandBatchOffset := surfaceCommandBatchOffset m;
     surfaceCommandBatchCount := surfaceCommandBatchCount m; drawSurfs := drawSurfs m;
     drawCommands := drawCommands m; texturesResident := texturesResident m;
     textures := textures m |}.

Definition set_staticMaterialsSSBOOffset (v : Z) (m : Material) : Material :=
  {| id := id m; useSync := useSync m; syncMaterial := syncMaterial m;
     stateBits := stateBits m; shaderBinder := shaderBinder m; cullType := cullType m;
     usePolygonOffset := usePolygonOffset m; vbo := vbo m; ibo := ibo m;
     sort := sort m; bspSurface := bspSurface m; shader := shader m;
     totalDrawSurfCount := totalDrawSurfCount m;
     totalStaticDrawSurfCount := totalStaticDrawSurfCount m;
     totalDynamicDrawSurfCount := totalDynamicDrawSurfCount m;
     currentStaticDrawSurfCount := currentStaticDrawSurfCount m;
     currentDynamicDrawSurfCount := currentDynamicDrawSurfCount m;
     staticMaterialsSSBOOffset := v;
     dynamicMaterialsSSBOOffset := dynamicMaterialsSSBOOffset m;
     globalID := globalID m; surfaceCommandBatchOffset := surfaceCommandBatchOffset m;
     surfaceCommandBatchCount := surfaceCommandBatchCount m; drawSurfs := drawSurfs m;
     drawCommands := drawCommands m; texturesResident := texturesResident m;
     textures := textures m |}.

Definition set_dynamicMaterialsSSBOOffset (v : Z) (m : Material) : Material :=
  {| id := id m; useSync := useSync m; syncMaterial := syncMaterial m;
     stateBits := stateBits m; shaderBinder := shaderBinder m; cullType := cullType m;
     usePolygonOffset := usePolygonOffset m; vbo := vbo m; ibo := ibo m;
     sort := sort m; bspSurface := bspSurface m; shader := shader m;
     totalDrawSurfCount := totalDrawSurfCount m;
     totalStaticDrawSurfCount := totalStaticDrawSurfCount m;
     totalDynamicDrawSurfCount := totalDynamicDrawSurfCount m;
     currentStaticDrawSurfCount := currentStaticDrawSurfCount m;
     currentDynamicDrawSurfCount := currentDynamicDrawSurfCount m;
     staticMaterialsSSBOOffset := staticMaterialsSSBOOffset m;
     dynamicMaterialsSSBOOffset := v; globalID := globalID m;
     surfaceCommandBatchOffset := surfaceCommandBatchOffset m;
     surfaceCommandBatchCount := surfaceCommandBatchCount m; drawSurfs := drawSurfs m;
     drawCommands := drawCommands m; texturesResident := texturesResident m;
     textures := textures m |}.

Definition set_globalID (v : Z) (m : Material) : Material :=
  {| id := id m; useSync := useSync m; syncMaterial := syncMaterial m;
     stateBits := stateBits m; shaderBinder := shaderBinder m; cullType := cullType m;
     usePolygonOffset := usePolygonOffset m; vbo := vbo m; ibo := ibo m;
     sort := sort m; bspSurface := bspSurface m; shader := shader m;
     totalDrawSurfCount := totalDrawSurfCount m;
     totalStaticDrawSurfCount := totalStaticDrawSurfCount m;
     totalDynamicDrawSurfCount := totalDynamicDrawSurfCount m;
     currentStaticDrawSurfCount := currentStaticDrawSurfCount m;
     currentDynamicDrawSurfCount := currentDynamicDrawSurfCount m;
     staticMaterialsSSBOOffset := staticMaterialsSSBOOffset m;
     dynamicMaterialsSSBOOffset := dynamicMaterialsSSBOOffset m; globalID := v;
     surfaceCommandBatchOffset := surfaceCommandBatchOffset m;
     surfaceCommandBatchCount := surfaceCommandBatchCount m; drawSurfs := drawSurfs m;
     drawCommands := drawCommands m; texturesResident := texturesResident m;
     textures := textures m |}.

Definition set_surfaceCommandBatchOffset (v : Z) (m : Material) : Material :=
  {| id := id m; useSync := useSync m; syncMaterial := syncMaterial m;
     stateBits := stateBits m; shaderBinder := shaderBinder m; cullType := cullType m;
     usePolygonOffset := usePolygonOffset m; vbo := vbo m; ibo := ibo m;
     sort := sort m; bspSurface := bspSurface m; shader := shader m;
     totalDrawSurfCount := totalDrawSurfCount m;
     totalStaticDrawSurfCount := totalStaticDrawSurfCount m;
     totalDynamicDrawSurfCount := totalDynamicDrawSurfCount m;
     currentStaticDrawSurfCount := currentStaticDrawSurfCount m;
     currentDynamicDrawSurfCount := currentDynamicDrawSurfCount m;
     staticMaterialsSSBOOffset := staticMaterialsSSBOOffset m;
     dynamicMaterialsSSBOOffset := dynamicMaterialsSSBOOffset m;
     globalID := globalID m; surfaceCommandBatchOffset := v;
     surfaceCommandBatchCount := surfaceCommandBatchCount m; drawSurfs := drawSurfs m;
     drawCommands := drawCommands m; texturesResident := texturesResident m;
     textures := textures m |}.

Definition set_surfaceCommandBatchCount (v : Z) (m : Material) : Material :=
  {| id := id m; useSync := useSync m; syncMaterial := syncMaterial m;
     stateBits := stateBits m; shaderBinder := shaderBinder m; cullType := cullType m;
     usePolygonOffset := usePolygonOffset m; vbo := vbo m; ibo := ibo m;
     sort := sort m; bspSurface := bspSurface m; shader := shader m;
     totalDrawSurfCount := totalDrawSurfCount m;
     totalStaticDrawSurfCount := totalStaticDrawSurfCount m;
     totalDynamicDrawSurfCount := totalDynamicDrawSurfCount m;
     currentStaticDrawSurfCount := currentStaticDrawSurfCount m;
     currentDynamicDrawSurfCount := currentDynamicDrawSurfCount m;
     staticMaterialsSSBOOffset := staticMaterialsSSBOOffset m;
     dynamicMaterialsSSBOOffset := dynamicMaterialsSSBOOffset m;
     globalID := globalID m; surfaceCommandBatchOffset := surfaceCommandBatchOffset m;
     surfaceCommandBatchCount := v; drawSurfs := drawSurfs m;
     drawCommands := drawCommands m; texturesResident := texturesResident m;
     textures := textures m |}.

Definition set_drawSurfs (v : list Z) (m : Material) : Material :=
  {| id := id m; useSync := useSync m; syncMaterial := syncMaterial m;
     stateBits := stateBits m; shaderBinder := shaderBinder m; cullType := cullType m;
     usePolygonOffset := usePolygonOffset m; vbo := vbo m; ibo := ibo m;
     sort := sort m; bspSurface := bspSurface m; shader := shader m;
     totalDrawSurfCount := totalDrawSurfCount m;
     totalStaticDrawSurfCount := totalStaticDrawSurfCount m;
     totalDynamicDrawSurfCount := totalDynamicDrawSurfCount m;
     currentStaticDrawSurfCount := currentStaticDrawSurfCount m;
     currentDynamicDrawSurfCount := currentDynamicDrawSurfCount m;
     staticMaterialsSSBOOffset := staticMaterialsSSBOOffset m;
     dynamicMaterialsSSBOOffset := dynamicMaterialsSSBOOffset m;
     globalID := globalID m; surfaceCommandBatchOffset := surfaceCommandBatchOffset m;
     surfaceCommandBatchCount := surfaceCommandBatchCount m; drawSurfs := v;
     drawCommands := drawCommands m; texturesResident := texturesResident m;
     textures := textures m |}.

Definition set_texturesResident (v : bool) (m : Material) : Material :=
  {| id := id m; useSync := useSync m; syncMaterial := syncMaterial m;
     stateBits := stateBits m; shaderBinder := shaderBinder m; cullType := cullType m;
     usePolygonOffset := usePolygonOffset m; vbo := vbo m; ibo := ibo m;
     sort := sort m; bspSurface := bspSurface m; shader := shader m;
     totalDrawSurfCount := totalDrawSurfCount m;
     totalStaticDrawSurfCount := totalStaticDrawSurfCount m;
     totalDynamicDrawSurfCount := totalDynamicDrawSurfCount m;
     currentStaticDrawSurfCount := currentStaticDrawSurfCount m;
     currentDynamicDrawSurfCount := currentDynamicDrawSurfCount m;
     staticMaterialsSSBOOffset := staticMaterialsSSBOOffset m;
     dynamicMaterialsSSBOOffset := dynamicMaterialsSSBOOffset m;
     globalID := globalID m; surfaceCommandBatchOffset := surfaceCommandBatchOffset m;
     surfaceCommandBatchCount := surfaceCommandBatchCount m; drawSurfs := drawSurfs m;
     drawCommands := drawCommands m; texturesResident := v; textures := textures m |}.

(** [Material material;] with the default member initialisers. *)
Definition newMaterial : Material :=
  {| id := 0; useSync := false; syncMaterial := 0; stateBits := 0;
     shaderBinder := BindShaderNONE; cullType := 0; usePolygonOffset := false;
     vbo := 0; ibo := 0; sort := 0; bspSurface := false; shader := None;
     totalDrawSurfCount := 0; totalStaticDrawSurfCount := 0;
     totalDynamicDrawSurfCount := 0; currentStaticDrawSurfCount := 0;
     currentDynamicDrawSurfCount := 0; staticMaterialsSSBOOffset := 0;
     dynamicMaterialsSSBOOffset := 0; globalID := 0;
     surfaceCommandBatchOffset := 0; surfaceCommandBatchCount := 0;
     drawSurfs := []; drawCommands := []; texturesResident := false;
     textures := [] |}.

Record MaterialPack := {
  fromSort : Z;
  toSort : Z;
  materials : list Material
}.

Definition set_materials (ms : list Material) (pack : MaterialPack) : MaterialPack :=
  {| fromSort := fromSort pack; toSort := toSort pack; materials := ms |}.

(** All Materials, packs in order and each pack's Materials in order: the
    order of every [for pack : materialPacks) for (material : pack.materials)]. *)
Definition allMaterials (packs : list MaterialPack) : list Material :=
  concat (map materials packs).

(** [for ( MaterialPack& pack : materialPacks ) for ( Material& material :
    pack.materials ) body], with the loop-carried variables in [s]. *)
Fixpoint forMaterials {S : Type} (body : S -> Material -> S * Material)
    (s : S) (ms : list Material) : S * list Material :=
  match ms with
  | [] => (s, [])
  | m :: rest =>
      let '(s1, m') := body s m in
      let '(s2, rest') := forMaterials body s1 rest in
      (s2, m' :: rest')
  end.

Fixpoint forPacks {S : Type} (body : S -> Material -> S * Material)
    (s : S) (packs : list MaterialPack) : S * list MaterialPack :=
  match packs with
  | [] => (s, [])
  | pack :: rest =>
      let '(s1, ms') := forMaterials body s (materials pack) in
      let '(s2, rest') := forPacks body s1 rest in
      (s2, set_materials ms' pack :: rest')
  end.

Definition sumZ (l : list Z) : Z := fold_right Z.add 0 l.

End MaterialTypes.

(** ** MaterialSystem::GenerateWorldMaterialsBuffer: the layout passes *)

Module Layout.
Export MaterialTypes.

Section WithPaddedSize.
(** [GLShader::GetPaddedSize()], defined with the shader classes. *)
Variable GetPaddedSize : GLShader -> Z.

(** [material.shader->GetPaddedSize()]; the call through a pointer that
    was never set has no defined value and is 0 here. *)
Definition paddedSizeOf (m : Material) : Z :=
  match shader m with
  | Some s => GetPaddedSize s
  | None => 0
  end.

Definition padding (offset paddedSize : Z) : Z :=
  if offset mod paddedSize =? 0 then 0
  else wrap32 (paddedSize - offset mod paddedSize).

(** Body of the loop "Compute data size for static surfaces". *)
Definition staticStep (offset : Z) (material : Material) : Z * Material :=
  let paddedSize := paddedSizeOf material in
  let offset1 := wrap32 (offset + padding offset paddedSize) in
  (wrap32 (offset1 + wrap32 (paddedSize * totalStaticDrawSurfCount material)),
   set_staticMaterialsSSBOOffset offset1 material).

Record DynamicPass := {
  offset : Z;
  dynamicDrawSurfOffsetSet : bool;
  dynamicDrawSurfsOffset : Z
}.

(** Body of the loop "Compute data size for dynamic surfaces". *)
Definition dynamicStep (s : DynamicPass) (material : Material)
  : DynamicPass * Material :=
  let paddedSize := paddedSizeOf material in
  let offset1 := wrap32 (offset s + padding (offset s) paddedSize) in
  let dynOffset :=
    if dynamicDrawSurfOffsetSet s then dynamicDrawSurfsOffset s else offset1 in
  ({| offset := wrap32 (offset1 + wrap32 (paddedSize * totalDynamicDrawSurfCount material));
      dynamicDrawSurfOffsetSet := true;
      dynamicDrawSurfsOffset := dynOffset |},
   set_dynamicMaterialsSSBOOffset offset1 material).

Record MaterialsBuffer := {
  materialPacks : list MaterialPack;
  bufferDynamicDrawSurfsOffset : Z;
  dynamicDrawSurfsSize : Z;
  bufferSize : Z
}.

(** The two layout passes of [GenerateWorldMaterialsBuffer], up to the
    allocation of the buffer. [oldDynamicDrawSurfsOffset] is the value the
    member [dynamicDrawSurfsOffset] has on entry. *)
Definition GenerateWorldMaterialsBuffer
    (packs : list MaterialPack) (oldDynamicDrawSurfsOffset : Z) : MaterialsBuffer :=
  let '(offset1, packs1) := forPacks staticStep 0 packs in
  let '(s2, packs2) :=
    forPacks dynamicStep
      {| offset := offset1; dynamicDrawSurfOffsetSet := false;
         dynamicDrawSurfsOffset := oldDynamicDrawSurfsOffset |} packs1 in
  {| materialPacks := packs2;
     bufferDynamicDrawSurfsOffset := dynamicDrawSurfsOffset s2;
     dynamicDrawSurfsSize := wrap32 (offset s2 - dynamicDrawSurfsOffset s2);
     bufferSize := offset s2 |}.

(** The slot a stage gets in the third loop of
    [GenerateWorldMaterialsBuffer]: the value first stored in
    [drawSurf->materialsSSBOOffset[stage]], in units of the padded size,
    from the region base and the current instance count of the Material. *)
Definition stageSlot (material : Material) (dynamic : bool) : Z :=
  let SSBOOffset :=
    if dynamic then dynamicMaterialsSSBOOffset material
    else staticMaterialsSSBOOffset material in
  let drawSurfCount :=
    if dynamic then currentDynamicDrawSurfCount material
    else currentStaticDrawSurfCount material in
  wrap32 (SSBOOffset + wrap32 (drawSurfCount * paddedSizeOf material))
    / paddedSizeOf material.

(** The count the same loop increments after taking the slot. *)
Definition takeSlot (material : Material) (dynamic : bool) : Material :=
  if dynamic then
    set_currentDynamicDrawSurfCount
      (wrap32 (currentDynamicDrawSurfCount material + 1)) material
  else
    set_currentStaticDrawSurfCount
      (wrap32 (currentStaticDrawSurfCount material + 1)) material.

(** The value the same loop stores last in
    [drawSurf->materialsSSBOOffset[stage]] for a dynamic stage: the slot
    counted from [dynamicDrawSurfsOffset], for the instance count
    [drawSurfCount] the stage was given. *)
Definition dynamicStageSlot (dynamicDrawSurfsOffset : Z) (material : Material)
    (drawSurfCount : Z) : Z :=
  wrap32 (wrap32 (dynamicMaterialsSSBOOffset material - dynamicDrawSurfsOffset)
          + wrap32 (drawSurfCount * paddedSizeOf material))
    / paddedSizeOf material.

(** First word the data updater writes for a stage holding [slot]:
    [materials += slot * GetPaddedSize()]. *)
Definition slotAddress (material : Material) (slot : Z) : Z :=
  wrap32 (slot * paddedSizeOf material).

(** Sum of [paddedStride * totalDynamicDrawSurfCount] over Materials. *)
Definition dynamicPayload (ms : list Material) : Z :=
  sumZ (map (fun m => paddedSizeOf m * totalDynamicDrawSurfCount m) ms).

(** Alignment padding the dynamic pass inserts before each Material after
    the first: [padding] at the end of the previous Material's dynamic
    region, for the stride of the next one. *)
Fixpoint dynamicGaps (ms : list Material) : Z :=
  match ms with
  | m :: rest =>
      match rest with
      | n :: _ =>
          padding (dynamicMaterialsSSBOOffset m
                   + paddedSizeOf m * totalDynamicDrawSurfCount m)
                  (paddedSizeOf n)
          + dynamicGaps rest
      | [] => 0
      end
  | [] => 0
  end.

(** Words the two passes can consume at most: per Material and pass, the
    padding (below one stride) and the instances. *)
Definition layoutDemand (ms : list Material) : Z :=
  sumZ (map (fun m => paddedSizeOf m
                      * (2 + totalStaticDrawSurfCount m
                           + totalDynamicDrawSurfCount m)) ms).

Definition staticDemand (ms : list Material) : Z :=
  sumZ (map (fun m => paddedSizeOf m * (1 + totalStaticDrawSurfCount m)) ms).

Definition dynamicDemand (ms : list Material) : Z :=
  sumZ (map (fun m => paddedSizeOf m * (1 + totalDynamicDrawSurfCount m)) ms).

(** What the static pass leaves in a Material. *)
Definition staticPlaced (lo hi : Z) (m m' : Material) : Prop :=
  m' = set_staticMaterialsSSBOOffset (staticMaterialsSSBOOffset m') m /\
  lo <= staticMaterialsSSBOOffset m' /\
  staticMaterialsSSBOOffset m' mod paddedSizeOf m = 0 /\
  staticMaterialsSSBOOffset m' + paddedSizeOf m * totalStaticDrawSurfCount m <= hi.

(** What the dynamic pass leaves in a Material. *)
Definition dynamicPlaced (lo hi : Z) (m m' : Material) : Prop :=
  m' = set_dynamicMaterialsSSBOOffset (dynamicMaterialsSSBOOffset m') m /\
  lo <= dynamicMaterialsSSBOOffset m' /\
  dynamicMaterialsSSBOOffset m' mod paddedSizeOf m = 0 /\
  dynamicMaterialsSSBOOffset m' + paddedSizeOf m * totalDynamicDrawSurfCount m <= hi.

Definition wfMaterial (m : Material) : Prop :=
  0 < paddedSizeOf m /\
  0 <= totalStaticDrawSurfCount m /\
  0 <= totalDynamicDrawSurfCount m.

(** The word range a static stage writes when the Material's current
    static count is [c]: it starts at [slotAddress] of the slot taken. *)
Definition staticSlotAddress (m : Material) (c : Z) : Z :=
  slotAddress m (stageSlot (set_currentStaticDrawSurfCount c m) false).
End WithPaddedSize.

(** Sample inputs. *)
Definition sampleStride (s : GLShader) : Z :=
  match s with
  | gl_genericShaderMaterial => 8
  | gl_lightMappingShaderMaterial => 12
  | _ => 4
  end.

Definition sampleMaterial (s : GLShader) (nStatic nDynamic : Z) : Material :=
  set_totalDynamicDrawSurfCount nDynamic
    (set_totalStaticDrawSurfCount nStatic
       (set_totalDrawSurfCount (nStatic + nDynamic)
          (set_shader (Some s) newMaterial))).

Definition samplePack (ms : list Material) : MaterialPack :=
  {| fromSort := 0; toSort := 0; materials := ms |}.

(** Three packs; strides 8, 12 and 4 occur. *)
Definition samplePacks : list MaterialPack :=
  [ samplePack [ sampleMaterial gl_genericShaderMaterial 3 0 ];
    samplePack [ sampleMaterial gl_lightMappingShaderMaterial 2 1;
                 sampleMaterial gl_genericShaderMaterial 1 2 ];
    samplePack [ sampleMaterial gl_liquidShaderMaterial 0 1 ] ].

(** Two Materials with one dynamic instance each, strides 8 and 12. *)
Definition twoStridePacks : list MaterialPack :=
  [ samplePack [];
    samplePack [ sampleMaterial gl_genericShaderMaterial 0 1;
                 sampleMaterial gl_lightMappingShaderMaterial 0 1 ];
    samplePack [] ].

End Layout.

(** ** MaterialSystem::GenerateWorldCommandBuffer: batch numbering *)

Module Batches.
Export MaterialTypes.

Section WithBatchSize.
Variable SURFACE_COMMANDS_PER_BATCH : Z.

Record BatchPass := {
  batchOffset : Z;
  nextGlobalID : Z;
  totalBatchCount : Z
}.

Definition batchCountOf (cmdCount : Z) : Z :=
  if cmdCount mod SURFACE_COMMANDS_PER_BATCH =? 0
  then cmdCount / SURFACE_COMMANDS_PER_BATCH
  else wrap32 (cmdCount / SURFACE_COMMANDS_PER_BATCH + 1).

(** Body of the first loop of [GenerateWorldCommandBuffer]. *)
Definition batchStep (s : BatchPass) (material : Material)
  : BatchPass * Material :=
  let cmdCount := wrap32 (Z.of_nat (length (drawCommands material))) in
  let batchCount := batchCountOf cmdCount in
  ({| batchOffset := wrap32 (batchOffset s + batchCount);
      nextGlobalID := wrap32 (nextGlobalID s + 1);
      totalBatchCount := wrap32 (totalBatchCount s + batchCount) |},
   set_globalID (nextGlobalID s)
     (set_surfaceCommandBatchCount batchCount
        (set_surfaceCommandBatchOffset (batchOffset s) material))).

(** The first loop of [GenerateWorldCommandBuffer]: the Materials with
    their batch offsets and counts, and the member [totalBatchCount]. *)
Definition GenerateWorldCommandBuffer (packs : list MaterialPack)
  : list MaterialPack * Z :=
  let '(s, packs') :=
    forPacks batchStep
      {| batchOffset := 0; nextGlobalID := 0; totalBatchCount := 0 |} packs in
  (packs', totalBatchCount s).

(** ceil(n / SURFACE_COMMANDS_PER_BATCH) on non-negative integers. *)
Definition ceilDiv (n : Z) : Z :=
  (n + SURFACE_COMMANDS_PER_BATCH - 1) / SURFACE_COMMANDS_PER_BATCH.

Definition commandCount (m : Material) : Z :=
  Z.of_nat (length (drawCommands m)).

Definition batchCounts (ms : list Material) : list Z :=
  map surfaceCommandBatchCount ms.

(** Batches the commands of a list of Materials need. *)
Definition batchDemand (ms : list Material) : Z :=
  sumZ (map (fun m => ceilDiv (commandCount m)) ms).

(** What the pass leaves in a Material. *)
Definition batched (m m' : Material) : Prop :=
  drawCommands m' = drawCommands m /\
  surfaceCommandBatchCount m' = ceilDiv (commandCount m).
End WithBatchSize.

(** Sample input: Materials with 0, 1, 64, 65 and 130 draw commands. *)
Definition sampleCommand : DrawCommand := emptyCommand.

Definition withCommands (n : nat) : Material :=
  {| id := 0; useSync := false; syncMaterial := 0; stateBits := 0;
     shaderBinder := BindShaderNONE; cullType := 0; usePolygonOffset := false;
     vbo := 0; ibo := 0; sort := 0; bspSurface := false; shader := None;
     totalDrawSurfCount := 0; totalStaticDrawSurfCount := 0;
     totalDynamicDrawSurfCount := 0; currentStaticDrawSurfCount := 0;
     currentDynamicDrawSurfCount := 0; staticMaterialsSSBOOffset := 0;
     dynamicMaterialsSSBOOffset := 0; globalID := 0;
     surfaceCommandBatchOffset := 0; surfaceCommandBatchCount := 0;
     drawSurfs := []; drawCommands := replicate n sampleCommand;
     texturesResident := false; textures := [] |}.

Definition samplePacks : list MaterialPack :=
  [ {| fromSort := 0; toSort := 0; materials := [ withCommands 1; withCommands 0 ] |};
    {| fromSort := 0; toSort := 0; materials := [ withCommands 64; withCommands 65 ] |};
    {| fromSort := 0; toSort := 0; materials := [ withCommands 130 ] |} ].

End Batches.

(** ** MaterialSystem::AddPortalSurface and AddPortalSurfaces *)

Module Portals.

(** A record of the portal read-back buffer. [distance] is a [float] in
    the source; it is only compared with [<] and with the sentinel [-1],
    so an integer stands for it. *)
Record PortalSurface := {
  drawSurfID : Z;
  distance : Z
}.

(** [frames[f].viewFrames[v]]: the fields the resolver uses. *)
Module ViewFrame.
Record t := {
  viewCount : Z;
  portalSurfaceID : Z;
  portalViews : Z -> Z
}.

Definition set_viewCount (v : Z) (f : t) : t :=
  {| viewCount := v; portalSurfaceID := portalSurfaceID f;
     portalViews := portalViews f |}.

Definition set_portalSurfaceID (v : Z) (f : t) : t :=
  {| viewCount := viewCount f; portalSurfaceID := v;
     portalViews := portalViews f |}.

Definition set_portalViews (v : Z -> Z) (f : t) : t :=
  {| viewCount := viewCount f; portalSurfaceID := portalSurfaceID f;
     portalViews := v |}.
End ViewFrame.

(** An entry of [portalStack]. [drawSurf] points into [portalSurfaces] and
    is the index of the element there; [-1] is the null pointer. *)
Record PortalView := {
  count : Z;
  views : Z -> Z;
  drawSurf : Z
}.

Definition set_count (v : Z) (p : PortalView) : PortalView :=
  {| count := v; views := views p; drawSurf := drawSurf p |}.

(** [count++] on a stack entry. *)
Definition incr_count (p : PortalView) : PortalView :=
  set_count (wrap32 (count p + 1)) p.

Definition set_views (v : Z -> Z) (p : PortalView) : PortalView :=
  {| count := count p; views := v; drawSurf := drawSurf p |}.

Definition set_drawSurf (v : Z) (p : PortalView) : PortalView :=
  {| count := count p; views := views p; drawSurf := v |}.

(** What [AddPortalSurface] writes: the member [viewCount], the view
    frames of [frames[nextFrame]] and [portalStack]. [assigned] is not in
    the source: it lists, latest first, every view id the resolver has
    stored into a [portalViews] slot since [AddPortalSurfaces] began. *)
Record State := {
  viewCount : Z;
  nextViewFrames : Z -> ViewFrame.t;
  portalStack : Z -> PortalView;
  assigned : list Z
}.

(** [std::sort] with the comparator [lhs.distance < rhs.distance], as an
    insertion sort. [std::sort] leaves the order of portals of equal
    distance open; here it is the order of arrival ([x], which comes
    before the portals of [l], is put before the first of them that is
    not nearer), and no statement about the resolver below rests on it:
    where the order of the portals matters, their distances are assumed
    to differ. *)
Fixpoint insertByDistance (x : PortalSurface) (l : list PortalSurface)
  : list PortalSurface :=
  match l with
  | [] => [x]
  | y :: rest =>
      if distance x <=? distance y then x :: l
      else y :: insertByDistance x rest
  end.

Definition sortByDistance (l : list PortalSurface) : list PortalSurface :=
  fold_right insertByDistance [] l.

Section Resolver.
Variable MAX_VIEWS : Z.
(** [frames[currentFrame].viewFrames], the topology of the previous
    frame; [currentFrame] and [nextFrame] differ, so the resolver only
    reads it. *)
Variable currentViewFrames : Z -> ViewFrame.t.
(** The read-back slice [portalSurfs + viewID * totalPortals] of
    [totalPortals] records. *)
Variable portalSurfs : Z -> list PortalSurface.
(** [0 != PortalOffScreenOrOutOfRange( &portalSurfaces[id], surfRect )]. *)
Variable PortalOffScreenOrOutOfRange : Z -> bool.

(** The loop over [j]: the first sub-view of [viewID] in the previous
    frame that is not 0 and shows the portal [drawSurfID]. *)
Definition findSubView (viewID drawSurfID : Z) : option Z :=
  let frame := currentViewFrames viewID in
  find (fun subView =>
          negb (subView =? 0)
          && (drawSurfID
              =? ViewFrame.portalSurfaceID (currentViewFrames subView)))
       (map (fun j => ViewFrame.portalViews frame (Z.of_nat j))
            (seq 0 (Z.to_nat (ViewFrame.viewCount frame)))).

(** The statements between the two [continue]/[return] tests of the loop
    body: the portal gets the view id [portalViewID]. *)
Definition assignView (viewID portalViewID drawSurfID count : Z) (st : State)
  : State :=
  let frames1 :=
    upd (nextViewFrames st) portalViewID
        (ViewFrame.set_portalSurfaceID drawSurfID
           (nextViewFrames st portalViewID)) in
  let frames2 :=
    upd frames1 viewID
        (ViewFrame.set_viewCount
           (wrap32 (ViewFrame.viewCount (frames1 viewID) + 1))
           (frames1 viewID)) in
  let stack1 :=
    upd (portalStack st) viewID
        (set_views (upd (views (portalStack st viewID)) count portalViewID)
           (portalStack st viewID)) in
  let stack2 :=
    upd stack1 portalViewID (set_drawSurf drawSurfID (stack1 portalViewID)) in
  let stack3 :=
    upd stack2 viewID (incr_count (stack2 viewID)) in
  {| viewCount := wrap32 (viewCount st + 1);
     nextViewFrames := frames2;
     portalStack := stack3;
     assigned := portalViewID :: assigned st |}.

(** The loop over the sorted portals; [rec] is the recursive call. The
    result is [None] when a recursive call ran out of fuel, else the
    value returned ([false] for [return false], [true] for falling out of
    the loop), the local array [portalViews] and the state. *)
Fixpoint portalLoop (rec : Z -> State -> option (bool * State)) (viewID : Z)
    (tmpSurfs : list PortalSurface) (count : Z) (portalViews : Z -> Z)
    (st : State) : option (bool * (Z -> Z) * State) :=
  match tmpSurfs with
  | [] => Some (true, portalViews, st)
  | portalSurface :: rest =>
      if distance portalSurface =? -1 then
        portalLoop rec viewID rest count portalViews st
      else
        let portalViewID := wrap32 (viewCount st + 1) in
        if PortalOffScreenOrOutOfRange (drawSurfID portalSurface) then
          portalLoop rec viewID rest count portalViews st
        else if portalViewID =? MAX_VIEWS then
          portalLoop rec viewID rest count portalViews st
        else
          let portalViews1 := upd portalViews count portalViewID in
          let st1 :=
            assignView viewID portalViewID (drawSurfID portalSurface) count st in
          let count1 := wrap32 (count + 1) in
          if (count1 =? MAX_VIEWS) || (viewCount st1 =? MAX_VIEWS) then
            Some (false, portalViews1, st1)
          else
            match findSubView viewID (drawSurfID portalSurface) with
            | Some subView =>
                match rec subView st1 with
                | None => None
                | Some (false, st2) => Some (false, portalViews1, st2)
                | Some (true, st2) =>
                    portalLoop rec viewID rest count1 portalViews1 st2
                end
            | None => portalLoop rec viewID rest count1 portalViews1 st1
            end
  end.

(** [AddPortalSurface]; [fuel] bounds the depth of the recursion. *)
Fixpoint AddPortalSurface (fuel : nat) (viewID : Z) (st : State)
  : option (bool * State) :=
  match fuel with
  | O => None
  | S fuel' =>
      let st0 :=
        {| viewCount := viewCount st;
           nextViewFrames :=
             upd (nextViewFrames st) viewID
                 (ViewFrame.set_viewCount 0 (nextViewFrames st viewID));
           portalStack :=
             upd (portalStack st) viewID (set_count 0 (portalStack st viewID));
           assigned := assigned st |} in
      let tmpSurfs := sortByDistance (portalSurfs viewID) in
      match portalLoop (AddPortalSurface fuel') viewID tmpSurfs 0 (fun _ => 0) st0 with
      | None => None
      | Some (false, _, st1) => Some (false, st1)
      | Some (true, portalViews, st1) =>
          Some (true,
                {| viewCount := viewCount st1;
                   nextViewFrames :=
                     upd (nextViewFrames st1) viewID
                         (ViewFrame.set_portalViews portalViews
                            (nextViewFrames st1 viewID));
                   portalStack := portalStack st1;
                   assigned := assigned st1 |})
      end
  end.

(** The state in which [AddPortalSurfaces] makes its call:
    [viewCount = 0], and nothing assigned yet in this frame. *)
Definition frameStart (st : State) : State :=
  {| viewCount := 0; nextViewFrames := nextViewFrames st;
     portalStack := portalStack st; assigned := [] |}.

(** [AddPortalSurfaces]: the call [AddPortalSurface( 0, portalSurfs )]
    with the value it returns, or the state untouched when the function
    leaves early. [MAX_VIEWS] levels of recursion are provided. *)
Definition AddPortalSurfaces (totalPortals : Z) (r_lockpvs : bool) (st : State)
  : option (bool * State) :=
  if totalPortals =? 0 then Some (true, st)
  else if r_lockpvs then Some (true, st)
  else AddPortalSurface (Z.to_nat MAX_VIEWS) 0 (frameStart st).

(** The resolver's book-keeping between two portals of a loop. *)
Definition viewsConsistent (st : State) : Prop :=
  0 <= viewCount st <= MAX_VIEWS - 1 /\
  NoDup (assigned st) /\
  Z.of_nat (length (assigned st)) = viewCount st /\
  forall v, v ∈ assigned st -> 1 <= v <= viewCount st.

End Resolver.

(** A sample world: three portals seen from every view, none culled, none
    off screen; in the previous frame every view had the sub-views 1 and 2,
    showing portals 10 and 11: the hint graph is a complete cycle. *)
Definition samplePortals (viewID : Z) : list PortalSurface :=
  [ {| drawSurfID := 11; distance := 7 |};
    {| drawSurfID := 10; distance := 3 |};
    {| drawSurfID := 12; distance := 9 |} ].

Definition sampleHint (viewID : Z) : ViewFrame.t :=
  {| ViewFrame.viewCount := 2;
     ViewFrame.portalSurfaceID := if viewID =? 2 then 11 else 10;
     ViewFrame.portalViews := fun j => if j =? 0 then 1 else if j =? 1 then 2 else 0 |}.

Definition sampleState : State :=
  {| viewCount := 5;
     nextViewFrames := fun _ =>
       {| ViewFrame.viewCount := 0; ViewFrame.portalSurfaceID := 0;
          ViewFrame.portalViews := fun _ => 0 |};
     portalStack := fun _ => {| count := 0; views := fun _ => 0; drawSurf := -1 |};
     assigned := [] |}.

End Portals.
(** ** MaterialSystem::RenderMaterial: texture residency *)

Module Residency.
Export MaterialTypes.

Inductive LogEntry :=
| Warn_MakingNonResident (materialID : Z) (textureCount : Z)
| Warn_NotEnoughTextureSpace.

(** [materials] holds the Material objects that [renderedMaterials] and the
    argument of [RenderMaterial] point to; a pointer is an index into it.
    [residentTextures] is the residency of the texture handles. *)
Record RenderState := {
  materials : list Material;
  renderedMaterials : list nat;
  residentTextures : list Z;
  log : list LogEntry
}.

Definition set_residentTextures (r : list Z) (st : RenderState) : RenderState :=
  {| materials := materials st; renderedMaterials := renderedMaterials st;
     residentTextures := r; log := log st |}.

Definition set_stored (ms : list Material) (st : RenderState) : RenderState :=
  {| materials := ms; renderedMaterials := renderedMaterials st;
     residentTextures := residentTextures st; log := log st |}.

Definition addLog (e : LogEntry) (st : RenderState) : RenderState :=
  {| materials := materials st; renderedMaterials := renderedMaterials st;
     residentTextures := residentTextures st; log := log st ++ [e] |}.

Section Driver.
(** Modelled from the spec: the [Texture] class and the driver are not
    among the sources. Residency fails under memory pressure: the driver
    has a [budget], each texture a size, and a texture becomes resident
    only while the resident set stays within the budget. One residency
    state serves [Texture::IsResident] and
    [glIsTextureHandleResidentARB]. *)
Variable budget : Z.
Variable textureSize : Z -> Z.

Definition residentSize (r : list Z) : Z := sumZ (map textureSize r).

Definition IsResident (texture : Z) (st : RenderState) : bool :=
  bool_decide (texture ∈ residentTextures st).

Definition MakeResident (texture : Z) (st : RenderState) : RenderState :=
  if IsResident texture st then st
  else if residentSize (residentTextures st) + textureSize texture <=? budget
       then set_residentTextures (texture :: residentTextures st) st
       else st.

Definition MakeNonResident (texture : Z) (st : RenderState) : RenderState :=
  set_residentTextures
    (filter (fun t => t <> texture) (residentTextures st)) st.

(** [for ( Texture* tex : mat->textures ) if ( tex->IsResident() )
    tex->MakeNonResident();] *)
Fixpoint evictTextures (texs : list Z) (st : RenderState) : RenderState :=
  match texs with
  | [] => st
  | tex :: rest =>
      evictTextures rest
        (if IsResident tex st then MakeNonResident tex st else st)
  end.

(** The body of [for ( Material* mat : renderedMaterials )]. *)
Definition evictMaterial (mat : nat) (st : RenderState) : RenderState :=
  match materials st !! mat with
  | None => st
  | Some m =>
      let st1 :=
        addLog (Warn_MakingNonResident (id m) (Z.of_nat (length (textures m)))) st in
      let st2 := evictTextures (textures m) st1 in
      set_stored (alter (set_texturesResident false) mat (materials st2)) st2
  end.

Fixpoint evictRendered (rendered : list nat) (st : RenderState) : RenderState :=
  match rendered with
  | [] => st
  | mat :: rest => evictRendered rest (evictMaterial mat st)
  end.

(** [for ( Texture* texture : material.textures )], with its [continue]
    and [break]. *)
Fixpoint residentLoop (texs : list Z) (st : RenderState) : RenderState :=
  match texs with
  | [] => st
  | texture :: rest =>
      if IsResident texture st then residentLoop rest st
      else
        let st1 := MakeResident texture st in
        if IsResident texture st1 then residentLoop rest st1
        else
          let st2 := evictRendered (renderedMaterials st1) st1 in
          let st3 := MakeResident texture st2 in
          if IsResident texture st3 then residentLoop rest st3
          else addLog Warn_NotEnoughTextureSpace st3
  end.

(** The residency block of [RenderMaterial( material, viewID )], from
    [if ( !material.texturesResident )] to
    [material.texturesResident = true]. *)
Definition RenderMaterial_residency (material : nat) (st : RenderState)
  : RenderState :=
  match materials st !! material with
  | None => st
  | Some m =>
      let st1 :=
        if texturesResident m then st else residentLoop (textures m) st in
      set_stored (alter (set_texturesResident true) material (materials st1)) st1
  end.

(** [RenderMaterials]: [RenderMaterial( material, viewID );
    renderedMaterials.emplace_back( &material );] *)
Definition renderOne (material : nat) (st : RenderState) : RenderState :=
  let st1 := RenderMaterial_residency material st in
  {| materials := materials st1;
     renderedMaterials := renderedMaterials st1 ++ [material];
     residentTextures := residentTextures st1;
     log := log st1 |}.

(** The warnings of one eviction round, in render order. *)
Definition warningsFor (ms : list Material) (rendered : list nat)
  : list LogEntry :=
  omap (fun mat =>
          match ms !! mat with
          | Some m => Some (Warn_MakingNonResident (id m)
                              (Z.of_nat (length (textures m))))
          | None => None
          end) rendered.

Definition evictionWarnings (st : RenderState) : list LogEntry :=
  warningsFor (materials st) (renderedMaterials st).
End Driver.

(** What an eviction step may change: residency shrinks, flags change,
    the log grows; the texture lists and the rendered list stay. *)
Definition sameTextures (st st' : RenderState) : Prop :=
  renderedMaterials st' = renderedMaterials st /\
  textures <$> materials st' = textures <$> materials st /\
  id <$> materials st' = id <$> materials st /\
  residentTextures st' ⊆ residentTextures st.

(** Sample frame: Materials 0 and 1 rendered with textures 1 and 2
    resident, Material 2 with texture 3 to be rendered; all textures have
    size 1. *)
Definition texturedMaterial (i : Z) (texs : list Z) (res : bool) : Material :=
  {| id := i; useSync := false; syncMaterial := 0; stateBits := 0;
     shaderBinder := BindShaderGeneric3D; cullType := 0; usePolygonOffset := false;
     vbo := 0; ibo := 0; sort := 1; bspSurface := true;
     shader := Some gl_genericShaderMaterial;
     totalDrawSurfCount := 0; totalStaticDrawSurfCount := 0;
     totalDynamicDrawSurfCount := 0; currentStaticDrawSurfCount := 0;
     currentDynamicDrawSurfCount := 0; staticMaterialsSSBOOffset := 0;
     dynamicMaterialsSSBOOffset := 0; globalID := i;
     surfaceCommandBatchOffset := 0; surfaceCommandBatchCount := 0;
     drawSurfs := []; drawCommands := []; texturesResident := res;
     textures := texs |}.

Definition sampleFrame : RenderState :=
  {| materials := [ texturedMaterial 0 [1] true;
                    texturedMaterial 1 [2] true;
                    texturedMaterial 2 [3] false ];
     renderedMaterials := [0%nat; 1%nat];
     residentTextures := [2; 1];
     log := [] |}.

End Residency.
(** ** MaterialSystem::UpdateDynamicSurfaces and the UpdateSurfaceData* functions *)

Module Update.
Export Layout.

(** The [surfaceDataUpdater] function pointers. *)
Inductive Updater :=
| UpdateSurfaceDataNONE | UpdateSurfaceDataNOP | UpdateSurfaceDataGeneric3D
| UpdateSurfaceDataLightMapping | UpdateSurfaceDataReflection
| UpdateSurfaceDataSkybox | UpdateSurfaceDataScreen
| UpdateSurfaceDataHeatHaze | UpdateSurfaceDataLiquid | UpdateSurfaceDataFog.

(** One stage of a draw surface: the flags of [shader->stages[stage]] that
    the updaters read, its updater, and the entries of the per-stage arrays
    of the [drawSurf_t] at that index. *)
Record SurfStage := {
  colorDynamic : bool;
  texMatricesDynamic : bool;
  dynamic : bool;
  surfaceDataUpdater : Updater;
  materialIDs : Z;
  materialPackIDs : Z;
  materialsSSBOOffset : Z;
  initialized : bool
}.

Definition set_initialized (b : bool) (s : SurfStage) : SurfStage :=
  {| colorDynamic := colorDynamic s; texMatricesDynamic := texMatricesDynamic s;
     dynamic := dynamic s; surfaceDataUpdater := surfaceDataUpdater s;
     materialIDs := materialIDs s; materialPackIDs := materialPackIDs s;
     materialsSSBOOffset := materialsSSBOOffset s; initialized := b |}.

(** A [drawSurf_t]: its stages, first to [lastStage]. *)
Definition drawSurf_t := list SurfStage.

(** The materials buffer, one [uint32_t] word per address. *)
Definition Buffer := Z -> Z.

(** [memset( p, 0, 4 * words )] on a word pointer. *)
Definition memsetZero (p words : Z) (buf : Buffer) : Buffer :=
  fun a => if (p <=? a) && (a <? p + words) then 0 else buf a.

Fixpoint writeWords (p : Z) (ws : list Z) (buf : Buffer) : Buffer :=
  match ws with
  | [] => buf
  | w :: rest => writeWords (p + 1) rest (upd buf p w)
  end.

Section WithShaders.
Variable GetPaddedSize : GLShader -> Z.
(** The words [WriteUniformsToBuffer] stores at its argument, for the
    uniforms an updater has set; the shader classes are outside this
    file. *)
Variable uniformWords : Updater -> Material -> SurfStage -> list Z.

(** An [UpdateSurfaceData*] function called with the word pointer
    [materials]. [None] is [ASSERT_UNREACHABLE] of
    [UpdateSurfaceDataNONE]. All the others but [UpdateSurfaceDataNOP]
    share the same frame: advance the pointer, return if nothing is to
    be updated, mark the stage initialised, set uniforms, write them. *)
Definition runUpdater (materials : Z) (material : Material) (s : SurfStage)
    (buf : Buffer) : option (Buffer * SurfStage) :=
  match surfaceDataUpdater s with
  | UpdateSurfaceDataNONE => None
  | UpdateSurfaceDataNOP => Some (buf, s)
  | u =>
      let paddedOffset :=
        wrap32 (materialsSSBOOffset s * paddedSizeOf GetPaddedSize material) in
      let materials1 := materials + paddedOffset in
      let updated :=
        negb (initialized s) || colorDynamic s || texMatricesDynamic s
        || dynamic s in
      if negb updated then Some (buf, s)
      else
        let s1 := set_initialized true s in
        Some (writeWords materials1 (uniformWords u material s1) buf, s1)
  end.

(** [materialPacks[pack].materials[id]]; [None] when an index is out of
    range, where the source has no defined behaviour. *)
Definition materialAt (packs : list MaterialPack) (pack id : Z)
  : option Material :=
  match packs !! Z.to_nat pack with
  | Some p => materials p !! Z.to_nat id
  | None => None
  end.

(** The loop over the stages of one element of [dynamicDrawSurfs]. *)
Fixpoint updateStages (packs : list MaterialPack) (materialsData : Z)
    (stages : list SurfStage) (buf : Buffer)
  : option (Buffer * list SurfStage) :=
  match stages with
  | [] => Some (buf, [])
  | s :: rest =>
      match materialAt packs (materialPackIDs s) (materialIDs s) with
      | None => None
      | Some material =>
          match runUpdater materialsData material s buf with
          | None => None
          | Some (buf1, s1) =>
              match updateStages packs materialsData rest buf1 with
              | None => None
              | Some (buf2, rest1) => Some (buf2, s1 :: rest1)
              end
          end
      end
  end.

Fixpoint updateSurfs (packs : list MaterialPack) (materialsData : Z)
    (surfs : list drawSurf_t) (buf : Buffer)
  : option (Buffer * list drawSurf_t) :=
  match surfs with
  | [] => Some (buf, [])
  | drawSurf :: rest =>
      match updateStages packs materialsData drawSurf buf with
      | None => None
      | Some (buf1, drawSurf1) =>
          match updateSurfs packs materialsData rest buf1 with
          | None => None
          | Some (buf2, rest1) => Some (buf2, drawSurf1 :: rest1)
          end
      end
  end.

(** [UpdateDynamicSurfaces]. Modelled from the spec:
    [GLSSBO::MapBufferRange( offset, count )] is not among the sources;
    the pointer it returns is the word [dynamicDrawSurfsOffset] of the
    buffer, the start of a mapped range of [dynamicDrawSurfsSize] words. *)
Definition UpdateDynamicSurfaces (packs : list MaterialPack)
    (dynamicDrawSurfsOffset dynamicDrawSurfsSize : Z)
    (dynamicDrawSurfs : list drawSurf_t) (buf : Buffer)
  : option (Buffer * list drawSurf_t) :=
  if dynamicDrawSurfsSize =? 0 then Some (buf, dynamicDrawSurfs)
  else
    let materialsData := dynamicDrawSurfsOffset in
    let buf1 := memsetZero materialsData dynamicDrawSurfsSize buf in
    updateSurfs packs materialsData dynamicDrawSurfs buf1.

(** The per-frame update run on the layout that
    [GenerateWorldMaterialsBuffer] produced. *)
Definition UpdateDynamicSurfaces_on (layout : MaterialsBuffer)
    (dynamicDrawSurfs : list drawSurf_t) (buf : Buffer)
  : option (Buffer * list drawSurf_t) :=
  UpdateDynamicSurfaces (materialPacks layout)
    (bufferDynamicDrawSurfsOffset layout) (dynamicDrawSurfsSize layout)
    dynamicDrawSurfs buf.

(** No stage dispatches to [UpdateSurfaceDataNONE], and every stage names
    a Material that exists. *)
Definition dispatchable (packs : list MaterialPack) (s : SurfStage) : Prop :=
  surfaceDataUpdater s <> UpdateSurfaceDataNONE /\
  is_Some (materialAt packs (materialPackIDs s) (materialIDs s)).

(** A stage of an element of [dynamicDrawSurfs] as the third loop of
    [GenerateWorldMaterialsBuffer] leaves it once it has visited it: a
    dynamic stage holds the slot, counted from the start of the dynamic
    range, of one of its Material's dynamic instances; a stage that is
    not dynamic has been initialised and has neither dynamic flag. *)
Definition settled (layout : MaterialsBuffer) (s : SurfStage) : Prop :=
  forall material,
    materialAt (materialPacks layout) (materialPackIDs s) (materialIDs s)
    = Some material ->
    if dynamic s then
      exists drawSurfCount,
        0 <= drawSurfCount < totalDynamicDrawSurfCount material /\
        materialsSSBOOffset s
        = dynamicStageSlot GetPaddedSize (bufferDynamicDrawSurfsOffset layout)
                           material drawSurfCount
    else
      initialized s = true /\ colorDynamic s = false /\
      texMatricesDynamic s = false.

(** [WriteUniformsToBuffer] stores at most one padded instance. *)
Definition oneInstance : Prop :=
  forall u material s,
    Z.of_nat (length (uniformWords u material s))
    <= paddedSizeOf GetPaddedSize material.
End WithShaders.

(** Sample: a surface of [Layout.samplePacks] whose first stage is dynamic
    (Material 0 of pack 1) and whose second stage is static (Material 1 of
    pack 1), both initialised. *)
Definition sampleSurf : drawSurf_t :=
  [ {| colorDynamic := true; texMatricesDynamic := false; dynamic := true;
       surfaceDataUpdater := UpdateSurfaceDataLightMapping;
       materialIDs := 0; materialPackIDs := 1;
       materialsSSBOOffset := 0; initialized := true |};
    {| colorDynamic := false; texMatricesDynamic := false; dynamic := false;
       surfaceDataUpdater := UpdateSurfaceDataGeneric3D;
       materialIDs := 1; materialPackIDs := 1;
       materialsSSBOOffset := 6; initialized := true |} ].

Definition sampleWords (u : Updater) (m : Material) (s : SurfStage) : list Z :=
  replicate (Z.to_nat (paddedSizeOf sampleStride m)) 255.

End Update.
(** ** MaterialSystem::ProcessStage and GenerateWorldMaterials *)

Module Classifier.
Export MaterialTypes.

(** Constants of the renderer's headers that [ProcessStage] uses: the
    state-bit groups and the ordinals of three [shaderSort_t] values. *)
Record RendererConstants := {
  GLS_DEPTHFUNC_BITS : Z;
  GLS_SRCBLEND_BITS : Z;
  GLS_DSTBLEND_BITS : Z;
  GLS_POLYMODE_LINE : Z;
  GLS_DEPTHTEST_DISABLE : Z;
  GLS_COLORMASK_BITS : Z;
  GLS_DEPTHMASK_TRUE : Z;
  SS_DEPTH : Z;
  SS_ENVIRONMENT_FOG : Z;
  SS_OPAQUE : Z
}.

(** The [materialProcessor] function pointers. *)
Inductive MaterialProcessor :=
| ProcessMaterialNONE | ProcessMaterialNOP | ProcessMaterialGeneric3D
| ProcessMaterialLightMapping | ProcessMaterialReflection
| ProcessMaterialSkybox | ProcessMaterialScreen | ProcessMaterialHeatHaze
| ProcessMaterialLiquid | ProcessMaterialFog.

(** The fields of [shaderStage_t] that [ProcessStage] reads or writes; the
    fields of [ComputeDynamics] are in [dynamics]. *)
Module shaderStage.
Record t := {
  stateBits : Z;
  shaderBinder : Binder;
  materialProcessor : MaterialProcessor;
  dynamics : Dynamics.shaderStage_t;
  useMaterialSystem : bool
}.
End shaderStage.

(** The fields of [shader_t] that [GenerateWorldMaterials] and
    [ProcessStage] read. *)
Module shader_t.
Record t := {
  sort : Z;
  cullType : Z;
  polygonOffset : bool;
  isSky : bool;
  isPortal : bool;
  autoSpriteMode : bool
}.
End shader_t.

(** A [drawSurf_t] of [tr.refdef.drawSurfs]. [addr] is its address;
    [shader] is [None] for a null pointer; [remappedShader] is
    [shader->remappedShader]; [stages] are [shader->stages] up to
    [lastStage]; [vbo] and [ibo] are [glState.currentVBO] and
    [glState.currentIBO] once [Tess_Begin] and the surface function have run
    for this surface. The three arrays are indexed by the stage number. *)
Module drawSurf_t.
Record t := {
  addr : Z;
  entityIsWorld : bool;
  shader : option shader_t.t;
  remappedShader : option shader_t.t;
  stages : list shaderStage.t;
  surfaceIsSkip : bool;
  bspSurface : bool;
  vbo : Z;
  ibo : Z;
  materialIDs : Z -> Z;
  materialPackIDs : Z -> Z;
  texturesDynamic : Z -> bool
}.

Definition set_stageResult (stage materialID materialPack : Z) (d : t) : t :=
  {| addr := addr d; entityIsWorld := entityIsWorld d; shader := shader d;
     remappedShader := remappedShader d; stages := stages d;
     surfaceIsSkip := surfaceIsSkip d; bspSurface := bspSurface d;
     vbo := vbo d; ibo := ibo d;
     materialIDs := upd (materialIDs d) stage materialID;
     materialPackIDs := upd (materialPackIDs d) stage materialPack;
     texturesDynamic := texturesDynamic d |}.

Definition set_texturesDynamic (stage : Z) (d : t) : t :=
  {| addr := addr d; entityIsWorld := entityIsWorld d; shader := shader d;
     remappedShader := remappedShader d; stages := stages d;
     surfaceIsSkip := surfaceIsSkip d; bspSurface := bspSurface d;
     vbo := vbo d; ibo := ibo d;
     materialIDs := materialIDs d;
     materialPackIDs := materialPackIDs d;
     texturesDynamic := upd (texturesDynamic d) stage true |}.

Definition set_stages (l : list shaderStage.t) (d : t) : t :=
  {| addr := addr d; entityIsWorld := entityIsWorld d; shader := shader d;
     remappedShader := remappedShader d; stages := l;
     surfaceIsSkip := surfaceIsSkip d; bspSurface := bspSurface d;
     vbo := vbo d; ibo := ibo d;
     materialIDs := materialIDs d;
     materialPackIDs := materialPackIDs d;
     texturesDynamic := texturesDynamic d |}.
End drawSurf_t.

#[global] Instance Binder_eq_dec : EqDecision Binder.
Proof. solve_decision. Defined.

(** The fields that make a Material's identity. *)
Definition keyOf (m : Material) : Z * Binder * Z * Z * Z * bool * Z :=
  (stateBits m, shaderBinder m, cullType m, vbo m, ibo m, useSync m,
   syncMaterial m).

(** Modelled from the spec: [Material::operator==] is declared with the
    [Material] struct, outside this file. Identity is structural: two
    Materials are equal when they have identical state bits, binder, cull
    type, buffers and sync target. The search of [ProcessStage] below
    takes the operator as a parameter, [Material_eq]; this is the one the
    spec describes. *)
Definition Material_eqb (a b : Material) : bool :=
  bool_decide (stateBits a = stateBits b)
  && bool_decide (shaderBinder a = shaderBinder b)
  && bool_decide (cullType a = cullType b)
  && bool_decide (vbo a = vbo b)
  && bool_decide (ibo a = ibo b)
  && bool_decide (useSync a = useSync b)
  && bool_decide (syncMaterial a = syncMaterial b).

(** The [ProcessMaterial*] functions: the shader object each installs.
    [None] is [ASSERT_UNREACHABLE] of [ProcessMaterialNONE]. *)
Definition runMaterialProcessor (f : MaterialProcessor) (material : Material)
  : option Material :=
  match f with
  | ProcessMaterialNONE => None
  | ProcessMaterialNOP => Some material
  | ProcessMaterialGeneric3D =>
      Some (set_shader (Some gl_genericShaderMaterial) material)
  | ProcessMaterialLightMapping =>
      Some (set_shader (Some gl_lightMappingShaderMaterial) material)
  | ProcessMaterialReflection =>
      Some (set_shader (Some gl_reflectionShaderMaterial) material)
  | ProcessMaterialSkybox =>
      Some (set_shader (Some gl_skyboxShaderMaterial) material)
  | ProcessMaterialScreen =>
      Some (set_shader (Some gl_screenShaderMaterial) material)
  | ProcessMaterialHeatHaze =>
      Some (set_shader (Some gl_heatHazeShaderMaterial) material)
  | ProcessMaterialLiquid =>
      Some (set_shader (Some gl_liquidShaderMaterial) material)
  | ProcessMaterialFog =>
      Some (set_shader (Some gl_fogQuake3ShaderMaterial) material)
  end.

(** What holds of the Materials of one pack: a Material's id is its
    position, a sync target precedes the Material that names it, and no
    two Materials have the same key. *)
Definition packInv (ms : list Material) : Prop :=
  (forall (i : nat) m, ms !! i = Some m -> id m = Z.of_nat i) /\
  (forall (i : nat) m,
     ms !! i = Some m -> useSync m = true -> syncMaterial m < id m) /\
  (forall (i j : nat) mi mj,
     ms !! i = Some mi -> ms !! j = Some mj -> keyOf mi = keyOf mj -> i = j).

(** What holds of the Materials of one pack whatever
    [Material::operator==] is: a Material's id is its position, and a sync
    target precedes the Material that names it. *)
Definition packOrd (ms : list Material) : Prop :=
  (forall (i : nat) m, ms !! i = Some m -> id m = Z.of_nat i) /\
  (forall (i : nat) m,
     ms !! i = Some m -> useSync m = true -> syncMaterial m < id m).

(** A match the search accepts: equal to the candidate by
    [Material_eq], which stands for [Material::operator==], and not before
    the candidate's sync target. *)
Definition accepts (Material_eq : Material -> Material -> bool)
    (material it : Material) : bool :=
  Material_eq it material
  && negb (useSync material && (id it <? syncMaterial material)).

(** The search loop of [ProcessStage]: [std::find] from
    [currentSearchIt], and on a match that precedes the sync target the
    search resumes behind it. The result is the position and the element
    of [materialIt], [None] for [materials.end()]. *)
Fixpoint findMaterial (Material_eq : Material -> Material -> bool)
    (material : Material) (ms : list Material) (pos : nat)
  : option (nat * Material) :=
  match ms with
  | [] => None
  | it :: rest =>
      if Material_eq it material then
        if useSync material && (id it <? syncMaterial material)
        then findMaterial Material_eq material rest (S pos)
        else Some (pos, it)
      else findMaterial Material_eq material rest (S pos)
  end.

(** [materials[i].totalDrawSurfCount++], the static or dynamic count, and
    the [drawSurfs] entry. *)
Definition countStage (isDynamic : bool) (drawSurf : Z) (m : Material) : Material :=
  let m1 := set_totalDrawSurfCount (wrap32 (totalDrawSurfCount m + 1)) m in
  let m2 :=
    if isDynamic
    then set_totalDynamicDrawSurfCount (wrap32 (totalDynamicDrawSurfCount m1 + 1)) m1
    else set_totalStaticDrawSurfCount (wrap32 (totalStaticDrawSurfCount m1 + 1)) m1 in
  if bool_decide (drawSurf ∈ drawSurfs m2) then m2
  else set_drawSurfs (drawSurfs m2 ++ [drawSurf]) m2.

(** The list operations of [ProcessStage] on the Materials of the target
    pack: append unless found, then count the stage in the Material. The
    result is the list, [previousMaterialID] and [id]. *)
Definition classify (Material_eq : Material -> Material -> bool)
    (material : Material) (isDynamic : bool) (drawSurf : Z)
    (id0 : Z) (ms : list Material) : list Material * Z * Z :=
  let '(ms1, previousMaterialID1, id1) :=
    match findMaterial Material_eq material ms 0 with
    | None => (ms ++ [set_id id0 material], id0, wrap32 (id0 + 1))
    | Some (_, materialIt) => (ms, id materialIt, id0)
    end in
  (alter (countStage isDynamic drawSurf) (Z.to_nat previousMaterialID1) ms1,
   previousMaterialID1, id1).

(** The Materials of the three packs, by pack number, and the local array
    [packIDs] of [GenerateWorldMaterials]. *)
Record Classified := {
  materialsOf : Z -> list Material;
  packIDs : Z -> Z
}.

Section WithConstants.
Variable K : RendererConstants.

(** [Material::operator==], which [std::find] applies to the Materials
    of the pack and the candidate. *)
Variable Material_eq : Material -> Material -> bool.

Definition stateBitsMask : Z :=
  Z.lor (GLS_DEPTHFUNC_BITS K)
    (Z.lor (GLS_SRCBLEND_BITS K)
       (Z.lor (GLS_DSTBLEND_BITS K)
          (Z.lor (GLS_POLYMODE_LINE K)
             (Z.lor (GLS_DEPTHTEST_DISABLE K)
                (Z.lor (GLS_COLORMASK_BITS K) (GLS_DEPTHMASK_TRUE K)))))).

Definition packOf (sort : Z) : Z :=
  if sort =? SS_DEPTH K then 0
  else if (SS_ENVIRONMENT_FOG K <=? sort) && (sort <=? SS_OPAQUE K) then 1
  else 2.

(** The local [material] of [ProcessStage] before the call of the
    material processor. *)
Definition candidate (drawSurf : drawSurf_t.t) (pStage : shaderStage.t)
    (shader : shader_t.t) (stage previousMaterialID : Z) : Material :=
  {| id := 0;
     useSync := 0 <? stage;
     syncMaterial := if 0 <? stage then previousMaterialID else 0;
     stateBits := Z.land (shaderStage.stateBits pStage) stateBitsMask;
     shaderBinder := shaderStage.shaderBinder pStage;
     cullType := shader_t.cullType shader;
     usePolygonOffset := shader_t.polygonOffset shader;
     vbo := drawSurf_t.vbo drawSurf; ibo := drawSurf_t.ibo drawSurf;
     sort := packOf (shader_t.sort shader);
     bspSurface := drawSurf_t.bspSurface drawSurf;
     shader := None;
     totalDrawSurfCount := 0; totalStaticDrawSurfCount := 0;
     totalDynamicDrawSurfCount := 0; currentStaticDrawSurfCount := 0;
     currentDynamicDrawSurfCount := 0; staticMaterialsSSBOOffset := 0;
     dynamicMaterialsSSBOOffset := 0; globalID := 0;
     surfaceCommandBatchOffset := 0; surfaceCommandBatchCount := 0;
     drawSurfs := []; drawCommands := []; texturesResident := false;
     textures := [] |}.

(** The loop-carried values of the stage loop in
    [GenerateWorldMaterials]. *)
Record StageLoop := {
  classified : Classified;
  drawSurf : drawSurf_t.t;
  doneStages : list shaderStage.t;
  stage : Z;
  previousMaterialID : Z
}.

(** [ProcessStage( drawSurf, pStage, shader, packIDs, stage,
    previousMaterialID )]. The stage as [ProcessStage] leaves it is
    appended to [doneStages]. *)
Definition ProcessStage (shader : shader_t.t) (pStage : shaderStage.t)
    (s : StageLoop) : option StageLoop :=
  let materialPack := packOf (shader_t.sort shader) in
  let id0 := packIDs (classified s) materialPack in
  let material0 :=
    candidate (drawSurf s) pStage shader (stage s) (previousMaterialID s) in
  let dyn := Dynamics.ComputeDynamics (shaderStage.dynamics pStage) in
  let drawSurf1 :=
    if Dynamics.texturesDynamic dyn
    then drawSurf_t.set_texturesDynamic (stage s) (drawSurf s) else drawSurf s in
  match runMaterialProcessor (shaderStage.materialProcessor pStage) material0 with
  | None => None
  | Some material =>
      let materials := materialsOf (classified s) materialPack in
      let '(materials2, previousMaterialID1, id1) :=
        classify Material_eq material (Dynamics.dynamic dyn)
                 (drawSurf_t.addr drawSurf1)
                 id0 materials in
      let pStage1 :=
        {| shaderStage.stateBits := shaderStage.stateBits pStage;
           shaderStage.shaderBinder := shaderStage.shaderBinder pStage;
           shaderStage.materialProcessor := shaderStage.materialProcessor pStage;
           shaderStage.dynamics := dyn;
           shaderStage.useMaterialSystem := true |} in
      Some {| classified :=
                {| materialsOf := upd (materialsOf (classified s)) materialPack materials2;
                   packIDs := upd (packIDs (classified s)) materialPack id1 |};
              drawSurf :=
                drawSurf_t.set_stageResult (stage s) previousMaterialID1 materialPack drawSurf1;
              doneStages := doneStages s ++ [pStage1];
              stage := wrap32 (stage s + 1);
              previousMaterialID := previousMaterialID1 |}
  end.

Fixpoint processStages (shader : shader_t.t) (pStages : list shaderStage.t)
    (s : StageLoop) : option StageLoop :=
  match pStages with
  | [] => Some s
  | pStage :: rest =>
      match ProcessStage shader pStage s with
      | None => None
      | Some s1 => processStages shader rest s1
      end
  end.

(** The tests of the surface loop that lead to [continue]; the result is
    the shader handed to [ProcessStage]. *)
Definition eligibleShader (d : drawSurf_t.t) : option shader_t.t :=
  if negb (drawSurf_t.entityIsWorld d) then None
  else
    match drawSurf_t.shader d with
    | None => None
    | Some sh =>
        let sh1 := match drawSurf_t.remappedShader d with Some r => r | None => sh end in
        if shader_t.isSky sh1 || shader_t.isPortal sh1 || shader_t.autoSpriteMode sh1
        then None
        else if drawSurf_t.surfaceIsSkip d then None
        else Some sh1
    end.

(** The body of the surface loop of [GenerateWorldMaterials]. *)
Definition processSurf (d : drawSurf_t.t) (c : Classified)
  : option (Classified * drawSurf_t.t) :=
  match eligibleShader d with
  | None => Some (c, d)
  | Some sh =>
      match processStages sh (drawSurf_t.stages d)
              {| classified := c; drawSurf := d; doneStages := [];
                 stage := 0; previousMaterialID := 0 |} with
      | None => None
      | Some s => Some (classified s, drawSurf_t.set_stages (doneStages s) (drawSurf s))
      end
  end.

Fixpoint processSurfs (ds : list drawSurf_t.t) (c : Classified)
  : option (Classified * list drawSurf_t.t) :=
  match ds with
  | [] => Some (c, [])
  | d :: rest =>
      match processSurf d c with
      | None => None
      | Some (c1, d1) =>
          match processSurfs rest c1 with
          | None => None
          | Some (c2, rest1) => Some (c2, d1 :: rest1)
          end
      end
  end.

(** The state [GenerateWorldMaterials] starts from: the packs are empty
    (after [Free]) and [packIDs] is [{ 0, 0, 0 }]. *)
Definition emptyClassified : Classified :=
  {| materialsOf := fun _ => []; packIDs := fun _ => 0 |}.

(** The surface loop of [GenerateWorldMaterials]. *)
Definition GenerateWorldMaterials (drawSurfs : list drawSurf_t.t)
  : option (Classified * list drawSurf_t.t) :=
  processSurfs drawSurfs emptyClassified.

(** Invariant of the classification after [n] stages: in every pack
    [packIDs] is the number of Materials, a Material's id is its
    position, a sync target precedes the Material that names it, and no
    two Materials have the same key. *)
Definition classifiedInv (n : Z) (c : Classified) : Prop :=
  (forall p, packIDs c p = Z.of_nat (length (materialsOf c p))) /\
  (forall p, Z.of_nat (length (materialsOf c p)) <= n) /\
  (forall p (i : nat) m, materialsOf c p !! i = Some m -> id m = Z.of_nat i) /\
  (forall p (i : nat) m,
     materialsOf c p !! i = Some m -> useSync m = true -> syncMaterial m < id m) /\
  (forall p (i j : nat) mi mj,
     materialsOf c p !! i = Some mi -> materialsOf c p !! j = Some mj ->
     keyOf mi = keyOf mj -> i = j).

(** Later stages keep every Material in place with its key. *)
Definition extends (c c' : Classified) : Prop :=
  forall p (i : nat) m,
    materialsOf c p !! i = Some m ->
    exists m', materialsOf c' p !! i = Some m' /\ keyOf m' = keyOf m /\ id m' = id m.

(** The Material recorded for stage [k] of the surface [d] is the
    Material of the stage's key, in the pack of the surface's shader. *)
Definition stagePlaced (c : Classified) (sh : shader_t.t) (d : drawSurf_t.t)
    (k : nat) (pStage : shaderStage.t) : Prop :=
  drawSurf_t.materialPackIDs d (Z.of_nat k) = packOf (shader_t.sort sh) /\
  exists m,
    materialsOf c (packOf (shader_t.sort sh))
      !! Z.to_nat (drawSurf_t.materialIDs d (Z.of_nat k)) = Some m /\
    id m = drawSurf_t.materialIDs d (Z.of_nat k) /\
    keyOf m
    = keyOf (candidate d pStage sh (Z.of_nat k)
               (drawSurf_t.materialIDs d (Z.of_nat k - 1))).

(** Invariant of the stage loop for a surface of shader [sh], after [n]
    stages in all. *)
Definition stageLoopInv (n : Z) (sh : shader_t.t) (s : StageLoop) : Prop :=
  classifiedInv n (classified s) /\
  stage s = Z.of_nat (length (doneStages s)) /\
  stage s <= n /\
  (0 < stage s ->
   0 <= previousMaterialID s
     < packIDs (classified s) (packOf (shader_t.sort sh)) /\
   previousMaterialID s = drawSurf_t.materialIDs (drawSurf s) (stage s - 1)) /\
  (forall (k : nat) pStage,
     doneStages s !! k = Some pStage ->
     stagePlaced (classified s) sh (drawSurf s) k pStage).

(** Every stage of a processed surface is placed. *)
Definition surfacePlaced (c : Classified) (d : drawSurf_t.t) : Prop :=
  forall sh (k : nat) pStage,
    eligibleShader d = Some sh ->
    drawSurf_t.stages d !! k = Some pStage ->
    stagePlaced c sh d k pStage.

(** What holds of the classification after [n] stages whatever
    [Material::operator==] is: in every pack [packIDs] is the number of
    Materials, a Material's id is its position, and a sync target
    precedes the Material that names it. *)
Definition classifiedOrd (n : Z) (c : Classified) : Prop :=
  (forall p, packIDs c p = Z.of_nat (length (materialsOf c p))) /\
  (forall p, Z.of_nat (length (materialsOf c p)) <= n) /\
  (forall p (i : nat) m, materialsOf c p !! i = Some m -> id m = Z.of_nat i) /\
  (forall p (i : nat) m,
     materialsOf c p !! i = Some m -> useSync m = true -> syncMaterial m < id m).

(** An [operator==] that tells sync targets apart: Materials it takes
    for equal have the same [useSync] and [syncMaterial]. *)
Definition comparesSync : Prop :=
  forall a b,
    Material_eq a b = true ->
    useSync a = useSync b /\ syncMaterial a = syncMaterial b.

(** An [operator==] that is the identity of the spec: Materials are
    equal exactly when their keys are. *)
Definition comparesKeys : Prop :=
  forall a b, Material_eq a b = true <-> keyOf a = keyOf b.

(** The Material recorded for stage [k] of the surface [d] exists in
    the pack of the surface's shader, and its id is not less than the id
    recorded for the stage before; it is greater when [operator==] tells
    sync targets apart. *)
Definition stageOrdered (c : Classified) (sh : shader_t.t) (d : drawSurf_t.t)
    (k : nat) : Prop :=
  drawSurf_t.materialPackIDs d (Z.of_nat k) = packOf (shader_t.sort sh) /\
  (exists m,
     materialsOf c (packOf (shader_t.sort sh))
       !! Z.to_nat (drawSurf_t.materialIDs d (Z.of_nat k)) = Some m /\
     id m = drawSurf_t.materialIDs d (Z.of_nat k)) /\
  ((0 < k)%nat ->
   drawSurf_t.materialIDs d (Z.of_nat k - 1)
   <= drawSurf_t.materialIDs d (Z.of_nat k)) /\
  (comparesSync -> (0 < k)%nat ->
   drawSurf_t.materialIDs d (Z.of_nat k - 1)
   < drawSurf_t.materialIDs d (Z.of_nat k)).

(** Every stage of a processed surface is ordered. *)
Definition surfaceOrdered (c : Classified) (d : drawSurf_t.t) : Prop :=
  forall sh (k : nat),
    eligibleShader d = Some sh ->
    (k < length (drawSurf_t.stages d))%nat ->
    stageOrdered c sh d k.

(** A stage as [ProcessStage] leaves it: [ComputeDynamics] has run and
    [useMaterialSystem] is set. *)
Definition processedStage (pStage : shaderStage.t) : shaderStage.t :=
  {| shaderStage.stateBits := shaderStage.stateBits pStage;
     shaderStage.shaderBinder := shaderStage.shaderBinder pStage;
     shaderStage.materialProcessor := shaderStage.materialProcessor pStage;
     shaderStage.dynamics := Dynamics.ComputeDynamics (shaderStage.dynamics pStage);
     shaderStage.useMaterialSystem := true |}.

(** The fields of a surface that [GenerateWorldMaterials] does not
    write. *)
Definition sameSurface (d0 d : drawSurf_t.t) : Prop :=
  drawSurf_t.addr d = drawSurf_t.addr d0 /\
  drawSurf_t.entityIsWorld d = drawSurf_t.entityIsWorld d0 /\
  drawSurf_t.shader d = drawSurf_t.shader d0 /\
  drawSurf_t.remappedShader d = drawSurf_t.remappedShader d0 /\
  drawSurf_t.surfaceIsSkip d = drawSurf_t.surfaceIsSkip d0 /\
  drawSurf_t.bspSurface d = drawSurf_t.bspSurface d0 /\
  drawSurf_t.vbo d = drawSurf_t.vbo d0 /\
  drawSurf_t.ibo d = drawSurf_t.ibo d0.

(** The surface [d] is the surface [d0] after the surface loop: a
    surface the loop passes over is as before; of any other surface
    every stage has been through [ProcessStage], and only the entries
    of its stages have been written. *)
Definition processedFrom (d0 d : drawSurf_t.t) : Prop :=
  sameSurface d0 d /\
  match eligibleShader d0 with
  | None => d = d0
  | Some _ =>
      drawSurf_t.stages d = map processedStage (drawSurf_t.stages d0) /\
      forall k,
        ~ (0 <= k < Z.of_nat (length (drawSurf_t.stages d0))) ->
        drawSurf_t.materialIDs d k = drawSurf_t.materialIDs d0 k /\
        drawSurf_t.materialPackIDs d k = drawSurf_t.materialPackIDs d0 k /\
        drawSurf_t.texturesDynamic d k = drawSurf_t.texturesDynamic d0 k
  end.

(** Invariant of the stage loop for the surface [d0] of shader [sh],
    whatever [Material::operator==] is, after [n] stages in all. *)
Definition stageLoopOrd (n : Z) (sh : shader_t.t) (d0 : drawSurf_t.t)
    (s : StageLoop) : Prop :=
  classifiedOrd n (classified s) /\
  stage s = Z.of_nat (length (doneStages s)) /\
  stage s <= n /\
  (0 < stage s ->
   0 <= previousMaterialID s
     < packIDs (classified s) (packOf (shader_t.sort sh)) /\
   previousMaterialID s = drawSurf_t.materialIDs (drawSurf s) (stage s - 1)) /\
  (forall k : nat,
     (k < length (doneStages s))%nat ->
     stageOrdered (classified s) sh (drawSurf s) k) /\
  sameSurface d0 (drawSurf s) /\
  drawSurf_t.stages (drawSurf s) = drawSurf_t.stages d0 /\
  doneStages s
  = map processedStage (take (length (doneStages s)) (drawSurf_t.stages d0)) /\
  forall k,
    ~ (0 <= k < stage s) ->
    drawSurf_t.materialIDs (drawSurf s) k = drawSurf_t.materialIDs d0 k /\
    drawSurf_t.materialPackIDs (drawSurf s) k = drawSurf_t.materialPackIDs d0 k /\
    drawSurf_t.texturesDynamic (drawSurf s) k = drawSurf_t.texturesDynamic d0 k.

(** Number of stages of a list of surfaces. *)
Definition stageCount (ds : list drawSurf_t.t) : Z :=
  sumZ (map (fun d => Z.of_nat (length (drawSurf_t.stages d))) ds).

(** [materialPacks] as the other passes take it. *)
Definition packsOf (c : Classified) : list MaterialPack :=
  map (fun p => {| fromSort := 0; toSort := 0; materials := materialsOf c p |})
      [0; 1; 2].
End WithConstants.

(** Sample world. Constants as plausible header values; three surfaces:
    a two-stage surface (opaque sort), a one-stage surface with the key of
    the first surface's second stage, and again the two-stage surface. *)
Definition sampleConstants : RendererConstants :=
  {| GLS_DEPTHFUNC_BITS := 0x30000; GLS_SRCBLEND_BITS := 0xf;
     GLS_DSTBLEND_BITS := 0xf0; GLS_POLYMODE_LINE := 0x1000;
     GLS_DEPTHTEST_DISABLE := 0x10000; GLS_COLORMASK_BITS := 0xf00000;
     GLS_DEPTHMASK_TRUE := 0x100;
     SS_DEPTH := 2; SS_ENVIRONMENT_FOG := 3; SS_OPAQUE := 5 |}.

Definition sampleStage (bits : Z) (binder : Binder) (f : MaterialProcessor)
  : shaderStage.t :=
  {| shaderStage.stateBits := bits; shaderStage.shaderBinder := binder;
     shaderStage.materialProcessor := f;
     shaderStage.dynamics := Dynamics.plainStage [];
     shaderStage.useMaterialSystem := false |}.

Definition opaqueShader : shader_t.t :=
  {| shader_t.sort := 5; shader_t.cullType := 0; shader_t.polygonOffset := false;
     shader_t.isSky := false; shader_t.isPortal := false;
     shader_t.autoSpriteMode := false |}.

Definition sampleSurf (a : Z) (l : list shaderStage.t) : drawSurf_t.t :=
  {| drawSurf_t.addr := a; drawSurf_t.entityIsWorld := true;
     drawSurf_t.shader := Some opaqueShader; drawSurf_t.remappedShader := None;
     drawSurf_t.stages := l; drawSurf_t.surfaceIsSkip := false;
     drawSurf_t.bspSurface := true; drawSurf_t.vbo := 1; drawSurf_t.ibo := 2;
     drawSurf_t.materialIDs := fun _ => 0;
     drawSurf_t.materialPackIDs := fun _ => 0;
     drawSurf_t.texturesDynamic := fun _ => false |}.

Definition diffuseStage : shaderStage.t :=
  sampleStage 0x100 BindShaderLightMapping ProcessMaterialLightMapping.

Definition blendStage : shaderStage.t :=
  sampleStage 0x65 BindShaderGeneric3D ProcessMaterialGeneric3D.

Definition sampleWorld : list drawSurf_t.t :=
  [ sampleSurf 0 [diffuseStage; blendStage];
    sampleSurf 1 [blendStage];
    sampleSurf 2 [diffuseStage; blendStage] ].

(** An [operator==] that leaves the sync target out: state bits, binder,
    cull type and buffers only. With it the search meets equal Materials
    before the sync target. *)
Definition Material_eq_noSync (a b : Material) : bool :=
  bool_decide (stateBits a = stateBits b)
  && bool_decide (shaderBinder a = shaderBinder b)
  && bool_decide (cullType a = cullType b)
  && bool_decide (vbo a = vbo b)
  && bool_decide (ibo a = ibo b).

(** Surfaces for the search to skip a match: the blended stage first as
    the first stage of a surface, then behind the diffuse stage, then
    twice in one surface, and behind the diffuse stage again. *)
Definition skipWorld : list drawSurf_t.t :=
  [ sampleSurf 0 [blendStage];
    sampleSurf 1 [diffuseStage; blendStage];
    sampleSurf 2 [blendStage; blendStage];
    sampleSurf 3 [diffuseStage; blendStage] ].

End Classifier.
(** ** MaterialSystem::RenderMaterial: r_showGlobalMaterials *)

Module DebugColours.
Export MaterialTypes.

(** The value of [r_showGlobalMaterials], by the [MaterialDebugMode]
    enumerator it equals; [NONE] is 0, [OTHER] any value the [switch] sends
    to [default:]. *)
Inductive MaterialDebugMode :=
| NONE | DEPTH | OPAQUE | OPAQUE_TRANSPARENT | OTHER.

Definition isOn (mode : MaterialDebugMode) : bool :=
  match mode with NONE => false | _ => true end.

Definition colourCoded (material : Material) : bool :=
  match shaderBinder material with
  | BindShaderLightMapping | BindShaderGeneric3D => true
  | _ => false
  end.

(** The divisor of [material.id * 6.0 / ...] in the colour-coding block of
    [RenderMaterial], when control reaches that division; [None] when the
    block is not entered or returns before it. [packs p] is
    [materialPacks[p].materials]. The division itself is a floating-point
    one and is not evaluated here. *)
Definition colourIndexDivisor (mode : MaterialDebugMode) (material : Material)
    (packs : Z -> list Material) : option Z :=
  if isOn mode && negb (sort material =? 0) && colourCoded material then
    match mode with
    | DEPTH =>
        if negb (sort material =? 1) then None
        else Some (Z.of_nat (length (packs 0)))
    | OPAQUE =>
        if negb (sort material =? 1) then None
        else Some (Z.of_nat (length (packs 1)) + Z.of_nat (length (packs 2)))
    | OPAQUE_TRANSPARENT =>
        if sort material =? 0 then None
        else Some (Z.of_nat (length (packs 1)) + Z.of_nat (length (packs 2)))
    | _ => None
    end
  else None.

End DebugColours.

(** * Colour tokens (src/common/Color.h) *)

(** The tokenizer of coloured strings, [Color::BasicTokenIterator].

    Conventions.
    - A character is the integer value of its code unit; character
      literals are written as their ASCII codes.
    - A C string is the list of its characters before the terminating NUL;
      a pointer into it is an offset, [None] is the null pointer. Reading
      at the offset of the NUL gives 0; reading behind it is outside the
      string and has no value.
    - A colour component is a [float] in the source; a colour is kept as
      the integers it is computed from and the division is not evaluated. *)

Module ColorTokens.

(** [Constants::ESCAPE] is the caret and [Constants::NULL_COLOR] the
    asterisk. *)
Definition ESCAPE : Z := 94.
Definition NULL_COLOR : Z := 42.

(** [std::toupper] and [std::tolower] in the "C" locale. *)
Definition toupper (ch : Z) : Z :=
  if (97 <=? ch) && (ch <=? 122) then ch - 32 else ch.

Definition tolower (ch : Z) : Z :=
  if (65 <=? ch) && (ch <=? 90) then ch + 32 else ch.

Definition ishex (ch : Z) : bool :=
  ((48 <=? ch) && (ch <=? 57))
  || ((65 <=? ch) && (ch <=? 70))
  || ((97 <=? ch) && (ch <=? 102)).

Definition gethex (ch : Z) : Z :=
  if 57 <? ch then
    (if 97 <=? ch then ch - 97 + 10 else ch - 65 + 10)
  else ch - 48.

(** The character a hexadecimal digit is written with, in either case. *)
Definition hexDigit (upper : bool) (n : Z) : Z :=
  if n <? 10 then 48 + n
  else if upper then 65 + (n - 10) else 97 + (n - 10).

Inductive TokenType := INVALID | CHARACTER | ESCAPE_TOKEN | COLOR | DEFAULT_COLOR.

(** The [::Color::Color] a token carries: the default-constructed colour
    (all components zero), [Color::Indexed( i )], which is defined with
    the colour table outside this file, or the colour
    [Color( r / den, g / den, b / den, 1 )]. *)
Inductive Colour :=
| ZeroColour
| Indexed (i : Z)
| Ratio (r g b den : Z).

Record Token := {
  Begin : option Z;
  End_ : option Z;
  Type_ : TokenType;
  Color_ : Colour
}.

(** [BasicToken()]. *)
Definition invalidToken : Token :=
  {| Begin := None; End_ := None; Type_ := INVALID; Color_ := ZeroColour |}.

(** [BasicToken( begin, end, type )]. *)
Definition typedToken (b e : Z) (t : TokenType) : Token :=
  {| Begin := Some b; End_ := Some e; Type_ := t; Color_ := ZeroColour |}.

(** [BasicToken( begin, end, color )]. *)
Definition colorToken (b e : Z) (c : Colour) : Token :=
  {| Begin := Some b; End_ := Some e; Type_ := COLOR; Color_ := c |}.

(** [Size()]: [end - begin]; the difference of two null pointers is 0. *)
Definition Size (t : Token) : Z :=
  match Begin t, End_ t with
  | Some b, Some e => e - b
  | _, _ => 0
  end.

(** [explicit operator bool()]:
    [type != INVALID && begin && begin < end]. *)
Definition isValid (t : Token) : bool :=
  match Type_ t with
  | INVALID => false
  | _ =>
      match Begin t, End_ t with
      | Some b, Some e => b <? e
      | _, _ => false
      end
  end.

(** The characters of the input that a token spans. *)
Definition spanned (s : list Z) (t : Token) : list Z :=
  match Begin t, End_ t with
  | Some b, Some e => take (Z.to_nat (e - b)) (drop (Z.to_nat b) s)
  | _, _ => []
  end.

(** A C string holds no NUL before its terminator. *)
Definition cstring (s : list Z) : Prop := Forall (fun ch => ch <> 0) s.

Section Tokenizer.
(** The string [input] points into. *)
Variable s : list Z.
(** The advancement policy [TokenAdvanceT()( input )], at an offset. *)
Variable advance : Z -> Z.

(** [input[0]] for [input] at offset [p]. *)
Definition rd (p : Z) : option Z :=
  if p <? 0 then None else (s ++ [0]) !! Z.to_nat p.

(** [a && b] on reads that may fall outside the string: [b] is not
    evaluated when [a] is false. *)
Definition andThen (a b : option bool) : option bool :=
  match a with
  | Some true => b
  | _ => a
  end.

Definition ishexAt (p : Z) : option bool := ishex <$> rd p.

(** The loop [for ( int i = 0; i < 6; i++ )] of the long form, from
    [i = 6 - n] on: whether [long_hex] is still true after it. *)
Fixpoint allHex (n : nat) (p : Z) : option bool :=
  match n with
  | O => Some true
  | S n' =>
      match ishexAt p with
      | None => None
      | Some false => Some false
      | Some true => allHex n' (p + 1)
      end
  end.

Definition gethexAt (p : Z) : option Z := gethex <$> rd p.

(** [NextToken( input )]; [None] when a read falls outside the
    string. *)
Definition NextToken (input : option Z) : option Token :=
  match input with
  | None => Some invalidToken
  | Some p =>
      c0 ← rd p;
      if c0 =? 0 then Some invalidToken
      else
        let character := Some (typedToken p (p + advance p) CHARACTER) in
        if c0 =? ESCAPE then
          c1 ← rd (p + 1);
          if c1 =? ESCAPE then Some (typedToken p (p + 2) ESCAPE_TOKEN)
          else if c1 =? NULL_COLOR then Some (typedToken p (p + 2) DEFAULT_COLOR)
          else if (48 <=? toupper c1) && (toupper c1 <? 80) then
            Some (colorToken p (p + 2) (Indexed (c1 - 48)))
          else
            short ← andThen (Some (tolower c1 =? 120))
                      (andThen (ishexAt (p + 2))
                         (andThen (ishexAt (p + 3)) (ishexAt (p + 4))));
            if short : bool then
              r ← gethexAt (p + 2);
              g ← gethexAt (p + 3);
              b ← gethexAt (p + 4);
              Some (colorToken p (p + 5) (Ratio r g b 15))
            else if c1 =? 35 then
              long_hex ← allHex 6 (p + 2);
              if long_hex : bool then
                h2 ← gethexAt (p + 2); h3 ← gethexAt (p + 3);
                h4 ← gethexAt (p + 4); h5 ← gethexAt (p + 5);
                h6 ← gethexAt (p + 6); h7 ← gethexAt (p + 7);
                Some (colorToken p (p + 8)
                        (Ratio (Z.lor (Z.shiftl h2 4) h3)
                               (Z.lor (Z.shiftl h4 4) h5)
                               (Z.lor (Z.shiftl h6 4) h7) 255))
              else character
            else character
        else character
  end.

(** [explicit BasicTokenIterator( const CharT* input )]: the token the
    iterator holds. *)
Definition first (input : option Z) : option Token := NextToken input.

(** [operator++]. *)
Definition next (token : Token) : option Token := NextToken (End_ token).

(** [Skip( count )]; pointer arithmetic on the null pointer has no
    value. *)
Definition Skip (count : Z) (token : Token) : option Token :=
  if count =? 0 then Some token
  else
    match Begin token with
    | None => None
    | Some b => NextToken (Some (b + count))
    end.

(** [it != BasicTokenIterator()]: the iterators compare by [Begin()],
    and the default one holds the null pointer. *)
Definition atEnd (token : Token) : bool :=
  match Begin token with None => true | Some _ => false end.

(** The tokens visited by
    [for ( ; it != BasicTokenIterator(); ++it )] from an iterator that
    holds [token]; [None] when the loop reads outside the string or
    is still running after [fuel] tokens. *)
Fixpoint visit (fuel : nat) (token : Token) : option (list Token) :=
  if atEnd token then Some []
  else
    match fuel with
    | O => None
    | S fuel' =>
        token' ← next token;
        rest ← visit fuel' token';
        Some (token :: rest)
    end.

(** All the tokens of the string. *)
Definition tokens : option (list Token) :=
  token ← first (Some 0); visit (length s) token.

(** A policy that advances by at least one character and stays inside
    the string. *)
Definition advancesInside : Prop :=
  forall p, 0 <= p < Z.of_nat (length s) ->
            1 <= advance p /\ p + advance p <= Z.of_nat (length s).
End Tokenizer.

(** The long escape for three byte values and the short escape for
    three digit values, as text: caret, [#] or the letter [x], and the
    hexadecimal digits, most significant first. *)
Definition longEscape (u : bool) (r g b : Z) : list Z :=
  [ ESCAPE; 35;
    hexDigit u (r / 16); hexDigit u (r mod 16);
    hexDigit u (g / 16); hexDigit u (g mod 16);
    hexDigit u (b / 16); hexDigit u (b mod 16) ].

Definition shortEscape (x : Z) (u : bool) (r g b : Z) : list Z :=
  [ ESCAPE; x; hexDigit u r; hexDigit u g; hexDigit u b ].

(** [TokenAdvanceOne]. *)
Definition TokenAdvanceOne (p : Z) : Z := 1.

(** Sample: the text "a^1b^x0f0c^#ff8000^^^" (without the quotes). *)
Definition sampleText : list Z :=
  [97; 94; 49; 98; 94; 120; 48; 102; 48; 99;
   94; 35; 102; 102; 56; 48; 48; 48; 94; 94; 94].

End ColorTokens.

(** * More of the material system (src/engine/renderer/Material.cpp) *)

(** ** StartFrame, EndFrame, QueueSurfaceCull, Free: the frame indices *)

Module Frames.

(** The members the four functions read and write; [frameViewCount f] is
    [frames[f].viewCount]. The origin and the frustum that
    [QueueSurfaceCull] copies are floating-point data and are left out. *)
Record FrameState := {
  generatedWorldCommandBuffer : bool;
  currentFrame : Z;
  nextFrame : Z;
  frameViewCount : Z -> Z
}.

Section WithLimits.
(** [MAX_FRAMES] and [MAX_VIEWS], constants of the header. *)
Variable MAX_FRAMES : Z.
Variable MAX_VIEWS : Z.

Definition StartFrame (st : FrameState) : FrameState :=
  if negb (generatedWorldCommandBuffer st) then st
  else
    {| generatedWorldCommandBuffer := generatedWorldCommandBuffer st;
       currentFrame := currentFrame st;
       nextFrame := nextFrame st;
       frameViewCount := upd (frameViewCount st) (nextFrame st) 0 |}.

Definition EndFrame (st : FrameState) : FrameState :=
  if negb (generatedWorldCommandBuffer st) then st
  else
    let nextFrame1 := wrap32 (nextFrame st + 1) in
    {| generatedWorldCommandBuffer := generatedWorldCommandBuffer st;
       currentFrame := nextFrame st;
       nextFrame := if MAX_FRAMES <=? nextFrame1 then 0 else nextFrame1;
       frameViewCount := frameViewCount st |}.

(** [frames[nextFrame].viewCount++]. *)
Definition QueueSurfaceCull (st : FrameState) : FrameState :=
  {| generatedWorldCommandBuffer := generatedWorldCommandBuffer st;
     currentFrame := currentFrame st;
     nextFrame := nextFrame st;
     frameViewCount :=
       upd (frameViewCount st) (nextFrame st)
           (wrap32 (frameViewCount st (nextFrame st) + 1)) |}.

(** What [Free] does to these members. *)
Definition Free (st : FrameState) : FrameState :=
  {| generatedWorldCommandBuffer := false;
     currentFrame := 0;
     nextFrame := 1;
     frameViewCount := frameViewCount st |}.

(** The last statement of [GenerateWorldMaterials]. *)
Definition worldGenerated (st : FrameState) : FrameState :=
  {| generatedWorldCommandBuffer := true;
     currentFrame := currentFrame st;
     nextFrame := nextFrame st;
     frameViewCount := frameViewCount st |}.

Inductive Call :=
| CallFree | CallGenerateWorldMaterials | CallStartFrame | CallEndFrame
| CallQueueSurfaceCull.

Definition call (c : Call) (st : FrameState) : FrameState :=
  match c with
  | CallFree => Free st
  | CallGenerateWorldMaterials => worldGenerated st
  | CallStartFrame => StartFrame st
  | CallEndFrame => EndFrame st
  | CallQueueSurfaceCull => QueueSurfaceCull st
  end.

(** The calls in order, first to last. *)
Definition calls (cs : list Call) (st : FrameState) : FrameState :=
  fold_left (fun s c => call c s) cs st.

(** [count * ( MAX_VIEWS * frame + view )]: the first element of the
    slice of a per-view buffer that belongs to [view] in [frame], for a
    buffer with [count] elements per view. [CullSurfaces] computes it
    with [surfaceCommandsCount] and [nextFrame], [RenderIndirect] with
    [surfaceCommandsCount] or [MAX_COMMAND_COUNTERS] and
    [currentFrame]. *)
Definition sliceOffset (count frame view : Z) : Z :=
  wrap32 (count * wrap32 (wrap32 (MAX_VIEWS * frame) + view)).
End WithLimits.

(** Sample: the state before the first [Free], and the calls of a map
    load followed by two frames with two views each. *)
Definition sampleState : FrameState :=
  {| generatedWorldCommandBuffer := false; currentFrame := 0; nextFrame := 0;
     frameViewCount := fun _ => 0 |}.

Definition sampleCalls : list Call :=
  [ CallGenerateWorldMaterials;
    CallStartFrame; CallQueueSurfaceCull; CallQueueSurfaceCull; CallEndFrame;
    CallStartFrame; CallQueueSurfaceCull; CallQueueSurfaceCull; CallEndFrame ].

End Frames.

(** ** GenerateWorldCommandBuffer: the batch table and the command ids *)

Module BatchTable.
Export Batches.

(** A [SurfaceCommandBatch]: [materialIDs[0]] and [materialIDs[1]]. *)
Record SurfaceCommandBatch := {
  materialIDs0 : Z;
  materialIDs1 : Z
}.

(** [surfaceCommandBatches[i] = {}]. *)
Definition emptyBatch : SurfaceCommandBatch :=
  {| materialIDs0 := 0; materialIDs1 := 0 |}.

Section WithLimits.
(** Constants of the header. The mapped range of [surfaceBatchesUBO]
    has [MAX_SURFACE_COMMAND_BATCHES] entries. *)
Variable MAX_SURFACE_COMMAND_BATCHES : Z.
Variable SURFACE_COMMANDS_PER_BATCH : Z.

(** [for ( uint32_t i = 0; i < mat.surfaceCommandBatchCount; i++ )]
    with [n] iterations to go. The result is [id] and the table;
    [None] when an entry outside the table is written. *)
Fixpoint fillMaterial (n : nat) (matID offset id : Z)
    (table : Z -> SurfaceCommandBatch)
  : option (Z * (Z -> SurfaceCommandBatch)) :=
  match n with
  | O => Some (id, table)
  | S n' =>
      if (0 <=? id) && (id <? MAX_SURFACE_COMMAND_BATCHES) then
        fillMaterial n' matID offset (wrap32 (id + 1))
          (upd table id {| materialIDs0 := matID; materialIDs1 := offset |})
      else None
  end.

(** The loops over the packs and their Materials that fill the table;
    the Materials are taken in the order of the two loops. *)
Fixpoint fillBatches (ms : list Material) (matID id : Z)
    (table : Z -> SurfaceCommandBatch)
  : option (Z * (Z -> SurfaceCommandBatch)) :=
  match ms with
  | [] => Some (id, table)
  | mat :: rest =>
      match fillMaterial (Z.to_nat (surfaceCommandBatchCount mat)) matID
              (surfaceCommandBatchOffset mat) id table with
      | None => None
      | Some (id1, table1) => fillBatches rest (wrap32 (matID + 1)) id1 table1
      end
  end.

(** The table after the loop that clears it and the loops that fill
    it, with the final [id]. *)
Definition fillTable (packs : list MaterialPack)
  : option (Z * (Z -> SurfaceCommandBatch)) :=
  fillBatches (allMaterials packs) 0 0 (fun _ => emptyBatch).

(** [surfaceCommandsCount = totalBatchCount * SURFACE_COMMANDS_PER_BATCH]. *)
Definition surfaceCommandsCount (totalBatchCount : Z) : Z :=
  wrap32 (totalBatchCount * SURFACE_COMMANDS_PER_BATCH).

(** [cmdID = material->surfaceCommandBatchOffset *
    SURFACE_COMMANDS_PER_BATCH + drawSurf->drawCommandIDs[stage]], the
    index into [surfaceCommands]. [RenderIndirect] draws the
    [drawCommands.size()] commands from the one of index 0 on. *)
Definition surfaceCommandID (material : Material) (drawCommandID : Z) : Z :=
  wrap32 (wrap32 (surfaceCommandBatchOffset material * SURFACE_COMMANDS_PER_BATCH)
          + drawCommandID).
End WithLimits.

End BatchTable.

(** ** GenerateDepthImages and DepthReduction: the depth pyramid *)

Module DepthPyramid.

(** [w > 1 ? w >> 1 : 1] on an [int]. *)
Definition halve (w : Z) : Z := if 1 <? w then Z.shiftr w 1 else 1.

(** The loop of [GenerateDepthImages] with [n] iterations to go: the
    level, width and height of every [glTexImage2D] call. *)
Fixpoint sizeLevels (n : nat) (i mipmapWidth mipmapHeight : Z)
  : list (Z * Z * Z) :=
  match n with
  | O => []
  | S n' =>
      (i, mipmapWidth, mipmapHeight)
        :: sizeLevels n' (i + 1) (halve mipmapWidth) (halve mipmapHeight)
  end.

(** [GenerateDepthImages( width, height, imageParms )] for a given
    [depthImageLevels]. The member is [log2f( std::max( width, height ) )
    + 1] converted to an integer; the floating-point logarithm is not
    evaluated here. *)
Definition GenerateDepthImages (depthImageLevels width height : Z)
  : list (Z * Z * Z) :=
  sizeLevels (Z.to_nat depthImageLevels) 0 width height.

(** One [DispatchCompute] of the depth reduction shader with the image
    levels bound and the uniforms set for it. [readLevel] is [None] for
    the first dispatch, which reads [tr.currentDepthImage]. *)
Record Dispatch := {
  readLevel : option Z;
  writeLevel : Z;
  InitialDepthLevel : bool;
  ViewWidth : Z;
  ViewHeight : Z;
  globalWorkgroupX : Z;
  globalWorkgroupY : Z
}.

(** [( width + 7 ) / 8] on [int]s, stored in a [uint32_t]. *)
Definition workgroups (width : Z) : Z := wrap32 (Z.quot (width + 7) 8).

(** The loop of [DepthReduction] with [n] iterations to go. *)
Fixpoint reduceLevels (n : nat) (i width height : Z) : list Dispatch :=
  match n with
  | O => []
  | S n' =>
      let width1 := halve width in
      let height1 := halve height in
      {| readLevel := Some i; writeLevel := i + 1; InitialDepthLevel := false;
         ViewWidth := width1; ViewHeight := height1;
         globalWorkgroupX := workgroups width1;
         globalWorkgroupY := workgroups height1 |}
        :: reduceLevels n' (i + 1) width1 height1
  end.

(** [DepthReduction()] on a depth image of the given size: the
    dispatches in order; none when [r_lockpvs] is set. *)
Definition DepthReduction (r_lockpvs : bool) (depthImageLevels width height : Z)
  : list Dispatch :=
  if r_lockpvs then []
  else
    {| readLevel := None; writeLevel := 0; InitialDepthLevel := true;
       ViewWidth := width; ViewHeight := height;
       globalWorkgroupX := workgroups width;
       globalWorkgroupY := workgroups height |}
      :: reduceLevels (Z.to_nat depthImageLevels) 0 width height.

(** The size of level [i] of the pyramid of an image [w] wide. *)
Definition levelSize (w i : Z) : Z := Z.max 1 (Z.shiftr w i).

End DepthPyramid.

(** ** GeneratePortalBoundingSpheres: the initial portal buffer *)

Module PortalBounds.
Export Portals.

(** The members and the array [portalSurfs] that
    [GeneratePortalBoundingSpheres] fills. A draw surface is its address.
    The centre and the radius of a sphere are floating-point data and are
    left out of [PortalSurface]. An element of the freshly allocated
    array that was never assigned is [None]. *)
Record Spheres := {
  totalPortals : Z;
  portalSurfaces : list Z;
  portalBounds : list PortalSurface;
  portalSurfs : Z -> option PortalSurface
}.

Section WithLimits.
Variable MAX_FRAMES : Z.
Variable MAX_VIEWS : Z.

(** [for ( uint32_t j = 0; j < MAX_VIEWS; j++ ) portalSurfs[index +
    ( i * MAX_VIEWS + j ) * totalPortals] = sphere;] *)
Definition fillViews (total index i : Z) (sphere : PortalSurface)
    (arr : Z -> option PortalSurface) : Z -> option PortalSurface :=
  fold_left
    (fun a j =>
       upd a (wrap32 (index
                      + wrap32 (wrap32 (wrap32 (i * MAX_VIEWS) + j) * total)))
           (Some sphere))
    (seqZ 0 MAX_VIEWS) arr.

(** [for ( uint32_t i = 0; i < MAX_FRAMES; i++ )] around it. *)
Definition fillFrames (total index : Z) (sphere : PortalSurface)
    (arr : Z -> option PortalSurface) : Z -> option PortalSurface :=
  fold_left (fun a i => fillViews total index i sphere a) (seqZ 0 MAX_FRAMES) arr.

(** The loop over [portalSurfacesTmp], from [index] on. *)
Fixpoint addSpheres (tmp : list Z) (index : Z) (s : Spheres) : Spheres :=
  match tmp with
  | [] => s
  | drawSurf :: rest =>
      let surfaces1 := portalSurfaces s ++ [drawSurf] in
      let sphere :=
        {| drawSurfID := wrap32 (Z.of_nat (length surfaces1) - 1);
           distance := -1 |} in
      addSpheres rest (wrap32 (index + 1))
        {| totalPortals := totalPortals s;
           portalSurfaces := surfaces1;
           portalBounds := portalBounds s ++ [sphere];
           portalSurfs := fillFrames (totalPortals s) index sphere (portalSurfs s) |}
  end.

(** [GeneratePortalBoundingSpheres()] with [portalSurfacesTmp] and the
    lists it appends to; the array is new. *)
Definition GeneratePortalBoundingSpheres (portalSurfacesTmp : list Z)
    (surfaces : list Z) (bounds : list PortalSurface) : Spheres :=
  let total := wrap32 (Z.of_nat (length portalSurfacesTmp)) in
  let s0 := {| totalPortals := total; portalSurfaces := surfaces;
               portalBounds := bounds; portalSurfs := fun _ => None |} in
  if total =? 0 then s0 else addSpheres portalSurfacesTmp 0 s0.

(** The [totalPortals] records at [portalSurfs + viewID *
    totalPortals] that [AddPortalSurface] copies; a record that was
    never assigned is left out. *)
Definition viewSlice (s : Spheres) (viewID : Z) : list PortalSurface :=
  omap (fun k => portalSurfs s (wrap32 (viewID * totalPortals s) + k))
       (seqZ 0 (totalPortals s)).
End WithLimits.

(** The spheres appended for [n] portals when [len] surfaces were listed
    before: portal [k] of them names the surface [len + k]. *)
Definition spheresFrom (len n : Z) : list PortalSurface :=
  (fun k => {| drawSurfID := len + k; distance := -1 |}) <$> seqZ 0 n.

(** A portal that passes the first two tests of the loop of
    [AddPortalSurface]: neither culled nor off screen. *)
Definition visible (PortalOffScreenOrOutOfRange : Z -> bool) (p : PortalSurface)
  : bool :=
  negb (distance p =? -1) && negb (PortalOffScreenOrOutOfRange (drawSurfID p)).

(** The surface of the [i]-th portal of a list, 0 past its end. *)
Definition nthID (vis : list PortalSurface) (i : Z) : Z :=
  match vis !! Z.to_nat i with
  | Some p => drawSurfID p
  | None => 0
  end.

End PortalBounds.

(** ** The stages a classification has placed *)

Module StageUses.
Import Classifier.

(** What [ProcessStage] records for one stage of one surface: the
    surface (its address), the stage number, the pack and the Material it
    stored in [materialPackIDs] and [materialIDs], and the flag
    [pStage->dynamic] it counted the stage by. *)
Record StageUse := {
  useSurf : Z;
  useStage : Z;
  usePack : Z;
  useMaterial : Z;
  useDynamic : bool
}.

(** The stage [k] of a surface, read from the surface. *)
Definition useAt (d : drawSurf_t.t) (k : nat) (pStage : shaderStage.t) : StageUse :=
  {| useSurf := drawSurf_t.addr d;
     useStage := Z.of_nat k;
     usePack := drawSurf_t.materialPackIDs d (Z.of_nat k);
     useMaterial := drawSurf_t.materialIDs d (Z.of_nat k);
     useDynamic := Dynamics.dynamic (shaderStage.dynamics pStage) |}.

(** The stages of a surface that [GenerateWorldMaterials] hands to
    [ProcessStage]: all of them, or none when the surface is passed
    over. *)
Definition stageUses (d : drawSurf_t.t) : list StageUse :=
  match eligibleShader d with
  | None => []
  | Some _ => imap (useAt d) (drawSurf_t.stages d)
  end.

Definition allUses (ds : list drawSurf_t.t) : list StageUse :=
  concat (map stageUses ds).

Definition uses (pack material : Z) (u : StageUse) : bool :=
  (usePack u =? pack) && (useMaterial u =? material).

(** The stages placed in a Material, and those of them that are dynamic
    or not. *)
Definition usesOf (pack material : Z) (us : list StageUse) : list StageUse :=
  List.filter (uses pack material) us.

Definition usesBy (pack material : Z) (dynamic : bool) (us : list StageUse)
  : list StageUse :=
  List.filter (fun u => uses pack material u && Bool.eqb (useDynamic u) dynamic) us.

(** What the Material [material] of the pack [p] holds once the stages
    [us] are placed: the counts, and the surfaces listed once each. *)
Definition countedRow (p material : Z) (us : list StageUse) (m : Material) : Prop :=
  totalStaticDrawSurfCount m = Z.of_nat (length (usesBy p material false us)) /\
  totalDynamicDrawSurfCount m = Z.of_nat (length (usesBy p material true us)) /\
  totalDrawSurfCount m = Z.of_nat (length (usesOf p material us)) /\
  currentStaticDrawSurfCount m = 0 /\
  currentDynamicDrawSurfCount m = 0 /\
  NoDup (drawSurfs m) /\
  (forall a,
     a ∈ drawSurfs m <-> exists u, u ∈ usesOf p material us /\ useSurf u = a).

Definition counted (p : Z) (us : list StageUse) (ms : list Material) : Prop :=
  forall (i : nat) m, ms !! i = Some m -> countedRow p (Z.of_nat i) us m.

(** Every stage names a Material that exists. *)
Definition usesInRange (c : Classified) (us : list StageUse) : Prop :=
  forall u,
    u ∈ us ->
    0 <= useMaterial u < Z.of_nat (length (materialsOf c (usePack u))).

End StageUses.

(** ** GenerateWorldMaterialsBuffer: the slots of the stages *)

Module BuildSlots.
Export Update.

Definition set_materialsSSBOOffset (v : Z) (s : SurfStage) : SurfStage :=
  {| colorDynamic := colorDynamic s; texMatricesDynamic := texMatricesDynamic s;
     dynamic := dynamic s; surfaceDataUpdater := surfaceDataUpdater s;
     materialIDs := materialIDs s; materialPackIDs := materialPackIDs s;
     materialsSSBOOffset := v; initialized := initialized s |}.

(** The draw surfaces that the pointers in [Material::drawSurfs] point
    to, by address; [None] where there is no surface. *)
Definition Store := Z -> option drawSurf_t.

(** What the third loop of [GenerateWorldMaterialsBuffer] writes besides
    the Materials: the mapped buffer, the draw surfaces and the member
    [dynamicDrawSurfs]. The calls that only add textures and draw
    commands to the Material ([AddStageTextures], and the surface and
    colour functions that end in [AddDrawCommand]) are left out, with
    [tess] and [drawCommandIDs]. *)
Record Build := {
  buffer : Buffer;
  surfaces : Store;
  dynamicDrawSurfs : list drawSurf_t
}.

Section WithShaders.
Variable GetPaddedSize : GLShader -> Z.
Variable uniformWords : Updater -> Material -> SurfStage -> list Z.
(** The member [dynamicDrawSurfsOffset], set by the second pass. *)
Variable dynamicDrawSurfsOffset : Z.

(** The body of the stage loop for a stage of the Material: the slot,
    the data updater, and for a dynamic stage the slot counted from
    [dynamicDrawSurfsOffset]. [None] is the division by a padded size
    of 0 or [ASSERT_UNREACHABLE] in the updater. Modelled from the
    spec: [MapBufferRange( offset )] is not among the sources; the
    pointer [materialsData] it returns is word 0 of the buffer. *)
Definition slotStage (s : SurfStage) (material : Material) (buf : Buffer)
  : option (SurfStage * Material * Buffer) :=
  if paddedSizeOf GetPaddedSize material =? 0 then None
  else
    let drawSurfCount :=
      if dynamic s then currentDynamicDrawSurfCount material
      else currentStaticDrawSurfCount material in
    let slot := stageSlot GetPaddedSize material (dynamic s) in
    let material1 := takeSlot material (dynamic s) in
    let s1 := set_materialsSSBOOffset slot s in
    match runUpdater GetPaddedSize uniformWords 0 material1 s1 buf with
    | None => None
    | Some (buf1, s2) =>
        let s3 :=
          if dynamic s
          then set_materialsSSBOOffset
                 (dynamicStageSlot GetPaddedSize dynamicDrawSurfsOffset
                                   material1 drawSurfCount) s2
          else s2 in
        Some (s3, material1, buf1)
    end.

(** The loop over the stages of one draw surface, for one Material of
    the pack [materialPackID]. *)
Fixpoint slotStages (materialPackID : Z) (stages : list SurfStage)
    (material : Material) (buf : Buffer) (hasDynamicStages : bool)
  : option (list SurfStage * Material * Buffer * bool) :=
  match stages with
  | [] => Some ([], material, buf, hasDynamicStages)
  | s :: rest =>
      if negb (materialIDs s =? id material)
         || negb (materialPackIDs s =? materialPackID)
      then
        match slotStages materialPackID rest material buf hasDynamicStages with
        | None => None
        | Some (rest1, material1, buf1, h1) => Some (s :: rest1, material1, buf1, h1)
        end
      else
        match slotStage s material buf with
        | None => None
        | Some (s3, material1, buf1) =>
            match slotStages materialPackID rest material1 buf1
                    (hasDynamicStages || dynamic s) with
            | None => None
            | Some (rest1, material2, buf2, h2) =>
                Some (s3 :: rest1, material2, buf2, h2)
            end
        end
  end.

(** The loop over [material.drawSurfs]. [None] also when a pointer
    leads to no surface. *)
Fixpoint slotSurfs (materialPackID : Z) (drawSurfs : list Z)
    (material : Material) (b : Build) : option (Material * Build) :=
  match drawSurfs with
  | [] => Some (material, b)
  | drawSurf :: rest =>
      match surfaces b drawSurf with
      | None => None
      | Some stages =>
          match slotStages materialPackID stages material (buffer b) false with
          | None => None
          | Some (stages1, material1, buf1, hasDynamicStages) =>
              slotSurfs materialPackID rest material1
                {| buffer := buf1;
                   surfaces := upd (surfaces b) drawSurf (Some stages1);
                   dynamicDrawSurfs :=
                     if hasDynamicStages
                     then dynamicDrawSurfs b ++ [stages1]
                     else dynamicDrawSurfs b |}
          end
      end
  end.

(** The loop over the Materials of one pack. *)
Fixpoint slotMaterials (materialPackID : Z) (ms : list Material) (b : Build)
  : option (list Material * Build) :=
  match ms with
  | [] => Some ([], b)
  | material :: rest =>
      match slotSurfs materialPackID (drawSurfs material) material b with
      | None => None
      | Some (material1, b1) =>
          match slotMaterials materialPackID rest b1 with
          | None => None
          | Some (rest1, b2) => Some (material1 :: rest1, b2)
          end
      end
  end.

(** One round of [for ( materialPackID = 0; materialPackID < 3; ... )];
    [None] when [materialPacks] has no such element. *)
Definition slotPack (materialPackID : Z) (r : list MaterialPack * Build)
  : option (list MaterialPack * Build) :=
  match fst r !! Z.to_nat materialPackID with
  | None => None
  | Some pack =>
      match slotMaterials materialPackID (materials pack) (snd r) with
      | None => None
      | Some (ms1, b1) =>
          Some (<[Z.to_nat materialPackID := set_materials ms1 pack]> (fst r), b1)
      end
  end.

Definition slotPacks (packs : list MaterialPack) (b : Build)
  : option (list MaterialPack * Build) :=
  match slotPack 0 (packs, b) with
  | None => None
  | Some r1 =>
      match slotPack 1 r1 with
      | None => None
      | Some r2 => slotPack 2 r2
      end
  end.
End WithShaders.

(** *** What the loop leaves, stage by stage *)

(** The test of the stage loop passed: the stage belongs to the Material. *)
Definition matches (materialPackID : Z) (material : Material) (s : SurfStage) : bool :=
  (materialIDs s =? id material) && (materialPackIDs s =? materialPackID).

(** A stage of the Material that is dynamic, or one that is not. *)
Definition kind (materialPackID : Z) (material : Material) (dyn : bool)
    (s : SurfStage) : bool :=
  matches materialPackID material s && Bool.eqb (dynamic s) dyn.

Definition countKind (materialPackID : Z) (material : Material) (dyn : bool)
    (stages : list SurfStage) : Z :=
  Z.of_nat (length (List.filter (kind materialPackID material dyn) stages)).

Definition stagesAt (store : Store) (a : Z) : list SurfStage :=
  default [] (store a).

Definition countKindIn (store : Store) (materialPackID : Z) (material : Material)
    (dyn : bool) (addrs : list Z) : Z :=
  sumZ (map (fun a => countKind materialPackID material dyn (stagesAt store a)) addrs).

(** The Material with its two current counts set. *)
Definition atCounts (cs cd : Z) (m : Material) : Material :=
  set_currentDynamicDrawSurfCount cd (set_currentStaticDrawSurfCount cs m).

Section Slotted.
Variable GetPaddedSize : GLShader -> Z.
Variable dynamicDrawSurfsOffset : Z.

(** The slot stored last for the instance [c] of a Material: counted
    from the start of the buffer for a stage that is not dynamic, from
    [dynamicDrawSurfsOffset] for a dynamic one. *)
Definition slotValue (m : Material) (dyn : bool) (c : Z) : Z :=
  if dyn then dynamicStageSlot GetPaddedSize dynamicDrawSurfsOffset m c
  else stageSlot GetPaddedSize (set_currentStaticDrawSurfCount c m) false.

(** A stage as the loop body leaves it when it gives it the instance
    [c]. *)
Definition slottedStage (m : Material) (c : Z) (s : SurfStage) : SurfStage :=
  {| colorDynamic := colorDynamic s; texMatricesDynamic := texMatricesDynamic s;
     dynamic := dynamic s; surfaceDataUpdater := surfaceDataUpdater s;
     materialIDs := materialIDs s; materialPackIDs := materialPackIDs s;
     materialsSSBOOffset := slotValue m (dynamic s) c;
     initialized :=
       match surfaceDataUpdater s with
       | UpdateSurfaceDataNOP => initialized s
       | _ => true
       end |}.

(** The stages of a surface as the stage loop leaves them for a
    Material whose current counts were [cs] and [cd]. *)
Definition slottedStages (materialPackID : Z) (m : Material) (cs cd : Z)
    (stages : list SurfStage) : list SurfStage :=
  imap (fun k s =>
          if matches materialPackID m s
          then slottedStage m
                 ((if dynamic s then cd else cs)
                  + countKind materialPackID m (dynamic s) (take k stages)) s
          else s)
       stages.
End Slotted.

(** The copies that the loop over [material.drawSurfs] appends to
    [dynamicDrawSurfs]: one for each surface with a dynamic stage of the
    Material, as the surface is at that time. *)
Fixpoint surfCopies (GetPaddedSize : GLShader -> Z) (dynamicDrawSurfsOffset : Z)
    (store : Store) (materialPackID : Z) (m : Material) (cs cd : Z)
    (addrs : list Z) : list drawSurf_t :=
  match addrs with
  | [] => []
  | a :: rest =>
      let stages := stagesAt store a in
      (if existsb (kind materialPackID m true) stages
       then [slottedStages GetPaddedSize dynamicDrawSurfsOffset materialPackID m
                           cs cd stages]
       else [])
      ++ surfCopies GetPaddedSize dynamicDrawSurfsOffset store materialPackID m
           (cs + countKind materialPackID m false stages)
           (cd + countKind materialPackID m true stages) rest
  end.

(** *** The state between two Materials of the loop *)

(** Two states of one stage: they differ at most in the slot and in
    [initialized]. *)
Definition sameShape (s s' : SurfStage) : Prop :=
  colorDynamic s = colorDynamic s' /\
  texMatricesDynamic s = texMatricesDynamic s' /\
  dynamic s = dynamic s' /\
  surfaceDataUpdater s = surfaceDataUpdater s' /\
  materialIDs s = materialIDs s' /\
  materialPackIDs s = materialPackIDs s'.

Section Invariant.
Variable GetPaddedSize : GLShader -> Z.
Variable dynamicDrawSurfsOffset : Z.
(** The draw surfaces when the loop begins. *)
Variable store0 : Store.

(** The instance the loop gives the stage [k] of the surface at
    position [j] of the Material's [drawSurfs]: the Material's count of
    that kind when the loop begins, plus the stages of the Material and
    of that kind in the surfaces listed before, plus those before the
    stage in the surface. *)
Definition instanceOf (q : Z) (m : Material) (j k : nat)
    (stages0 : list SurfStage) (dyn : bool) : Z :=
  (if dyn then currentDynamicDrawSurfCount m else currentStaticDrawSurfCount m)
  + countKindIn store0 q m dyn (take j (drawSurfs m))
  + countKind q m dyn (take k stages0).

(** The stage [k] of the surface [a], once the loop has run for the
    Materials [done] (each with its pack): the stage as the Material it
    belongs to left it, or as it was. *)
Definition stageInv (done : list (Z * Material)) (a : Z) (k : nat)
    (stages0 : list SurfStage) (s0 s : SurfStage) : Prop :=
  sameShape s s0 /\
  (forall q m (j : nat),
     (q, m) ∈ done -> matches q m s0 = true -> drawSurfs m !! j = Some a ->
     s = slottedStage GetPaddedSize dynamicDrawSurfsOffset m
           (instanceOf q m j k stages0 (dynamic s0)) s0) /\
  ((forall q m, (q, m) ∈ done -> matches q m s0 = true -> a ∉ drawSurfs m) ->
   s = s0).

Definition storeInv (done : list (Z * Material)) (store : Store) : Prop :=
  forall a,
    match store0 a with
    | None => store a = None
    | Some stages0 =>
        exists stages,
          store a = Some stages /\ length stages = length stages0 /\
          forall (k : nat) s0,
            stages0 !! k = Some s0 ->
            exists s, stages !! k = Some s /\ stageInv done a k stages0 s0 s
    end.

(** What the loop needs of a Material of the pack [q] at the position
    [i]: its id is its position, its stride is not 0, its surfaces are
    listed once each and exist, none of their stages has the updater
    that must not be called, and its counts do not wrap. *)
Definition slotReady (q : Z) (i : nat) (m : Material) : Prop :=
  id m = Z.of_nat i /\
  0 < paddedSizeOf GetPaddedSize m /\
  NoDup (drawSurfs m) /\
  (forall a,
     a ∈ drawSurfs m ->
     exists stages0,
       store0 a = Some stages0 /\
       Forall (fun s => surfaceDataUpdater s <> UpdateSurfaceDataNONE) stages0) /\
  0 <= currentStaticDrawSurfCount m /\
  0 <= currentDynamicDrawSurfCount m /\
  currentStaticDrawSurfCount m + countKindIn store0 q m false (drawSurfs m) < 2 ^ 32 /\
  currentDynamicDrawSurfCount m + countKindIn store0 q m true (drawSurfs m) < 2 ^ 32.

(** The Material as the loop leaves it. *)
Definition slotsTaken (q : Z) (m : Material) : Material :=
  atCounts
    (currentStaticDrawSurfCount m + countKindIn store0 q m false (drawSurfs m))
    (currentDynamicDrawSurfCount m + countKindIn store0 q m true (drawSurfs m))
    m.

(** [stages] are the stages of the surface [a] once the loop has run
    for the Materials [done]. *)
Definition surfInv (done : list (Z * Material)) (a : Z)
    (stages : list SurfStage) : Prop :=
  exists stages0,
    store0 a = Some stages0 /\ length stages = length stages0 /\
    forall (k : nat) s0,
      stages0 !! k = Some s0 ->
      exists s, stages !! k = Some s /\ stageInv done a k stages0 s0 s.

(** The surfaces of a Material that have a dynamic stage of it: the
    loop copies each when it has run over its stages. *)
Definition copiedFor (q : Z) (m : Material) : list Z :=
  List.filter (fun a => existsb (kind q m true) (stagesAt store0 a)) (drawSurfs m).

(** The copies in the order the loop makes them, each with the
    Materials the loop has run for when it is made, the Material that
    makes it being the last of them. *)
Fixpoint copyVisits (q : Z) (done : list (Z * Material)) (ms : list Material)
  : list (list (Z * Material) * Z) :=
  match ms with
  | [] => []
  | m :: rest =>
      map (pair (done ++ [(q, m)])) (copiedFor q m)
      ++ copyVisits q (done ++ [(q, m)]) rest
  end.
End Invariant.

(** The Materials of the pack [q], each with the pack's number. *)
Definition packDone (packs : list MaterialPack) (q : nat) : list (Z * Material) :=
  match packs !! q with
  | Some pack => map (pair (Z.of_nat q)) (materials pack)
  | None => []
  end.

(** The Materials of the three packs the loop runs over, in its order. *)
Definition allDone (packs : list MaterialPack) : list (Z * Material) :=
  packDone packs 0 ++ packDone packs 1 ++ packDone packs 2.

(** The copies of the whole loop. *)
Definition allCopyVisits (store0 : Store) (packs : list MaterialPack)
  : list (list (Z * Material) * Z) :=
  let ms q := match packs !! q with Some pack => materials pack | None => [] end in
  copyVisits store0 0 [] (ms 0%nat)
  ++ copyVisits store0 1 (packDone packs 0) (ms 1%nat)
  ++ copyVisits store0 2 (packDone packs 0 ++ packDone packs 1) (ms 2%nat).

(** [GenerateWorldMaterialsBuffer]: the two layout passes, the buffer
    allocated and set to 0, and the third loop. [surfaces] are the draw
    surfaces on entry and [dynamicDrawSurfs] the member on entry. *)
Definition GenerateWorldMaterialsBuffer_all (GetPaddedSize : GLShader -> Z)
    (uniformWords : Updater -> Material -> SurfStage -> list Z)
    (packs : list MaterialPack) (oldDynamicDrawSurfsOffset : Z)
    (surfaces : Store) (dynamicDrawSurfs : list drawSurf_t)
  : option (MaterialsBuffer * Build) :=
  let layout :=
    GenerateWorldMaterialsBuffer GetPaddedSize packs oldDynamicDrawSurfsOffset in
  match slotPacks GetPaddedSize uniformWords (bufferDynamicDrawSurfsOffset layout)
          (materialPacks layout)
          {| buffer := fun _ => 0; surfaces := surfaces;
             dynamicDrawSurfs := dynamicDrawSurfs |} with
  | None => None
  | Some (packs1, b) =>
      Some ({| materialPacks := packs1;
               bufferDynamicDrawSurfsOffset := bufferDynamicDrawSurfsOffset layout;
               dynamicDrawSurfsSize := dynamicDrawSurfsSize layout;
               bufferSize := bufferSize layout |}, b)
  end.

End BuildSlots.

(** ** Sample layouts *)

Module LayoutSamples.
Export Layout.

(** A Material of stride 8 with one static and one dynamic instance, and
    one of stride 12 with one dynamic instance. *)
Definition mixedStridePacks : list MaterialPack :=
  [ samplePack [];
    samplePack [ sampleMaterial gl_genericShaderMaterial 1 1;
                 sampleMaterial gl_lightMappingShaderMaterial 0 1 ];
    samplePack [] ].

End LayoutSamples.

(** ** A sample for the third loop *)

Module SlotSamples.
Export BuildSlots.

Definition sampleStage (dyn : bool) (u : Updater) (materialID : Z) : SurfStage :=
  {| colorDynamic := false; texMatricesDynamic := false; dynamic := dyn;
     surfaceDataUpdater := u; materialIDs := materialID; materialPackIDs := 1;
     materialsSSBOOffset := 77; initialized := false |}.

(** Two surfaces: the one at 100 has a dynamic stage in Material 0 and a
    dynamic stage in Material 1 of pack 1, the one at 200 a stage in
    Material 0 that is not dynamic. All slots are 77 on entry. *)
Definition sampleStore : Store :=
  fun a =>
    if a =? 100
    then Some [ sampleStage true UpdateSurfaceDataGeneric3D 0;
                sampleStage true UpdateSurfaceDataLightMapping 1 ]
    else if a =? 200
    then Some [ sampleStage false UpdateSurfaceDataGeneric3D 0 ]
    else None.

Definition sampleSlotMaterial (i : Z) (s : GLShader) (nStatic nDynamic : Z)
    (surfs : list Z) : Material :=
  set_drawSurfs surfs (set_id i (sampleMaterial s nStatic nDynamic)).

(** The two Materials, of strides 8 and 12, as the layout passes leave
    them. *)
Definition sampleSlotPacks : list MaterialPack :=
  materialPacks
    (GenerateWorldMaterialsBuffer sampleStride
       [ samplePack [];
         samplePack [ sampleSlotMaterial 0 gl_genericShaderMaterial 1 1 [100; 200];
                      sampleSlotMaterial 1 gl_lightMappingShaderMaterial 0 1 [100] ];
         samplePack [] ] 0).

Definition sampleBase : Z :=
  bufferDynamicDrawSurfsOffset
    (GenerateWorldMaterialsBuffer sampleStride
       [ samplePack [];
         samplePack [ sampleSlotMaterial 0 gl_genericShaderMaterial 1 1 [100; 200];
                      sampleSlotMaterial 1 gl_lightMappingShaderMaterial 0 1 [100] ];
         samplePack [] ] 0).

Definition sampleBuild : Build :=
  {| buffer := fun _ => 0; surfaces := sampleStore; dynamicDrawSurfs := [] |}.
End SlotSamples.

(** ** A sample for the repeated update *)

Module UpdateSamples.
Export Update.

(** The dynamic flags that make an updater write on every call. *)
Definition flagged (s : SurfStage) : bool :=
  colorDynamic s || texMatricesDynamic s || dynamic s.

(** The first call of the updater for the stage writes no more than every
    later call: the updater does nothing, or the stage is initialised, or
    it has a dynamic flag. *)
Definition steady (s : SurfStage) : Prop :=
  surfaceDataUpdater s = UpdateSurfaceDataNOP \/ initialized s = true \/
  flagged s = true.

(** A surface of [Layout.samplePacks] with one stage that is neither
    dynamic nor initialised. *)
Definition freshSurf : drawSurf_t :=
  [ {| colorDynamic := false; texMatricesDynamic := false; dynamic := false;
       surfaceDataUpdater := UpdateSurfaceDataGeneric3D;
       materialIDs := 1; materialPackIDs := 1;
       materialsSSBOOffset := 0; initialized := false |} ].
End UpdateSamples.

(** ** GenerateWorldMaterials up to and with GenerateWorldMaterialsBuffer *)

Module Pipeline.
Import Classifier StageUses.

Section Surfaces.
(** [pStage->surfaceDataUpdater]; [ProcessStage] does not read it. *)
Variable updaterOf : shaderStage.t -> Update.Updater.
(** [drawSurf->materialsSSBOOffset[stage]] and
    [drawSurf->initialized[stage]] when [GenerateWorldMaterialsBuffer]
    is entered, by the address of the surface and the stage. *)
Variable slot0 : Z -> Z -> Z.
Variable init0 : Z -> Z -> bool.

(** The stage [k] of a surface, as the third loop of
    [GenerateWorldMaterialsBuffer] and the updaters read it. *)
Definition surfStage (d : drawSurf_t.t) (k : nat) (pStage : shaderStage.t)
  : Update.SurfStage :=
  {| Update.colorDynamic := Dynamics.colorDynamic (shaderStage.dynamics pStage);
     Update.texMatricesDynamic :=
       Dynamics.texMatricesDynamic (shaderStage.dynamics pStage);
     Update.dynamic := Dynamics.dynamic (shaderStage.dynamics pStage);
     Update.surfaceDataUpdater := updaterOf pStage;
     Update.materialIDs := drawSurf_t.materialIDs d (Z.of_nat k);
     Update.materialPackIDs := drawSurf_t.materialPackIDs d (Z.of_nat k);
     Update.materialsSSBOOffset := slot0 (drawSurf_t.addr d) (Z.of_nat k);
     Update.initialized := init0 (drawSurf_t.addr d) (Z.of_nat k) |}.

Definition surfStages (d : drawSurf_t.t) : Update.drawSurf_t :=
  imap (surfStage d) (drawSurf_t.stages d).

(** The surfaces of [tr.refdef.drawSurfs] by their addresses. *)
Fixpoint storeOf (ds : list drawSurf_t.t) : BuildSlots.Store :=
  match ds with
  | [] => fun _ => None
  | d :: rest =>
      fun a => if a =? drawSurf_t.addr d then Some (surfStages d) else storeOf rest a
  end.

(** [GenerateWorldMaterials] from the loop over the surfaces to the
    return of [GenerateWorldMaterialsBuffer]; [Material_eq] is
    [Material::operator==]. *)
Definition GenerateWorldMaterials_built (K : RendererConstants)
    (Material_eq : Material -> Material -> bool)
    (GetPaddedSize : GLShader -> Z)
    (uniformWords : Update.Updater -> Material -> Update.SurfStage -> list Z)
    (drawSurfs : list drawSurf_t.t) (oldDynamicDrawSurfsOffset : Z)
    (dynamicDrawSurfs : list Update.drawSurf_t)
  : option (Layout.MaterialsBuffer * BuildSlots.Build) :=
  match GenerateWorldMaterials K Material_eq drawSurfs with
  | None => None
  | Some (c, outs) =>
      BuildSlots.GenerateWorldMaterialsBuffer_all GetPaddedSize uniformWords
        (packsOf c) oldDynamicDrawSurfsOffset (storeOf outs) dynamicDrawSurfs
  end.
End Surfaces.

(** The number of stages of a surface that a Material holds, by kind. *)
Definition usesIn (p i : Z) (dyn : bool) (d : drawSurf_t.t) : Z :=
  Z.of_nat (length (usesBy p i dyn (stageUses d))).
End Pipeline.

(** ** A sample for the update after a build *)

Module BuildSamples.
Import Classifier.

(** A stage whose texture scrolls: [ComputeDynamics] marks it dynamic. *)
Definition scrollStage : shaderStage.t :=
  {| shaderStage.stateBits := 0x65; shaderStage.shaderBinder := BindShaderGeneric3D;
     shaderStage.materialProcessor := ProcessMaterialGeneric3D;
     shaderStage.dynamics :=
       Dynamics.plainStage
         [ {| Dynamics.texMods := [ Dynamics.plainTexMod Dynamics.TMOD_SCROLL
                                      Dynamics.GF_NONE ];
              Dynamics.isVideoMap := false; Dynamics.numImages := 1 |} ];
     shaderStage.useMaterialSystem := false |}.

(** One world surface at the address 100 with two stages: a scrolling
    stage of the generic shader and a plain stage of the light-mapping
    shader. *)
Definition scrollWorld : list drawSurf_t.t :=
  [ sampleSurf 100 [scrollStage; diffuseStage] ].

Definition updaterOfBinder (pStage : shaderStage.t) : Update.Updater :=
  match shaderStage.shaderBinder pStage with
  | BindShaderLightMapping => Update.UpdateSurfaceDataLightMapping
  | _ => Update.UpdateSurfaceDataGeneric3D
  end.

(** The build of [scrollWorld] with strides 8 (generic) and 12 (light
    mapping); on entry no stage is initialised and every slot is 0. *)
Definition scrollBuild : option (Layout.MaterialsBuffer * BuildSlots.Build) :=
  Pipeline.GenerateWorldMaterials_built updaterOfBinder (fun _ _ => 0)
    (fun _ _ => false) sampleConstants Material_eqb Layout.sampleStride
    Update.sampleWords scrollWorld 0 [].

(** Words for the updaters to store: one padded instance of 1 for the
    generic updater, of 2 for the light-mapping updater. *)
Definition frameWords (u : Update.Updater) (m : Material) (s : Update.SurfStage)
  : list Z :=
  replicate (Z.to_nat (Layout.paddedSizeOf Layout.sampleStride m))
            (match u with Update.UpdateSurfaceDataLightMapping => 2 | _ => 1 end).
End BuildSamples.

(** * Theorems *)

(** ** Machine integers *)

Lemma wrap32_small z : is_u32 z -> wrap32 z = z.
Proof. intros H. apply Z.mod_small. exact H. Qed.

Lemma wrap32_range z : is_u32 (wrap32 z).
Proof. unfold is_u32, wrap32. apply Z.mod_pos_bound. lia. Qed.

Lemma upd_same {A} (f : Z -> A) k v : upd f k v k = v.
Proof. unfold upd. now rewrite Z.eqb_refl. Qed.

Lemma upd_other {A} (f : Z -> A) k v x : x <> k -> upd f k v x = f x.
Proof. unfold upd. intros H. destruct (Z.eqb_spec x k); congruence. Qed.


Module DynamicsFacts.
Import Dynamics.

(** The parts of the condition that the code does honour: colour and alpha
    generators, video maps and multiple images, and every modifier other
    than a stretch. *)
Lemma ComputeDynamics_color s :
  rgbGenDynamic (rgbGen s) || alphaGenDynamic (alphaGen s) = true ->
  dynamic (ComputeDynamics s) = true.
Proof.
  intros H. cbn. rewrite H. rewrite !orb_true_r. cbn.
  now rewrite ?orb_true_r.
Qed.

Lemma ComputeDynamics_textures s :
  existsb bundleSetsTextures (bundle s) = true ->
  dynamic (ComputeDynamics s) = true.
Proof. intros H. cbn. rewrite H. now rewrite !orb_true_r. Qed.

Lemma ComputeDynamics_texMod s b tm :
  In b (bundle s) -> In tm (texMods b) ->
  type tm <> TMOD_STRETCH -> timeVarying tm = true ->
  dynamic (ComputeDynamics s) = true.
Proof.
  intros Hb Htm Hty Htv. cbn.
  assert (existsb bundleSetsTexMatrices (bundle s) = true) as ->.
  { apply existsb_exists. exists b. split; [exact Hb |].
    apply existsb_exists. exists tm. split; [exact Htm |].
    unfold timeVarying in Htv. unfold texModSets.
    destruct (type tm); try exact Htv; congruence. }
  now rewrite !orb_true_r.
Qed.

(** C8 (failing input). The stage [scaleThenStretch] carries a stretch
    modifier driven by a sine wave, so the specification wants it dynamic;
    [ComputeDynamics] judges the stretch on the wave of the bundle's first
    modifier (the scale, whose wave is [GF_NONE]) and leaves the stage
    static. *)
Theorem ComputeDynamics_stretch_reads_first_texMod :
  mustBeDynamic scaleThenStretch = true /\
  dynamic (ComputeDynamics scaleThenStretch) = false /\
  texMatricesDynamic (ComputeDynamics scaleThenStretch) = false.
Proof. repeat split; reflexivity. Qed.

End DynamicsFacts.

Module DrawCommandsFacts.
Import DrawCommands.

(** C9. [AddTexture] leaves through [Sys::Drop] with its diagnostic when the
    pending command already holds [MAX_DRAWCOMMAND_TEXTURES] textures (or
    more); otherwise it stores the texture in the next free slot, leaves the
    other slots alone and raises the count by exactly one. *)
Theorem AddTexture_full_drops_else_appends
    (MAX_DRAWCOMMAND_TEXTURES : Z) (cmd : DrawCommand) (texture : Z) :
  MAX_DRAWCOMMAND_TEXTURES < 2 ^ 32 ->
  0 <= textureCount cmd ->
  (MAX_DRAWCOMMAND_TEXTURES <= textureCount cmd ->
     AddTexture MAX_DRAWCOMMAND_TEXTURES cmd texture
     = Dropped "Exceeded max DrawCommand textures") /\
  (textureCount cmd < MAX_DRAWCOMMAND_TEXTURES ->
     exists cmd',
       AddTexture MAX_DRAWCOMMAND_TEXTURES cmd texture = Returned cmd' /\
       textureCount cmd' = textureCount cmd + 1 /\
       textures cmd' (textureCount cmd) = texture /\
       forall i, i <> textureCount cmd -> textures cmd' i = textures cmd i).
Proof.
  intros Hmax Hcount. unfold AddTexture. split; intros H.
  - destruct (Z.leb_spec MAX_DRAWCOMMAND_TEXTURES (textureCount cmd)); [reflexivity | lia].
  - destruct (Z.leb_spec MAX_DRAWCOMMAND_TEXTURES (textureCount cmd)); [lia |].
    eexists. split; [reflexivity |]. cbn. repeat split.
    + apply wrap32_small. unfold is_u32. lia.
    + apply upd_same.
    + intros i Hi. now apply upd_other.
Qed.

Lemma AddTexture_full_drops_else_appends_witness :
  (64 <= textureCount emptyCommand ->
     AddTexture 64 emptyCommand 7 = Dropped "Exceeded max DrawCommand textures") /\
  (textureCount emptyCommand < 64 ->
     exists cmd',
       AddTexture 64 emptyCommand 7 = Returned cmd' /\
       textureCount cmd' = textureCount emptyCommand + 1 /\
       textures cmd' (textureCount emptyCommand) = 7 /\
       forall i, i <> textureCount emptyCommand ->
                 textures cmd' i = textures emptyCommand i).
Proof.
  apply (AddTexture_full_drops_else_appends 64 emptyCommand 7).
  - reflexivity.
  - cbn. lia.
Defined.

End DrawCommandsFacts.

(** ** Loops over all Materials *)

Module LoopFacts.
Import MaterialTypes.

Lemma forPacks_flat {S} (body : S -> Material -> S * Material) packs :
  forall s,
    forMaterials body s (allMaterials packs)
    = (fst (forPacks body s packs), allMaterials (snd (forPacks body s packs))).
Proof.
  induction packs as [| pack rest IH]; intros s; [reflexivity |].
  unfold allMaterials in *. cbn [map List.concat forPacks].
  destruct (forMaterials body s (materials pack)) as [s1 ms'] eqn:E1.
  specialize (IH s1).
  destruct (forPacks body s1 rest) as [s2 rest'] eqn:E2. cbn [fst snd] in *.
  cbn [map List.concat materials set_materials].
  revert s ms' E1. generalize (materials pack) as ms.
  induction ms as [| m ms IHms]; intros s ms' E1.
  - cbn in E1. injection E1 as <- <-. cbn. exact IH.
  - cbn [forMaterials app] in *.
    destruct (body s m) as [sa m'].
    destruct (forMaterials body sa ms) as [sb ms''] eqn:E3.
    injection E1 as <- <-.
    rewrite (IHms sa ms'' E3). reflexivity.
Qed.

Lemma elem_of_allMaterials packs pack m :
  pack ∈ packs -> m ∈ materials pack -> m ∈ allMaterials packs.
Proof.
  intros Hp Hm. unfold allMaterials.
  apply list_elem_of_In, in_concat. exists (materials pack). split.
  - apply in_map, list_elem_of_In, Hp.
  - apply list_elem_of_In, Hm.
Qed.

Lemma sumZ_app l1 l2 : sumZ (l1 ++ l2) = sumZ l1 + sumZ l2.
Proof.
  unfold sumZ. induction l1 as [| x l1 IH]; cbn [app fold_right]; [reflexivity | rewrite IH; lia].
Qed.

Lemma sumZ_nonneg l : Forall (fun x => 0 <= x) l -> 0 <= sumZ l.
Proof. unfold sumZ. induction 1; cbn [fold_right]; lia. Qed.

Lemma allMaterials_app l1 l2 :
  allMaterials (l1 ++ l2) = allMaterials l1 ++ allMaterials l2.
Proof. unfold allMaterials. now rewrite map_app, concat_app. Qed.

Lemma allMaterials_cons pack l :
  allMaterials (pack :: l) = materials pack ++ allMaterials l.
Proof. reflexivity. Qed.

Lemma allMaterials_middle l1 pack l2 (j : nat) m :
  materials pack !! j = Some m ->
  let i := (length (allMaterials l1) + j)%nat in
  allMaterials (l1 ++ pack :: l2) !! i = Some m /\
  take i (allMaterials (l1 ++ pack :: l2))
  = allMaterials l1 ++ take j (materials pack).
Proof.
  intros Hj i. rewrite allMaterials_app, allMaterials_cons. subst i. split.
  - rewrite lookup_app_r by lia.
    replace (length (allMaterials l1) + j - length (allMaterials l1))%nat
      with j by lia.
    apply lookup_app_l_Some, Hj.
  - rewrite take_app_add. f_equal.
    apply take_app_le. apply lookup_lt_Some in Hj. lia.
Qed.

(** Position of the [j]-th Material of the [k]-th pack in the order of the
    loops, and the Materials that come before it. *)
Lemma allMaterials_pack_lookup packs (k : nat) pack (j : nat) m :
  packs !! k = Some pack -> materials pack !! j = Some m ->
  let i := (length (allMaterials (take k packs)) + j)%nat in
  allMaterials packs !! i = Some m /\
  take i (allMaterials packs)
  = allMaterials (take k packs) ++ take j (materials pack).
Proof.
  intros Hk Hj.
  pose proof (allMaterials_middle (take k packs) pack (drop (S k) packs) j m Hj) as H.
  rewrite (take_drop_middle packs k pack Hk) in H. exact H.
Qed.

Lemma Forall2_chain {A B C} (R : A -> B -> Prop) (R' : B -> C -> Prop)
    (R'' : A -> C -> Prop) :
  (forall x y z, R x y -> R' y z -> R'' x z) ->
  forall l1 l2 l3, Forall2 R l1 l2 -> Forall2 R' l2 l3 -> Forall2 R'' l1 l3.
Proof.
  intros H l1 l2 l3 H1. revert l3.
  induction H1 as [| x y l1 l2 Hxy _ IH]; intros l3 H2; inversion H2; subst;
    constructor; eauto.
Qed.

Lemma forMaterials_shape {S} (body : S -> Material -> S * Material)
    (R : Material -> Material -> Prop) :
  (forall s m, R m (snd (body s m))) ->
  forall ms s, Forall2 R ms (snd (forMaterials body s ms)).
Proof.
  intros H. induction ms as [| m rest IH]; intros s; cbn [forMaterials];
    [constructor |].
  pose proof (H s m) as Hm. destruct (body s m) as [s1 m'].
  pose proof (IH s1) as Hrest. destruct (forMaterials body s1 rest) as [s2 rest'].
  constructor; assumption.
Qed.

Lemma forPacks_shape {S} (body : S -> Material -> S * Material)
    (R : Material -> Material -> Prop) :
  (forall s m, R m (snd (body s m))) ->
  forall packs s,
    Forall2 (fun pk pk' => Forall2 R (materials pk) (materials pk'))
            packs (snd (forPacks body s packs)).
Proof.
  intros H. induction packs as [| pack rest IH]; intros s; cbn [forPacks];
    [constructor |].
  pose proof (forMaterials_shape body R H (materials pack) s) as Hm.
  destruct (forMaterials body s (materials pack)) as [s1 ms'].
  pose proof (IH s1) as Hrest. destruct (forPacks body s1 rest) as [s2 rest'].
  constructor; assumption.
Qed.

Lemma forPacks_packs {S} (body : S -> Material -> S * Material) :
  forall packs s,
    Forall2 (fun pk pk' => pk' = set_materials (materials pk') pk)
            packs (snd (forPacks body s packs)).
Proof.
  induction packs as [| pack rest IH]; intros s; cbn [forPacks]; [constructor |].
  destruct (forMaterials body s (materials pack)) as [s1 ms'].
  pose proof (IH s1) as Hrest. destruct (forPacks body s1 rest) as [s2 rest'].
  constructor; [reflexivity | exact Hrest].
Qed.

(** A relation between the Materials in pack order holds pack by pack
    when the packs have the same sizes. *)
Lemma Forall2_by_pack (R : Material -> Material -> Prop) packs :
  forall packs',
    Forall2 (fun pk pk' => length (materials pk) = length (materials pk'))
            packs packs' ->
    Forall2 R (allMaterials packs) (allMaterials packs') ->
    Forall2 (fun pk pk' => Forall2 R (materials pk) (materials pk')) packs packs'.
Proof.
  induction packs as [| pk rest IH]; intros packs' Hlen Hall;
    inversion Hlen as [| ? pk' ? rest' Hl Hrest]; subst; [constructor |].
  unfold allMaterials in Hall. cbn [map concat] in Hall.
  apply Forall2_app_inv in Hall as [H1 H2]; [| exact Hl].
  constructor; [exact H1 | exact (IH rest' Hrest H2)].
Qed.

Lemma Forall2_allMaterials (R : Material -> Material -> Prop) packs packs' :
  Forall2 (fun pk pk' => Forall2 R (materials pk) (materials pk')) packs packs' ->
  Forall2 R (allMaterials packs) (allMaterials packs').
Proof.
  induction 1 as [| pk pk' rest rest' H _ IH]; [constructor |].
  unfold allMaterials in *. cbn [map concat]. apply Forall2_app; assumption.
Qed.

End LoopFacts.

(** ** GenerateWorldMaterialsBuffer: alignment and extent of the regions *)

Module LayoutFacts.
Import Layout LoopFacts.

Section WithPaddedSize.
Variable GetPaddedSize : GLShader -> Z.

Local Abbreviation p := (paddedSizeOf GetPaddedSize).
Local Abbreviation wf := (wfMaterial GetPaddedSize).

Lemma padding_spec off ps :
  0 < ps < 2 ^ 32 -> 0 <= off ->
  0 <= padding off ps < ps /\ (off + padding off ps) mod ps = 0.
Proof.
  intros Hps Hoff. unfold padding.
  pose proof (Z.mod_pos_bound off ps ltac:(lia)) as Hr.
  destruct (Z.eqb_spec (off mod ps) 0) as [E | E].
  - rewrite Z.add_0_r. lia.
  - rewrite wrap32_small by (unfold is_u32; lia).
    split; [lia |].
    replace (off + (ps - off mod ps)) with ((off / ps + 1) * ps)
      by (pose proof (Z.div_mod off ps ltac:(lia)); lia).
    apply Z.mod_mul. lia.
Qed.

Lemma p_set_dynamic v m : p (set_dynamicMaterialsSSBOOffset v m) = p m.
Proof. reflexivity. Qed.

Lemma p_set_static v m : p (set_staticMaterialsSSBOOffset v m) = p m.
Proof. reflexivity. Qed.

Lemma staticDemand_cons m ms :
  staticDemand GetPaddedSize (m :: ms)
  = p m * (1 + totalStaticDrawSurfCount m) + staticDemand GetPaddedSize ms.
Proof. reflexivity. Qed.

Lemma dynamicDemand_cons m ms :
  dynamicDemand GetPaddedSize (m :: ms)
  = p m * (1 + totalDynamicDrawSurfCount m) + dynamicDemand GetPaddedSize ms.
Proof. reflexivity. Qed.

Lemma dynamicPayload_cons m ms :
  dynamicPayload GetPaddedSize (m :: ms)
  = p m * totalDynamicDrawSurfCount m + dynamicPayload GetPaddedSize ms.
Proof. reflexivity. Qed.

Lemma padding_aligned off ps :
  0 < ps -> off mod ps = 0 -> padding off ps = 0.
Proof. intros _ H. unfold padding. now rewrite H. Qed.

Lemma staticStep_eq off m :
  wf m -> 0 <= off ->
  off + p m * (1 + totalStaticDrawSurfCount m) < 2 ^ 32 ->
  staticStep GetPaddedSize off m
  = (off + padding off (p m) + p m * totalStaticDrawSurfCount m,
     set_staticMaterialsSSBOOffset (off + padding off (p m)) m).
Proof.
  intros (Hp & HS & HD) Hoff Hb. unfold staticStep.
  assert (p m < 2 ^ 32) by nia.
  destruct (padding_spec off (p m)) as [Hpad _]; [lia | lia |].
  assert (0 <= p m * totalStaticDrawSurfCount m) by nia.
  rewrite (wrap32_small (off + _)) by (unfold is_u32; nia).
  rewrite (wrap32_small (p m * _)) by (unfold is_u32; nia).
  rewrite wrap32_small by (unfold is_u32; nia).
  reflexivity.
Qed.

Lemma dynamicStep_eq s m :
  wf m -> 0 <= offset s ->
  offset s + p m * (1 + totalDynamicDrawSurfCount m) < 2 ^ 32 ->
  dynamicStep GetPaddedSize s m
  = ({| offset := offset s + padding (offset s) (p m)
                  + p m * totalDynamicDrawSurfCount m;
        dynamicDrawSurfOffsetSet := true;
        dynamicDrawSurfsOffset :=
          if dynamicDrawSurfOffsetSet s then dynamicDrawSurfsOffset s
          else offset s + padding (offset s) (p m) |},
     set_dynamicMaterialsSSBOOffset (offset s + padding (offset s) (p m)) m).
Proof.
  intros (Hp & HS & HD) Hoff Hb. unfold dynamicStep.
  assert (p m < 2 ^ 32) by nia.
  destruct (padding_spec (offset s) (p m)) as [Hpad _]; [lia | lia |].
  assert (0 <= p m * totalDynamicDrawSurfCount m) by nia.
  rewrite (wrap32_small (offset s + _)) by (unfold is_u32; nia).
  rewrite (wrap32_small (p m * _)) by (unfold is_u32; nia).
  rewrite wrap32_small by (unfold is_u32; nia).
  reflexivity.
Qed.

Lemma staticDemand_nonneg ms : Forall wf ms -> 0 <= staticDemand GetPaddedSize ms.
Proof.
  intros H. apply sumZ_nonneg, Forall_map.
  eapply Forall_impl; [exact H |]. intros m (? & ? & ?). cbn. nia.
Qed.

Lemma dynamicDemand_nonneg ms : Forall wf ms -> 0 <= dynamicDemand GetPaddedSize ms.
Proof.
  intros H. apply sumZ_nonneg, Forall_map.
  eapply Forall_impl; [exact H |]. intros m (? & ? & ?). cbn. nia.
Qed.

Lemma layoutDemand_split ms :
  layoutDemand GetPaddedSize ms
  = staticDemand GetPaddedSize ms + dynamicDemand GetPaddedSize ms.
Proof.
  unfold layoutDemand, staticDemand, dynamicDemand, sumZ.
  induction ms as [| m ms IH]; cbn [map fold_right]; [reflexivity | rewrite IH; lia].
Qed.

Lemma static_pass ms :
  forall off,
    Forall wf ms -> 0 <= off -> off + staticDemand GetPaddedSize ms < 2 ^ 32 ->
    let r := forMaterials (staticStep GetPaddedSize) off ms in
    off <= fst r <= off + staticDemand GetPaddedSize ms /\
    Forall2 (staticPlaced GetPaddedSize off (fst r)) ms (snd r).
Proof.
  induction ms as [| m ms IH]; intros off Hwf Hoff Hb.
  - cbn. unfold staticDemand, sumZ. cbn. split; [lia | constructor].
  - apply Forall_cons in Hwf as [Hm Hms].
    pose proof (staticDemand_nonneg ms Hms) as Hnn.
    unfold staticDemand in Hb, Hnn |- *. cbn [map sumZ fold_right] in Hb |- *.
    fold (sumZ (map (fun m => p m * (1 + totalStaticDrawSurfCount m)) ms)) in Hb |- *.
    destruct Hm as (Hp & HS & HD).
    assert (p m < 2 ^ 32) by nia.
    destruct (padding_spec off (p m)) as [Hpad Hal]; [lia | lia |].
    cbn [forMaterials].
    rewrite staticStep_eq by (first [split; [| split]; assumption | lia | nia]).
    set (off1 := off + padding off (p m) + p m * totalStaticDrawSurfCount m).
    assert (0 <= p m * totalStaticDrawSurfCount m) by nia.
    specialize (IH off1 Hms ltac:(subst off1; lia)
                   ltac:(subst off1; unfold staticDemand; nia)).
    destruct (forMaterials (staticStep GetPaddedSize) off1 ms) as [o2 ms'] eqn:E.
    cbn [fst snd] in *. destruct IH as [IHb IHf]. unfold staticDemand in IHb.
    split; [subst off1; nia |].
    constructor.
    + unfold staticPlaced. cbn. repeat split; lia.
    + eapply Forall2_impl; [exact IHf |].
      intros a b (? & ? & ? & ?). unfold staticPlaced. repeat split; try assumption.
      subst off1. lia.
Qed.


Lemma dynamic_pass ms :
  forall s,
    Forall wf ms -> 0 <= offset s ->
    offset s + dynamicDemand GetPaddedSize ms < 2 ^ 32 ->
    let r := forMaterials (dynamicStep GetPaddedSize) s ms in
    offset s <= offset (fst r) <= offset s + dynamicDemand GetPaddedSize ms /\
    Forall2 (dynamicPlaced GetPaddedSize (offset s) (offset (fst r))) ms (snd r) /\
    (dynamicDrawSurfOffsetSet s = true ->
     dynamicDrawSurfsOffset (fst r) = dynamicDrawSurfsOffset s).
Proof.
  induction ms as [| m ms IH]; intros s Hwf Hoff Hb.
  - cbn. unfold dynamicDemand, sumZ. cbn. split; [lia | split; [constructor | reflexivity]].
  - apply Forall_cons in Hwf as [Hm Hms].
    pose proof (dynamicDemand_nonneg ms Hms) as Hnn.
    unfold dynamicDemand in Hb, Hnn |- *. cbn [map sumZ fold_right] in Hb |- *.
    fold (sumZ (map (fun m => p m * (1 + totalDynamicDrawSurfCount m)) ms)) in Hb |- *.
    destruct Hm as (Hp & HS & HD).
    assert (p m < 2 ^ 32) by nia.
    destruct (padding_spec (offset s) (p m)) as [Hpad Hal]; [lia | lia |].
    cbn [forMaterials].
    rewrite dynamicStep_eq by (first [split; [| split]; assumption | lia | nia]).
    set (s1 := Build_DynamicPass _ _ _).
    assert (0 <= p m * totalDynamicDrawSurfCount m) by nia.
    specialize (IH s1 Hms ltac:(subst s1; cbn; lia)
                   ltac:(subst s1; cbn; unfold dynamicDemand; nia)).
    destruct (forMaterials (dynamicStep GetPaddedSize) s1 ms) as [s2 ms'] eqn:E.
    cbn [fst snd] in *. destruct IH as (IHb & IHf & IHd).
    unfold dynamicDemand in IHb. subst s1. cbn [offset dynamicDrawSurfOffsetSet
      dynamicDrawSurfsOffset] in *.
    split; [nia |]. split.
    + constructor.
      * unfold dynamicPlaced. cbn. repeat split; lia.
      * eapply Forall2_impl; [exact IHf |].
        intros a b (? & ? & ? & ?). unfold dynamicPlaced. repeat split; try assumption.
        lia.
    + intros Hset. rewrite IHd by reflexivity. now rewrite Hset.
Qed.

Lemma dynamic_pass_telescope ms :
  forall m s,
    Forall wf (m :: ms) -> 0 <= offset s ->
    offset s + dynamicDemand GetPaddedSize (m :: ms) < 2 ^ 32 ->
    let r := forMaterials (dynamicStep GetPaddedSize) s (m :: ms) in
    exists m' rest',
      snd r = m' :: rest' /\
      p m' = p m /\
      dynamicMaterialsSSBOOffset m' = offset s + padding (offset s) (p m) /\
      (dynamicDrawSurfOffsetSet s = false ->
       dynamicDrawSurfsOffset (fst r) = dynamicMaterialsSSBOOffset m') /\
      offset (fst r)
      = dynamicMaterialsSSBOOffset m'
        + dynamicPayload GetPaddedSize (snd r) + dynamicGaps GetPaddedSize (snd r).
Proof.
  induction ms as [| n ms IH]; intros m s Hwf Hoff Hb.
  - apply Forall_cons in Hwf as [Hm _].
    rewrite dynamicDemand_cons in Hb. unfold dynamicDemand, sumZ in Hb. cbn in Hb.
    cbn [forMaterials]. rewrite dynamicStep_eq by (first [assumption | lia]).
    cbn [fst snd]. eexists _, _. split; [reflexivity |].
    rewrite dynamicPayload_cons, p_set_dynamic.
    cbn. unfold dynamicPayload, sumZ. cbn. repeat split; try lia.
    intros ->. reflexivity.
  - apply Forall_cons in Hwf as [Hm Hms].
    pose proof (dynamicDemand_nonneg _ Hms) as Hnn.
    rewrite dynamicDemand_cons in Hb.
    pose proof Hm as (Hp & HS & HD).
    assert (0 <= p m * totalDynamicDrawSurfCount m) by nia.
    assert (p m < 2 ^ 32) by nia.
    destruct (padding_spec (offset s) (p m)) as [Hpad Hal]; [lia | lia |].
    change (forMaterials (dynamicStep GetPaddedSize) s (m :: n :: ms))
      with (let '(s1, m') := dynamicStep GetPaddedSize s m in
            let '(s2, rest') := forMaterials (dynamicStep GetPaddedSize) s1 (n :: ms) in
            (s2, m' :: rest')).
    rewrite dynamicStep_eq by (first [assumption | lia]).
    set (s1 := Build_DynamicPass _ _ _).
    assert (0 <= offset s1) as Hs1 by (subst s1; cbn [offset]; lia).
    assert (offset s1 + dynamicDemand GetPaddedSize (n :: ms) < 2 ^ 32) as Hb1
        by (subst s1; cbn [offset]; lia).
    pose proof (dynamic_pass (n :: ms) s1 Hms Hs1 Hb1) as (_ & _ & Hkeep).
    specialize (IH n s1 Hms Hs1 Hb1).
    destruct (forMaterials (dynamicStep GetPaddedSize) s1 (n :: ms)) as [s2 ms'] eqn:E.
    cbn [fst snd] in *.
    destruct IH as (n' & rest' & -> & Hpn & Hdn & _ & Hend).
    eexists _, _. split; [reflexivity |].
    subst s1. cbn [offset dynamicDrawSurfOffsetSet dynamicDrawSurfsOffset] in *.
    split; [reflexivity |]. split; [reflexivity |]. split.
    + intros Hset. rewrite Hkeep by reflexivity. now rewrite Hset.
    + rewrite Hend, (dynamicPayload_cons _ (n' :: rest')), p_set_dynamic.
      cbn [dynamicGaps]. rewrite p_set_dynamic, Hdn, Hpn. cbn. lia.
Qed.

Lemma padding_nonneg off ps : 0 <= padding off ps.
Proof.
  unfold padding. destruct (off mod ps =? 0); [lia |].
  apply wrap32_range.
Qed.

Lemma dynamicGaps_nonneg ms : 0 <= dynamicGaps GetPaddedSize ms.
Proof.
  induction ms as [| m [| n ms] IH]; cbn [dynamicGaps]; try lia.
  pose proof (padding_nonneg
                (dynamicMaterialsSSBOOffset m + p m * totalDynamicDrawSurfCount m) (p n)).
  cbn [dynamicGaps] in IH. lia.
Qed.

Lemma dynamicGaps_one_stride stride ms :
  0 < stride ->
  Forall (fun m => p m = stride /\ dynamicMaterialsSSBOOffset m mod p m = 0) ms ->
  dynamicGaps GetPaddedSize ms = 0.
Proof.
  intros Hst. induction 1 as [| m l [Hp Hal] Hl IH]; [reflexivity |].
  destruct l as [| n l]; [reflexivity |].
  cbn [dynamicGaps] in *. rewrite IH.
  apply Forall_cons in Hl as [[Hpn _] _].
  rewrite padding_aligned; [lia | lia |].
  rewrite Hpn, <- Hp. rewrite Z.mul_comm, Z.mod_add by lia. exact Hal.
Qed.

(** The dynamic range starts at the first Material's dynamic region:
    no later region starts before it. *)
Lemma dynamic_pass_first ms :
  forall m s,
    Forall wf (m :: ms) -> 0 <= offset s ->
    offset s + dynamicDemand GetPaddedSize (m :: ms) < 2 ^ 32 ->
    dynamicDrawSurfOffsetSet s = false ->
    let r := forMaterials (dynamicStep GetPaddedSize) s (m :: ms) in
    Forall (fun m' => dynamicDrawSurfsOffset (fst r) <= dynamicMaterialsSSBOOffset m')
           (snd r).
Proof.
  intros m s Hwf Hoff Hb Hset.
  apply Forall_cons in Hwf as [Hm Hms].
  pose proof (dynamicDemand_nonneg _ Hms) as Hnn.
  rewrite dynamicDemand_cons in Hb.
  pose proof Hm as (Hp & HS & HD).
  assert (0 <= p m * totalDynamicDrawSurfCount m) by nia.
  assert (p m < 2 ^ 32) by nia.
  destruct (padding_spec (offset s) (p m)) as [Hpad Hal]; [lia | lia |].
  cbn [forMaterials].
  rewrite dynamicStep_eq by (first [assumption | lia]).
  set (s1 := Build_DynamicPass _ _ _).
  assert (0 <= offset s1) as Hs1 by (subst s1; cbn [offset]; lia).
  assert (offset s1 + dynamicDemand GetPaddedSize ms < 2 ^ 32) as Hb1
      by (subst s1; cbn [offset]; lia).
  pose proof (dynamic_pass ms s1 Hms Hs1 Hb1) as (_ & Hf & Hkeep).
  destruct (forMaterials (dynamicStep GetPaddedSize) s1 ms) as [s2 ms'] eqn:E.
  cbn [fst snd] in *. rewrite Hkeep by reflexivity.
  subst s1. cbn [offset dynamicDrawSurfsOffset] in *. rewrite Hset.
  constructor.
  - cbn. lia.
  - apply Forall_forall. intros x Hx.
    apply list_elem_of_lookup in Hx as [i Hi].
    destruct (Forall2_lookup_r _ _ _ _ _ Hf Hi) as (m0 & _ & (_ & Hlo & _)).
    lia.
Qed.

(** The finished layout, on the flattened list of Materials. *)
Lemma layout_result packs old :
  Forall wf (allMaterials packs) ->
  layoutDemand GetPaddedSize (allMaterials packs) < 2 ^ 32 ->
  let buf := GenerateWorldMaterialsBuffer GetPaddedSize packs old in
  exists o1 ms1,
    0 <= o1 <= bufferSize buf /\ bufferSize buf < 2 ^ 32 /\
    Forall2 (staticPlaced GetPaddedSize 0 o1) (allMaterials packs) ms1 /\
    Forall2 (dynamicPlaced GetPaddedSize o1 (bufferSize buf))
            ms1 (allMaterials (materialPacks buf)) /\
    (allMaterials packs <> [] ->
     o1 <= bufferDynamicDrawSurfsOffset buf <= bufferSize buf /\
     dynamicDrawSurfsSize buf
     = dynamicPayload GetPaddedSize (allMaterials (materialPacks buf))
       + dynamicGaps GetPaddedSize (allMaterials (materialPacks buf))).
Proof.
  intros Hwf Hb. rewrite layoutDemand_split in Hb.
  pose proof (staticDemand_nonneg _ Hwf) as HnS.
  pose proof (dynamicDemand_nonneg _ Hwf) as HnD.
  unfold GenerateWorldMaterialsBuffer.
  pose proof (forPacks_flat (staticStep GetPaddedSize) packs 0) as Hflat1.
  destruct (forPacks (staticStep GetPaddedSize) 0 packs) as [o1 packs1] eqn:E1.
  cbn [fst snd] in Hflat1.
  pose proof (static_pass (allMaterials packs) 0 Hwf ltac:(lia) ltac:(lia)) as Hst.
  rewrite Hflat1 in Hst. cbn [fst snd] in Hst. destruct Hst as [Ho1 Hst].
  set (s1 := Build_DynamicPass _ _ _).
  assert (Forall wf (allMaterials packs1)) as Hwf1.
  { clear -Hwf Hst. induction Hst as [| a b la lb Hab _ IH]; [constructor |].
    apply Forall_cons in Hwf as [Ha Hla]. constructor; [| now apply IH].
    destruct Hab as (-> & _). exact Ha. }
  assert (dynamicDemand GetPaddedSize (allMaterials packs1)
          = dynamicDemand GetPaddedSize (allMaterials packs)) as HdemEq.
  { clear -Hst. unfold dynamicDemand, sumZ.
    induction Hst as [| a b la lb Hab _ IH]; [reflexivity |].
    cbn [map fold_right]. rewrite IH. destruct Hab as (-> & _). reflexivity. }
  assert (0 <= offset s1) as Hs1 by (subst s1; cbn [offset]; lia).
  assert (offset s1 + dynamicDemand GetPaddedSize (allMaterials packs1) < 2 ^ 32)
    as Hb1 by (rewrite HdemEq; subst s1; cbn [offset]; lia).
  pose proof (forPacks_flat (dynamicStep GetPaddedSize) packs1 s1) as Hflat2.
  destruct (forPacks (dynamicStep GetPaddedSize) s1 packs1) as [s2 packs2] eqn:E2.
  cbn [fst snd] in Hflat2.
  pose proof (dynamic_pass (allMaterials packs1) s1 Hwf1 Hs1 Hb1) as Hdy.
  rewrite Hflat2 in Hdy. cbn [fst snd] in Hdy.
  destruct Hdy as (Hb2 & Hdy & _).
  cbn [materialPacks bufferDynamicDrawSurfsOffset dynamicDrawSurfsSize bufferSize].
  exists o1, (allMaterials packs1).
  change (offset s1) with o1 in *.
  split; [lia |]. split; [lia |]. split; [exact Hst |]. split; [exact Hdy |].
  intros Hne.
  destruct (allMaterials packs1) as [| m1 ms1] eqn:Eall1.
  { inversion Hst as [Hnil |]. congruence. }
  pose proof (dynamic_pass_telescope ms1 m1 s1 Hwf1 Hs1 Hb1) as Htel.
  rewrite Hflat2 in Htel. cbn [fst snd] in Htel.
  destruct Htel as (m' & rest' & Hall2 & Hpm & Hdm & Hfirst & Hend).
  specialize (Hfirst eq_refl).
  pose proof (padding_nonneg o1 (p m1)) as Hpadnn.
  change (offset s1) with o1 in Hdm.
  assert (dynamicMaterialsSSBOOffset m' <= offset s2) as Hle.
  { rewrite Hall2 in Hdy. inversion Hdy as [| ? ? ? ? (_ & _ & _ & Hhi) _]; subst.
    apply Forall_cons in Hwf1 as [(? & ? & ?) _].
    assert (0 <= p m1 * totalDynamicDrawSurfCount m1) by nia. lia. }
  rewrite Hfirst. split; [lia |].
  rewrite wrap32_small by (unfold is_u32; lia).
  rewrite Hend. lia.
Qed.

Lemma placed_material packs old m :
  Forall wf (allMaterials packs) ->
  layoutDemand GetPaddedSize (allMaterials packs) < 2 ^ 32 ->
  let buf := GenerateWorldMaterialsBuffer GetPaddedSize packs old in
  m ∈ allMaterials (materialPacks buf) ->
  exists o1,
    0 <= o1 <= bufferSize buf /\ bufferSize buf < 2 ^ 32 /\
    wf m /\
    0 <= staticMaterialsSSBOOffset m /\
    staticMaterialsSSBOOffset m mod p m = 0 /\
    staticMaterialsSSBOOffset m + p m * totalStaticDrawSurfCount m <= o1 /\
    o1 <= dynamicMaterialsSSBOOffset m /\
    dynamicMaterialsSSBOOffset m mod p m = 0 /\
    dynamicMaterialsSSBOOffset m + p m * totalDynamicDrawSurfCount m <= bufferSize buf /\
    (allMaterials packs <> [] -> o1 <= bufferDynamicDrawSurfsOffset buf).
Proof.
  intros Hwf Hb buf Hm.
  destruct (layout_result packs old Hwf Hb) as (o1 & ms1 & Ho1 & Hsz & Hst & Hdy & Hne).
  fold buf in Ho1, Hsz, Hdy, Hne.
  apply list_elem_of_lookup in Hm as [i Hi].
  destruct (Forall2_lookup_r _ _ _ _ _ Hdy Hi) as (m1 & Hi1 & Hd).
  destruct (Forall2_lookup_r _ _ _ _ _ Hst Hi1) as (m0 & Hi0 & Hs).
  assert (wf m0) as Hwf0.
  { eapply Forall_lookup_1; [exact Hwf | exact Hi0]. }
  destruct Hs as (Hm1 & Hs1 & Hs2 & Hs3).
  destruct Hd as (Hm2 & Hd1 & Hd2 & Hd3).
  exists o1. rewrite Hm2. cbn [staticMaterialsSSBOOffset dynamicMaterialsSSBOOffset
    set_dynamicMaterialsSSBOOffset totalStaticDrawSurfCount totalDynamicDrawSurfCount].
  rewrite p_set_dynamic.
  assert (p m1 = p m0) as Hp by (rewrite Hm1; reflexivity).
  assert (totalStaticDrawSurfCount m1 = totalStaticDrawSurfCount m0) as HS
      by (rewrite Hm1; reflexivity).
  assert (wf m1) as Hwf1 by (rewrite Hm1; exact Hwf0).
  rewrite Hp in *.
  repeat split; try lia; try (rewrite <- ?Hp; apply Hwf1).
  intros Hn. apply Hne in Hn. lia.
Qed.

Lemma layout_nonempty packs old m :
  Forall wf (allMaterials packs) ->
  layoutDemand GetPaddedSize (allMaterials packs) < 2 ^ 32 ->
  m ∈ allMaterials (materialPacks (GenerateWorldMaterialsBuffer GetPaddedSize packs old)) ->
  allMaterials packs <> [].
Proof.
  intros Hwf Hb Hm Hnil.
  destruct (layout_result packs old Hwf Hb) as (o & ms1 & _ & _ & Hst & Hdy & _).
  rewrite Hnil in Hst.
  apply Forall2_nil_inv_l in Hst. subst ms1.
  apply Forall2_nil_inv_l in Hdy. rewrite Hdy in Hm. inversion Hm.
Qed.

(** The dynamic range [dynamicDrawSurfsOffset, dynamicDrawSurfsOffset +
    dynamicDrawSurfsSize) ends where the buffer ends and holds every
    Material's dynamic region. *)
Lemma dynamic_range packs old :
  Forall wf (allMaterials packs) ->
  layoutDemand GetPaddedSize (allMaterials packs) < 2 ^ 32 ->
  allMaterials packs <> [] ->
  let buf := GenerateWorldMaterialsBuffer GetPaddedSize packs old in
  0 <= bufferDynamicDrawSurfsOffset buf /\
  bufferDynamicDrawSurfsOffset buf + dynamicDrawSurfsSize buf = bufferSize buf /\
  bufferSize buf < 2 ^ 32 /\
  forall m,
    m ∈ allMaterials (materialPacks buf) ->
    wf m /\
    bufferDynamicDrawSurfsOffset buf <= dynamicMaterialsSSBOOffset m /\
    dynamicMaterialsSSBOOffset m + p m * totalDynamicDrawSurfCount m
    <= bufferSize buf.
Proof.
  intros Hwf Hb Hne buf.
  destruct (layout_result packs old Hwf Hb) as (o1 & ms1 & Ho1 & Hsz & Hst & _ & Hlay).
  fold buf in Ho1, Hsz, Hlay. destruct (Hlay Hne) as [Hoff _].
  assert (forall m, m ∈ allMaterials (materialPacks buf) ->
                    bufferDynamicDrawSurfsOffset buf <= dynamicMaterialsSSBOOffset m)
    as Hfirst.
  { clear Ho1 Hsz Hst Hlay Hoff. rewrite layoutDemand_split in Hb.
    pose proof (staticDemand_nonneg _ Hwf) as HnS.
    pose proof (dynamicDemand_nonneg _ Hwf) as HnD.
    subst buf. unfold GenerateWorldMaterialsBuffer.
    pose proof (forPacks_flat (staticStep GetPaddedSize) packs 0) as Hflat1.
    destruct (forPacks (staticStep GetPaddedSize) 0 packs) as [o1' packs1] eqn:E1.
    cbn [fst snd] in Hflat1.
    pose proof (static_pass (allMaterials packs) 0 Hwf ltac:(lia) ltac:(lia)) as Hst1.
    rewrite Hflat1 in Hst1. cbn [fst snd] in Hst1. destruct Hst1 as [Ho1' Hst1].
    set (s1 := Build_DynamicPass _ _ _) in *.
    assert (Forall wf (allMaterials packs1)) as Hwf1.
    { clear -Hwf Hst1. induction Hst1 as [| a b la lb Hab _ IH]; [constructor |].
      apply Forall_cons in Hwf as [Ha Hla]. constructor; [| now apply IH].
      destruct Hab as (-> & _). exact Ha. }
    assert (dynamicDemand GetPaddedSize (allMaterials packs1)
            = dynamicDemand GetPaddedSize (allMaterials packs)) as HdemEq.
    { clear -Hst1. unfold dynamicDemand, sumZ.
      induction Hst1 as [| a b la lb Hab _ IH]; [reflexivity |].
      cbn [map fold_right]. rewrite IH. destruct Hab as (-> & _). reflexivity. }
    assert (0 <= offset s1) as Hs1 by (subst s1; cbn [offset]; lia).
    assert (offset s1 + dynamicDemand GetPaddedSize (allMaterials packs1) < 2 ^ 32)
      as Hb1 by (rewrite HdemEq; subst s1; cbn [offset]; lia).
    pose proof (forPacks_flat (dynamicStep GetPaddedSize) packs1 s1) as Hflat2.
    destruct (forPacks (dynamicStep GetPaddedSize) s1 packs1) as [s2 packs2] eqn:E2.
    cbn [fst snd] in Hflat2.
    cbn [materialPacks bufferDynamicDrawSurfsOffset].
    destruct (allMaterials packs1) as [| m1 rest1] eqn:Eall1.
    { inversion Hst1 as [Hnil |]. congruence. }
    pose proof (dynamic_pass_first rest1 m1 s1 Hwf1 Hs1 Hb1 eq_refl) as Hall.
    rewrite Hflat2 in Hall. cbn [fst snd] in Hall.
    intros m Hm. exact (proj1 (Forall_forall _ _) Hall m Hm). }
  assert (bufferDynamicDrawSurfsOffset buf + dynamicDrawSurfsSize buf = bufferSize buf)
    as Hsum.
  { subst buf. unfold GenerateWorldMaterialsBuffer in *.
    destruct (forPacks (staticStep GetPaddedSize) 0 packs) as [o1' packs1].
    destruct (forPacks (dynamicStep GetPaddedSize) _ packs1) as [s2 packs2].
    cbn [bufferDynamicDrawSurfsOffset dynamicDrawSurfsSize bufferSize] in *.
    rewrite wrap32_small by (unfold is_u32; lia). lia. }
  split; [lia |]. split; [exact Hsum |]. split; [exact Hsz |].
  intros m Hm.
  destruct (placed_material packs old m Hwf Hb Hm)
    as (_ & _ & _ & Hwfm & _ & _ & _ & _ & _ & Hend & _).
  split; [exact Hwfm |]. split; [now apply Hfirst | exact Hend].
Qed.

(** C2. After the layout passes of [GenerateWorldMaterialsBuffer], the
    static and the dynamic region base of every Material of every pack
    are integer multiples of that Material's padded stride, provided each
    stride is positive and the whole layout fits a [uint32_t]. *)
Theorem region_bases_are_stride_multiples packs old :
  Forall wf (allMaterials packs) ->
  layoutDemand GetPaddedSize (allMaterials packs) < 2 ^ 32 ->
  forall pack m,
    pack ∈ materialPacks (GenerateWorldMaterialsBuffer GetPaddedSize packs old) ->
    m ∈ materials pack ->
    staticMaterialsSSBOOffset m mod p m = 0 /\
    dynamicMaterialsSSBOOffset m mod p m = 0.
Proof.
  intros Hwf Hb pack m Hpack Hm.
  pose proof (elem_of_allMaterials _ _ _ Hpack Hm) as Hall.
  destruct (placed_material packs old m Hwf Hb Hall)
    as (o1 & _ & _ & _ & _ & Hs & _ & _ & Hd & _).
  split; assumption.
Qed.

(** C3, as amended. With at least one Material, [dynamicDrawSurfsSize] is
    the sum of stride times dynamic instance count plus the alignment
    padding inserted before each Material after the first of the dynamic
    pass; the padding is never negative and vanishes when all Materials
    share one stride. Every static instance slot below a Material's
    [totalStaticDrawSurfCount] starts at the static base plus the slot
    index times the stride and ends at or before [dynamicDrawSurfsOffset]. *)
Theorem dynamic_size_is_payload_plus_padding packs old :
  allMaterials packs <> [] ->
  Forall wf (allMaterials packs) ->
  layoutDemand GetPaddedSize (allMaterials packs) < 2 ^ 32 ->
  let buf := GenerateWorldMaterialsBuffer GetPaddedSize packs old in
  let ms := allMaterials (materialPacks buf) in
  dynamicDrawSurfsSize buf
  = dynamicPayload GetPaddedSize ms + dynamicGaps GetPaddedSize ms /\
  0 <= dynamicGaps GetPaddedSize ms /\
  (forall stride, (forall m, m ∈ ms -> p m = stride) ->
                  dynamicDrawSurfsSize buf = dynamicPayload GetPaddedSize ms) /\
  (forall m c,
     m ∈ ms -> 0 <= c < totalStaticDrawSurfCount m ->
     staticSlotAddress GetPaddedSize m c = staticMaterialsSSBOOffset m + c * p m /\
     staticSlotAddress GetPaddedSize m c + p m <= bufferDynamicDrawSurfsOffset buf).
Proof.
  intros Hne Hwf Hb buf ms.
  destruct (layout_result packs old Hwf Hb) as (o1 & ms1 & Ho1 & Hsz & Hst & Hdy & Hsize).
  fold buf in Ho1, Hsz, Hdy, Hsize. specialize (Hsize Hne) as [Hoff Hsize].
  fold ms in Hsize.
  split; [exact Hsize |]. split; [apply dynamicGaps_nonneg |]. split.
  - intros stride Hall. rewrite Hsize.
    assert (ms <> []) as Hms.
    { intros Hnil. subst ms. rewrite Hnil in Hdy. inversion Hdy; subst.
      inversion Hst as [Hnil0 |]. congruence. }
    assert (0 < stride) as Hpos.
    { destruct ms as [| m0 ms0] eqn:Ems; [congruence |].
      assert (m0 ∈ allMaterials (materialPacks buf)) as Hin
          by (fold ms; rewrite Ems; left).
      destruct (placed_material packs old m0 Hwf Hb Hin) as (_ & _ & _ & (Hp0 & _) & _).
      rewrite <- (Hall m0) by left. exact Hp0. }
    rewrite (dynamicGaps_one_stride stride); [lia | exact Hpos |].
    apply Forall_forall. intros m Hm. split; [now apply Hall |].
    destruct (placed_material packs old m Hwf Hb Hm)
      as (_ & _ & _ & _ & _ & _ & _ & _ & Hd & _).
    exact Hd.
  - intros m c Hm Hc.
    destruct (placed_material packs old m Hwf Hb Hm)
      as (o & Ho & Hbs & (Hp & HS & HD) & Hs0 & Hs & Hse & _ & _ & _ & Hdo).
    fold buf in Ho, Hbs, Hdo. specialize (Hdo Hne).
    unfold staticSlotAddress, slotAddress, stageSlot.
    cbn [staticMaterialsSSBOOffset currentStaticDrawSurfCount
         set_currentStaticDrawSurfCount].
    change (paddedSizeOf GetPaddedSize (set_currentStaticDrawSurfCount c m)) with (p m).
    assert (0 <= c * p m) by nia.
    assert (c * p m + p m <= p m * totalStaticDrawSurfCount m) by nia.
    rewrite (wrap32_small (c * p m)) by (unfold is_u32; lia).
    rewrite (wrap32_small (_ + c * p m)) by (unfold is_u32; lia).
    apply Z.mod_divide in Hs as [k Hk]; [| lia].
    rewrite Hk, <- Z.mul_add_distr_r, Z.div_mul by lia.
    assert (0 <= k) by nia.
    rewrite wrap32_small by (unfold is_u32; nia).
    split; nia.
Qed.

End WithPaddedSize.

Lemma samplePacks_wf : Forall (wfMaterial sampleStride) (allMaterials samplePacks).
Proof. repeat constructor; cbn; lia. Qed.

Lemma region_bases_are_stride_multiples_witness :
  let buf := GenerateWorldMaterialsBuffer sampleStride samplePacks 0 in
  layoutDemand sampleStride (allMaterials samplePacks) < 2 ^ 32 /\
  exists pack m,
    pack ∈ materialPacks buf /\ m ∈ materials pack /\
    staticMaterialsSSBOOffset m mod paddedSizeOf sampleStride m = 0 /\
    dynamicMaterialsSSBOOffset m mod paddedSizeOf sampleStride m = 0.
Proof.
  intros buf.
  assert (layoutDemand sampleStride (allMaterials samplePacks) < 2 ^ 32) as Hb
      by (vm_compute; reflexivity).
  assert (exists pack m, pack ∈ materialPacks buf /\ m ∈ materials pack)
    as (pack & m & Hpack & Hm).
  { eexists. eexists. split.
    - vm_compute. apply list_elem_of_here.
    - apply list_elem_of_here. }
  split; [exact Hb |]. exists pack, m.
  split; [exact Hpack |]. split; [exact Hm |].
  exact (region_bases_are_stride_multiples sampleStride samplePacks 0
           samplePacks_wf Hb pack m Hpack Hm).
Defined.

(** C3 (counterexample). Two Materials of strides 8 and 12 with one
    dynamic instance each: the dynamic region is 24 words, the sum of stride
    times dynamic count is 20. *)
Lemma dynamic_size_exceeds_payload :
  let buf := GenerateWorldMaterialsBuffer sampleStride twoStridePacks 0 in
  dynamicDrawSurfsSize buf = 24 /\
  dynamicPayload sampleStride (allMaterials (materialPacks buf)) = 20 /\
  dynamicDrawSurfsSize buf
  <> dynamicPayload sampleStride (allMaterials (materialPacks buf)).
Proof. vm_compute. repeat split; congruence. Qed.

Lemma dynamic_size_is_payload_plus_padding_witness :
  let buf := GenerateWorldMaterialsBuffer sampleStride samplePacks 0 in
  let ms := allMaterials (materialPacks buf) in
  dynamicDrawSurfsSize buf
  = dynamicPayload sampleStride ms + dynamicGaps sampleStride ms /\
  0 <= dynamicGaps sampleStride ms /\
  (forall stride, (forall m, m ∈ ms -> paddedSizeOf sampleStride m = stride) ->
                  dynamicDrawSurfsSize buf = dynamicPayload sampleStride ms) /\
  (forall m c,
     m ∈ ms -> 0 <= c < totalStaticDrawSurfCount m ->
     staticSlotAddress sampleStride m c
     = staticMaterialsSSBOOffset m + c * paddedSizeOf sampleStride m /\
     staticSlotAddress sampleStride m c + paddedSizeOf sampleStride m
     <= bufferDynamicDrawSurfsOffset buf).
Proof.
  apply (dynamic_size_is_payload_plus_padding sampleStride samplePacks 0).
  - discriminate.
  - repeat constructor; cbn; lia.
  - vm_compute. reflexivity.
Defined.

End LayoutFacts.

(** ** GenerateWorldCommandBuffer: batch counts and offsets *)

Module BatchFacts.
Import Batches LoopFacts.

Section WithBatchSize.
Variable SURFACE_COMMANDS_PER_BATCH : Z.
Hypothesis batch_positive : 0 < SURFACE_COMMANDS_PER_BATCH.

Local Abbreviation B := SURFACE_COMMANDS_PER_BATCH.
Local Abbreviation ceil := (ceilDiv SURFACE_COMMANDS_PER_BATCH).

Lemma ceilDiv_cases n :
  ceil n = if n mod B =? 0 then n / B else n / B + 1.
Proof.
  unfold ceilDiv.
  pose proof (Z.div_mod n B ltac:(lia)) as Hdm.
  pose proof (Z.mod_pos_bound n B batch_positive) as Hr.
  destruct (Z.eqb_spec (n mod B) 0) as [E | E].
  - symmetry. apply (Z.div_unique _ _ _ (B - 1)); lia.
  - symmetry. apply (Z.div_unique _ _ _ (n mod B - 1)); lia.
Qed.

Lemma ceilDiv_bounds n :
  0 <= n -> 0 <= ceil n <= n /\ B * (ceil n - 1) < n <= B * ceil n \/ n = 0 /\ ceil n = 0.
Proof.
  intros Hn. rewrite ceilDiv_cases.
  pose proof (Z.div_mod n B ltac:(lia)) as Hdm.
  pose proof (Z.mod_pos_bound n B batch_positive) as Hr.
  pose proof (Z.div_pos n B Hn batch_positive) as Hq.
  destruct (Z.eqb_spec (n mod B) 0) as [E | E].
  - destruct (Z.eq_dec n 0) as [-> | Hn0]; [right; split; [reflexivity |] |].
    + now rewrite Z.div_0_l by lia.
    + left. nia.
  - left. nia.
Qed.

Lemma ceilDiv_range n : 0 <= n -> 0 <= ceil n <= n.
Proof. intros Hn. destruct (ceilDiv_bounds n Hn) as [[? _] | [-> ->]]; lia. Qed.

Lemma batchCountOf_ceil n :
  0 <= n < 2 ^ 32 -> batchCountOf B n = ceil n.
Proof.
  intros Hn. unfold batchCountOf. rewrite ceilDiv_cases.
  destruct (Z.eqb_spec (n mod B) 0) as [E | E]; [reflexivity |].
  apply wrap32_small. unfold is_u32.
  pose proof (ceilDiv_range n ltac:(lia)) as Hc. rewrite ceilDiv_cases in Hc.
  destruct (Z.eqb_spec (n mod B) 0); [contradiction | lia].
Qed.

Lemma batchDemand_cons m ms :
  batchDemand B (m :: ms) = ceil (commandCount m) + batchDemand B ms.
Proof. reflexivity. Qed.

Lemma commandCount_nonneg m : 0 <= commandCount m.
Proof. unfold commandCount. lia. Qed.

Lemma batchDemand_nonneg ms : 0 <= batchDemand B ms.
Proof.
  apply sumZ_nonneg, Forall_map, Forall_forall. intros m _. cbn.
  apply ceilDiv_range, commandCount_nonneg.
Qed.

Lemma batchStep_eq s m :
  commandCount m < 2 ^ 32 ->
  0 <= batchOffset s -> 0 <= totalBatchCount s -> 0 <= nextGlobalID s ->
  batchOffset s + ceil (commandCount m) < 2 ^ 32 ->
  totalBatchCount s + ceil (commandCount m) < 2 ^ 32 ->
  batchStep B s m
  = ({| batchOffset := batchOffset s + ceil (commandCount m);
        nextGlobalID := wrap32 (nextGlobalID s + 1);
        totalBatchCount := totalBatchCount s + ceil (commandCount m) |},
     set_globalID (nextGlobalID s)
       (set_surfaceCommandBatchCount (ceil (commandCount m))
          (set_surfaceCommandBatchOffset (batchOffset s) m))).
Proof.
  intros Hc Ho Ht Hg Hbo Hbt. unfold batchStep.
  pose proof (commandCount_nonneg m) as Hnn.
  fold (commandCount m).
  rewrite (wrap32_small (commandCount m)) by (unfold is_u32; lia).
  rewrite batchCountOf_ceil by lia.
  pose proof (ceilDiv_range (commandCount m) Hnn).
  rewrite (wrap32_small (batchOffset s + _)) by (unfold is_u32; lia).
  rewrite (wrap32_small (totalBatchCount s + _)) by (unfold is_u32; lia).
  reflexivity.
Qed.

Lemma batch_pass ms :
  forall s,
    Forall (fun m => commandCount m < 2 ^ 32) ms ->
    0 <= batchOffset s -> 0 <= totalBatchCount s -> 0 <= nextGlobalID s ->
    batchOffset s + batchDemand B ms < 2 ^ 32 ->
    totalBatchCount s + batchDemand B ms < 2 ^ 32 ->
    let r := forMaterials (batchStep B) s ms in
    batchOffset (fst r) = batchOffset s + sumZ (batchCounts (snd r)) /\
    totalBatchCount (fst r) = totalBatchCount s + sumZ (batchCounts (snd r)) /\
    Forall2 (batched B) ms (snd r) /\
    (forall i m', snd r !! i = Some m' ->
       surfaceCommandBatchOffset m'
       = batchOffset s + sumZ (take i (batchCounts (snd r)))).
Proof.
  induction ms as [| m ms IH]; intros s Hlen Ho Ht Hg Hbo Hbt.
  - cbn. repeat split; try (unfold sumZ; cbn; lia); [constructor |].
    intros i m' H. now rewrite lookup_nil in H.
  - apply Forall_cons in Hlen as [Hm Hms].
    rewrite batchDemand_cons in Hbo, Hbt.
    pose proof (batchDemand_nonneg ms) as Hnn.
    pose proof (ceilDiv_range (commandCount m) (commandCount_nonneg m)) as Hc.
    cbn [forMaterials]. rewrite batchStep_eq by lia.
    set (s1 := Build_BatchPass _ _ _).
    specialize (IH s1 Hms).
    assert (0 <= nextGlobalID s1) as Hg1
        by (subst s1; cbn [nextGlobalID]; apply wrap32_range).
    specialize (IH ltac:(subst s1; cbn [batchOffset]; lia)
                   ltac:(subst s1; cbn [totalBatchCount]; lia) Hg1
                   ltac:(subst s1; cbn [batchOffset]; lia)
                   ltac:(subst s1; cbn [totalBatchCount]; lia)).
    destruct (forMaterials (batchStep B) s1 ms) as [s2 ms'] eqn:E.
    cbn [fst snd] in *. destruct IH as (IHo & IHt & IHf & IHi).
    subst s1. cbn [batchOffset totalBatchCount] in *.
    unfold batchCounts in *. cbn [map]. unfold sumZ in *. cbn [fold_right].
    cbn [surfaceCommandBatchCount set_globalID set_surfaceCommandBatchCount].
    repeat split; try lia.
    + constructor; [| exact IHf]. split; reflexivity.
    + intros [| i] m' Hi.
      * cbn in Hi. injection Hi as <-. cbn. lia.
      * cbn [lookup list_lookup] in Hi. rewrite (IHi i m' Hi). cbn [take fold_right]. lia.
Qed.

Lemma batchCounts_nonneg ms ms' :
  Forall2 (batched B) ms ms' -> Forall (fun x => 0 <= x) (batchCounts ms').
Proof.
  induction 1 as [| m m' l l' [_ Hc] _ IH]; [constructor |].
  unfold batchCounts. cbn [map]. constructor; [| exact IH].
  rewrite Hc. apply ceilDiv_range, commandCount_nonneg.
Qed.

Lemma sumZ_take_mono l i j :
  Forall (fun x => 0 <= x) l -> (i <= j)%nat -> sumZ (take i l) <= sumZ (take j l).
Proof.
  intros Hl Hij.
  replace j with (i + (j - i))%nat by lia.
  rewrite <- take_take_drop. rewrite sumZ_app.
  assert (0 <= sumZ (take (j - i) (drop i l))); [| lia].
  apply sumZ_nonneg, Forall_take, Forall_drop, Hl.
Qed.

Lemma batched_counts ms ms' :
  Forall2 (batched B) ms ms' ->
  batchCounts ms' = map (fun m => ceil (commandCount m)) ms.
Proof.
  induction 1 as [| m m' l l' [_ Hc] _ IH]; [reflexivity |].
  unfold batchCounts in *. cbn [map]. rewrite Hc, IH. reflexivity.
Qed.

(** The loop changes the three batch fields of a Material and nothing
    else. *)
Lemma batchStep_fields s m :
  snd (batchStep B s m)
  = set_globalID (globalID (snd (batchStep B s m)))
      (set_surfaceCommandBatchCount (surfaceCommandBatchCount (snd (batchStep B s m)))
         (set_surfaceCommandBatchOffset
            (surfaceCommandBatchOffset (snd (batchStep B s m))) m)).
Proof. reflexivity. Qed.

(** C4. The first loop of [GenerateWorldCommandBuffer] returns the packs
    it was given, pack by pack and Material by Material, with the three
    fields [surfaceCommandBatchOffset], [surfaceCommandBatchCount] and
    [globalID] set and nothing else changed. For every Material given,
    [surfaceCommandBatchCount] becomes the ceiling of its
    [drawCommands.size()] over [SURFACE_COMMANDS_PER_BATCH], and
    [surfaceCommandBatchOffset] the sum of these ceilings over all
    Materials of earlier packs and the earlier Materials of its own
    pack; offsets never decrease along the pack order; and
    [totalBatchCount] is the sum of the ceilings, which is the sum of
    all batch counts. *)
Theorem batch_counts_offsets_total packs :
  Forall (fun m => commandCount m < 2 ^ 32) (allMaterials packs) ->
  batchDemand B (allMaterials packs) < 2 ^ 32 ->
  let packs' := fst (GenerateWorldCommandBuffer B packs) in
  let total := snd (GenerateWorldCommandBuffer B packs) in
  Forall2
    (fun pack pack' =>
       pack' = set_materials (materials pack') pack /\
       Forall2
         (fun m m' =>
            m' = set_globalID (globalID m')
                   (set_surfaceCommandBatchCount (surfaceCommandBatchCount m')
                      (set_surfaceCommandBatchOffset (surfaceCommandBatchOffset m')
                         m)))
         (materials pack) (materials pack'))
    packs packs' /\
  (forall (k : nat) pack (j : nat) m,
     packs !! k = Some pack -> materials pack !! j = Some m ->
     exists pack' m',
       packs' !! k = Some pack' /\ materials pack' !! j = Some m' /\
       drawCommands m' = drawCommands m /\
       surfaceCommandBatchCount m' = ceil (commandCount m) /\
       surfaceCommandBatchOffset m'
       = sumZ (map (fun x => ceil (commandCount x)) (allMaterials (take k packs)))
         + sumZ (map (fun x => ceil (commandCount x)) (take j (materials pack)))) /\
  (forall pack m,
     pack ∈ packs' -> m ∈ materials pack ->
     surfaceCommandBatchCount m = ceil (commandCount m)) /\
  (forall (k : nat) pack (j : nat) m,
     packs' !! k = Some pack -> materials pack !! j = Some m ->
     surfaceCommandBatchOffset m
     = sumZ (batchCounts (allMaterials (take k packs')))
       + sumZ (batchCounts (take j (materials pack)))) /\
  (forall (i j : nat) mi mj,
     (i <= j)%nat ->
     allMaterials packs' !! i = Some mi -> allMaterials packs' !! j = Some mj ->
     surfaceCommandBatchOffset mi <= surfaceCommandBatchOffset mj) /\
  total = sumZ (map (fun m => ceil (commandCount m)) (allMaterials packs)) /\
  total = sumZ (batchCounts (allMaterials packs')).
Proof.
  intros Hlen Hb. unfold GenerateWorldCommandBuffer.
  set (s0 := Build_BatchPass 0 0 0).
  pose proof (forPacks_flat (batchStep B) packs s0) as Hflat.
  pose proof (forPacks_packs (batchStep B) packs s0) as Hpacks.
  pose proof (forPacks_shape (batchStep B)
                (fun m m' =>
                   m' = set_globalID (globalID m')
                          (set_surfaceCommandBatchCount (surfaceCommandBatchCount m')
                             (set_surfaceCommandBatchOffset
                                (surfaceCommandBatchOffset m') m)))
                batchStep_fields packs s0) as Hshape.
  pose proof (batch_pass (allMaterials packs) s0 Hlen
                ltac:(cbn; lia) ltac:(cbn; lia) ltac:(cbn; lia)
                ltac:(cbn [batchOffset s0]; lia)
                ltac:(cbn [totalBatchCount s0]; lia)) as Hpass.
  rewrite Hflat in Hpass. cbn [fst snd] in Hpass.
  destruct (forPacks (batchStep B) s0 packs) as [s packs'] eqn:E.
  cbn [fst snd] in *. destruct Hpass as (_ & Htot & Hf & Hoff).
  cbn [batchOffset totalBatchCount s0] in *.
  pose proof (batchCounts_nonneg _ _ Hf) as Hnn.
  assert (Forall2 (fun pk pk' => Forall2 (batched B) (materials pk) (materials pk'))
                  packs packs') as Hby.
  { apply Forall2_by_pack; [| exact Hf].
    eapply Forall2_impl; [exact Hshape |].
    intros pk pk' H. exact (Forall2_length _ _ _ H). }
  assert (forall (k : nat) pack (j : nat) m,
             packs' !! k = Some pack -> materials pack !! j = Some m ->
             surfaceCommandBatchOffset m
             = sumZ (batchCounts (allMaterials (take k packs')))
               + sumZ (batchCounts (take j (materials pack)))) as Hoffsets.
  { intros k pack j m Hk Hj.
    destruct (allMaterials_pack_lookup packs' k pack j m Hk Hj) as [Hi Htake].
    rewrite (Hoff _ _ Hi). unfold batchCounts.
    rewrite firstn_map, Htake, map_app, sumZ_app, <- firstn_map. lia. }
  split; [| split; [| split; [| split; [| split; [| split]]]]].
  - clear -Hpacks Hshape. revert Hshape.
    induction Hpacks as [| pk pk' l l' H _ IH]; intros Hshape;
      inversion Hshape; subst; constructor; [split; assumption | auto].
  - intros k pack j m Hk Hj.
    destruct (Forall2_lookup_l _ _ _ _ _ Hby Hk) as (pack' & Hk' & Hms).
    destruct (Forall2_lookup_l _ _ _ _ _ Hms Hj) as (m' & Hj' & Hdc & Hc).
    exists pack', m'. split; [exact Hk' |]. split; [exact Hj' |].
    split; [exact Hdc |]. split; [exact Hc |].
    rewrite (Hoffsets k pack' j m' Hk' Hj').
    rewrite (batched_counts _ _ (Forall2_allMaterials _ _ _ (Forall2_take _ _ _ k Hby))).
    unfold batchCounts at 1. rewrite <- firstn_map.
    fold (batchCounts (materials pack')).
    rewrite (batched_counts _ _ Hms), firstn_map. reflexivity.
  - intros pack m Hpack Hm.
    pose proof (elem_of_allMaterials _ _ _ Hpack Hm) as Hall.
    apply list_elem_of_lookup in Hall as [i Hi].
    destruct (Forall2_lookup_r _ _ _ _ _ Hf Hi) as (m0 & _ & Hdc & Hc).
    rewrite Hc. unfold commandCount. now rewrite Hdc.
  - exact Hoffsets.
  - intros i j mi mj Hij Hi Hj.
    rewrite (Hoff _ _ Hi), (Hoff _ _ Hj).
    pose proof (sumZ_take_mono _ i j Hnn Hij). lia.
  - rewrite <- (batched_counts _ _ Hf). lia.
  - lia.
Qed.

End WithBatchSize.

Lemma batch_counts_offsets_total_witness :
  Forall (fun m => commandCount m < 2 ^ 32) (allMaterials samplePacks) /\
  batchDemand 64 (allMaterials samplePacks) < 2 ^ 32 /\
  let packs' := fst (GenerateWorldCommandBuffer 64 samplePacks) in
  let total := snd (GenerateWorldCommandBuffer 64 samplePacks) in
  length packs' = length samplePacks /\
  (forall (k : nat) pack (j : nat) m,
     samplePacks !! k = Some pack -> materials pack !! j = Some m ->
     exists pack' m',
       packs' !! k = Some pack' /\ materials pack' !! j = Some m' /\
       drawCommands m' = drawCommands m /\
       surfaceCommandBatchCount m' = ceilDiv 64 (commandCount m) /\
       surfaceCommandBatchOffset m'
       = sumZ (map (fun x => ceilDiv 64 (commandCount x))
                   (allMaterials (take k samplePacks)))
         + sumZ (map (fun x => ceilDiv 64 (commandCount x))
                     (take j (materials pack)))) /\
  total = sumZ (map (fun m => ceilDiv 64 (commandCount m)) (allMaterials samplePacks)).
Proof.
  assert (Forall (fun m => commandCount m < 2 ^ 32) (allMaterials samplePacks)) as H1
    by (repeat constructor; vm_compute; reflexivity).
  assert (batchDemand 64 (allMaterials samplePacks) < 2 ^ 32) as H2
    by (vm_compute; reflexivity).
  split; [exact H1 |]. split; [exact H2 |].
  destruct (batch_counts_offsets_total 64 ltac:(lia) samplePacks H1 H2)
    as (Hshape & Hin & _ & _ & _ & Htot & _).
  split; [symmetry; exact (Forall2_length _ _ _ Hshape) |].
  split; [exact Hin | exact Htot].
Defined.

(** The sample run: batch counts 1, 0, 1, 2, 3 at offsets 0, 1, 1, 2, 4. *)
Example sample_batches :
  map (fun m => (surfaceCommandBatchOffset m, surfaceCommandBatchCount m))
      (allMaterials (fst (GenerateWorldCommandBuffer 64 samplePacks)))
  = [ (0, 1); (1, 0); (1, 1); (2, 2); (4, 3) ] /\
  snd (GenerateWorldCommandBuffer 64 samplePacks) = 7.
Proof. vm_compute. split; reflexivity. Qed.

End BatchFacts.

(** ** AddPortalSurface: termination, distinct view ids, the view limit *)

Module PortalFacts.
Import Portals.

Section Resolver.
Variable MAX_VIEWS : Z.
Variable currentViewFrames : Z -> ViewFrame.t.
Variable portalSurfs : Z -> list PortalSurface.
Variable PortalOffScreenOrOutOfRange : Z -> bool.
Hypothesis MAX_VIEWS_range : 0 < MAX_VIEWS < 2 ^ 32.

Local Abbreviation consistent := (viewsConsistent MAX_VIEWS).
Local Abbreviation loop :=
  (portalLoop MAX_VIEWS currentViewFrames PortalOffScreenOrOutOfRange).
Local Abbreviation resolve :=
  (AddPortalSurface MAX_VIEWS currentViewFrames portalSurfs
                    PortalOffScreenOrOutOfRange).

Lemma viewCount_assignView viewID portalViewID drawSurfID count st :
  viewCount (assignView viewID portalViewID drawSurfID count st)
  = wrap32 (viewCount st + 1).
Proof. reflexivity. Qed.

Lemma assigned_assignView viewID portalViewID drawSurfID count st :
  assigned (assignView viewID portalViewID drawSurfID count st)
  = portalViewID :: assigned st.
Proof. reflexivity. Qed.

Lemma assignView_consistent viewID drawSurfID count st :
  consistent st ->
  wrap32 (viewCount st + 1) <> MAX_VIEWS ->
  let st1 := assignView viewID (wrap32 (viewCount st + 1)) drawSurfID count st in
  consistent st1 /\ viewCount st1 = viewCount st + 1 /\
  assigned st1 = (viewCount st + 1) :: assigned st.
Proof.
  intros (Hr & Hnd & Hlen & Hin) Hne st1. subst st1.
  unfold viewsConsistent.
  rewrite viewCount_assignView, assigned_assignView.
  rewrite wrap32_small in * by (unfold is_u32; lia).
  split; [| split; reflexivity].
  split; [lia |]. split; [| split].
  - constructor; [| exact Hnd]. intros Hv. apply Hin in Hv. lia.
  - cbn [length]. lia.
  - intros v Hv. apply elem_of_cons in Hv as [-> | Hv]; [lia | apply Hin in Hv; lia].
Qed.

(** The loop completes with [true] whenever its recursive calls do. *)
Lemma portalLoop_total rec viewID c0 :
  (forall v st1,
     consistent st1 -> c0 < viewCount st1 ->
     exists st2, rec v st1 = Some (true, st2) /\ consistent st2 /\
                 viewCount st1 <= viewCount st2) ->
  forall tmpSurfs count pv st,
    consistent st -> c0 <= viewCount st -> 0 <= count <= viewCount st ->
    exists pv' st',
      loop rec viewID tmpSurfs count pv st = Some (true, pv', st') /\
      consistent st' /\ viewCount st <= viewCount st'.
Proof.
  intros Hrec. induction tmpSurfs as [| ps rest IH]; intros count pv st Hc Hc0 Hcount.
  - cbn. eexists _, _. split; [reflexivity |]. split; [exact Hc | lia].
  - cbn [portalLoop].
    destruct (distance ps =? -1); [now apply IH |].
    destruct (PortalOffScreenOrOutOfRange (drawSurfID ps)); [now apply IH |].
    destruct (Z.eqb_spec (wrap32 (viewCount st + 1)) MAX_VIEWS) as [E | E];
      [now apply IH |].
    destruct (assignView_consistent viewID (drawSurfID ps) count st Hc E)
      as (Hc1 & Hv1 & _).
    set (st1 := assignView viewID (wrap32 (viewCount st + 1)) (drawSurfID ps) count st)
      in *.
    pose proof Hc1 as (Hr1 & _).
    rewrite (wrap32_small (count + 1)) by (unfold is_u32; lia).
    destruct (Z.eqb_spec (count + 1) MAX_VIEWS) as [E1 | E1]; [lia |].
    destruct (Z.eqb_spec (viewCount st1) MAX_VIEWS) as [E2 | E2]; [lia |].
    cbn [orb].
    destruct (findSubView currentViewFrames viewID (drawSurfID ps)) as [subView |].
    + destruct (Hrec subView st1 Hc1 ltac:(lia)) as (st2 & -> & Hc2 & Hv2).
      destruct (IH (count + 1) (upd pv count (wrap32 (viewCount st + 1))) st2 Hc2
                   ltac:(lia) ltac:(lia)) as (pv' & st' & -> & Hc' & Hv').
      eexists _, _. split; [reflexivity |]. split; [exact Hc' | lia].
    + destruct (IH (count + 1) (upd pv count (wrap32 (viewCount st + 1))) st1 Hc1
                   ltac:(lia) ltac:(lia)) as (pv' & st' & -> & Hc' & Hv').
      eexists _, _. split; [reflexivity |]. split; [exact Hc' | lia].
Qed.

(** Enough fuel: one level for each view id still free. *)
Lemma AddPortalSurface_total fuel :
  forall viewID st,
    consistent st ->
    (Z.to_nat (MAX_VIEWS - 1 - viewCount st) < fuel)%nat ->
    exists st',
      resolve fuel viewID st = Some (true, st') /\
      consistent st' /\ viewCount st <= viewCount st'.
Proof.
  induction fuel as [| fuel IH]; intros viewID st Hc Hfuel; [lia |].
  cbn [AddPortalSurface].
  set (st0 := Build_State _ _ _ _).
  assert (consistent st0) as Hc0 by exact Hc.
  pose proof Hc as (Hr & _).
  destruct (portalLoop_total (resolve fuel) viewID (viewCount st)) with
    (tmpSurfs := sortByDistance (portalSurfs viewID)) (count := 0)
    (pv := fun _ : Z => 0) (st := st0) as (pv' & st' & -> & Hc' & Hv').
  - intros v st1 Hc1 Hlt. apply IH; [exact Hc1 |].
    destruct Hc1 as (Hr1 & _). lia.
  - exact Hc0.
  - cbn. lia.
  - cbn. lia.
  - eexists. split; [reflexivity |]. split; [exact Hc' | exact Hv'].
Qed.

(** More fuel does not change a result. *)
Lemma portalLoop_mono (rec rec' : Z -> State -> option (bool * State)) viewID :
  (forall v st r, rec v st = Some r -> rec' v st = Some r) ->
  forall tmpSurfs count pv st r,
    loop rec viewID tmpSurfs count pv st = Some r ->
    loop rec' viewID tmpSurfs count pv st = Some r.
Proof.
  intros Hrec. induction tmpSurfs as [| ps rest IH]; intros count pv st r H;
    [exact H |].
  cbn [portalLoop] in *.
  destruct (distance ps =? -1); [now apply IH |].
  destruct (PortalOffScreenOrOutOfRange (drawSurfID ps)); [now apply IH |].
  destruct (wrap32 (viewCount st + 1) =? MAX_VIEWS); [now apply IH |].
  destruct ((wrap32 (count + 1) =? MAX_VIEWS) || _); [exact H |].
  destruct (findSubView currentViewFrames viewID (drawSurfID ps)) as [subView |];
    [| now apply IH].
  destruct (rec subView _) as [[[] st2] |] eqn:E; [| | discriminate].
  - rewrite (Hrec _ _ _ E). now apply IH.
  - rewrite (Hrec _ _ _ E). exact H.
Qed.

Lemma AddPortalSurface_mono fuel :
  forall fuel' viewID st r,
    (fuel <= fuel')%nat ->
    resolve fuel viewID st = Some r -> resolve fuel' viewID st = Some r.
Proof.
  induction fuel as [| fuel IH]; intros fuel' viewID st r Hle H; [discriminate |].
  destruct fuel' as [| fuel']; [lia |].
  cbn [AddPortalSurface] in *.
  destruct (loop (resolve fuel) viewID _ 0 _ _) as [[[b pv] st1] |] eqn:E;
    [| discriminate].
  assert (forall v s r', resolve fuel v s = Some r' -> resolve fuel' v s = Some r')
    as Hrec by (intros v s r' Hr; apply (IH fuel'); [lia | exact Hr]).
  rewrite (portalLoop_mono _ _ viewID Hrec _ _ _ _ _ E). exact H.
Qed.

Lemma frameStart_consistent st : consistent (frameStart st).
Proof.
  unfold viewsConsistent. cbn. repeat split; try lia.
  - constructor.
  - apply elem_of_nil in H. contradiction.
  - apply elem_of_nil in H. contradiction.
Qed.

(** C5, as amended. From the state in which [AddPortalSurfaces] calls it
    ([viewCount = 0]), and for every read-back, every previous-frame
    topology (cyclic or not) and every off-screen test, [AddPortalSurface]
    terminates: [MAX_VIEWS] levels of recursion always suffice and more
    never change the result. No view id is assigned twice, every assigned
    id lies in [1, MAX_VIEWS - 1], [viewCount] counts them, and the call
    returns [true]: once id [MAX_VIEWS - 1] is taken the remaining portals
    are skipped, and the call never returns [false]. *)
Theorem AddPortalSurface_terminates_distinct_never_false st :
  exists st',
    (forall fuel, (Z.to_nat MAX_VIEWS <= fuel)%nat ->
                  resolve fuel 0 (frameStart st) = Some (true, st')) /\
    NoDup (assigned st') /\
    (forall v, v ∈ assigned st' -> 1 <= v <= MAX_VIEWS - 1) /\
    viewCount st' = Z.of_nat (length (assigned st')) /\
    viewCount st' <= MAX_VIEWS - 1.
Proof.
  destruct (AddPortalSurface_total (Z.to_nat MAX_VIEWS) 0 (frameStart st)
              (frameStart_consistent st) ltac:(cbn; lia))
    as (st' & Hrun & (Hr & Hnd & Hlen & Hin) & _).
  exists st'. repeat split; try lia; try assumption.
  - intros fuel Hfuel. eapply AddPortalSurface_mono; [exact Hfuel | exact Hrun].
  - apply Hin in H. lia.
  - apply Hin in H. lia.
Qed.

End Resolver.

Lemma AddPortalSurface_terminates_distinct_never_false_witness :
  exists st',
    (forall fuel, (Z.to_nat 3 <= fuel)%nat ->
                  AddPortalSurface 3 sampleHint samplePortals (fun _ => false)
                                   fuel 0 (frameStart sampleState)
                  = Some (true, st')) /\
    NoDup (assigned st') /\
    (forall v, v ∈ assigned st' -> 1 <= v <= 3 - 1) /\
    viewCount st' = Z.of_nat (length (assigned st')) /\
    viewCount st' <= 3 - 1.
Proof.
  apply (AddPortalSurface_terminates_distinct_never_false
           3 sampleHint samplePortals (fun _ => false)).
  lia.
Defined.

(** C5 (counterexample). With [MAX_VIEWS = 3], three visible portals in
    every view and a cyclic previous-frame topology, [AddPortalSurfaces]
    hands out the view ids 1 and 2. With the root view, all [MAX_VIEWS]
    views are then in use and further visible portals are refused, yet the
    call returns [true], not [false]. *)
Lemma view_limit_reached_returns_true :
  exists st',
    AddPortalSurfaces 3 sampleHint samplePortals (fun _ => false) 3 false sampleState
    = Some (true, st') /\
    assigned st' = [2; 1] /\
    viewCount st' + 1 = 3.
Proof.
  eexists. split; [vm_compute; reflexivity |]. split; reflexivity.
Qed.

End PortalFacts.

(** ** RenderMaterial: eviction and retry of texture residency *)

Module ResidencyFacts.
Import Residency.

Section Driver.
Variable budget : Z.
Variable textureSize : Z -> Z.

Local Abbreviation make := (MakeResident budget textureSize).
Local Abbreviation evictAll := (evictRendered).

Lemma IsResident_spec texture st :
  IsResident texture st = true <-> texture ∈ residentTextures st.
Proof. unfold IsResident. apply bool_decide_eq_true. Qed.

Lemma sameTextures_refl st : sameTextures st st.
Proof. repeat split. intros x Hx. exact Hx. Qed.

Lemma sameTextures_trans a b c :
  sameTextures a b -> sameTextures b c -> sameTextures a c.
Proof.
  intros (? & ? & ? & Hab) (? & ? & ? & Hbc). repeat split; try congruence.
  intros x Hx. apply Hab, Hbc, Hx.
Qed.

Lemma evictTextures_spec texs :
  forall st,
    let st' := evictTextures texs st in
    materials st' = materials st /\
    renderedMaterials st' = renderedMaterials st /\
    log st' = log st /\
    residentTextures st' ⊆ residentTextures st /\
    forall tex, tex ∈ texs -> tex ∉ residentTextures st'.
Proof.
  induction texs as [| tex rest IH]; intros st; cbn [evictTextures].
  - repeat split; [intros x Hx; exact Hx | intros tex H; inversion H].
  - set (st1 := if IsResident tex st then MakeNonResident tex st else st).
    assert (materials st1 = materials st /\
            renderedMaterials st1 = renderedMaterials st /\
            log st1 = log st /\
            residentTextures st1 ⊆ residentTextures st /\
            tex ∉ residentTextures st1) as (H1 & H2 & H3 & H4 & H5).
    { subst st1. destruct (IsResident tex st) eqn:E.
      - cbn. repeat split.
        + intros x Hx. apply list_elem_of_filter in Hx. tauto.
        + intros Hx. apply list_elem_of_filter in Hx. tauto.
      - repeat split; [intros x Hx; exact Hx |].
        intros Hx. apply IsResident_spec in Hx. congruence. }
    destruct (IH st1) as (I1 & I2 & I3 & I4 & I5).
    split; [congruence |]. split; [congruence |]. split; [congruence |]. split.
    + intros x Hx. apply H4, I4, Hx.
    + intros t Ht Hin. apply elem_of_cons in Ht as [-> | Ht].
      * apply H5, I4, Hin.
      * exact (I5 t Ht Hin).
Qed.

Lemma map_alter_same {A B} (f : A -> B) (g : A -> A) (i : nat) (l : list A) :
  (forall x, f (g x) = f x) -> f <$> alter g i l = f <$> l.
Proof.
  intros H. revert i. induction l as [| x l IH]; intros [| i]; csimpl;
    rewrite ?H, ?IH; reflexivity.
Qed.

Lemma fmap_eq_lookup {A B} (f : A -> B) (l l' : list A) (i : nat) x :
  f <$> l' = f <$> l -> l !! i = Some x ->
  exists x', l' !! i = Some x' /\ f x' = f x.
Proof.
  intros Heq Hi.
  assert ((f <$> l') !! i = Some (f x)) as H
      by (rewrite Heq, list_lookup_fmap, Hi; reflexivity).
  rewrite list_lookup_fmap in H.
  destruct (l' !! i) as [x' |]; [| discriminate].
  injection H as H. eauto.
Qed.

Lemma evictMaterial_spec mat st :
  let st' := evictMaterial mat st in
  sameTextures st st' /\
  (forall m, materials st !! mat = Some m ->
             log st' = log st ++ [Warn_MakingNonResident
                                    (id m) (Z.of_nat (length (textures m)))] /\
             (forall tex, tex ∈ textures m -> tex ∉ residentTextures st') /\
             exists m', materials st' !! mat = Some m' /\
                        texturesResident m' = false) /\
  (materials st !! mat = None -> st' = st) /\
  (forall i m, materials st !! i = Some m -> texturesResident m = false ->
               exists m', materials st' !! i = Some m' /\ texturesResident m' = false).
Proof.
  unfold evictMaterial. destruct (materials st !! mat) as [m |] eqn:E.
  - set (st1 := addLog _ st).
    destruct (evictTextures_spec (textures m) st1) as (H1 & H2 & H3 & H4 & H5).
    set (st2 := evictTextures (textures m) st1) in *.
    assert (materials st1 = materials st) as M1 by reflexivity.
    assert (log st1 = log st ++ [Warn_MakingNonResident
                                  (id m) (Z.of_nat (length (textures m)))])
      as L1 by reflexivity.
    assert (residentTextures st1 = residentTextures st) as R1 by reflexivity.
    assert (renderedMaterials st1 = renderedMaterials st) as N1 by reflexivity.
    clearbody st1 st2.
    cbn [materials renderedMaterials residentTextures log set_stored].
    rewrite H1, M1.
    split; [| split; [| split]].
    + unfold sameTextures.
      cbn [materials renderedMaterials residentTextures log set_stored].
      split; [congruence |].
      split; [apply map_alter_same; reflexivity |].
      split; [apply map_alter_same; reflexivity |].
      rewrite <- R1. exact H4.
    + intros m0 Hm0. injection Hm0 as <-. split; [congruence |].
      split; [exact H5 |].
      exists (set_texturesResident false m). split; [| reflexivity].
      rewrite list_lookup_alter_eq, E. reflexivity.
    + discriminate.
    + intros i m0 Hi Hf. destruct (decide (i = mat)) as [-> | Hne].
      * exists (set_texturesResident false m). split; [| reflexivity].
        rewrite list_lookup_alter_eq, E. reflexivity.
      * exists m0. split; [| exact Hf].
        rewrite list_lookup_alter_ne by congruence. exact Hi.
  - split; [apply sameTextures_refl |]. split; [discriminate |].
    split; [reflexivity |]. intros i m Hi Hf. eauto.
Qed.


Lemma evictRendered_keeps_flag rendered :
  forall st i m,
    materials st !! i = Some m -> texturesResident m = false ->
    exists m', materials (evictRendered rendered st) !! i = Some m' /\
               texturesResident m' = false.
Proof.
  induction rendered as [| mat rest IH]; intros st i m Hi Hf; cbn [evictRendered].
  - eauto.
  - destruct (evictMaterial_spec mat st) as (_ & _ & _ & Hkeep).
    destruct (Hkeep i m Hi Hf) as (m1 & Hi1 & Hf1).
    exact (IH _ i m1 Hi1 Hf1).
Qed.

Lemma warningsFor_same ms ms' rendered :
  textures <$> ms' = textures <$> ms -> id <$> ms' = id <$> ms ->
  warningsFor ms' rendered = warningsFor ms rendered.
Proof.
  intros Ht Hid. unfold warningsFor.
  induction rendered as [| mat rest IH]; [reflexivity |].
  csimpl. rewrite IH.
  destruct (ms !! mat) as [m |] eqn:E.
  - destruct (fmap_eq_lookup textures _ _ mat m Ht E) as (m' & E' & Htex).
    destruct (fmap_eq_lookup id _ _ mat m Hid E) as (m'' & E'' & Hi).
    rewrite E'. rewrite E' in E''. injection E'' as <-. now rewrite Htex, Hi.
  - destruct (ms' !! mat) as [m' |] eqn:E'; [| reflexivity].
    symmetry in Ht.
    destruct (fmap_eq_lookup textures _ _ mat m' Ht E') as (m & Em & _).
    congruence.
Qed.

Lemma evictRendered_spec rendered :
  forall st,
    let st' := evictRendered rendered st in
    sameTextures st st' /\
    log st' = log st ++ warningsFor (materials st) rendered /\
    forall mat m,
      mat ∈ rendered -> materials st !! mat = Some m ->
      (forall tex, tex ∈ textures m -> tex ∉ residentTextures st') /\
      exists m', materials st' !! mat = Some m' /\
                 texturesResident m' = false /\ textures m' = textures m.
Proof.
  induction rendered as [| mat rest IH]; intros st; cbn [evictRendered].
  - split; [apply sameTextures_refl |]. split.
    + unfold warningsFor. cbn. now rewrite app_nil_r.
    + intros mat m H. inversion H.
  - destruct (evictMaterial_spec mat st) as (Hsame & Hsome & Hnone & Hkeep).
    set (st1 := evictMaterial mat st) in *.
    destruct (IH st1) as (Isame & Ilog & Iall).
    pose proof Hsame as (Hr1 & Ht1 & Hid1 & Hres1).
    pose proof Isame as (Hr2 & Ht2 & Hid2 & Hres2).
    split; [eapply sameTextures_trans; eassumption |]. split.
    + rewrite Ilog, (warningsFor_same _ _ _ Ht1 Hid1).
      unfold warningsFor at 2. csimpl. fold (warningsFor (materials st) rest).
      destruct (materials st !! mat) as [m |] eqn:E.
      * destruct (Hsome m eq_refl) as (Hl & _). rewrite Hl, <- app_assoc. reflexivity.
      * rewrite (Hnone eq_refl). reflexivity.
    + intros mat0 m Hin Hm.
      destruct (fmap_eq_lookup textures _ _ mat0 m Ht1 Hm) as (m1 & Hm1 & Htex1).
      destruct (decide (mat0 ∈ rest)) as [Hrest | Hrest].
      * destruct (Iall mat0 m1 Hrest Hm1) as (Hev & m' & Hm' & Hf & Htex').
        split; [rewrite <- Htex1; exact Hev |].
        exists m'. repeat split; congruence.
      * apply elem_of_cons in Hin as [-> | Hin]; [| contradiction].
        destruct (Hsome m Hm) as (_ & Hev & m1' & Hm1' & Hf1).
        split.
        -- intros tex Htex Hres. apply (Hev tex Htex), Hres2, Hres.
        -- destruct (evictRendered_keeps_flag rest st1 mat m1' Hm1' Hf1)
             as (m' & Hm' & Hf').
           exists m'. split; [exact Hm' |]. split; [exact Hf' |].
           destruct (fmap_eq_lookup textures _ _ mat m1 Ht2 Hm1)
             as (m2 & Hm2 & Htex2).
           congruence.
Qed.

Lemma MakeResident_materials texture st :
  materials (make texture st) = materials st /\
  renderedMaterials (make texture st) = renderedMaterials st /\
  log (make texture st) = log st.
Proof.
  unfold MakeResident. destruct (IsResident texture st); [repeat split |].
  destruct (_ <=? budget); repeat split.
Qed.

Lemma MakeResident_failed texture st :
  IsResident texture (make texture st) = false -> make texture st = st.
Proof.
  unfold MakeResident. destruct (IsResident texture st) eqn:E; [reflexivity |].
  destruct (_ <=? budget); [| reflexivity].
  intros H. exfalso.
  assert (IsResident texture (set_residentTextures (texture :: residentTextures st) st)
          = true) as Ht; [| congruence].
  apply IsResident_spec. cbn. left.
Qed.

Lemma sameTextures_length st st' :
  sameTextures st st' -> length (materials st') = length (materials st).
Proof.
  intros (_ & Ht & _). apply (f_equal length) in Ht.
  now rewrite !length_fmap in Ht.
Qed.

Lemma residentLoop_length texs :
  forall st,
    length (materials (residentLoop budget textureSize texs st))
    = length (materials st).
Proof.
  induction texs as [| texture rest IH]; intros st; cbn [residentLoop];
    [reflexivity |].
  destruct (IsResident texture st); [apply IH |].
  destruct (MakeResident_materials texture st) as (M1 & N1 & _).
  destruct (IsResident texture (make texture st)); [rewrite IH; congruence |].
  destruct (evictRendered_spec (renderedMaterials (make texture st)) (make texture st))
    as (Hsame & _).
  set (st2 := evictRendered _ _) in *.
  destruct (MakeResident_materials texture st2) as (M3 & _).
  apply sameTextures_length in Hsame.
  destruct (IsResident texture (make texture st2)).
  - rewrite IH. congruence.
  - cbn. congruence.
Qed.

(** C7, as amended. When a texture of the Material being rendered is not
    resident and making it resident fails, every texture of every
    Material rendered so far is made non-resident and those Materials'
    [texturesResident] flags are cleared, with one warning per Material in
    render order (all of them, not just enough of them); the attempt is
    then repeated once; if it fails again a warning is logged and the
    remaining textures are left alone. In every case the block completes
    and leaves [material.texturesResident] set. *)
Theorem residency_failure_evicts_all_rendered_then_retries st texture rest :
  IsResident texture st = false ->
  IsResident texture (make texture st) = false ->
  let st2 := evictRendered (renderedMaterials st) (make texture st) in
  let st3 := make texture st2 in
  (forall mat m,
     mat ∈ renderedMaterials st -> materials st !! mat = Some m ->
     (forall tex, tex ∈ textures m -> tex ∉ residentTextures st2) /\
     exists m', materials st2 !! mat = Some m' /\
                texturesResident m' = false /\ textures m' = textures m) /\
  log st2 = log st ++ evictionWarnings st /\
  residentLoop budget textureSize (texture :: rest) st
  = (if IsResident texture st3
     then residentLoop budget textureSize rest st3
     else addLog Warn_NotEnoughTextureSpace st3) /\
  (forall material m,
     materials st !! material = Some m ->
     exists m',
       materials (RenderMaterial_residency budget textureSize material st)
         !! material = Some m' /\
       texturesResident m' = true).
Proof.
  intros Hnot Hfail st2 st3.
  pose proof (MakeResident_failed texture st Hfail) as Hst.
  subst st3 st2. rewrite Hst.
  destruct (evictRendered_spec (renderedMaterials st) st) as (_ & Hlog & Hall).
  split; [exact Hall |]. split; [exact Hlog |]. split.
  - cbn [residentLoop]. rewrite Hnot, Hfail, Hst. reflexivity.
  - intros material m Hm. unfold RenderMaterial_residency. rewrite Hm.
    set (st1 := if texturesResident m then st else _).
    assert (length (materials st1) = length (materials st)) as Hlen.
    { subst st1. destruct (texturesResident m); [reflexivity |].
      apply residentLoop_length. }
    cbn [materials set_stored].
    destruct (lookup_lt_is_Some_2 (materials st1) material) as [m1 Hm1].
    { rewrite Hlen. eapply lookup_lt_Some, Hm. }
    exists (set_texturesResident true m1). split; [| reflexivity].
    rewrite list_lookup_alter_eq, Hm1. reflexivity.
Qed.

End Driver.

Lemma residency_failure_evicts_all_rendered_then_retries_witness :
  let st2 := evictRendered (renderedMaterials sampleFrame)
                           (MakeResident 2 (fun _ => 1) 3 sampleFrame) in
  let st3 := MakeResident 2 (fun _ => 1) 3 st2 in
  (forall mat m,
     mat ∈ renderedMaterials sampleFrame -> materials sampleFrame !! mat = Some m ->
     (forall tex, tex ∈ textures m -> tex ∉ residentTextures st2) /\
     exists m', materials st2 !! mat = Some m' /\
                texturesResident m' = false /\ textures m' = textures m) /\
  log st2 = log sampleFrame ++ evictionWarnings sampleFrame /\
  residentLoop 2 (fun _ => 1) (3 :: []) sampleFrame
  = (if IsResident 3 st3
     then residentLoop 2 (fun _ => 1) [] st3
     else addLog Warn_NotEnoughTextureSpace st3) /\
  (forall material m,
     materials sampleFrame !! material = Some m ->
     exists m',
       materials (RenderMaterial_residency 2 (fun _ => 1) material sampleFrame)
         !! material = Some m' /\
       texturesResident m' = true).
Proof.
  apply (residency_failure_evicts_all_rendered_then_retries
           2 (fun _ => 1) sampleFrame 3 []).
  - vm_compute. reflexivity.
  - vm_compute. reflexivity.
Defined.

(** C7 (counterexample). Budget 2, textures of size 1; Materials 0 and 1
    were rendered with their textures 1 and 2 resident. Rendering Material 2
    (texture 3) evicts both: texture 2 goes although room for texture 3
    needed only the oldest Material's texture to go. *)
Lemma eviction_takes_more_than_needed :
  let st' := RenderMaterial_residency 2 (fun _ => 1) 2%nat sampleFrame in
  residentTextures st' = [3] /\
  residentSize (fun _ => 1) [3; 2] <= 2 /\
  log st' = [ Warn_MakingNonResident 0 1; Warn_MakingNonResident 1 1 ].
Proof. vm_compute. repeat split; try reflexivity. discriminate. Qed.

End ResidencyFacts.

(** ** UpdateDynamicSurfaces leaves the static region alone *)

Module UpdateFacts.
Import Update LoopFacts LayoutFacts.

Section WithShaders.
Variable GetPaddedSize : GLShader -> Z.
Variable uniformWords : Updater -> Material -> SurfStage -> list Z.

Local Abbreviation p := (paddedSizeOf GetPaddedSize).
Local Abbreviation wf := (wfMaterial GetPaddedSize).

Lemma writeWords_below ws :
  forall q buf a, a < q -> writeWords q ws buf a = buf a.
Proof.
  induction ws as [| w rest IH]; intros q buf a Ha; cbn [writeWords];
    [reflexivity |].
  rewrite IH by lia. apply upd_other. lia.
Qed.

Lemma memsetZero_below q words buf a :
  a < q -> memsetZero q words buf a = buf a.
Proof.
  intros Ha. unfold memsetZero.
  destruct (Z.leb_spec q a); [lia | reflexivity].
Qed.

Lemma runUpdater_below materialsData material s buf buf' s' :
  runUpdater GetPaddedSize uniformWords materialsData material s buf
  = Some (buf', s') ->
  forall a, a < materialsData -> buf' a = buf a.
Proof.
  unfold runUpdater. intros H a Ha.
  pose proof (wrap32_range (materialsSSBOOffset s * p material)) as [Hlo _].
  destruct (surfaceDataUpdater s); try discriminate;
    try (injection H as <- <-; reflexivity);
    (destruct (negb _); injection H as <- <-;
     [reflexivity | apply writeWords_below; lia]).
Qed.

Lemma updateStages_below packs materialsData stages :
  forall buf buf' stages',
    updateStages GetPaddedSize uniformWords packs materialsData stages buf
    = Some (buf', stages') ->
    forall a, a < materialsData -> buf' a = buf a.
Proof.
  induction stages as [| s rest IH]; intros buf buf' stages' H a Ha;
    cbn [updateStages] in H.
  - injection H as <- <-. reflexivity.
  - destruct (materialAt packs _ _) as [material |]; [| discriminate].
    destruct (runUpdater _ _ _ _ _ _) as [[buf1 s1] |] eqn:E1; [| discriminate].
    destruct (updateStages _ _ _ _ rest buf1) as [[buf2 rest1] |] eqn:E2;
      [| discriminate].
    injection H as <- <-.
    rewrite (IH _ _ _ E2 a Ha). exact (runUpdater_below _ _ _ _ _ _ E1 a Ha).
Qed.

Lemma updateSurfs_below packs materialsData surfs :
  forall buf buf' surfs',
    updateSurfs GetPaddedSize uniformWords packs materialsData surfs buf
    = Some (buf', surfs') ->
    forall a, a < materialsData -> buf' a = buf a.
Proof.
  induction surfs as [| d rest IH]; intros buf buf' surfs' H a Ha;
    cbn [updateSurfs] in H.
  - injection H as <- <-. reflexivity.
  - destruct (updateStages _ _ _ _ d buf) as [[buf1 d1] |] eqn:E1; [| discriminate].
    destruct (updateSurfs _ _ _ _ rest buf1) as [[buf2 rest1] |] eqn:E2;
      [| discriminate].
    injection H as <- <-.
    rewrite (IH _ _ _ E2 a Ha). exact (updateStages_below _ _ _ _ _ _ E1 a Ha).
Qed.

Lemma UpdateDynamicSurfaces_below packs dynOffset dynSize surfs buf buf' surfs' :
  UpdateDynamicSurfaces GetPaddedSize uniformWords packs dynOffset dynSize surfs buf
  = Some (buf', surfs') ->
  forall a, a < dynOffset -> buf' a = buf a.
Proof.
  unfold UpdateDynamicSurfaces. intros H a Ha.
  destruct (dynSize =? 0); [injection H as <- <-; reflexivity |].
  rewrite (updateSurfs_below _ _ _ _ _ _ H a Ha). now apply memsetZero_below.
Qed.

(** The other end of the mapped range. *)
Lemma writeWords_above ws :
  forall q buf a,
    q + Z.of_nat (length ws) <= a -> writeWords q ws buf a = buf a.
Proof.
  induction ws as [| w rest IH]; intros q buf a Ha; cbn [writeWords length] in *;
    [reflexivity |].
  rewrite IH by lia. apply upd_other. lia.
Qed.

Lemma memsetZero_above q words buf a :
  q + words <= a -> memsetZero q words buf a = buf a.
Proof.
  intros Ha. unfold memsetZero.
  destruct (Z.leb_spec q a), (Z.ltb_spec a (q + words)); cbn; first [lia | reflexivity].
Qed.

Lemma materialAt_elem_of packs pack id material :
  materialAt packs pack id = Some material -> material ∈ allMaterials packs.
Proof.
  unfold materialAt. intros H.
  destruct (packs !! Z.to_nat pack) as [pk |] eqn:E; [| discriminate].
  eapply elem_of_allMaterials.
  - eapply list_elem_of_lookup_2. exact E.
  - eapply list_elem_of_lookup_2. exact H.
Qed.

(** A settled stage writes inside the dynamic range. *)
Lemma settled_end packs old s material :
  Forall wf (allMaterials packs) ->
  layoutDemand GetPaddedSize (allMaterials packs) < 2 ^ 32 ->
  oneInstance GetPaddedSize uniformWords ->
  let layout := GenerateWorldMaterialsBuffer GetPaddedSize packs old in
  settled GetPaddedSize layout s ->
  materialAt (materialPacks layout) (materialPackIDs s) (materialIDs s)
  = Some material ->
  negb (initialized s) || colorDynamic s || texMatricesDynamic s || dynamic s = true ->
  forall u s1,
    bufferDynamicDrawSurfsOffset layout
    + wrap32 (materialsSSBOOffset s * p material)
    + Z.of_nat (length (uniformWords u material s1))
    <= bufferDynamicDrawSurfsOffset layout + dynamicDrawSurfsSize layout.
Proof.
  intros Hwf Hb Hone layout Hs Hm Hupd u s1.
  pose proof (materialAt_elem_of _ _ _ _ Hm) as Hin.
  pose proof (layout_nonempty GetPaddedSize packs old material Hwf Hb Hin) as Hne.
  destruct (dynamic_range GetPaddedSize packs old Hwf Hb Hne)
    as (Hoff & Hsum & Hsz & Hall).
  fold layout in Hoff, Hsum, Hsz, Hall.
  destruct (Hall material Hin) as ((Hp & _ & HT) & Hlo & Hhi).
  specialize (Hs material Hm). specialize (Hone u material s1).
  destruct (dynamic s) eqn:Ed.
  - destruct Hs as (c & Hc & ->). unfold dynamicStageSlot.
    assert (0 <= c * p material) by nia.
    assert (c * p material + p material <= p material * totalDynamicDrawSurfCount material)
      by nia.
    rewrite (wrap32_small (_ - _)) by (unfold is_u32; lia).
    rewrite (wrap32_small (c * _)) by (unfold is_u32; lia).
    rewrite (wrap32_small (_ + c * _)) by (unfold is_u32; lia).
    set (x := dynamicMaterialsSSBOOffset material
              - bufferDynamicDrawSurfsOffset layout + c * p material).
    assert (0 <= x) by (subst x; lia).
    pose proof (Z.mul_div_le x (p material) Hp) as Hle.
    pose proof (Z.div_pos x (p material) ltac:(lia) Hp) as Hnn.
    rewrite wrap32_small by (unfold is_u32; nia).
    subst x. lia.
  - destruct Hs as (Hi & Hc & Ht). rewrite Hi, Hc, Ht in Hupd. discriminate.
Qed.

Lemma runUpdater_above materialsData material s buf buf' s' hi :
  runUpdater GetPaddedSize uniformWords materialsData material s buf
  = Some (buf', s') ->
  (negb (initialized s) || colorDynamic s || texMatricesDynamic s || dynamic s = true ->
   forall u s1,
     materialsData + wrap32 (materialsSSBOOffset s * p material)
     + Z.of_nat (length (uniformWords u material s1)) <= hi) ->
  forall a, hi <= a -> buf' a = buf a.
Proof.
  unfold runUpdater. intros H Hend a Ha.
  destruct (surfaceDataUpdater s); try discriminate;
    try (injection H as <- <-; reflexivity);
    (destruct (negb (initialized s) || colorDynamic s || texMatricesDynamic s
               || dynamic s) eqn:Eu; cbn [negb] in H; injection H as <- <-;
     [apply writeWords_above; specialize (Hend eq_refl); eapply Z.le_trans;
      [apply Hend | exact Ha]
     | reflexivity]).
Qed.

Lemma updateStages_above packs old stages :
  Forall wf (allMaterials packs) ->
  layoutDemand GetPaddedSize (allMaterials packs) < 2 ^ 32 ->
  oneInstance GetPaddedSize uniformWords ->
  let layout := GenerateWorldMaterialsBuffer GetPaddedSize packs old in
  Forall (settled GetPaddedSize layout) stages ->
  forall buf buf' stages',
    updateStages GetPaddedSize uniformWords (materialPacks layout)
                 (bufferDynamicDrawSurfsOffset layout) stages buf
    = Some (buf', stages') ->
    forall a,
      bufferDynamicDrawSurfsOffset layout + dynamicDrawSurfsSize layout <= a ->
      buf' a = buf a.
Proof.
  intros Hwf Hb Hone layout.
  induction stages as [| s rest IH]; intros Hs buf buf' stages' H a Ha;
    cbn [updateStages] in H.
  - injection H as <- <-. reflexivity.
  - apply Forall_cons in Hs as [Hs Hrest].
    destruct (materialAt (materialPacks layout) _ _) as [material |] eqn:Em;
      [| discriminate].
    destruct (runUpdater _ _ _ _ _ _) as [[buf1 s1] |] eqn:E1; [| discriminate].
    destruct (updateStages _ _ _ _ rest buf1) as [[buf2 rest1] |] eqn:E2;
      [| discriminate].
    injection H as <- <-.
    rewrite (IH Hrest _ _ _ E2 a Ha).
    eapply runUpdater_above; [exact E1 | | exact Ha].
    intros Hupd u s2.
    exact (settled_end packs old s material Hwf Hb Hone Hs Em Hupd u s2).
Qed.

Lemma updateSurfs_above packs old surfs :
  Forall wf (allMaterials packs) ->
  layoutDemand GetPaddedSize (allMaterials packs) < 2 ^ 32 ->
  oneInstance GetPaddedSize uniformWords ->
  let layout := GenerateWorldMaterialsBuffer GetPaddedSize packs old in
  Forall (Forall (settled GetPaddedSize layout)) surfs ->
  forall buf buf' surfs',
    updateSurfs GetPaddedSize uniformWords (materialPacks layout)
                (bufferDynamicDrawSurfsOffset layout) surfs buf
    = Some (buf', surfs') ->
    forall a,
      bufferDynamicDrawSurfsOffset layout + dynamicDrawSurfsSize layout <= a ->
      buf' a = buf a.
Proof.
  intros Hwf Hb Hone layout.
  induction surfs as [| d rest IH]; intros Hs buf buf' surfs' H a Ha;
    cbn [updateSurfs] in H.
  - injection H as <- <-. reflexivity.
  - apply Forall_cons in Hs as [Hd Hrest].
    destruct (updateStages _ _ _ _ d buf) as [[buf1 d1] |] eqn:E1; [| discriminate].
    destruct (updateSurfs _ _ _ _ rest buf1) as [[buf2 rest1] |] eqn:E2;
      [| discriminate].
    injection H as <- <-.
    rewrite (IH Hrest _ _ _ E2 a Ha).
    exact (updateStages_above packs old d Hwf Hb Hone Hd _ _ _ E1 a Ha).
Qed.

(** The update completes unless a stage dispatches to
    [UpdateSurfaceDataNONE] or names a Material that does not exist. *)
Lemma runUpdater_total materialsData material s buf :
  surfaceDataUpdater s <> UpdateSurfaceDataNONE ->
  exists buf' s',
    runUpdater GetPaddedSize uniformWords materialsData material s buf
    = Some (buf', s') /\
    surfaceDataUpdater s' = surfaceDataUpdater s.
Proof.
  unfold runUpdater. intros H.
  destruct (surfaceDataUpdater s) eqn:E; try contradiction;
    try (eexists _, _; split; [reflexivity | exact E]);
    (destruct (negb _); eexists _, _; (split; [reflexivity | exact E])).
Qed.

Lemma updateStages_total packs materialsData stages :
  forall buf,
    Forall (dispatchable packs) stages ->
    is_Some (updateStages GetPaddedSize uniformWords packs materialsData stages buf).
Proof.
  induction stages as [| s rest IH]; intros buf Hd; cbn [updateStages]; [eauto |].
  apply Forall_cons in Hd as [[Hu [material Hm]] Hrest]. rewrite Hm.
  destruct (runUpdater_total materialsData material s buf Hu) as (buf1 & s1 & -> & _).
  destruct (IH buf1 Hrest) as [[buf2 rest1] ->]. eauto.
Qed.

Lemma updateSurfs_total packs materialsData surfs :
  forall buf,
    Forall (Forall (dispatchable packs)) surfs ->
    is_Some (updateSurfs GetPaddedSize uniformWords packs materialsData surfs buf).
Proof.
  induction surfs as [| d rest IH]; intros buf Hd; cbn [updateSurfs]; [eauto |].
  apply Forall_cons in Hd as [Hd Hrest].
  destruct (updateStages_total packs materialsData d buf Hd) as [[buf1 d1] ->].
  destruct (IH buf1 Hrest) as [[buf2 rest1] ->]. eauto.
Qed.

(** What holds of every update. On the layout built by
    [GenerateWorldMaterialsBuffer], for any
    list of dynamic draw surfaces (whatever their stages: dynamic or
    static, initialised or not) and any buffer contents,
    [UpdateDynamicSurfaces] completes when every stage can be
    dispatched, and when it completes it has changed no word below
    [dynamicDrawSurfsOffset], the start of the range it maps; in
    particular every word of every Material's static region is as
    before. When moreover every stage is as the third loop of the
    build leaves a stage it has visited ([settled]) and an updater
    stores at most one padded instance, no word at or after
    [dynamicDrawSurfsOffset + dynamicDrawSurfsSize] changes either.
    The copies that the build itself takes are not all of this kind: a
    copy is taken before the later Materials visit the surface. *)
Theorem UpdateDynamicSurfaces_keeps_static_region packs old surfs buf :
  Forall wf (allMaterials packs) ->
  layoutDemand GetPaddedSize (allMaterials packs) < 2 ^ 32 ->
  let layout := GenerateWorldMaterialsBuffer GetPaddedSize packs old in
  (Forall (Forall (dispatchable (materialPacks layout))) surfs ->
   is_Some (UpdateDynamicSurfaces_on GetPaddedSize uniformWords layout surfs buf)) /\
  forall buf' surfs',
    UpdateDynamicSurfaces_on GetPaddedSize uniformWords layout surfs buf
    = Some (buf', surfs') ->
    (forall a, a < bufferDynamicDrawSurfsOffset layout -> buf' a = buf a) /\
    (forall m a,
       m ∈ allMaterials (materialPacks layout) ->
       staticMaterialsSSBOOffset m <= a
         < staticMaterialsSSBOOffset m + p m * totalStaticDrawSurfCount m ->
       buf' a = buf a) /\
    (Forall (Forall (settled GetPaddedSize layout)) surfs ->
     oneInstance GetPaddedSize uniformWords ->
     forall a,
       bufferDynamicDrawSurfsOffset layout + dynamicDrawSurfsSize layout <= a ->
       buf' a = buf a).
Proof.
  intros Hwf Hb layout. split.
  - intros Hd. unfold UpdateDynamicSurfaces_on, UpdateDynamicSurfaces.
    destruct (_ =? 0); [eauto |]. now apply updateSurfs_total.
  - intros buf' surfs' Hrun.
    pose proof (UpdateDynamicSurfaces_below _ _ _ _ _ _ _ Hrun) as Hbelow.
    split; [exact Hbelow |]. split.
    + intros m a Hm Ha. apply Hbelow.
      destruct (placed_material GetPaddedSize packs old m Hwf Hb Hm)
        as (o1 & _ & _ & _ & _ & _ & Hend & _ & _ & _ & Hdyn).
      fold layout in Hdyn.
      pose proof (layout_nonempty GetPaddedSize packs old m Hwf Hb Hm) as Hne.
      specialize (Hdyn Hne). lia.
    + intros Hs Hone a Ha.
      unfold UpdateDynamicSurfaces_on, UpdateDynamicSurfaces in Hrun.
      destruct (dynamicDrawSurfsSize layout =? 0);
        [injection Hrun as <- <-; reflexivity |].
      rewrite (updateSurfs_above packs old surfs Hwf Hb Hone Hs _ _ _ Hrun a Ha).
      now apply memsetZero_above.
Qed.

End WithShaders.

Lemma sampleWords_oneInstance : oneInstance sampleStride sampleWords.
Proof.
  intros u m s. unfold sampleWords. rewrite length_replicate.
  unfold paddedSizeOf, sampleStride. destruct (shader m) as [[] |]; cbn; lia.
Qed.

Lemma UpdateDynamicSurfaces_keeps_static_region_witness :
  let layout := GenerateWorldMaterialsBuffer sampleStride Layout.samplePacks 0 in
  Forall (Forall (dispatchable (materialPacks layout))) [sampleSurf] /\
  Forall (Forall (settled sampleStride layout)) [sampleSurf] /\
  exists buf' surfs',
    UpdateDynamicSurfaces_on sampleStride sampleWords layout [sampleSurf] (fun _ => 7)
    = Some (buf', surfs') /\
    (forall a, a < bufferDynamicDrawSurfsOffset layout -> buf' a = 7) /\
    (forall m a,
       m ∈ allMaterials (materialPacks layout) ->
       staticMaterialsSSBOOffset m <= a
         < staticMaterialsSSBOOffset m
           + paddedSizeOf sampleStride m * totalStaticDrawSurfCount m ->
       buf' a = 7) /\
    (forall a,
       bufferDynamicDrawSurfsOffset layout + dynamicDrawSurfsSize layout <= a ->
       buf' a = 7).
Proof.
  intros layout.
  assert (layoutDemand sampleStride (allMaterials Layout.samplePacks) < 2 ^ 32) as Hb
      by (vm_compute; reflexivity).
  assert (Forall (Forall (dispatchable (materialPacks layout))) [sampleSurf]) as Hd.
  { repeat constructor; try discriminate; vm_compute; eauto. }
  assert (Forall (Forall (settled sampleStride layout)) [sampleSurf]) as Hs.
  { constructor; [| constructor].
    constructor; [| constructor; [| constructor]]; intros material Hm.
    - vm_compute in Hm. injection Hm as <-. cbn [dynamic sampleSurf].
      exists 0. split; [cbn; lia | vm_compute; reflexivity].
    - cbn. repeat split. }
  destruct (UpdateDynamicSurfaces_keeps_static_region
              sampleStride sampleWords Layout.samplePacks 0 [sampleSurf] (fun _ => 7)
              samplePacks_wf Hb) as [Htotal Hkeeps].
  destruct (Htotal Hd) as [[buf' surfs'] Hrun].
  destruct (Hkeeps buf' surfs' Hrun) as (Hlow & Hstatic & Hhigh).
  split; [exact Hd |]. split; [exact Hs |].
  exists buf', surfs'. split; [exact Hrun |].
  split; [exact Hlow |]. split; [exact Hstatic |].
  exact (Hhigh Hs sampleWords_oneInstance).
Defined.

(** The sample update: the dynamic region starts at word 56; the words
    before it keep their value 7, the dynamic stage's slot is rewritten and
    the rest of the region is zero. *)
Example sample_update :
  let layout := GenerateWorldMaterialsBuffer sampleStride Layout.samplePacks 0 in
  bufferDynamicDrawSurfsOffset layout = 56 /\
  match UpdateDynamicSurfaces_on sampleStride sampleWords layout [sampleSurf]
                                 (fun _ => 7) with
  | Some (buf', _) => buf' 55 = 7 /\ buf' 56 = 255 /\ buf' 67 = 255 /\ buf' 68 = 0
  | None => False
  end.
Proof. vm_compute. repeat split; reflexivity. Qed.

End UpdateFacts.

(** ** ProcessStage: one Material per key, sync targets, the search *)

Module ClassifierFacts.
Import Classifier.

Lemma Material_eqb_key a b : Material_eqb a b = true <-> keyOf a = keyOf b.
Proof.
  unfold Material_eqb, keyOf. rewrite !andb_true_iff, !bool_decide_eq_true.
  split.
  - intros ((((((-> & ->) & ->) & ->) & ->) & ->) & ->). reflexivity.
  - intros H. injection H as -> -> -> -> -> -> ->. repeat split.
Qed.

Lemma accepts_spec material it :
  accepts Material_eqb material it = true <->
  keyOf it = keyOf material /\
  ~ (useSync material = true /\ id it < syncMaterial material).
Proof.
  unfold accepts. rewrite andb_true_iff, negb_true_iff, Material_eqb_key.
  rewrite andb_false_iff, Z.ltb_nlt. split.
  - intros [Hk Hs]. split; [exact Hk |]. intros [Hu Hlt].
    destruct Hs as [Hs | Hs]; [congruence | lia].
  - intros [Hk Hs]. split; [exact Hk |].
    destruct (useSync material); [right | left; reflexivity].
    intros Hlt. apply Hs. split; [reflexivity | exact Hlt].
Qed.

(** The search returns the first Material it accepts, whatever
    [Material::operator==] is. *)
Lemma findMaterial_spec Material_eq material ms :
  forall pos,
    match findMaterial Material_eq material ms pos with
    | Some (i, it) =>
        exists j : nat,
          i = (pos + j)%nat /\ ms !! j = Some it /\ accepts Material_eq material it = true /\
          forall (j' : nat) mj,
            (j' < j)%nat -> ms !! j' = Some mj -> accepts Material_eq material mj = false
    | None => forall (j : nat) mj, ms !! j = Some mj -> accepts Material_eq material mj = false
    end.
Proof.
  induction ms as [| it rest IH]; intros pos; cbn [findMaterial].
  - intros j mj H. inversion H.
  - specialize (IH (S pos)).
    assert (accepts Material_eq material it = false ->
            match findMaterial Material_eq material rest (S pos) with
            | Some (i, it0) =>
                exists j : nat,
                  i = (pos + j)%nat /\ (it :: rest) !! j = Some it0 /\
                  accepts Material_eq material it0 = true /\
                  forall (j' : nat) mj,
                    (j' < j)%nat -> (it :: rest) !! j' = Some mj ->
                    accepts Material_eq material mj = false
            | None => forall (j : nat) mj,
                (it :: rest) !! j = Some mj -> accepts Material_eq material mj = false
            end) as Hskip.
    { intros Hno. destruct (findMaterial Material_eq material rest (S pos)) as [[i it0] |].
      - destruct IH as (j & -> & Hj & Hacc & Hfirst).
        exists (S j). split; [lia |]. split; [exact Hj |]. split; [exact Hacc |].
        intros [| j'] mj Hlt Hmj.
        + cbn in Hmj. injection Hmj as <-. exact Hno.
        + apply (Hfirst j' mj); [lia | exact Hmj].
      - intros [| j] mj Hmj.
        + cbn in Hmj. injection Hmj as <-. exact Hno.
        + exact (IH j mj Hmj). }
    unfold accepts in Hskip.
    destruct (Material_eq it material) eqn:E; [| apply Hskip; reflexivity].
    destruct (useSync material && (id it <? syncMaterial material)) eqn:E2;
      [apply Hskip; reflexivity |].
    exists 0%nat. split; [lia |]. split; [reflexivity |]. split.
    + unfold accepts. now rewrite E, E2.
    + intros j' mj Hlt. lia.
Qed.

Lemma keyOf_set_shader v m : keyOf (set_shader v m) = keyOf m.
Proof. reflexivity. Qed.

Lemma keyOf_set_id v m : keyOf (set_id v m) = keyOf m.
Proof. reflexivity. Qed.

Lemma countStage_key b a m :
  keyOf (countStage b a m) = keyOf m /\ id (countStage b a m) = id m.
Proof.
  unfold countStage. destruct b; destruct (bool_decide _); split; reflexivity.
Qed.

Lemma runMaterialProcessor_key f m m' :
  runMaterialProcessor f m = Some m' -> keyOf m' = keyOf m /\ id m' = id m.
Proof.
  destruct f; cbn; intros H; try discriminate; injection H as <-; split; reflexivity.
Qed.

Lemma alter_keeps_key (f : Material -> Material) (i : nat) (ms : list Material) :
  (forall m, keyOf (f m) = keyOf m /\ id (f m) = id m) ->
  (forall (j : nat) m',
     alter f i ms !! j = Some m' ->
     exists m, ms !! j = Some m /\ keyOf m' = keyOf m /\ id m' = id m) /\
  (forall (j : nat) m,
     ms !! j = Some m ->
     exists m', alter f i ms !! j = Some m' /\ keyOf m' = keyOf m /\ id m' = id m).
Proof.
  intros Hf. split; intros j m H.
  - destruct (decide (i = j)) as [-> | Hne].
    + rewrite list_lookup_alter_eq in H.
      destruct (ms !! j) as [m0 |]; [| discriminate]. injection H as <-.
      exists m0. split; [reflexivity | apply Hf].
    + rewrite list_lookup_alter_ne in H by exact Hne.
      exists m. repeat split. exact H.
  - destruct (decide (i = j)) as [-> | Hne].
    + exists (f m). rewrite list_lookup_alter_eq, H. split; [reflexivity | apply Hf].
    + exists m. rewrite list_lookup_alter_ne by exact Hne. repeat split. exact H.
Qed.

Lemma keyOf_sync m m' :
  keyOf m = keyOf m' -> useSync m = useSync m' /\ syncMaterial m = syncMaterial m'.
Proof. unfold keyOf. intros H. injection H as _ _ _ _ _ -> ->. split; reflexivity. Qed.

Lemma packInv_alter (f : Material -> Material) (i : nat) (ms : list Material) :
  (forall m, keyOf (f m) = keyOf m /\ id (f m) = id m) ->
  packInv ms -> packInv (alter f i ms).
Proof.
  intros Hf (L1 & L2 & L3).
  destruct (alter_keeps_key f i ms Hf) as [Hback _].
  split; [| split].
  - intros j m' H. destruct (Hback j m' H) as (m & Hm & _ & ->). eauto.
  - intros j m' H Hu. destruct (Hback j m' H) as (m & Hm & Hk & ->).
    destruct (keyOf_sync _ _ Hk) as [Hus ->]. apply (L2 j m Hm). congruence.
  - intros j1 j2 m1 m2 H1 H2 Hk.
    destruct (Hback j1 m1 H1) as (n1 & Hn1 & Hk1 & _).
    destruct (Hback j2 m2 H2) as (n2 & Hn2 & Hk2 & _).
    apply (L3 j1 j2 n1 n2 Hn1 Hn2). congruence.
Qed.

(** Appending a Material that the search did not find keeps the pack
    invariant. *)
Lemma packInv_snoc material (ms : list Material) :
  packInv ms ->
  findMaterial Material_eqb material ms 0 = None ->
  (useSync material = true -> syncMaterial material < Z.of_nat (length ms)) ->
  packInv (ms ++ [set_id (Z.of_nat (length ms)) material]).
Proof.
  intros (L1 & L2 & L3) Hnone Hsync.
  pose proof (findMaterial_spec Material_eqb material ms 0%nat) as Hspec. rewrite Hnone in Hspec.
  assert (forall (j : nat) mj, ms !! j = Some mj -> keyOf mj <> keyOf material) as Hfresh.
  { intros j mj Hj Hk. specialize (Hspec j mj Hj).
    assert (accepts Material_eqb material mj = true) as Hacc; [| congruence].
    apply accepts_spec. split; [exact Hk |]. intros [Hu Hlt].
    destruct (keyOf_sync _ _ Hk) as [Hus Hsm].
    pose proof (L2 j mj Hj ltac:(congruence)). lia. }
  assert (forall (j : nat) m,
            (ms ++ [set_id (Z.of_nat (length ms)) material]) !! j = Some m ->
            ms !! j = Some m \/
            (j = length ms /\ m = set_id (Z.of_nat (length ms)) material)) as Hcases.
  { intros j m H. apply lookup_app_Some in H as [H | [Hge H]]; [left; exact H |].
    right. destruct (j - length ms)%nat as [| x] eqn:E; [| inversion H].
    cbn in H. injection H as <-. split; [lia | reflexivity]. }
  split; [| split].
  - intros j m H. destruct (Hcases j m H) as [H0 | [-> ->]]; [eauto | reflexivity].
  - intros j m H Hu. destruct (Hcases j m H) as [H0 | [-> ->]]; [eauto |].
    cbn in *. auto.
  - intros j1 j2 m1 m2 H1 H2 Hk.
    destruct (Hcases j1 m1 H1) as [H1' | [-> ->]];
      destruct (Hcases j2 m2 H2) as [H2' | [-> ->]].
    + eauto.
    + exfalso. apply (Hfresh j1 m1 H1'). rewrite Hk. apply keyOf_set_id.
    + exfalso. apply (Hfresh j2 m2 H2'). rewrite <- Hk. apply keyOf_set_id.
    + reflexivity.
Qed.

(** One classification step on the Materials of the target pack. *)
Lemma classify_spec material isDynamic drawSurf (ms : list Material) :
  packInv ms ->
  Z.of_nat (length ms) + 1 < 2 ^ 32 ->
  (useSync material = true -> syncMaterial material < Z.of_nat (length ms)) ->
  let r := classify Material_eqb material isDynamic drawSurf (Z.of_nat (length ms)) ms in
  let ms' := r.1.1 in
  let previousMaterialID' := r.1.2 in
  packInv ms' /\
  r.2 = Z.of_nat (length ms') /\
  0 <= previousMaterialID' < Z.of_nat (length ms') /\
  (length ms' = length ms + match findMaterial Material_eqb material ms 0 with
                            | Some _ => 0 | None => 1 end)%nat /\
  (forall (i : nat) m,
     ms !! i = Some m ->
     exists m', ms' !! i = Some m' /\ keyOf m' = keyOf m /\ id m' = id m) /\
  exists m,
    ms' !! Z.to_nat previousMaterialID' = Some m /\
    keyOf m = keyOf material /\ id m = previousMaterialID'.
Proof.
  intros Hinv Hroom Hsync. unfold classify.
  pose proof (findMaterial_spec Material_eqb material ms 0%nat) as Hspec.
  assert (forall m, keyOf (countStage isDynamic drawSurf m) = keyOf m /\
                    id (countStage isDynamic drawSurf m) = id m) as Hf
      by (intros m; apply countStage_key).
  destruct (findMaterial Material_eqb material ms 0) as [[i it] |] eqn:Efind.
  - destruct Hspec as (j & -> & Hj & Hacc & _). cbn [fst snd].
    pose proof Hinv as (L1 & _). rewrite (L1 j it Hj), Nat2Z.id.
    destruct (alter_keeps_key _ j ms Hf) as [_ Hfwd].
    apply accepts_spec in Hacc as [Hk _].
    pose proof (lookup_lt_Some _ _ _ Hj) as Hlt.
    rewrite length_alter.
    split; [now apply packInv_alter |]. split; [reflexivity |].
    split; [lia |]. split; [lia |]. split.
    + intros i m Hm. destruct (Hfwd i m Hm) as (m' & Hm' & Hk' & Hi'). eauto.
    + destruct (Hfwd j it Hj) as (m' & Hm' & Hk' & Hid').
      exists m'. split; [exact Hm' |]. split; [congruence |].
      rewrite Hid'. apply (L1 j it Hj).
  - cbn [fst snd]. rewrite Nat2Z.id.
    set (ms1 := ms ++ [set_id (Z.of_nat (length ms)) material]).
    pose proof (packInv_snoc material ms Hinv Efind Hsync) as Hinv1. fold ms1 in Hinv1.
    destruct (alter_keeps_key _ (length ms) ms1 Hf) as [_ Hfwd].
    assert (length ms1 = S (length ms)) as Hlen
        by (subst ms1; rewrite length_app; cbn; lia).
    rewrite length_alter, Hlen.
    split; [now apply packInv_alter |].
    split; [rewrite wrap32_small by (unfold is_u32; lia); lia |].
    split; [lia |]. split; [lia |]. split.
    + intros i m Hm.
      assert (ms1 !! i = Some m) as Hm1 by (subst ms1; now apply lookup_app_l_Some).
      destruct (Hfwd i m Hm1) as (m' & Hm' & Hk' & Hi'). eauto.
    + assert (ms1 !! length ms = Some (set_id (Z.of_nat (length ms)) material)) as Hlast.
      { subst ms1. rewrite lookup_app_r by lia.
        now replace (length ms - length ms)%nat with 0%nat by lia. }
      destruct (Hfwd _ _ Hlast) as (m' & Hm' & Hk' & Hid').
      exists m'. split; [exact Hm' |]. split; [exact Hk' | exact Hid'].
Qed.

Section WithConstants.
Variable K : RendererConstants.
Variable Material_eq : Material -> Material -> bool.

Local Abbreviation Inv := (classifiedInv).
Local Abbreviation pack := (packOf K).

Lemma extends_refl c : extends c c.
Proof. intros p i m H. eauto. Qed.

Lemma extends_trans a b c : extends a b -> extends b c -> extends a c.
Proof.
  intros Hab Hbc p i m H.
  destruct (Hab p i m H) as (m1 & H1 & K1 & J1).
  destruct (Hbc p i m1 H1) as (m2 & H2 & K2 & J2).
  exists m2. split; [exact H2 | split; congruence].
Qed.

Lemma emptyClassified_inv : Inv 0 emptyClassified.
Proof.
  unfold classifiedInv. cbn. repeat split; try lia;
    intros; match goal with H : [] !! _ = Some _ |- _ => inversion H end.
Qed.

Lemma classifiedInv_mono n n' c : n <= n' -> Inv n c -> Inv n' c.
Proof.
  intros Hle (I1 & I2 & I3 & I4 & I5). repeat split; try assumption.
  intros p. specialize (I2 p). lia.
Qed.


Lemma classifiedInv_pack n c p : Inv n c -> packInv (materialsOf c p).
Proof.
  intros (_ & _ & I3 & I4 & I5). split; [| split].
  - intros i m. apply I3.
  - intros i m. apply I4.
  - intros i j mi mj. apply I5.
Qed.

Lemma candidate_key d pStage sh k prev :
  keyOf (candidate K d pStage sh k prev)
  = (Z.land (shaderStage.stateBits pStage) (stateBitsMask K),
     shaderStage.shaderBinder pStage, shader_t.cullType sh,
     drawSurf_t.vbo d, drawSurf_t.ibo d, 0 <? k,
     if 0 <? k then prev else 0).
Proof. reflexivity. Qed.

Lemma stagePlaced_extends c c' sh d k pStage :
  extends c c' -> stagePlaced K c sh d k pStage -> stagePlaced K c' sh d k pStage.
Proof.
  intros Hext (Hp & m & Hm & Hid & Hk). split; [exact Hp |].
  destruct (Hext _ _ _ Hm) as (m' & Hm' & Hk' & Hid').
  exists m'. split; [exact Hm' |]. split; congruence.
Qed.

(** One call of [ProcessStage]. *)
Lemma ProcessStage_spec n sh pStage s s' :
  stageLoopInv K n sh s ->
  n + 1 < 2 ^ 32 ->
  ProcessStage K Material_eqb sh pStage s = Some s' ->
  stageLoopInv K (n + 1) sh s' /\
  extends (classified s) (classified s') /\
  length (doneStages s') = S (length (doneStages s)) /\
  (forall pS sh0 k prev,
     candidate K (drawSurf s') pS sh0 k prev
     = candidate K (drawSurf s) pS sh0 k prev) /\
  eligibleShader (drawSurf s') = eligibleShader (drawSurf s).
Proof.
  intros (Hinv & Hstage & Hle & Hprev & Hplaced) Hroom Hrun.
  unfold ProcessStage in Hrun.
  set (p := pack (shader_t.sort sh)) in *.
  set (dyn := Dynamics.ComputeDynamics (shaderStage.dynamics pStage)) in *.
  set (d1 := if Dynamics.texturesDynamic dyn
             then drawSurf_t.set_texturesDynamic (stage s) (drawSurf s)
             else drawSurf s) in *.
  set (material0 := candidate K (drawSurf s) pStage sh (stage s)
                              (previousMaterialID s)) in *.
  destruct (runMaterialProcessor _ material0) as [material |] eqn:Eproc;
    [| discriminate].
  destruct (runMaterialProcessor_key _ _ _ Eproc) as [Hkey _].
  pose proof Hinv as (I1 & I2 & I3 & I4 & I5).
  pose proof (classifiedInv_pack n _ p Hinv) as Hpack.
  rewrite (I1 p) in Hrun.
  assert (useSync material = true ->
          syncMaterial material < Z.of_nat (length (materialsOf (classified s) p)))
    as Hsync.
  { destruct (keyOf_sync _ _ Hkey) as [-> ->]. subst material0. cbn.
    intros Hs. rewrite Hs. apply Z.ltb_lt in Hs.
    destruct (Hprev Hs) as [Hr _]. rewrite (I1 p) in Hr. lia. }
  pose proof (classify_spec material (Dynamics.dynamic dyn) (drawSurf_t.addr d1)
                (materialsOf (classified s) p) Hpack
                ltac:(specialize (I2 p); lia) Hsync) as Hc.
  destruct (classify Material_eqb material _ _ _ _) as [[ms' prev'] id'] eqn:Ecl.
  cbn [fst snd] in Hc. destruct Hc as (Hpack' & Hid' & Hprev' & Hlen' & Hkeep & m & Hm & Hmk & Hmid).
  injection Hrun as <-.
  cbn [classified drawSurf doneStages stage previousMaterialID].
  assert (length ms' <= length (materialsOf (classified s) p) + 1)%nat as Hlen1
      by (destruct (findMaterial Material_eqb material _ 0); lia).
  assert (wrap32 (stage s + 1) = stage s + 1) as Hw
      by (apply wrap32_small; unfold is_u32; lia).
  assert (extends (classified s)
            {| materialsOf := upd (materialsOf (classified s)) p ms';
               packIDs := upd (packIDs (classified s)) p id' |}) as Hext.
  { intros q i m0 H0. cbn [materialsOf]. unfold upd.
    destruct (Z.eqb_spec q p) as [-> | Hne]; [apply Hkeep, H0 | eauto]. }
  assert (forall pS sh0 k prev,
            candidate K (drawSurf_t.set_stageResult (stage s) prev' p d1) pS sh0 k prev
            = candidate K (drawSurf s) pS sh0 k prev) as Hcand.
  { intros. subst d1. destruct (Dynamics.texturesDynamic dyn); reflexivity. }
  assert (drawSurf_t.materialIDs (drawSurf_t.set_stageResult (stage s) prev' p d1)
          = upd (drawSurf_t.materialIDs (drawSurf s)) (stage s) prev') as HmIDs.
  { subst d1. destruct (Dynamics.texturesDynamic dyn); reflexivity. }
  assert (drawSurf_t.materialPackIDs (drawSurf_t.set_stageResult (stage s) prev' p d1)
          = upd (drawSurf_t.materialPackIDs (drawSurf s)) (stage s) p) as HpIDs.
  { subst d1. destruct (Dynamics.texturesDynamic dyn); reflexivity. }
  split; [| split; [exact Hext |]; split; [| split; [exact Hcand |]]].
  - unfold stageLoopInv.
    cbn [classified drawSurf doneStages stage previousMaterialID].
    rewrite Hw, length_app. cbn [length].
    split; [| split; [lia |]; split; [lia |]; split].
    + (* the classification invariant *)
      unfold classifiedInv. cbn [materialsOf packIDs]. unfold upd.
      split; [| split; [| split; [| split]]].
      * intros q. destruct (Z.eqb_spec q p); [exact Hid' | apply I1].
      * intros q. destruct (Z.eqb_spec q p) as [-> | ?];
          [specialize (I2 p); lia | specialize (I2 q); lia].
      * intros q i m0. destruct (Z.eqb_spec q p); [apply Hpack' | apply I3].
      * intros q i m0. destruct (Z.eqb_spec q p); [apply Hpack' | apply I4].
      * intros q i j mi mj. destruct (Z.eqb_spec q p); [apply Hpack' | apply I5].
    + intros _. fold p. cbn [packIDs]. rewrite upd_same, Hid'. split; [lia |].
      rewrite HmIDs. replace (stage s + 1 - 1) with (stage s) by lia.
      now rewrite upd_same.
    + intros k pS Hk. apply lookup_app_Some in Hk as [Hk | [Hge Hk]].
      * (* an earlier stage of this surface *)
        pose proof (lookup_lt_Some _ _ _ Hk) as Hlt.
        destruct (Hplaced k pS Hk) as (Hp0 & m0 & Hm0 & Hid0 & Hk0).
        destruct (Hext _ _ _ Hm0) as (m1 & Hm1 & Hk1 & Hid1).
        unfold stagePlaced. fold p in Hp0, Hm0, Hk0 |- *.
        rewrite HmIDs, HpIDs, Hcand.
        rewrite !upd_other by lia.
        split; [exact Hp0 |]. exists m1. split; [exact Hm1 |]. split; congruence.
      * (* the stage just processed *)
        destruct (k - length (doneStages s))%nat as [| x] eqn:Ek; [| inversion Hk].
        cbn in Hk. injection Hk as <-.
        assert (Z.of_nat k = stage s) as Hks by lia.
        unfold stagePlaced. fold p. rewrite HmIDs, HpIDs, Hcand, Hks, !upd_same.
        split; [reflexivity |]. exists m.
        split; [cbn [materialsOf]; rewrite upd_same; exact Hm |].
        split; [exact Hmid |].
        rewrite Hmk, Hkey. subst material0. rewrite !candidate_key.
        cbn [shaderStage.stateBits shaderStage.shaderBinder].
        destruct (Z.ltb_spec 0 (stage s)) as [E0 | E0]; [| reflexivity].
        rewrite upd_other by lia.
        destruct (Hprev E0) as [_ ->]. reflexivity.
  - rewrite length_app. cbn. lia.
  - subst d1. destruct (Dynamics.texturesDynamic dyn); reflexivity.
Qed.


Lemma processStages_spec sh pStages :
  forall n s s',
    stageLoopInv K n sh s ->
    n + Z.of_nat (length pStages) < 2 ^ 32 ->
    processStages K Material_eqb sh pStages s = Some s' ->
    stageLoopInv K (n + Z.of_nat (length pStages)) sh s' /\
    extends (classified s) (classified s') /\
    length (doneStages s') = (length (doneStages s) + length pStages)%nat /\
    (forall pS sh0 k prev,
       candidate K (drawSurf s') pS sh0 k prev
       = candidate K (drawSurf s) pS sh0 k prev) /\
    eligibleShader (drawSurf s') = eligibleShader (drawSurf s).
Proof.
  induction pStages as [| pStage rest IH]; intros n s s' Hinv Hroom Hrun;
    cbn [processStages length] in *.
  - injection Hrun as <-. rewrite Z.add_0_r, Nat.add_0_r.
    split; [exact Hinv |]. split; [apply extends_refl |]. repeat split.
  - destruct (ProcessStage K Material_eqb sh pStage s) as [s1 |] eqn:E1; [| discriminate].
    destruct (ProcessStage_spec n sh pStage s s1 Hinv ltac:(lia) E1)
      as (Hinv1 & Hext1 & Hlen1 & Hcand1 & Hel1).
    destruct (IH (n + 1) s1 s' Hinv1 ltac:(lia) Hrun)
      as (Hinv' & Hext' & Hlen' & Hcand' & Hel').
    replace (n + Z.of_nat (S (length rest))) with (n + 1 + Z.of_nat (length rest))
      by lia.
    split; [exact Hinv' |]. split; [eapply extends_trans; eassumption |].
    split; [lia |]. split; [| congruence].
    intros. rewrite Hcand'. apply Hcand1.
Qed.

Lemma surfacePlaced_extends c c' d :
  extends c c' -> surfacePlaced K c d -> surfacePlaced K c' d.
Proof.
  intros Hext H sh k pStage Hsh Hk.
  eapply stagePlaced_extends; [exact Hext | now apply H].
Qed.

Lemma processSurf_spec n d c c' d' :
  Inv n c -> 0 <= n ->
  n + Z.of_nat (length (drawSurf_t.stages d)) < 2 ^ 32 ->
  processSurf K Material_eqb d c = Some (c', d') ->
  Inv (n + Z.of_nat (length (drawSurf_t.stages d))) c' /\
  extends c c' /\ surfacePlaced K c' d'.
Proof.
  intros Hinv Hn Hroom Hrun. unfold processSurf in Hrun.
  destruct (eligibleShader d) as [sh |] eqn:Esh.
  - set (s0 := Build_StageLoop c d [] 0 0) in *.
    assert (stageLoopInv K n sh s0) as H0.
    { unfold stageLoopInv. subst s0.
      cbn [classified drawSurf doneStages stage previousMaterialID length].
      split; [exact Hinv |]. split; [reflexivity |]. split; [lia |].
      split; [intros H; lia |]. intros k pS H. inversion H. }
    destruct (processStages K Material_eqb sh (drawSurf_t.stages d) s0) as [s' |] eqn:E;
      [| discriminate].
    injection Hrun as <- <-.
    destruct (processStages_spec sh _ n s0 s' H0 Hroom E)
      as ((Hinv' & _ & _ & _ & Hplaced) & Hext & _ & Hcand & Hel).
    split; [exact Hinv' |]. split; [exact Hext |].
    intros sh' k pStage Hsh' Hk.
    assert (sh' = sh) as ->.
    { change (eligibleShader (drawSurf_t.set_stages (doneStages s') (drawSurf s')))
        with (eligibleShader (drawSurf s')) in Hsh'.
      rewrite Hel in Hsh'. subst s0. cbn [drawSurf] in Hsh'. congruence. }
    exact (Hplaced k pStage Hk).
  - injection Hrun as <- <-.
    split; [eapply classifiedInv_mono; [| exact Hinv]; lia |].
    split; [apply extends_refl |].
    intros sh k pStage Hsh. congruence.
Qed.

Lemma stageCount_cons d ds :
  stageCount (d :: ds) = Z.of_nat (length (drawSurf_t.stages d)) + stageCount ds.
Proof. reflexivity. Qed.

Lemma stageCount_nonneg ds : 0 <= stageCount ds.
Proof.
  apply LoopFacts.sumZ_nonneg, Forall_map, Forall_forall. intros d _. cbn. lia.
Qed.

Lemma processSurfs_spec ds :
  forall n c c' outs,
    Inv n c -> 0 <= n ->
    n + stageCount ds < 2 ^ 32 ->
    processSurfs K Material_eqb ds c = Some (c', outs) ->
    Inv (n + stageCount ds) c' /\ extends c c' /\ Forall (surfacePlaced K c') outs.
Proof.
  induction ds as [| d rest IH]; intros n c c' outs Hinv Hn Hroom Hrun;
    cbn [processSurfs] in Hrun.
  - injection Hrun as <- <-. unfold stageCount, sumZ. cbn. rewrite Z.add_0_r.
    split; [exact Hinv |]. split; [apply extends_refl | constructor].
  - rewrite stageCount_cons in *. pose proof (stageCount_nonneg rest) as Hnn.
    destruct (processSurf K Material_eqb d c) as [[c1 d1] |] eqn:E1; [| discriminate].
    destruct (processSurfs K Material_eqb rest c1) as [[c2 rest1] |] eqn:E2; [| discriminate].
    injection Hrun as <- <-.
    destruct (processSurf_spec n d c c1 d1 Hinv Hn ltac:(lia) E1)
      as (Hinv1 & Hext1 & Hpl1).
    destruct (IH _ c1 c2 rest1 Hinv1 ltac:(lia) ltac:(lia) E2)
      as (Hinv2 & Hext2 & Hpl2).
    rewrite Z.add_assoc.
    split; [exact Hinv2 |]. split; [eapply extends_trans; eassumption |].
    constructor; [| exact Hpl2].
    eapply surfacePlaced_extends; eassumption.
Qed.

(** [GenerateWorldMaterials] completes when no stage dispatches to
    [ProcessMaterialNONE]. *)
Lemma ProcessStage_total sh pStage s :
  shaderStage.materialProcessor pStage <> ProcessMaterialNONE ->
  is_Some (ProcessStage K Material_eq sh pStage s).
Proof.
  intros H. unfold ProcessStage.
  destruct (shaderStage.materialProcessor pStage); try contradiction;
    cbn [runMaterialProcessor];
    destruct (classify _ _ _ _ _ _) as [[? ?] ?]; eauto.
Qed.

Lemma processStages_total sh pStages :
  forall s,
    Forall (fun pStage =>
              shaderStage.materialProcessor pStage <> ProcessMaterialNONE) pStages ->
    is_Some (processStages K Material_eq sh pStages s).
Proof.
  induction pStages as [| pStage rest IH]; intros s H; cbn [processStages]; [eauto |].
  apply Forall_cons in H as [H1 H2].
  destruct (ProcessStage_total sh pStage s H1) as [s1 ->]. now apply IH.
Qed.

Lemma GenerateWorldMaterials_total ds :
  Forall (fun d =>
            Forall (fun pStage =>
                      shaderStage.materialProcessor pStage <> ProcessMaterialNONE)
                   (drawSurf_t.stages d)) ds ->
  is_Some (GenerateWorldMaterials K Material_eq ds).
Proof.
  unfold GenerateWorldMaterials. generalize emptyClassified.
  induction ds as [| d rest IH]; intros c H; cbn [processSurfs]; [eauto |].
  apply Forall_cons in H as [H1 H2].
  assert (is_Some (processSurf K Material_eq d c)) as [[c1 d1] ->].
  { unfold processSurf. destruct (eligibleShader d); [| eauto].
    destruct (processStages_total t _ (Build_StageLoop c d [] 0 0) H1) as [s ->].
    eauto. }
  destruct (IH c1 H2) as [[c2 rest1] ->]. eauto.
Qed.

(** *** Whatever [Material::operator==] is *)

Lemma countStage_sync b a m :
  id (countStage b a m) = id m /\
  useSync (countStage b a m) = useSync m /\
  syncMaterial (countStage b a m) = syncMaterial m.
Proof.
  destruct (countStage_key b a m) as [Hk Hid].
  destruct (keyOf_sync _ _ Hk) as [Hu Hs]. auto.
Qed.

Lemma packOrd_alter (f : Material -> Material) (i : nat) (ms : list Material) :
  (forall m, keyOf (f m) = keyOf m /\ id (f m) = id m) ->
  packOrd ms -> packOrd (alter f i ms).
Proof.
  intros Hf (L1 & L2).
  destruct (alter_keeps_key f i ms Hf) as [Hback _].
  split.
  - intros j m' H. destruct (Hback j m' H) as (m & Hm & _ & ->). eauto.
  - intros j m' H Hu. destruct (Hback j m' H) as (m & Hm & Hk & ->).
    destruct (keyOf_sync _ _ Hk) as [Hus ->]. apply (L2 j m Hm). congruence.
Qed.

Lemma packOrd_snoc material (ms : list Material) :
  packOrd ms ->
  (useSync material = true -> syncMaterial material < Z.of_nat (length ms)) ->
  packOrd (ms ++ [set_id (Z.of_nat (length ms)) material]).
Proof.
  intros (L1 & L2) Hsync.
  assert (forall (j : nat) m,
            (ms ++ [set_id (Z.of_nat (length ms)) material]) !! j = Some m ->
            ms !! j = Some m \/
            (j = length ms /\ m = set_id (Z.of_nat (length ms)) material)) as Hcases.
  { intros j m H. apply lookup_app_Some in H as [H | [Hge H]]; [left; exact H |].
    right. destruct (j - length ms)%nat as [| x] eqn:E; [| inversion H].
    cbn in H. injection H as <-. split; [lia | reflexivity]. }
  split.
  - intros j m H. destruct (Hcases j m H) as [H0 | [-> ->]]; [eauto | reflexivity].
  - intros j m H Hu. destruct (Hcases j m H) as [H0 | [-> ->]]; [eauto |].
    cbn in *. auto.
Qed.

(** The search accepts no Material before the sync target. *)
Lemma findMaterial_found material ms (i : nat) it :
  findMaterial Material_eq material ms 0 = Some (i, it) ->
  ms !! i = Some it /\ Material_eq it material = true /\
  (useSync material = true -> syncMaterial material <= id it).
Proof.
  intros E. pose proof (findMaterial_spec Material_eq material ms 0%nat) as H.
  rewrite E in H. destruct H as (j & -> & Hj & Hacc & _). cbn [Nat.add].
  unfold accepts in Hacc. apply andb_true_iff in Hacc as [Heq Hs].
  split; [exact Hj |]. split; [exact Heq |].
  intros Hu. rewrite Hu in Hs. cbn in Hs. apply negb_true_iff, Z.ltb_ge in Hs.
  exact Hs.
Qed.

(** One classification step on the Materials of the target pack. *)
Lemma classify_ord material isDynamic drawSurf (ms : list Material) :
  packOrd ms ->
  Z.of_nat (length ms) + 1 < 2 ^ 32 ->
  (useSync material = true -> syncMaterial material < Z.of_nat (length ms)) ->
  let r := classify Material_eq material isDynamic drawSurf
             (Z.of_nat (length ms)) ms in
  let ms' := r.1.1 in
  let previousMaterialID' := r.1.2 in
  packOrd ms' /\
  r.2 = Z.of_nat (length ms') /\
  0 <= previousMaterialID' < Z.of_nat (length ms') /\
  (length ms' <= length ms + 1)%nat /\
  (forall (i : nat) m,
     ms !! i = Some m ->
     exists m', ms' !! i = Some m' /\ keyOf m' = keyOf m /\ id m' = id m) /\
  (exists m,
     ms' !! Z.to_nat previousMaterialID' = Some m /\ id m = previousMaterialID') /\
  (useSync material = true -> syncMaterial material <= previousMaterialID') /\
  (comparesSync Material_eq -> useSync material = true ->
   syncMaterial material < previousMaterialID').
Proof.
  intros Hinv Hroom Hsync. unfold classify.
  assert (forall m, keyOf (countStage isDynamic drawSurf m) = keyOf m /\
                    id (countStage isDynamic drawSurf m) = id m) as Hf
      by (intros m; apply countStage_key).
  destruct (findMaterial Material_eq material ms 0) as [[i it] |] eqn:Efind.
  - destruct (findMaterial_found _ _ _ _ Efind) as (Hj & Heq & Hge).
    cbn [fst snd].
    pose proof Hinv as (L1 & L2). rewrite (L1 i it Hj), Nat2Z.id.
    destruct (alter_keeps_key _ i ms Hf) as [_ Hfwd].
    pose proof (lookup_lt_Some _ _ _ Hj) as Hlt.
    rewrite length_alter.
    split; [now apply packOrd_alter |]. split; [reflexivity |].
    split; [lia |]. split; [lia |]. split; [| split; [| split]].
    + intros j m Hm. destruct (Hfwd j m Hm) as (m' & Hm' & Hk' & Hi'). eauto.
    + destruct (Hfwd i it Hj) as (m' & Hm' & Hk' & Hid').
      exists m'. split; [exact Hm' |]. rewrite Hid'. apply (L1 i it Hj).
    + intros Hu. rewrite <- (L1 i it Hj). apply Hge, Hu.
    + intros Hcmp Hu. destruct (Hcmp _ _ Heq) as [Hu' Hs'].
      rewrite <- (L1 i it Hj), <- Hs'. apply (L2 i it Hj). congruence.
  - cbn [fst snd]. rewrite Nat2Z.id.
    set (ms1 := ms ++ [set_id (Z.of_nat (length ms)) material]).
    pose proof (packOrd_snoc material ms Hinv Hsync) as Hinv1. fold ms1 in Hinv1.
    destruct (alter_keeps_key _ (length ms) ms1 Hf) as [_ Hfwd].
    assert (length ms1 = S (length ms)) as Hlen
        by (subst ms1; rewrite length_app; cbn; lia).
    rewrite length_alter, Hlen.
    split; [now apply packOrd_alter |].
    split; [rewrite wrap32_small by (unfold is_u32; lia); lia |].
    split; [lia |]. split; [lia |]. split; [| split; [| split]].
    + intros i m Hm.
      assert (ms1 !! i = Some m) as Hm1 by (subst ms1; now apply lookup_app_l_Some).
      destruct (Hfwd i m Hm1) as (m' & Hm' & Hk' & Hi'). eauto.
    + assert (ms1 !! length ms = Some (set_id (Z.of_nat (length ms)) material))
        as Hlast.
      { subst ms1. rewrite lookup_app_r by lia.
        now replace (length ms - length ms)%nat with 0%nat by lia. }
      destruct (Hfwd _ _ Hlast) as (m' & Hm' & Hk' & Hid').
      exists m'. split; [exact Hm' | exact Hid'].
    + intros Hu. specialize (Hsync Hu). lia.
    + intros _ Hu. exact (Hsync Hu).
Qed.

Lemma sameSurface_refl d : sameSurface d d.
Proof. repeat split. Qed.

Lemma sameSurface_eligible d0 d :
  sameSurface d0 d -> eligibleShader d = eligibleShader d0.
Proof.
  intros (_ & H1 & H2 & H3 & H4 & _). unfold eligibleShader.
  rewrite H1, H2, H3, H4. reflexivity.
Qed.

Lemma sameSurface_candidate d0 d pStage sh k prev :
  sameSurface d0 d ->
  candidate K d (processedStage pStage) sh k prev = candidate K d0 pStage sh k prev.
Proof.
  intros (_ & _ & _ & _ & _ & H5 & H6 & H7). unfold candidate.
  rewrite H5, H6, H7. reflexivity.
Qed.

Lemma stageOrdered_extends c c' sh d k :
  extends c c' ->
  stageOrdered K Material_eq c sh d k -> stageOrdered K Material_eq c' sh d k.
Proof.
  intros Hext (Hp & (m & Hm & Hid) & Hle & Hlt). split; [exact Hp |].
  split; [| split; assumption].
  destruct (Hext _ _ _ Hm) as (m' & Hm' & _ & Hid').
  exists m'. split; [exact Hm' | congruence].
Qed.

Lemma surfaceOrdered_extends c c' d :
  extends c c' ->
  surfaceOrdered K Material_eq c d -> surfaceOrdered K Material_eq c' d.
Proof.
  intros Hext H sh k Hsh Hk.
  eapply stageOrdered_extends; [exact Hext | now apply H].
Qed.

Lemma classifiedOrd_mono n n' c :
  n <= n' -> classifiedOrd n c -> classifiedOrd n' c.
Proof.
  intros Hle (I1 & I2 & I3 & I4). repeat split; try assumption.
  intros p. specialize (I2 p). lia.
Qed.

Lemma emptyClassified_ord : classifiedOrd 0 emptyClassified.
Proof.
  unfold classifiedOrd. cbn. repeat split; try lia;
    intros; match goal with H : [] !! _ = Some _ |- _ => inversion H end.
Qed.

(** One call of [ProcessStage], on the stage of [d0] that is next. *)
Lemma ProcessStage_ord n sh d0 pStage s s' :
  stageLoopOrd K Material_eq n sh d0 s ->
  n + 1 < 2 ^ 32 ->
  drawSurf_t.stages d0 !! length (doneStages s) = Some pStage ->
  ProcessStage K Material_eq sh pStage s = Some s' ->
  stageLoopOrd K Material_eq (n + 1) sh d0 s' /\
  extends (classified s) (classified s') /\
  length (doneStages s') = S (length (doneStages s)).
Proof.
  intros (Hinv & Hstage & Hle & Hprev & Hplaced & Hsame & Hstages & Hdone & Hout)
         Hroom Hnext Hrun.
  unfold ProcessStage in Hrun.
  set (p := pack (shader_t.sort sh)) in *.
  set (dyn := Dynamics.ComputeDynamics (shaderStage.dynamics pStage)) in *.
  set (d1 := if Dynamics.texturesDynamic dyn
             then drawSurf_t.set_texturesDynamic (stage s) (drawSurf s)
             else drawSurf s) in *.
  set (material0 := candidate K (drawSurf s) pStage sh (stage s)
                              (previousMaterialID s)) in *.
  destruct (runMaterialProcessor _ material0) as [material |] eqn:Eproc;
    [| discriminate].
  destruct (runMaterialProcessor_key _ _ _ Eproc) as [Hkey _].
  destruct (keyOf_sync _ _ Hkey) as [Hus Hsm].
  subst material0. cbn [candidate useSync syncMaterial] in Hus, Hsm.
  pose proof Hinv as (I1 & I2 & I3 & I4).
  assert (packOrd (materialsOf (classified s) p)) as Hpack.
  { split; intros i m; [apply I3 | apply I4]. }
  rewrite (I1 p) in Hrun.
  assert (useSync material = true ->
          syncMaterial material < Z.of_nat (length (materialsOf (classified s) p)))
    as Hsync.
  { rewrite Hus, Hsm. intros Hs. rewrite Hs. apply Z.ltb_lt in Hs.
    destruct (Hprev Hs) as [Hr _]. rewrite (I1 p) in Hr. lia. }
  pose proof (classify_ord material (Dynamics.dynamic dyn) (drawSurf_t.addr d1)
                (materialsOf (classified s) p) Hpack
                ltac:(specialize (I2 p); lia) Hsync) as Hc.
  destruct (classify Material_eq material _ _ _ _) as [[ms' prev'] id'] eqn:Ecl.
  cbn [fst snd] in Hc.
  destruct Hc as (Hpack' & Hid' & Hprev' & Hlen1 & Hkeep & (m & Hm & Hmid) & Hge & Hgt).
  injection Hrun as <-.
  cbn [classified drawSurf doneStages stage previousMaterialID].
  assert (wrap32 (stage s + 1) = stage s + 1) as Hw
      by (apply wrap32_small; unfold is_u32; lia).
  assert (extends (classified s)
            {| materialsOf := upd (materialsOf (classified s)) p ms';
               packIDs := upd (packIDs (classified s)) p id' |}) as Hext.
  { intros q i m0 H0. cbn [materialsOf]. unfold upd.
    destruct (Z.eqb_spec q p) as [-> | Hne]; [apply Hkeep, H0 | eauto]. }
  set (d' := drawSurf_t.set_stageResult (stage s) prev' p d1).
  assert (drawSurf_t.materialIDs d'
          = upd (drawSurf_t.materialIDs (drawSurf s)) (stage s) prev') as HmIDs.
  { subst d' d1. destruct (Dynamics.texturesDynamic dyn); reflexivity. }
  assert (drawSurf_t.materialPackIDs d'
          = upd (drawSurf_t.materialPackIDs (drawSurf s)) (stage s) p) as HpIDs.
  { subst d' d1. destruct (Dynamics.texturesDynamic dyn); reflexivity. }
  assert (forall k, k <> stage s ->
            drawSurf_t.texturesDynamic d' k
            = drawSurf_t.texturesDynamic (drawSurf s) k) as HtDyn.
  { intros k Hk. subst d' d1. destruct (Dynamics.texturesDynamic dyn);
      cbn [drawSurf_t.set_stageResult drawSurf_t.set_texturesDynamic
           drawSurf_t.texturesDynamic]; [| reflexivity].
    now rewrite upd_other. }
  assert (sameSurface (drawSurf s) d') as Hsame'.
  { subst d' d1. destruct (Dynamics.texturesDynamic dyn); repeat split. }
  assert (drawSurf_t.stages d' = drawSurf_t.stages (drawSurf s)) as Hstages'.
  { subst d' d1. destruct (Dynamics.texturesDynamic dyn); reflexivity. }
  split; [| split; [exact Hext |]].
  - unfold stageLoopOrd.
    cbn [classified drawSurf doneStages stage previousMaterialID].
    rewrite Hw, length_app. cbn [length].
    split; [| split; [lia |]; split; [lia |]; split; [| split; [| split;
             [| split; [| split]]]]].
    + unfold classifiedOrd. cbn [materialsOf packIDs]. unfold upd.
      split; [| split; [| split]].
      * intros q. destruct (Z.eqb_spec q p); [exact Hid' | apply I1].
      * intros q. destruct (Z.eqb_spec q p) as [-> | ?];
          [specialize (I2 p); lia | specialize (I2 q); lia].
      * intros q i m0. destruct (Z.eqb_spec q p); [apply Hpack' | apply I3].
      * intros q i m0. destruct (Z.eqb_spec q p); [apply Hpack' | apply I4].
    + intros _. fold p. cbn [packIDs]. rewrite upd_same, Hid'. split; [lia |].
      rewrite HmIDs. replace (stage s + 1 - 1) with (stage s) by lia.
      now rewrite upd_same.
    + intros k Hk.
      destruct (decide (k < length (doneStages s))%nat) as [Hlt | Hnlt].
      * destruct (Hplaced k Hlt) as (Hp0 & (m0 & Hm0 & Hid0) & Hle0 & Hlt0).
        destruct (Hext _ _ _ Hm0) as (m1 & Hm1 & _ & Hid1).
        unfold stageOrdered. fold p in Hp0, Hm0 |- *.
        rewrite HmIDs, HpIDs. rewrite !upd_other by lia.
        split; [exact Hp0 |]. split; [| split; assumption].
        exists m1. split; [exact Hm1 | congruence].
      * assert (Z.of_nat k = stage s) as Hks by lia.
        unfold stageOrdered. fold p. rewrite HmIDs, HpIDs, Hks, !upd_same.
        split; [reflexivity |]. split; [| split].
        -- exists m. split; [cbn [materialsOf]; rewrite upd_same; exact Hm |].
           exact Hmid.
        -- intros Hpos. rewrite upd_other by lia.
           assert (0 < stage s) as E0 by lia.
           destruct (Hprev E0) as [_ <-].
           assert ((0 <? stage s) = true) as E by (apply Z.ltb_lt; exact E0).
           rewrite E in Hus, Hsm. rewrite <- Hsm. apply Hge, Hus.
        -- intros Hcmp Hpos. rewrite upd_other by lia.
           assert (0 < stage s) as E0 by lia.
           destruct (Hprev E0) as [_ <-].
           assert ((0 <? stage s) = true) as E by (apply Z.ltb_lt; exact E0).
           rewrite E in Hus, Hsm. rewrite <- Hsm. apply (Hgt Hcmp), Hus.
    + destruct Hsame as (A1 & A2 & A3 & A4 & A5 & A6 & A7 & A8).
      destruct Hsame' as (B1 & B2 & B3 & B4 & B5 & B6 & B7 & B8).
      repeat split; congruence.
    + congruence.
    + replace (length (doneStages s) + 1)%nat with (S (length (doneStages s)))
        by lia.
      rewrite (take_S_r _ _ _ Hnext), map_app, <- Hdone. reflexivity.
    + intros k Hk. destruct (Hout k ltac:(lia)) as (O1 & O2 & O3).
      rewrite HmIDs, HpIDs, HtDyn by lia. rewrite !upd_other by lia. auto.
  - rewrite length_app. cbn. lia.
Qed.

Lemma processStages_ord sh d0 pStages :
  forall n s s',
    stageLoopOrd K Material_eq n sh d0 s ->
    n + Z.of_nat (length pStages) < 2 ^ 32 ->
    drop (length (doneStages s)) (drawSurf_t.stages d0) = pStages ->
    processStages K Material_eq sh pStages s = Some s' ->
    stageLoopOrd K Material_eq (n + Z.of_nat (length pStages)) sh d0 s' /\
    extends (classified s) (classified s') /\
    length (doneStages s') = (length (doneStages s) + length pStages)%nat.
Proof.
  induction pStages as [| pStage rest IH]; intros n s s' Hinv Hroom Hdrop Hrun;
    cbn [processStages length] in *.
  - injection Hrun as <-. rewrite Z.add_0_r, Nat.add_0_r.
    split; [exact Hinv |]. split; [apply extends_refl | reflexivity].
  - destruct (ProcessStage K Material_eq sh pStage s) as [s1 |] eqn:E1;
      [| discriminate].
    assert (drawSurf_t.stages d0 !! length (doneStages s) = Some pStage) as Hnext.
    { pose proof (lookup_drop (drawSurf_t.stages d0) (length (doneStages s)) 0)
        as H. rewrite Hdrop, Nat.add_0_r in H. symmetry. exact H. }
    destruct (ProcessStage_ord n sh d0 pStage s s1 Hinv ltac:(lia) Hnext E1)
      as (Hinv1 & Hext1 & Hlen1).
    assert (drop (length (doneStages s1)) (drawSurf_t.stages d0) = rest) as Hdrop1.
    { rewrite Hlen1. rewrite (drop_S _ _ _ Hnext) in Hdrop. congruence. }
    destruct (IH (n + 1) s1 s' Hinv1 ltac:(lia) Hdrop1 Hrun)
      as (Hinv' & Hext' & Hlen').
    replace (n + Z.of_nat (S (length rest))) with (n + 1 + Z.of_nat (length rest))
      by lia.
    split; [exact Hinv' |]. split; [eapply extends_trans; eassumption | lia].
Qed.

Lemma processSurf_ord n d c c' d' :
  classifiedOrd n c -> 0 <= n ->
  n + Z.of_nat (length (drawSurf_t.stages d)) < 2 ^ 32 ->
  processSurf K Material_eq d c = Some (c', d') ->
  classifiedOrd (n + Z.of_nat (length (drawSurf_t.stages d))) c' /\
  extends c c' /\ processedFrom d d' /\ surfaceOrdered K Material_eq c' d'.
Proof.
  intros Hinv Hn Hroom Hrun. unfold processSurf in Hrun.
  destruct (eligibleShader d) as [sh |] eqn:Esh.
  - set (s0 := Build_StageLoop c d [] 0 0) in *.
    assert (stageLoopOrd K Material_eq n sh d s0) as H0.
    { unfold stageLoopOrd. subst s0.
      cbn [classified drawSurf doneStages stage previousMaterialID length].
      split; [exact Hinv |]. split; [reflexivity |]. split; [lia |].
      split; [intros H; lia |]. split; [intros k H; lia |].
      split; [apply sameSurface_refl |]. split; [reflexivity |].
      split; [reflexivity |]. intros k _. auto. }
    destruct (processStages K Material_eq sh (drawSurf_t.stages d) s0)
      as [s' |] eqn:E; [| discriminate].
    injection Hrun as <- <-.
    destruct (processStages_ord sh d _ n s0 s' H0 Hroom eq_refl E)
      as ((Hinv' & Hstage & _ & _ & Hplaced & Hsame & Hstages & Hdone & Hout)
          & Hext & Hlen).
    subst s0. cbn [doneStages length Nat.add] in Hlen.
    rewrite Hlen, firstn_all in Hdone.
    split; [exact Hinv' |]. split; [exact Hext |]. split.
    + unfold processedFrom. rewrite Esh. split; [| split].
      * destruct Hsame as (A1 & A2 & A3 & A4 & A5 & A6 & A7 & A8).
        repeat split; assumption.
      * exact Hdone.
      * intros k Hk. apply Hout. rewrite Hstage, Hlen. exact Hk.
    + intros sh' k Hsh' Hk.
      assert (sh' = sh) as ->.
      { change (eligibleShader (drawSurf_t.set_stages (doneStages s') (drawSurf s')))
          with (eligibleShader (drawSurf s')) in Hsh'.
        rewrite (sameSurface_eligible _ _ Hsame) in Hsh'. congruence. }
      cbn [drawSurf_t.set_stages drawSurf_t.stages] in Hk.
      exact (Hplaced k Hk).
  - injection Hrun as <- <-.
    split; [eapply classifiedOrd_mono; [| exact Hinv]; lia |].
    split; [apply extends_refl |]. split.
    + unfold processedFrom. rewrite Esh. split; [apply sameSurface_refl | reflexivity].
    + intros sh k Hsh. congruence.
Qed.

Lemma processSurfs_ord ds :
  forall n c c' outs,
    classifiedOrd n c -> 0 <= n ->
    n + stageCount ds < 2 ^ 32 ->
    processSurfs K Material_eq ds c = Some (c', outs) ->
    classifiedOrd (n + stageCount ds) c' /\ extends c c' /\
    Forall2 processedFrom ds outs /\
    Forall (surfaceOrdered K Material_eq c') outs.
Proof.
  induction ds as [| d rest IH]; intros n c c' outs Hinv Hn Hroom Hrun;
    cbn [processSurfs] in Hrun.
  - injection Hrun as <- <-. unfold stageCount, sumZ. cbn. rewrite Z.add_0_r.
    split; [exact Hinv |]. split; [apply extends_refl |]. split; constructor.
  - rewrite stageCount_cons in *. pose proof (stageCount_nonneg rest) as Hnn.
    destruct (processSurf K Material_eq d c) as [[c1 d1] |] eqn:E1; [| discriminate].
    destruct (processSurfs K Material_eq rest c1) as [[c2 rest1] |] eqn:E2;
      [| discriminate].
    injection Hrun as <- <-.
    destruct (processSurf_ord n d c c1 d1 Hinv Hn ltac:(lia) E1)
      as (Hinv1 & Hext1 & Hfrom1 & Hpl1).
    destruct (IH _ c1 c2 rest1 Hinv1 ltac:(lia) ltac:(lia) E2)
      as (Hinv2 & Hext2 & Hfrom2 & Hpl2).
    rewrite Z.add_assoc.
    split; [exact Hinv2 |]. split; [eapply extends_trans; eassumption |].
    split; constructor; try assumption.
    eapply surfaceOrdered_extends; eassumption.
Qed.

(** The run depends on [operator==] by its values only. *)
Lemma findMaterial_ext (eq' : Material -> Material -> bool) material ms :
  (forall a b, Material_eq a b = eq' a b) ->
  forall pos,
    findMaterial Material_eq material ms pos = findMaterial eq' material ms pos.
Proof.
  intros Hext. induction ms as [| it rest IH]; intros pos; cbn [findMaterial];
    [reflexivity |].
  rewrite Hext, !IH. reflexivity.
Qed.

Lemma processSurfs_ext (eq' : Material -> Material -> bool) ds :
  (forall a b, Material_eq a b = eq' a b) ->
  forall c, processSurfs K Material_eq ds c = processSurfs K eq' ds c.
Proof.
  intros Hext.
  assert (forall sh pStage s,
            ProcessStage K Material_eq sh pStage s = ProcessStage K eq' sh pStage s)
    as Hstage.
  { intros sh pStage s. unfold ProcessStage, classify.
    destruct (runMaterialProcessor _ _) as [material |]; [| reflexivity].
    rewrite (findMaterial_ext eq' _ _ Hext). reflexivity. }
  assert (forall sh pStages s,
            processStages K Material_eq sh pStages s
            = processStages K eq' sh pStages s) as Hstages.
  { intros sh pStages. induction pStages as [| pStage rest IH]; intros s;
      cbn [processStages]; [reflexivity |].
    rewrite Hstage. destruct (ProcessStage K eq' sh pStage s); [apply IH | reflexivity]. }
  assert (forall d c, processSurf K Material_eq d c = processSurf K eq' d c)
    as Hsurf.
  { intros d c. unfold processSurf. destruct (eligibleShader d); [| reflexivity].
    rewrite Hstages. reflexivity. }
  induction ds as [| d rest IH]; intros c; cbn [processSurfs]; [reflexivity |].
  rewrite Hsurf. destruct (processSurf K eq' d c) as [[c1 d1] |]; [| reflexivity].
  rewrite IH. reflexivity.
Qed.

Lemma comparesKeys_eqb :
  comparesKeys Material_eq -> forall a b, Material_eq a b = Material_eqb a b.
Proof.
  intros Hk a b. specialize (Hk a b). pose proof (Material_eqb_key a b) as Hb.
  destruct (Material_eq a b), (Material_eqb a b); try reflexivity.
  - symmetry. apply Hb, Hk. reflexivity.
  - apply Hk, Hb. reflexivity.
Qed.

Lemma comparesKeys_sync : comparesKeys Material_eq -> comparesSync Material_eq.
Proof. intros Hk a b Heq. apply keyOf_sync, Hk, Heq. Qed.

(** C1. For every list of surfaces that [GenerateWorldMaterials] runs
    through [ProcessStage] (fewer than 2^32 stages), and whatever
    [Material::operator==] is: the surfaces come back in their order,
    every stage of an input surface that the loop does not pass over
    has been processed, and it has been assigned, in the pack of the
    surface's shader, a Material that exists there under the recorded
    id; from the second stage of a surface on, that id is not less than
    the id assigned to the stage before, which is the sync target of the
    stage's candidate: the search has skipped every equal Material in
    front of it. When [operator==] is the identity of the spec (equal
    keys: masked state bits, binder, cull type, buffers, sync target),
    the assigned Material has the key of the stage's candidate, so
    from the second stage on it has [useSync] set and [syncMaterial]
    equal to the id assigned to the stage before; a pack holds one
    Material per key; and stages of input surfaces with equal
    candidate keys and the same pack are assigned one Material. The
    search returns the first equal Material whose id does not precede
    the sync target, and a Material is appended exactly when the search
    finds none. *)
Theorem ProcessStage_one_material_per_key surfs c outs :
  stageCount surfs < 2 ^ 32 ->
  GenerateWorldMaterials K Material_eq surfs = Some (c, outs) ->
  Forall2 processedFrom surfs outs /\
  (forall (i : nat) d0 d sh (k : nat) pStage,
     surfs !! i = Some d0 -> outs !! i = Some d ->
     eligibleShader d0 = Some sh ->
     drawSurf_t.stages d0 !! k = Some pStage ->
     drawSurf_t.stages d !! k = Some (processedStage pStage) /\
     drawSurf_t.materialPackIDs d (Z.of_nat k) = pack (shader_t.sort sh) /\
     exists m,
       materialsOf c (pack (shader_t.sort sh))
         !! Z.to_nat (drawSurf_t.materialIDs d (Z.of_nat k)) = Some m /\
       id m = drawSurf_t.materialIDs d (Z.of_nat k) /\
       ((0 < k)%nat ->
        drawSurf_t.materialIDs d (Z.of_nat k - 1)
        <= drawSurf_t.materialIDs d (Z.of_nat k)) /\
       (comparesKeys Material_eq ->
        Material_eq m
          (candidate K d0 pStage sh (Z.of_nat k)
             (drawSurf_t.materialIDs d (Z.of_nat k - 1))) = true /\
        ((0 < k)%nat ->
         useSync m = true /\
         syncMaterial m = drawSurf_t.materialIDs d (Z.of_nat k - 1)))) /\
  (comparesKeys Material_eq ->
   forall p (i j : nat) mi mj,
     materialsOf c p !! i = Some mi -> materialsOf c p !! j = Some mj ->
     Material_eq mi mj = true -> i = j) /\
  (comparesKeys Material_eq ->
   forall (i1 : nat) a1 d1 sh1 (k1 : nat) pS1 (i2 : nat) a2 d2 sh2 (k2 : nat) pS2,
     surfs !! i1 = Some a1 -> outs !! i1 = Some d1 ->
     eligibleShader a1 = Some sh1 ->
     drawSurf_t.stages a1 !! k1 = Some pS1 ->
     surfs !! i2 = Some a2 -> outs !! i2 = Some d2 ->
     eligibleShader a2 = Some sh2 ->
     drawSurf_t.stages a2 !! k2 = Some pS2 ->
     pack (shader_t.sort sh1) = pack (shader_t.sort sh2) ->
     Material_eq
       (candidate K a1 pS1 sh1 (Z.of_nat k1)
          (drawSurf_t.materialIDs d1 (Z.of_nat k1 - 1)))
       (candidate K a2 pS2 sh2 (Z.of_nat k2)
          (drawSurf_t.materialIDs d2 (Z.of_nat k2 - 1))) = true ->
     drawSurf_t.materialIDs d1 (Z.of_nat k1)
     = drawSurf_t.materialIDs d2 (Z.of_nat k2)) /\
  (forall material (ms : list Material),
     match findMaterial Material_eq material ms 0 with
     | Some (i, it) =>
         ms !! i = Some it /\ accepts Material_eq material it = true /\
         forall (j : nat) mj,
           (j < i)%nat -> ms !! j = Some mj ->
           accepts Material_eq material mj = false
     | None =>
         forall (j : nat) mj,
           ms !! j = Some mj -> accepts Material_eq material mj = false
     end) /\
  (forall material isDynamic drawSurf id0 (ms : list Material),
     length (classify Material_eq material isDynamic drawSurf id0 ms).1.1
     = (length ms + match findMaterial Material_eq material ms 0 with
                    | Some _ => 0
                    | None => 1
                    end)%nat).
Proof.
  intros Hcount Hrun. unfold GenerateWorldMaterials in Hrun.
  destruct (processSurfs_ord surfs 0 _ c outs emptyClassified_ord
              ltac:(lia) ltac:(lia) Hrun) as (Hord & _ & Hfrom & Hso).
  rewrite Forall_forall in Hso.
  assert (comparesKeys Material_eq ->
          classifiedInv (0 + stageCount surfs) c /\
          forall (i : nat) d0 d sh (k : nat) pStage,
            surfs !! i = Some d0 -> outs !! i = Some d ->
            eligibleShader d0 = Some sh ->
            drawSurf_t.stages d0 !! k = Some pStage ->
            exists m,
              materialsOf c (pack (shader_t.sort sh))
                !! Z.to_nat (drawSurf_t.materialIDs d (Z.of_nat k)) = Some m /\
              id m = drawSurf_t.materialIDs d (Z.of_nat k) /\
              keyOf m
              = keyOf (candidate K d0 pStage sh (Z.of_nat k)
                         (drawSurf_t.materialIDs d (Z.of_nat k - 1)))) as Hkeyed.
  { intros Hk.
    rewrite (processSurfs_ext Material_eqb surfs (comparesKeys_eqb Hk)) in Hrun.
    destruct (processSurfs_spec surfs 0 _ c outs emptyClassified_inv
                ltac:(lia) ltac:(lia) Hrun) as (Hinv & _ & Hplaced).
    split; [exact Hinv |].
    rewrite Forall_forall in Hplaced.
    intros i d0 d sh k pStage Hd0 Hd Hsh HpS.
    destruct (Forall2_lookup_lr _ _ _ _ _ _ Hfrom Hd0 Hd) as [Hsame Hst].
    rewrite Hsh in Hst. destruct Hst as [Hst _].
    assert (drawSurf_t.stages d !! k = Some (processedStage pStage)) as HpS'.
    { rewrite Hst, list_lookup_fmap, HpS. reflexivity. }
    assert (eligibleShader d = Some sh) as Hsh'
        by (rewrite (sameSurface_eligible _ _ Hsame); exact Hsh).
    destruct (Hplaced d (list_elem_of_lookup_2 _ _ _ Hd) sh k _ Hsh' HpS')
      as (_ & m & Hm & Hid & Hkey).
    exists m. split; [exact Hm |]. split; [exact Hid |].
    rewrite Hkey, (sameSurface_candidate _ _ _ _ _ _ Hsame). reflexivity. }
  split; [exact Hfrom |]. split; [| split; [| split; [| split]]].
  - intros i d0 d sh k pStage Hd0 Hd Hsh HpS.
    destruct (Forall2_lookup_lr _ _ _ _ _ _ Hfrom Hd0 Hd) as [Hsame Hst].
    rewrite Hsh in Hst. destruct Hst as [Hst _].
    assert (drawSurf_t.stages d !! k = Some (processedStage pStage)) as HpS'.
    { rewrite Hst, list_lookup_fmap, HpS. reflexivity. }
    assert (eligibleShader d = Some sh) as Hsh'
        by (rewrite (sameSurface_eligible _ _ Hsame); exact Hsh).
    destruct (Hso d (list_elem_of_lookup_2 _ _ _ Hd) sh k Hsh'
                (lookup_lt_Some _ _ _ HpS'))
      as (Hp & (m & Hm & Hid) & Hle & _).
    split; [exact HpS' |]. split; [exact Hp |].
    exists m. split; [exact Hm |]. split; [exact Hid |]. split; [exact Hle |].
    intros Hk. destruct (Hkeyed Hk) as [_ Hst'].
    destruct (Hst' i d0 d sh k pStage Hd0 Hd Hsh HpS) as (m' & Hm' & _ & Hkey).
    assert (m' = m) as -> by congruence.
    split; [apply Hk, Hkey |].
    intros Hpos. destruct (keyOf_sync _ _ Hkey) as [-> ->]. cbn.
    assert ((0 <? Z.of_nat k) = true) as -> by (apply Z.ltb_lt; lia).
    split; reflexivity.
  - intros Hk p i j mi mj Hi Hj Heq.
    destruct (Hkeyed Hk) as [(_ & _ & _ & _ & I5) _].
    apply (I5 p i j mi mj Hi Hj). now apply Hk.
  - intros Hk i1 a1 d1 sh1 k1 pS1 i2 a2 d2 sh2 k2 pS2
           Ha1 Hd1 Hsh1 Hk1 Ha2 Hd2 Hsh2 Hk2 Hp Heq.
    destruct (Hkeyed Hk) as [(_ & _ & I3 & _ & I5) Hst].
    destruct (Hst i1 a1 d1 sh1 k1 pS1 Ha1 Hd1 Hsh1 Hk1) as (m1 & Hm1 & Hid1 & Hkey1).
    destruct (Hst i2 a2 d2 sh2 k2 pS2 Ha2 Hd2 Hsh2 Hk2) as (m2 & Hm2 & Hid2 & Hkey2).
    apply Hk in Heq. rewrite Hp in Hm1.
    assert (Z.to_nat (drawSurf_t.materialIDs d1 (Z.of_nat k1))
            = Z.to_nat (drawSurf_t.materialIDs d2 (Z.of_nat k2))) as Hidx
        by (apply (I5 _ _ _ m1 m2 Hm1 Hm2); congruence).
    rewrite <- Hid1, <- Hid2, (I3 _ _ _ Hm1), (I3 _ _ _ Hm2), Hidx. reflexivity.
  - intros material ms.
    pose proof (findMaterial_spec Material_eq material ms 0%nat) as H.
    destruct (findMaterial Material_eq material ms 0) as [[i it] |]; [| exact H].
    destruct H as (j & -> & Hj & Hacc & Hfirst). cbn [Nat.add]. eauto.
  - intros material isDynamic drawSurf id0 ms. unfold classify.
    destruct (findMaterial Material_eq material ms 0) as [[i it] |]; cbn [fst snd];
      rewrite length_alter, ?length_app; cbn [length]; lia.
Qed.

End WithConstants.

Lemma ProcessStage_one_material_per_key_witness :
  stageCount sampleWorld < 2 ^ 32 /\
  exists c outs,
    GenerateWorldMaterials sampleConstants Material_eqb sampleWorld = Some (c, outs) /\
    Forall2 processedFrom sampleWorld outs /\
    forall (i : nat) d0 d sh (k : nat) pStage,
      sampleWorld !! i = Some d0 -> outs !! i = Some d ->
      eligibleShader d0 = Some sh ->
      drawSurf_t.stages d0 !! k = Some pStage ->
      drawSurf_t.stages d !! k = Some (processedStage pStage) /\
      drawSurf_t.materialPackIDs d (Z.of_nat k)
      = packOf sampleConstants (shader_t.sort sh) /\
      exists m,
        materialsOf c (packOf sampleConstants (shader_t.sort sh))
          !! Z.to_nat (drawSurf_t.materialIDs d (Z.of_nat k)) = Some m /\
        id m = drawSurf_t.materialIDs d (Z.of_nat k) /\
        ((0 < k)%nat ->
         drawSurf_t.materialIDs d (Z.of_nat k - 1)
         <= drawSurf_t.materialIDs d (Z.of_nat k)) /\
        Material_eqb m
          (candidate sampleConstants d0 pStage sh (Z.of_nat k)
             (drawSurf_t.materialIDs d (Z.of_nat k - 1))) = true /\
        ((0 < k)%nat ->
         useSync m = true /\
         syncMaterial m = drawSurf_t.materialIDs d (Z.of_nat k - 1)).
Proof.
  assert (stageCount sampleWorld < 2 ^ 32) as Hc by (vm_compute; reflexivity).
  split; [exact Hc |].
  destruct (GenerateWorldMaterials sampleConstants Material_eqb sampleWorld)
    as [[c outs] |] eqn:E; [| vm_compute in E; discriminate].
  exists c, outs. split; [reflexivity |].
  destruct (ProcessStage_one_material_per_key sampleConstants Material_eqb
              sampleWorld c outs Hc E) as (Hfrom & Hst & _).
  split; [exact Hfrom |].
  intros i d0 d sh k pStage Hd0 Hd Hsh HpS.
  destruct (Hst i d0 d sh k pStage Hd0 Hd Hsh HpS)
    as (H1 & H2 & m & Hm & Hid & Hle & Hkeyed).
  split; [exact H1 |]. split; [exact H2 |].
  exists m. split; [exact Hm |]. split; [exact Hid |]. split; [exact Hle |].
  exact (Hkeyed Material_eqb_key).
Defined.

(** The sample world: the second stage of both two-stage surfaces lands in
    Material 1, which syncs on Material 0; the same stage as the first stage
    of a surface has no sync target and gets Material 2. *)
Example sample_classification :
  match GenerateWorldMaterials sampleConstants Material_eqb sampleWorld with
  | Some (c, outs) =>
      map (fun m => (id m, useSync m, syncMaterial m, totalDrawSurfCount m))
          (materialsOf c 1)
      = [ (0, false, 0, 2); (1, true, 0, 2); (2, false, 0, 1) ] /\
      map (fun d => (drawSurf_t.materialIDs d 0, drawSurf_t.materialIDs d 1)) outs
      = [ (0, 1); (2, 0); (0, 1) ]
  | None => False
  end.
Proof. vm_compute. split; reflexivity. Qed.

(** With an [operator==] that leaves the sync target out, the search
    skips: for the second stage of the second surface (sync target 1) it
    passes the equal Material 0 and a Material is appended; for the second
    stage of the fourth surface it passes Material 0 and finds Material 2;
    and the two stages of the third surface share Material 0. *)
Example sample_skip :
  match GenerateWorldMaterials sampleConstants Material_eq_noSync skipWorld with
  | Some (c, outs) =>
      map (fun m => (id m, useSync m, syncMaterial m, totalDrawSurfCount m))
          (materialsOf c 1)
      = [ (0, false, 0, 3); (1, false, 0, 2); (2, true, 1, 2) ] /\
      map (fun d => (drawSurf_t.materialIDs d 0, drawSurf_t.materialIDs d 1)) outs
      = [ (0, 0); (1, 2); (0, 0); (1, 2) ] /\
      findMaterial Material_eq_noSync
        (set_shader (Some gl_genericShaderMaterial)
           (candidate sampleConstants (sampleSurf 3 []) blendStage opaqueShader 1 1))
        (materialsOf c 1) 0
      = option_map (fun m => (2%nat, m)) (materialsOf c 1 !! 2%nat)
  | None => False
  end.
Proof. vm_compute. repeat split; reflexivity. Qed.

End ClassifierFacts.

(** ** RenderMaterial: the colour-coding divisor *)

Module DebugColourFacts.
Import DebugColours.

(** In the modes [OPAQUE] and [OPAQUE_TRANSPARENT] the divisor counts the
    pack the Material itself belongs to ([sort] is the pack number), so it
    is positive. *)
Lemma divisor_positive_beyond_depth mode material packs (i : nat) z :
  mode <> DEPTH ->
  0 <= sort material <= 2 ->
  packs (sort material) !! i = Some material ->
  colourIndexDivisor mode material packs = Some z ->
  0 < z.
Proof.
  intros Hmode Hsort Hin. apply lookup_lt_Some in Hin. unfold colourIndexDivisor.
  destruct (isOn mode && negb (sort material =? 0) && colourCoded material);
    [| discriminate].
  destruct mode; try discriminate; try contradiction.
  - destruct (Z.eqb_spec (sort material) 1) as [E | E]; [| discriminate].
    cbn. intros H. injection H as <-. rewrite E in Hin. lia.
  - destruct (Z.eqb_spec (sort material) 0) as [E | E]; [discriminate |].
    intros H. injection H as <-.
    destruct (Z.eq_dec (sort material) 1) as [E1 | E1]; [rewrite E1 in Hin; lia |].
    destruct (Z.eq_dec (sort material) 2) as [E2 | E2]; [rewrite E2 in Hin; lia |].
    lia.
Qed.

(** C10. The colour-coding block divides by a pack's Material count
    without a guard, and a reachable state makes the divisor zero: after
    [GenerateWorldMaterials] on the sample world (opaque surfaces only) the
    depth pack is empty, and in [DEPTH] mode rendering the first Material of
    pack 1 (sort 1, lightmapping binder) reaches the division by
    [materialPacks[0].materials.size()], which is 0. *)
Theorem debug_colour_divisor_can_be_zero :
  exists c outs material,
    Classifier.GenerateWorldMaterials Classifier.sampleConstants Classifier.Material_eqb Classifier.sampleWorld
    = Some (c, outs) /\
    Classifier.materialsOf c 0 = [] /\
    Classifier.materialsOf c 1 !! 0%nat = Some material /\
    sort material = 1 /\
    colourIndexDivisor DEPTH material (Classifier.materialsOf c) = Some 0.
Proof.
  destruct (Classifier.GenerateWorldMaterials Classifier.sampleConstants Classifier.Material_eqb
              Classifier.sampleWorld) as [[c outs] |] eqn:E;
    [| vm_compute in E; discriminate].
  vm_compute in E. injection E as <- <-.
  eexists _, _, _. split; [reflexivity |]. repeat split.
Qed.

End DebugColourFacts.

(** ** Colour tokens: the tokenizer stays inside the string and covers it *)

Module ColorTokenFacts.
Import ColorTokens.

Lemma ishex_range ch :
  ishex ch = true ->
  48 <= ch <= 57 \/ 65 <= ch <= 70 \/ 97 <= ch <= 102.
Proof. unfold ishex. lia. Qed.

Lemma gethex_range ch : ishex ch = true -> 0 <= gethex ch <= 15.
Proof.
  intros H. apply ishex_range in H. unfold gethex.
  destruct (Z.ltb_spec 57 ch), (Z.leb_spec 97 ch); lia.
Qed.

Lemma hexDigit_ishex u n : 0 <= n < 16 -> ishex (hexDigit u n) = true.
Proof.
  intros H. unfold hexDigit, ishex.
  destruct (Z.ltb_spec n 10); [lia |]. destruct u; lia.
Qed.

Lemma gethex_hexDigit u n : 0 <= n < 16 -> gethex (hexDigit u n) = n.
Proof.
  intros H. unfold hexDigit, gethex.
  destruct (Z.ltb_spec n 10).
  - destruct (Z.ltb_spec 57 (48 + n)); lia.
  - destruct u.
    + destruct (Z.ltb_spec 57 (65 + (n - 10))), (Z.leb_spec 97 (65 + (n - 10))); lia.
    + destruct (Z.ltb_spec 57 (97 + (n - 10))), (Z.leb_spec 97 (97 + (n - 10))); lia.
Qed.

(** [gethex] and the digit characters are inverse to each other:
    a digit value below 16 written in either case is a hexadecimal
    character that reads back as the value, and every hexadecimal
    character is the upper- or lower-case digit of the value it reads
    as, which is below 16. *)
Theorem gethex_inverts_hex_digits :
  (forall u n, 0 <= n < 16 ->
               ishex (hexDigit u n) = true /\ gethex (hexDigit u n) = n) /\
  (forall ch, ishex ch = true ->
              0 <= gethex ch < 16 /\
              exists u, hexDigit u (gethex ch) = ch) /\
  (forall ch, ishex ch = true -> gethex (toupper ch) = gethex ch).
Proof.
  split; [| split].
  - intros u n H. split; [now apply hexDigit_ishex | now apply gethex_hexDigit].
  - intros ch H. pose proof (gethex_range ch H) as Hr.
    split; [lia |]. apply ishex_range in H.
    unfold gethex, hexDigit in *.
    destruct (Z.ltb_spec 57 ch).
    + destruct (Z.leb_spec 97 ch).
      * exists false. destruct (Z.ltb_spec (ch - 97 + 10) 10); lia.
      * exists true. destruct (Z.ltb_spec (ch - 65 + 10) 10); lia.
    + exists true. destruct (Z.ltb_spec (ch - 48) 10); lia.
  - intros ch H. apply ishex_range in H. unfold gethex, toupper.
    destruct (Z.leb_spec 97 ch), (Z.leb_spec ch 122); cbn [andb];
      repeat match goal with
             | |- context [?a <? ?b] => destruct (Z.ltb_spec a b)
             | |- context [?a <=? ?b] => destruct (Z.leb_spec a b)
             end; lia.
Qed.

Lemma byte_of_nibbles h l :
  0 <= h <= 15 -> 0 <= l <= 15 -> Z.lor (Z.shiftl h 4) l = 16 * h + l.
Proof.
  intros Hh Hl.
  assert (forallb (fun h => forallb (fun l => Z.lor (Z.shiftl h 4) l =? 16 * h + l)
                                    (seqZ 0 16)) (seqZ 0 16) = true) as Hall
      by (vm_compute; reflexivity).
  rewrite forallb_forall in Hall.
  specialize (Hall h ltac:(apply list_elem_of_In, elem_of_seqZ; lia)).
  rewrite forallb_forall in Hall.
  specialize (Hall l ltac:(apply list_elem_of_In, elem_of_seqZ; lia)).
  lia.
Qed.

Section Tokenizer.
Variable s : list Z.
Variable advance : Z -> Z.
Hypothesis s_cstring : cstring s.

Local Abbreviation len := (Z.of_nat (length s)).

Lemma rd_inside p :
  0 <= p < len -> exists c, rd s p = Some c /\ c <> 0 /\ s !! Z.to_nat p = Some c.
Proof.
  intros Hp. unfold rd. destruct (Z.ltb_spec p 0); [lia |].
  destruct (lookup_lt_is_Some_2 s (Z.to_nat p) ltac:(lia)) as [c Hc].
  exists c. rewrite (lookup_app_l_Some _ _ _ _ Hc).
  split; [reflexivity |]. split; [| exact Hc].
  eapply (proj1 (Forall_lookup _ _) s_cstring); exact Hc.
Qed.

Lemma rd_end : rd s len = Some 0.
Proof.
  unfold rd. destruct (Z.ltb_spec len 0); [lia |].
  rewrite Nat2Z.id. rewrite lookup_app_r by lia.
  now rewrite Nat.sub_diag.
Qed.

Lemma rd_outside p : p < 0 \/ len < p -> rd s p = None.
Proof.
  intros Hp. unfold rd. destruct (Z.ltb_spec p 0); [reflexivity |].
  apply lookup_ge_None_2. rewrite length_app. cbn. lia.
Qed.

(** A read at or before the NUL has a value, which is 0 at the NUL
    only. *)
Lemma rd_spec p :
  0 <= p <= len -> exists c, rd s p = Some c /\ (c = 0 <-> p = len).
Proof.
  intros Hp. destruct (Z.eq_dec p len) as [-> | Hne].
  - exists 0. split; [apply rd_end | tauto].
  - destruct (rd_inside p ltac:(lia)) as (c & Hc & Hnz & _).
    exists c. split; [exact Hc | tauto].
Qed.

Lemma ishexAt_spec p :
  0 <= p <= len ->
  exists b, ishexAt s p = Some b /\
            (b = true -> p < len /\
                         exists c, rd s p = Some c /\ ishex c = true).
Proof.
  intros Hp. destruct (rd_spec p Hp) as (c & Hc & Hz).
  unfold ishexAt. rewrite Hc. cbn. eexists. split; [reflexivity |].
  intros Hh. split; [| eauto].
  destruct (Z.eq_dec p len) as [E | E]; [| lia].
  apply Hz in E. subst c. discriminate.
Qed.

Lemma gethexAt_spec p c :
  rd s p = Some c -> gethexAt s p = Some (gethex c).
Proof. intros H. unfold gethexAt. now rewrite H. Qed.

Lemma allHex_spec n :
  forall p,
    0 <= p <= len ->
    exists b, allHex s n p = Some b /\
              (b = true ->
               p + Z.of_nat n <= len /\
               forall i, 0 <= i < Z.of_nat n ->
                         exists c, rd s (p + i) = Some c /\ ishex c = true).
Proof.
  induction n as [| n IH]; intros p Hp; cbn [allHex].
  - exists true. split; [reflexivity |]. intros _. split; [lia | intros i Hi; lia].
  - destruct (ishexAt_spec p Hp) as (b & Hb & Hbt). rewrite Hb.
    destruct b.
    + destruct (Hbt eq_refl) as (Hlt & c & Hc & Hh).
      destruct (IH (p + 1) ltac:(lia)) as (b' & Hb' & Hbt').
      exists b'. split; [exact Hb' |]. intros ->.
      destruct (Hbt' eq_refl) as (Hle & Hall).
      split; [lia |]. intros i Hi.
      destruct (Z.eq_dec i 0) as [-> | Hi0].
      * rewrite Z.add_0_r. eauto.
      * replace (p + i) with (p + 1 + (i - 1)) by lia. apply Hall. lia.
    + exists false. split; [reflexivity | discriminate].
Qed.

(** The shape of every token [NextToken] returns inside the string:
    either the policy's [CHARACTER] token, or an escape of 2, 5 or 8
    characters that begins with the caret and ends inside the
    string. *)
Lemma NextToken_shape p :
  0 <= p < len ->
  exists tok,
    NextToken s advance (Some p) = Some tok /\
    Begin tok = Some p /\
    ((tok = typedToken p (p + advance p) CHARACTER) \/
     (rd s p = Some ESCAPE /\
      exists k, End_ tok = Some (p + k) /\ p + k <= len /\
        ((k = 2 /\ tok = typedToken p (p + 2) ESCAPE_TOKEN) \/
         (k = 2 /\ tok = typedToken p (p + 2) DEFAULT_COLOR) \/
         (k = 2 /\ exists c1,
            rd s (p + 1) = Some c1 /\ 48 <= toupper c1 < 80 /\
            tok = colorToken p (p + 2) (Indexed (c1 - 48))) \/
         (k = 5 /\ exists c2 c3 c4,
            rd s (p + 2) = Some c2 /\ rd s (p + 3) = Some c3 /\
            rd s (p + 4) = Some c4 /\
            ishex c2 = true /\ ishex c3 = true /\ ishex c4 = true /\
            tok = colorToken p (p + 5)
                    (Ratio (gethex c2) (gethex c3) (gethex c4) 15)) \/
         (k = 8 /\ exists c2 c3 c4 c5 c6 c7,
            rd s (p + 2) = Some c2 /\ rd s (p + 3) = Some c3 /\
            rd s (p + 4) = Some c4 /\ rd s (p + 5) = Some c5 /\
            rd s (p + 6) = Some c6 /\ rd s (p + 7) = Some c7 /\
            ishex c2 = true /\ ishex c3 = true /\ ishex c4 = true /\
            ishex c5 = true /\ ishex c6 = true /\ ishex c7 = true /\
            tok = colorToken p (p + 8)
                    (Ratio (Z.lor (Z.shiftl (gethex c2) 4) (gethex c3))
                           (Z.lor (Z.shiftl (gethex c4) 4) (gethex c5))
                           (Z.lor (Z.shiftl (gethex c6) 4) (gethex c7))
                           255))))).
Proof.
  intros Hp.
  destruct (rd_inside p Hp) as (c0 & Hc0 & Hnz0 & _).
  unfold NextToken. rewrite Hc0. cbn [mbind option_bind].
  destruct (Z.eqb_spec c0 0) as [? | _]; [contradiction |].
  destruct (Z.eqb_spec c0 ESCAPE) as [-> | _];
    [| eexists; split; [reflexivity |]; split; [reflexivity | now left]].
  destruct (rd_spec (p + 1) ltac:(lia)) as (c1 & Hc1 & Hz1).
  rewrite Hc1. cbn [mbind option_bind].
  assert (c1 <> 0 -> p + 2 <= len) as Hin1.
  { intros Hn. destruct (Z.eq_dec (p + 1) len) as [E | E]; [| lia].
    apply Hz1 in E. contradiction. }
  destruct (Z.eqb_spec c1 ESCAPE) as [E1 | _].
  { eexists. split; [reflexivity |]. split; [reflexivity |]. right.
    split; [reflexivity |]. exists 2. split; [reflexivity |].
    split; [apply Hin1; unfold ESCAPE in E1; lia |]. left. split; reflexivity. }
  destruct (Z.eqb_spec c1 NULL_COLOR) as [E1 | _].
  { eexists. split; [reflexivity |]. split; [reflexivity |]. right.
    split; [reflexivity |]. exists 2. split; [reflexivity |].
    split; [apply Hin1; unfold NULL_COLOR in E1; lia |].
    right. left. split; reflexivity. }
  destruct ((48 <=? toupper c1) && (toupper c1 <? 80)) eqn:Eidx.
  { eexists. split; [reflexivity |]. split; [reflexivity |]. right.
    split; [reflexivity |]. exists 2. split; [reflexivity |].
    assert (48 <= toupper c1 < 80) as Hr by lia.
    split.
    - apply Hin1. intros ->. unfold toupper in Hr. cbn in Hr. lia.
    - right. right. left. split; [reflexivity |]. exists c1. auto. }
  (* short form *)
  destruct (Z.eqb_spec (tolower c1) 120) as [Ex | Ex]; cbn [andThen].
  - assert (p + 2 <= len) as H2.
    { apply Hin1. intros ->. unfold tolower in Ex. cbn in Ex. lia. }
    assert (c1 <> 35) as Hn35.
    { intros ->. unfold tolower in Ex. cbn in Ex. lia. }
    destruct (ishexAt_spec (p + 2) ltac:(lia)) as (b2 & Hb2 & Ht2). rewrite Hb2.
    destruct b2; cbn [andThen mbind option_bind].
    + destruct (Ht2 eq_refl) as (Hl2 & c2 & Hc2 & Hh2).
      destruct (ishexAt_spec (p + 3) ltac:(lia)) as (b3 & Hb3 & Ht3). rewrite Hb3.
      destruct b3; cbn [andThen mbind option_bind].
      * destruct (Ht3 eq_refl) as (Hl3 & c3 & Hc3 & Hh3).
        destruct (ishexAt_spec (p + 4) ltac:(lia)) as (b4 & Hb4 & Ht4). rewrite Hb4.
        destruct b4; cbn [andThen mbind option_bind].
        -- destruct (Ht4 eq_refl) as (Hl4 & c4 & Hc4 & Hh4).
           rewrite (gethexAt_spec _ _ Hc2), (gethexAt_spec _ _ Hc3),
             (gethexAt_spec _ _ Hc4). cbn [mbind option_bind].
           eexists. split; [reflexivity |]. split; [reflexivity |]. right.
           split; [reflexivity |]. exists 5. split; [reflexivity |].
           split; [lia |]. do 3 right. left. split; [reflexivity |].
           exists c2, c3, c4. auto 10.
        -- destruct (Z.eqb_spec c1 35); [contradiction |].
           eexists; split; [reflexivity |]; split; [reflexivity | now left].
      * destruct (Z.eqb_spec c1 35); [contradiction |].
        eexists; split; [reflexivity |]; split; [reflexivity | now left].
    + destruct (Z.eqb_spec c1 35); [contradiction |].
      eexists; split; [reflexivity |]; split; [reflexivity | now left].
  - cbn [mbind option_bind].
    destruct (Z.eqb_spec c1 35) as [-> | _];
      [| eexists; split; [reflexivity |]; split; [reflexivity | now left]].
    destruct (allHex_spec 6 (p + 2) ltac:(specialize (Hin1 ltac:(lia)); lia))
      as (b & Hb & Hbt).
    rewrite Hb. cbn [mbind option_bind].
    destruct b;
      [| eexists; split; [reflexivity |]; split; [reflexivity | now left]].
    destruct (Hbt eq_refl) as (Hle & Hall).
    destruct (Hall 0 ltac:(lia)) as (c2 & Hc2 & Hh2).
    destruct (Hall 1 ltac:(lia)) as (c3 & Hc3 & Hh3).
    destruct (Hall 2 ltac:(lia)) as (c4 & Hc4 & Hh4).
    destruct (Hall 3 ltac:(lia)) as (c5 & Hc5 & Hh5).
    destruct (Hall 4 ltac:(lia)) as (c6 & Hc6 & Hh6).
    destruct (Hall 5 ltac:(lia)) as (c7 & Hc7 & Hh7).
    replace (p + 2 + 0) with (p + 2) in Hc2 by lia.
    replace (p + 2 + 1) with (p + 3) in Hc3 by lia.
    replace (p + 2 + 2) with (p + 4) in Hc4 by lia.
    replace (p + 2 + 3) with (p + 5) in Hc5 by lia.
    replace (p + 2 + 4) with (p + 6) in Hc6 by lia.
    replace (p + 2 + 5) with (p + 7) in Hc7 by lia.
    rewrite (gethexAt_spec _ _ Hc2), (gethexAt_spec _ _ Hc3),
      (gethexAt_spec _ _ Hc4), (gethexAt_spec _ _ Hc5),
      (gethexAt_spec _ _ Hc6), (gethexAt_spec _ _ Hc7).
    cbn [mbind option_bind].
    eexists. split; [reflexivity |]. split; [reflexivity |]. right.
    split; [reflexivity |]. exists 8. split; [reflexivity |].
    split; [lia |]. do 4 right. split; [reflexivity |].
    exists c2, c3, c4, c5, c6, c7. auto 20.
Qed.

(** The token at a position inside the string or at its NUL. *)
Lemma NextToken_inside p :
  0 <= p <= len ->
  exists tok,
    NextToken s advance (Some p) = Some tok /\
    (p = len -> tok = invalidToken) /\
    (p < len ->
     Begin tok = Some p /\ Type_ tok <> INVALID /\
     exists e,
       End_ tok = Some e /\
       ((Type_ tok = CHARACTER /\ e = p + advance p) \/
        (Type_ tok <> CHARACTER /\ (e = p + 2 \/ e = p + 5 \/ e = p + 8) /\
         e <= len)) /\
       (advancesInside s advance -> isValid tok = true /\ p < e <= len)).
Proof.
  intros Hp. destruct (Z.eq_dec p len) as [-> | Hne].
  - exists invalidToken. unfold NextToken. rewrite rd_end. cbn.
    split; [reflexivity |]. split; [reflexivity | lia].
  - destruct (NextToken_shape p ltac:(lia)) as (tok & Htok & Hb & Hshape).
    exists tok. split; [exact Htok |]. split; [lia |]. intros Hlt.
    split; [exact Hb |].
    destruct Hshape as [-> | (Hesc & k & He & Hle & Hk)].
    + split; [discriminate |]. exists (p + advance p). cbn.
      split; [reflexivity |]. split; [left; split; reflexivity |].
      intros Hadv. destruct (Hadv p ltac:(lia)) as [H1 H2].
      split; [| lia]. destruct (Z.ltb_spec p (p + advance p)); [reflexivity | lia].
    + assert (Type_ tok <> INVALID /\ Type_ tok <> CHARACTER /\
              (k = 2 \/ k = 5 \/ k = 8)) as (Hi & Hc & Hk').
      { destruct Hk as [[-> ->] | [[-> ->] | [(-> & c1 & _ & _ & ->)
          | [(-> & c2 & c3 & c4 & _ & _ & _ & _ & _ & _ & ->)
            | (-> & c2 & c3 & c4 & c5 & c6 & c7 & _ & _ & _ & _ & _ & _
               & _ & _ & _ & _ & _ & _ & ->)]]]]; cbn;
          (split; [discriminate |]; split; [discriminate | lia]). }
      split; [exact Hi |]. exists (p + k). split; [exact He |].
      split; [right; split; [exact Hc |]; split; [lia | exact Hle] |].
      intros _. split; [| lia].
      unfold isValid. rewrite Hb, He.
      destruct (Type_ tok); try contradiction;
        (destruct (Z.ltb_spec p (p + k)); [reflexivity | lia]).
Qed.

(** [NextToken] never reads behind the terminating NUL, for any
    advancement policy. At the NUL it returns the invalid token; before
    it, a token that begins at the input and is either the policy's
    [CHARACTER] token or an escape of 2, 5 or 8 characters that ends
    inside the string. With a policy that advances inside the string
    the token is valid and ends after its beginning and not behind the
    NUL. *)
Theorem NextToken_stays_inside p :
  0 <= p <= len ->
  exists tok,
    NextToken s advance (Some p) = Some tok /\
    (p = len -> tok = invalidToken) /\
    (p < len ->
     Begin tok = Some p /\ Type_ tok <> INVALID /\
     exists e,
       End_ tok = Some e /\
       ((Type_ tok = CHARACTER /\ e = p + advance p) \/
        (Type_ tok <> CHARACTER /\ (e = p + 2 \/ e = p + 5 \/ e = p + 8) /\
         e <= len)) /\
       (advancesInside s advance -> isValid tok = true /\ p < e <= len)).
Proof. exact (NextToken_inside p). Qed.

(** The colour a token carries. A [COLOR] token has an indexed colour
    whose index is the escape character minus the character 0, which
    is below 32 except for the lower-case letters a to o, where it is
    49 to 63; or it has hexadecimal components between 0 and the
    divisor, 15 for the short and 255 for the long form. Every other
    token has the default colour. *)
Theorem color_token_payload p tok :
  0 <= p < len ->
  NextToken s advance (Some p) = Some tok ->
  match Color_ tok with
  | ZeroColour => Type_ tok <> COLOR
  | Indexed i =>
      Type_ tok = COLOR /\ Size tok = 2 /\
      (0 <= i < 32 \/ 49 <= i < 64) /\
      exists c1, rd s (p + 1) = Some c1 /\ i = c1 - 48 /\
                 i mod 32 = toupper c1 - 48
  | Ratio r g b den =>
      Type_ tok = COLOR /\
      ((den = 15 /\ Size tok = 5) \/ (den = 255 /\ Size tok = 8)) /\
      0 <= r <= den /\ 0 <= g <= den /\ 0 <= b <= den
  end.
Proof.
  intros Hp Htok.
  destruct (NextToken_shape p Hp) as (tok' & Htok' & Hb & Hshape).
  rewrite Htok in Htok'. injection Htok' as <-.
  destruct Hshape as [-> | (Hesc & k & He & Hle & Hk)]; [cbn; discriminate |].
  destruct Hk as [[-> ->] | [[-> ->] | [(-> & c1 & Hc1 & Hr & ->)
    | [(-> & c2 & c3 & c4 & _ & _ & _ & H2 & H3 & H4 & ->)
      | (-> & c2 & c3 & c4 & c5 & c6 & c7 & _ & _ & _ & _ & _ & _
         & H2 & H3 & H4 & H5 & H6 & H7 & ->)]]]]; cbn; try discriminate.
  - split; [reflexivity |]. split; [lia |].
    assert ((0 <= c1 - 48 < 32 /\ toupper c1 = c1) \/
            (49 <= c1 - 48 < 64 /\ toupper c1 = c1 - 32)) as Hcase.
    { unfold toupper in *.
      destruct (Z.leb_spec 97 c1), (Z.leb_spec c1 122); cbn [andb] in *; lia. }
    split; [lia |]. exists c1. split; [exact Hc1 |]. split; [reflexivity |].
    destruct Hcase as [[Hi ->] | [Hi ->]].
    + apply Z.mod_small. lia.
    + replace (c1 - 48) with ((c1 - 32 - 48) + 1 * 32) by lia.
      rewrite Z.mod_add by lia. apply Z.mod_small. lia.
  - pose proof (gethex_range _ H2). pose proof (gethex_range _ H3).
    pose proof (gethex_range _ H4).
    split; [reflexivity |]. split; [left; split; [reflexivity | lia] |]. lia.
  - pose proof (gethex_range _ H2). pose proof (gethex_range _ H3).
    pose proof (gethex_range _ H4). pose proof (gethex_range _ H5).
    pose proof (gethex_range _ H6). pose proof (gethex_range _ H7).
    rewrite !byte_of_nibbles by lia.
    split; [reflexivity |]. split; [right; split; [reflexivity | lia] |]. lia.
Qed.

Lemma spanned_cons p e tok :
  Begin tok = Some p -> End_ tok = Some e -> 0 <= p < e -> e <= len ->
  spanned s tok ++ drop (Z.to_nat e) s = drop (Z.to_nat p) s.
Proof.
  intros Hb He Hpe Hle. unfold spanned. rewrite Hb, He.
  replace (Z.to_nat e) with (Z.to_nat p + Z.to_nat (e - p))%nat by lia.
  rewrite <- drop_drop. apply take_drop.
Qed.

Lemma visit_from fuel :
  advancesInside s advance ->
  forall p tok,
    0 <= p <= len -> len - p <= Z.of_nat fuel ->
    NextToken s advance (Some p) = Some tok ->
    exists toks,
      visit s advance fuel tok = Some toks /\
      concat (spanned s <$> toks) = drop (Z.to_nat p) s /\
      Forall (fun t => isValid t = true) toks /\
      Z.of_nat (length toks) <= len - p.
Proof.
  intros Hadv. induction fuel as [| fuel IH]; intros p tok Hp Hfuel Htok.
  - assert (p = len) as -> by lia.
    destruct (NextToken_inside len ltac:(lia)) as (tok' & Htok' & Hend & _).
    rewrite Htok in Htok'. injection Htok' as <-. rewrite (Hend eq_refl).
    exists []. cbn. rewrite Nat2Z.id, drop_all.
    split; [reflexivity |]. split; [reflexivity |]. split; [constructor | lia].
  - destruct (NextToken_inside p Hp) as (tok' & Htok' & Hend & Hin).
    rewrite Htok in Htok'. injection Htok' as <-.
    destruct (Z.eq_dec p len) as [-> | Hne].
    + rewrite (Hend eq_refl). exists []. cbn. rewrite Nat2Z.id, drop_all.
      split; [reflexivity |]. split; [reflexivity |]. split; [constructor | lia].
    + destruct (Hin ltac:(lia)) as (Hb & Hty & e & He & _ & Hvalid).
      destruct (Hvalid Hadv) as [Hv Hpe].
      destruct (NextToken_inside e ltac:(lia)) as (tok1 & Htok1 & _).
      destruct (IH e tok1 ltac:(lia) ltac:(lia) Htok1)
        as (toks & Hvis & Hcat & Hall & Hlen).
      exists (tok :: toks). cbn [visit]. unfold atEnd. rewrite Hb.
      unfold next. rewrite He, Htok1. cbn [mbind option_bind]. rewrite Hvis.
      cbn [mbind option_bind]. split; [reflexivity |].
      split.
      * cbn [fmap list_fmap concat]. change (list_fmap _ _ (spanned s) toks)
          with (spanned s <$> toks). rewrite Hcat.
        apply (spanned_cons p e); [exact Hb | exact He | lia | lia].
      * split; [constructor; assumption |]. cbn [length]. lia.
Qed.

(** Iterating from the start of the string visits finitely many
    tokens, at most one per character, and never reads behind the
    NUL; every token visited is valid, and the characters the tokens
    span, put one after the other, are the string. *)
Theorem tokens_cover_the_string :
  advancesInside s advance ->
  exists toks,
    tokens s advance = Some toks /\
    concat (spanned s <$> toks) = s /\
    Forall (fun t => isValid t = true) toks /\
    (length toks <= length s)%nat.
Proof.
  intros Hadv. unfold tokens, first.
  destruct (NextToken_inside 0 ltac:(lia)) as (tok & Htok & _).
  rewrite Htok. cbn [mbind option_bind].
  destruct (visit_from (length s) Hadv 0 tok ltac:(lia) ltac:(lia) Htok)
    as (toks & Hvis & Hcat & Hall & Hlen).
  exists toks. split; [exact Hvis |]. split; [exact Hcat |].
  split; [exact Hall | lia].
Qed.

End Tokenizer.

Lemma visit_plain s fuel :
  cstring s -> ESCAPE ∉ s ->
  forall p tok,
    0 <= p <= Z.of_nat (length s) -> Z.of_nat (length s) - p <= Z.of_nat fuel ->
    NextToken s TokenAdvanceOne (Some p) = Some tok ->
    visit s TokenAdvanceOne fuel tok
    = Some ((fun i => typedToken i (i + 1) CHARACTER)
              <$> seqZ p (Z.of_nat (length s) - p)).
Proof.
  intros Hcs Hplain.
  assert (forall p, 0 <= p < Z.of_nat (length s) ->
            NextToken s TokenAdvanceOne (Some p)
            = Some (typedToken p (p + 1) CHARACTER)) as Hchar.
  { intros p Hp.
    destruct (NextToken_shape s TokenAdvanceOne Hcs p Hp)
      as (tok & Htok & _ & [-> | (Hesc & _)]); [exact Htok |].
    destruct (rd_inside s Hcs p Hp) as (c & Hc & _ & Hs).
    rewrite Hesc in Hc. injection Hc as <-.
    exfalso. apply Hplain. eapply list_elem_of_lookup_2. exact Hs. }
  induction fuel as [| fuel IH]; intros p tok Hp Hfuel Htok.
  - assert (p = Z.of_nat (length s)) as -> by lia.
    unfold NextToken in Htok. rewrite rd_end in Htok. cbn in Htok.
    injection Htok as <-. rewrite Z.sub_diag. reflexivity.
  - destruct (Z.eq_dec p (Z.of_nat (length s))) as [-> | Hne].
    + unfold NextToken in Htok. rewrite rd_end in Htok. cbn in Htok.
      injection Htok as <-. rewrite Z.sub_diag. reflexivity.
    + rewrite (Hchar p ltac:(lia)) in Htok. injection Htok as <-.
      cbn [visit atEnd typedToken Begin]. unfold next.
      change (End_ (typedToken p (p + 1) CHARACTER)) with (Some (p + 1)).
      destruct (NextToken_inside s TokenAdvanceOne Hcs (p + 1) ltac:(lia))
        as (tok1 & Htok1 & _).
      rewrite Htok1. cbn [mbind option_bind].
      rewrite (IH (p + 1) tok1 ltac:(lia) ltac:(lia) Htok1).
      cbn [mbind option_bind].
      rewrite (seqZ_cons p (Z.of_nat (length s) - p)) by lia. cbn [fmap list_fmap].
      repeat f_equal. lia.
Qed.

(** Text without the escape character is tokenized, with
    [TokenAdvanceOne], into one [CHARACTER] token per character, in
    order; the empty string has no token. *)
Theorem plain_text_is_one_token_per_character s :
  cstring s -> ESCAPE ∉ s ->
  tokens s TokenAdvanceOne
  = Some ((fun i => typedToken i (i + 1) CHARACTER)
            <$> seqZ 0 (Z.of_nat (length s))).
Proof.
  intros Hcs Hplain. unfold tokens, first.
  destruct (NextToken_inside s TokenAdvanceOne Hcs 0 ltac:(lia))
    as (tok & Htok & _).
  rewrite Htok. cbn [mbind option_bind].
  rewrite (visit_plain s (length s) Hcs Hplain 0 tok ltac:(lia) ltac:(lia) Htok).
  now rewrite Z.sub_0_r.
Qed.

Lemma rd_middle pre mid post k c :
  0 <= k -> mid !! Z.to_nat k = Some c ->
  rd (pre ++ mid ++ post) (Z.of_nat (length pre) + k) = Some c.
Proof.
  intros Hk Hc. unfold rd.
  destruct (Z.ltb_spec (Z.of_nat (length pre) + k) 0); [lia |].
  replace (Z.to_nat (Z.of_nat (length pre) + k))
    with (length pre + Z.to_nat k)%nat by lia.
  rewrite <- !app_assoc. rewrite lookup_app_r by lia.
  replace (length pre + Z.to_nat k - length pre)%nat with (Z.to_nat k) by lia.
  apply lookup_app_l_Some. exact Hc.
Qed.

(** Writing a colour as an escape and reading it back. Wherever the
    long escape of three byte values stands in a string, [NextToken]
    returns there a [COLOR] token of 8 characters whose components are
    the three values over 255; wherever the short escape of three digit
    values stands, with the letter x in either case, it returns a
    [COLOR] token of 5 characters with the three values over 15. The
    digits may be written in upper or lower case. *)
Theorem hex_escape_reads_back pre post advance u r g b :
  (0 <= r < 256 -> 0 <= g < 256 -> 0 <= b < 256 ->
   let p := Z.of_nat (length pre) in
   NextToken (pre ++ longEscape u r g b ++ post) advance (Some p)
   = Some (colorToken p (p + 8) (Ratio r g b 255))) /\
  (forall x, x = 120 \/ x = 88 ->
             0 <= r < 16 -> 0 <= g < 16 -> 0 <= b < 16 ->
   let p := Z.of_nat (length pre) in
   NextToken (pre ++ shortEscape x u r g b ++ post) advance (Some p)
   = Some (colorToken p (p + 5) (Ratio r g b 15))).
Proof.
  split.
  - intros Hr Hg Hb p. subst p.
    set (s := pre ++ longEscape u r g b ++ post).
    set (p := Z.of_nat (length pre)).
    assert (forall k c, 0 <= k -> longEscape u r g b !! Z.to_nat k = Some c ->
                        rd s (p + k) = Some c) as Hrd
        by (intros; now apply rd_middle).
    pose proof (Hrd 0 _ ltac:(lia) eq_refl) as H0. rewrite Z.add_0_r in H0.
    pose proof (Hrd 1 _ ltac:(lia) eq_refl) as H1.
    pose proof (Hrd 2 _ ltac:(lia) eq_refl) as H2.
    pose proof (Hrd 3 _ ltac:(lia) eq_refl) as H3.
    pose proof (Hrd 4 _ ltac:(lia) eq_refl) as H4.
    pose proof (Hrd 5 _ ltac:(lia) eq_refl) as H5.
    pose proof (Hrd 6 _ ltac:(lia) eq_refl) as H6.
    pose proof (Hrd 7 _ ltac:(lia) eq_refl) as H7.
    assert (0 <= r / 16 < 16 /\ 0 <= r mod 16 < 16 /\
            0 <= g / 16 < 16 /\ 0 <= g mod 16 < 16 /\
            0 <= b / 16 < 16 /\ 0 <= b mod 16 < 16)
      as (Hr1 & Hr2 & Hg1 & Hg2 & Hb1 & Hb2).
    { pose proof (Z.div_mod r 16 ltac:(lia)). pose proof (Z.mod_pos_bound r 16 ltac:(lia)).
      pose proof (Z.div_mod g 16 ltac:(lia)). pose proof (Z.mod_pos_bound g 16 ltac:(lia)).
      pose proof (Z.div_mod b 16 ltac:(lia)). pose proof (Z.mod_pos_bound b 16 ltac:(lia)).
      lia. }
    unfold NextToken. rewrite H0. cbn [mbind option_bind].
    change (ESCAPE =? 0) with false. change (ESCAPE =? ESCAPE) with true.
    cbv iota. rewrite H1. cbn [mbind option_bind].
    change (35 =? ESCAPE) with false. change (35 =? NULL_COLOR) with false.
    change ((48 <=? toupper 35) && (toupper 35 <? 80)) with false.
    change (tolower 35 =? 120) with false. cbv iota. cbn [andThen mbind option_bind].
    change (35 =? 35) with true. cbv iota.
    replace (p + 2 + 1 + 1 + 1 + 1 + 1) with (p + 7) by lia.
    unfold allHex, ishexAt.
    replace (p + 2 + 1) with (p + 3) by lia.
    replace (p + 3 + 1) with (p + 4) by lia.
    replace (p + 4 + 1) with (p + 5) by lia.
    replace (p + 5 + 1) with (p + 6) by lia.
    replace (p + 6 + 1) with (p + 7) by lia.
    unfold gethexAt.
    rewrite H2, H3, H4, H5, H6, H7. cbn [fmap option_fmap option_map mbind option_bind].
    rewrite !hexDigit_ishex by assumption. cbn [mbind option_bind].
    rewrite !gethex_hexDigit by assumption.
    rewrite !byte_of_nibbles by lia.
    pose proof (Z.div_mod r 16 ltac:(lia)). pose proof (Z.div_mod g 16 ltac:(lia)).
    pose proof (Z.div_mod b 16 ltac:(lia)).
    repeat f_equal; lia.
  - intros x Hx Hr Hg Hb p. subst p.
    set (s := pre ++ shortEscape x u r g b ++ post).
    set (p := Z.of_nat (length pre)).
    assert (forall k c, 0 <= k -> shortEscape x u r g b !! Z.to_nat k = Some c ->
                        rd s (p + k) = Some c) as Hrd
        by (intros; now apply rd_middle).
    pose proof (Hrd 0 _ ltac:(lia) eq_refl) as H0. rewrite Z.add_0_r in H0.
    pose proof (Hrd 1 _ ltac:(lia) eq_refl) as H1.
    pose proof (Hrd 2 _ ltac:(lia) eq_refl) as H2.
    pose proof (Hrd 3 _ ltac:(lia) eq_refl) as H3.
    pose proof (Hrd 4 _ ltac:(lia) eq_refl) as H4.
    unfold NextToken. rewrite H0. cbn [mbind option_bind].
    change (ESCAPE =? 0) with false. change (ESCAPE =? ESCAPE) with true.
    cbv iota. rewrite H1. cbn [mbind option_bind].
    unfold ishexAt, gethexAt. rewrite H2, H3, H4.
    cbn [fmap option_fmap option_map].
    rewrite !hexDigit_ishex by assumption.
    rewrite !gethex_hexDigit by assumption.
    destruct Hx as [-> | ->]; reflexivity.
Qed.

Lemma sampleText_cstring : cstring sampleText.
Proof.
  unfold cstring, sampleText.
  repeat (constructor; [lia |]). constructor.
Qed.

Lemma TokenAdvanceOne_inside s : advancesInside s TokenAdvanceOne.
Proof. intros p Hp. unfold TokenAdvanceOne. lia. Qed.

Lemma gethex_inverts_hex_digits_witness :
  (0 <= 11 < 16 /\
   ishex (hexDigit true 11) = true /\ gethex (hexDigit true 11) = 11) /\
  (ishex 102 = true /\
   0 <= gethex 102 < 16 /\ exists u, hexDigit u (gethex 102) = 102) /\
  gethex (toupper 102) = gethex 102.
Proof.
  destruct gethex_inverts_hex_digits as (Hdigit & Hchar & Hcase).
  split; [split; [lia | apply (Hdigit true 11); lia] |].
  split; [split; [reflexivity | apply (Hchar 102); reflexivity] |].
  apply (Hcase 102). reflexivity.
Defined.

Lemma NextToken_stays_inside_witness :
  cstring sampleText /\ 0 <= 10 <= Z.of_nat (length sampleText) /\
  exists tok,
    NextToken sampleText TokenAdvanceOne (Some 10) = Some tok /\
    (10 = Z.of_nat (length sampleText) -> tok = invalidToken) /\
    (10 < Z.of_nat (length sampleText) ->
     Begin tok = Some 10 /\ Type_ tok <> INVALID /\
     exists e,
       End_ tok = Some e /\
       ((Type_ tok = CHARACTER /\ e = 10 + TokenAdvanceOne 10) \/
        (Type_ tok <> CHARACTER /\ (e = 10 + 2 \/ e = 10 + 5 \/ e = 10 + 8) /\
         e <= Z.of_nat (length sampleText))) /\
       (advancesInside sampleText TokenAdvanceOne ->
        isValid tok = true /\ 10 < e <= Z.of_nat (length sampleText))).
Proof.
  split; [exact sampleText_cstring |]. split; [cbn; lia |].
  apply (NextToken_stays_inside sampleText TokenAdvanceOne sampleText_cstring 10).
  cbn. lia.
Defined.

Lemma color_token_payload_witness :
  0 <= 10 < Z.of_nat (length sampleText) /\
  NextToken sampleText TokenAdvanceOne (Some 10)
  = Some (colorToken 10 18 (Ratio 255 128 0 255)) /\
  Type_ (colorToken 10 18 (Ratio 255 128 0 255)) = COLOR /\
  ((255 = 15 /\ Size (colorToken 10 18 (Ratio 255 128 0 255)) = 5) \/
   (255 = 255 /\ Size (colorToken 10 18 (Ratio 255 128 0 255)) = 8)) /\
  0 <= 255 <= 255 /\ 0 <= 128 <= 255 /\ 0 <= 0 <= 255.
Proof.
  assert (0 <= 10 < Z.of_nat (length sampleText)) as Hp by (cbn; lia).
  assert (NextToken sampleText TokenAdvanceOne (Some 10)
          = Some (colorToken 10 18 (Ratio 255 128 0 255))) as Htok
      by reflexivity.
  split; [exact Hp |]. split; [exact Htok |].
  exact (color_token_payload sampleText TokenAdvanceOne sampleText_cstring
           10 _ Hp Htok).
Defined.

Lemma tokens_cover_the_string_witness :
  cstring sampleText /\ advancesInside sampleText TokenAdvanceOne /\
  exists toks,
    tokens sampleText TokenAdvanceOne = Some toks /\
    concat (spanned sampleText <$> toks) = sampleText /\
    Forall (fun t => isValid t = true) toks /\
    (length toks <= length sampleText)%nat.
Proof.
  split; [exact sampleText_cstring |].
  split; [apply TokenAdvanceOne_inside |].
  exact (tokens_cover_the_string sampleText TokenAdvanceOne sampleText_cstring
           (TokenAdvanceOne_inside sampleText)).
Defined.

Lemma plain_text_is_one_token_per_character_witness :
  cstring [104; 105] /\ (ESCAPE ∉ [104; 105]) /\
  tokens [104; 105] TokenAdvanceOne
  = Some [ typedToken 0 1 CHARACTER; typedToken 1 2 CHARACTER ].
Proof.
  assert (cstring [104; 105]) as Hcs.
  { unfold cstring. repeat (constructor; [lia |]). constructor. }
  assert (ESCAPE ∉ [104; 105]) as Hplain.
  { unfold ESCAPE. rewrite !not_elem_of_cons. repeat split; try lia.
    apply not_elem_of_nil. }
  split; [exact Hcs |]. split; [exact Hplain |].
  exact (plain_text_is_one_token_per_character [104; 105] Hcs Hplain).
Defined.

Lemma hex_escape_reads_back_witness :
  (0 <= 255 < 256 /\ 0 <= 128 < 256 /\ 0 <= 0 < 256 /\
   NextToken ([97] ++ longEscape false 255 128 0 ++ [98]) TokenAdvanceOne (Some 1)
   = Some (colorToken 1 9 (Ratio 255 128 0 255))) /\
  (0 <= 15 < 16 /\ 0 <= 8 < 16 /\ 0 <= 0 < 16 /\
   NextToken ([97] ++ shortEscape 88 true 15 8 0 ++ [98]) TokenAdvanceOne (Some 1)
   = Some (colorToken 1 6 (Ratio 15 8 0 15))).
Proof.
  split.
  - split; [lia |]. split; [lia |]. split; [lia |].
    apply (proj1 (hex_escape_reads_back [97] [98] TokenAdvanceOne false 255 128 0));
      lia.
  - split; [lia |]. split; [lia |]. split; [lia |].
    apply (proj2 (hex_escape_reads_back [97] [98] TokenAdvanceOne true 15 8 0) 88);
      lia.
Defined.

(** The sample text: a character, an indexed colour, a short and a long
    hexadecimal colour, a doubled caret and a caret at the end of the
    string, which is a character. *)
Example sample_tokens :
  tokens sampleText TokenAdvanceOne
  = Some [ typedToken 0 1 CHARACTER;
           colorToken 1 3 (Indexed 1);
           typedToken 3 4 CHARACTER;
           colorToken 4 9 (Ratio 0 15 0 15);
           typedToken 9 10 CHARACTER;
           colorToken 10 18 (Ratio 255 128 0 255);
           typedToken 18 20 ESCAPE_TOKEN;
           typedToken 20 21 CHARACTER ].
Proof. reflexivity. Qed.

End ColorTokenFacts.

(** ** ComputeDynamics run again on the stage it has marked *)

Module DynamicsAgain.
Import Dynamics.

(** Case analysis on the leftmost operand of a disjunction. *)
Local Ltac split_orb :=
  repeat match goal with
         | |- context [orb ?a _] =>
             lazymatch a with
             | orb _ _ => fail
             | _ => destruct a eqn:?; cbn [orb]; try reflexivity
             end
         end.

(** [ProcessStage] runs [ComputeDynamics] on a stage once for every
    surface that uses the shader. A second run changes nothing: the stage
    it returns is the stage the first run returned. After a run, a stage
    with [colorDynamic], [texMatricesDynamic] or [texturesDynamic] set is
    [dynamic]; and a run never clears [dynamic], [texMatricesDynamic] or
    [texturesDynamic] when they were set before it. *)
Theorem ComputeDynamics_is_idempotent s :
  ComputeDynamics (ComputeDynamics s) = ComputeDynamics s /\
  (colorDynamic (ComputeDynamics s)
   || texMatricesDynamic (ComputeDynamics s)
   || texturesDynamic (ComputeDynamics s) = true ->
   dynamic (ComputeDynamics s) = true) /\
  (dynamic s = true -> dynamic (ComputeDynamics s) = true) /\
  (texMatricesDynamic s = true -> texMatricesDynamic (ComputeDynamics s) = true) /\
  (texturesDynamic s = true -> texturesDynamic (ComputeDynamics s) = true).
Proof.
  split; [| split; [| split; [| split]]].
  - unfold ComputeDynamics.
    cbn [rgbGen alphaGen bundle ifExp alphaExp alphaTestExp rgbExp redExp greenExp
         blueExp deformMagnitudeExp depthScaleExp fogDensityExp fresnelBiasExp
         fresnelPowerExp fresnelScaleExp normalIntensityExp refractionIndexExp
         dynamic colorDynamic texMatricesDynamic texturesDynamic].
    f_equal; split_orb.
  - cbn. intros H.
    apply orb_true_iff in H as [H | H];
      [apply orb_true_iff in H as [H | H] |]; rewrite H;
      now rewrite ?orb_true_r.
  - cbn. intros ->. reflexivity.
  - cbn. intros ->. reflexivity.
  - cbn. intros ->. reflexivity.
Qed.

Lemma ComputeDynamics_is_idempotent_witness :
  let s :=
    plainStage [ {| texMods := [ plainTexMod TMOD_SCROLL GF_NONE ];
                    isVideoMap := false; numImages := 1 |} ] in
  ComputeDynamics (ComputeDynamics s) = ComputeDynamics s /\
  colorDynamic (ComputeDynamics s)
  || texMatricesDynamic (ComputeDynamics s)
  || texturesDynamic (ComputeDynamics s) = true /\
  dynamic (ComputeDynamics s) = true.
Proof.
  intros s.
  destruct (ComputeDynamics_is_idempotent s) as (Hidem & Hflags & _).
  split; [exact Hidem |]. split; [reflexivity |].
  apply Hflags. reflexivity.
Defined.

End DynamicsAgain.

(** ** Frame indices and the per-view slices of the command buffers *)

Module FrameFacts.
Import Frames.

Section WithLimits.
Variable MAX_FRAMES : Z.
Variable MAX_VIEWS : Z.
Hypothesis frames_range : 2 <= MAX_FRAMES < 2 ^ 32.

(** What holds of the frame indices from [Free] on. *)
Local Abbreviation indicesOk st :=
  (0 <= currentFrame st < MAX_FRAMES /\ 0 <= nextFrame st < MAX_FRAMES /\
   currentFrame st <> nextFrame st).

Lemma EndFrame_next st :
  generatedWorldCommandBuffer st = true ->
  0 <= nextFrame st < MAX_FRAMES ->
  currentFrame (EndFrame MAX_FRAMES st) = nextFrame st /\
  nextFrame (EndFrame MAX_FRAMES st) = (nextFrame st + 1) mod MAX_FRAMES /\
  generatedWorldCommandBuffer (EndFrame MAX_FRAMES st) = true.
Proof.
  intros Hg Hn. unfold EndFrame. rewrite Hg. cbn.
  rewrite wrap32_small by (unfold is_u32; lia).
  split; [reflexivity |]. split; [| reflexivity].
  destruct (Z.leb_spec MAX_FRAMES (nextFrame st + 1)).
  - replace (nextFrame st + 1) with MAX_FRAMES by lia.
    now rewrite Z.mod_same by lia.
  - now rewrite Z.mod_small by lia.
Qed.

Lemma call_keeps_indices c st : indicesOk st -> indicesOk (call MAX_FRAMES c st).
Proof.
  intros (Hc & Hn & Hne). destruct c; cbn [call].
  - cbn. lia.
  - cbn. lia.
  - unfold StartFrame. destruct (generatedWorldCommandBuffer st); cbn; lia.
  - destruct (generatedWorldCommandBuffer st) eqn:Hg.
    + destruct (EndFrame_next st Hg Hn) as (-> & -> & _).
      pose proof (Z.mod_pos_bound (nextFrame st + 1) MAX_FRAMES ltac:(lia)).
      split; [lia |]. split; [lia |].
      destruct (Z.eq_dec (nextFrame st + 1) MAX_FRAMES) as [E | E].
      * rewrite E, Z.mod_same by lia. lia.
      * rewrite Z.mod_small by lia. lia.
    + unfold EndFrame. rewrite Hg. cbn. lia.
  - cbn. lia.
Qed.

Lemma calls_keep_indices cs :
  forall st, indicesOk st -> indicesOk (calls MAX_FRAMES cs st).
Proof.
  induction cs as [| c cs IH]; intros st H; [exact H |].
  cbn [calls fold_left]. apply IH, call_keeps_indices, H.
Qed.

Lemma frame_indices_hold cs st :
  indicesOk (calls MAX_FRAMES cs (Free st)).
Proof. apply calls_keep_indices. cbn. lia. Qed.

Lemma EndFrame_iter st (k : nat) :
  generatedWorldCommandBuffer st = true ->
  0 <= nextFrame st < MAX_FRAMES ->
  generatedWorldCommandBuffer (Nat.iter k (EndFrame MAX_FRAMES) st) = true /\
  nextFrame (Nat.iter k (EndFrame MAX_FRAMES) st)
  = (nextFrame st + Z.of_nat k) mod MAX_FRAMES.
Proof.
  intros Hg Hn. induction k as [| k [IHg IHn]].
  - cbn. split; [exact Hg |]. rewrite Z.add_0_r, Z.mod_small by lia. reflexivity.
  - change (Nat.iter (S k) (EndFrame MAX_FRAMES) st)
      with (EndFrame MAX_FRAMES (Nat.iter k (EndFrame MAX_FRAMES) st)).
    pose proof (Z.mod_pos_bound (nextFrame st + Z.of_nat k) MAX_FRAMES
                  ltac:(lia)) as Hb.
    destruct (EndFrame_next _ IHg ltac:(rewrite IHn; exact Hb))
      as (_ & Hn' & Hg').
    split; [exact Hg' |]. rewrite Hn', IHn.
    rewrite Zplus_mod_idemp_l. f_equal. lia.
Qed.

(** From [Free] on, whatever is called in whatever order,
    [currentFrame] and [nextFrame] are valid frame numbers and differ;
    [EndFrame] does nothing before the world is generated, and after
    that it makes the next frame the current one and steps [nextFrame]
    round the [MAX_FRAMES] frames. *)
Theorem frame_indices_stay_apart cs st :
  let st' := calls MAX_FRAMES cs (Free st) in
  (0 <= currentFrame st' < MAX_FRAMES /\ 0 <= nextFrame st' < MAX_FRAMES /\
   currentFrame st' <> nextFrame st') /\
  (generatedWorldCommandBuffer st' = false -> EndFrame MAX_FRAMES st' = st') /\
  (generatedWorldCommandBuffer st' = true ->
   forall k : nat,
     nextFrame (Nat.iter k (EndFrame MAX_FRAMES) st')
     = (nextFrame st' + Z.of_nat k) mod MAX_FRAMES /\
     currentFrame (Nat.iter (S k) (EndFrame MAX_FRAMES) st')
     = (nextFrame st' + Z.of_nat k) mod MAX_FRAMES).
Proof.
  intros st'. pose proof (frame_indices_hold cs st) as Hok. fold st' in Hok.
  split; [exact Hok |]. split.
  - intros Hg. unfold EndFrame. now rewrite Hg.
  - intros Hg k. destruct Hok as (_ & Hn & _).
    destruct (EndFrame_iter st' k Hg Hn) as [IHg IHn].
    split; [exact IHn |].
    change (Nat.iter (S k) (EndFrame MAX_FRAMES) st')
      with (EndFrame MAX_FRAMES (Nat.iter k (EndFrame MAX_FRAMES) st')).
    pose proof (Z.mod_pos_bound (nextFrame st' + Z.of_nat k) MAX_FRAMES
                  ltac:(lia)) as Hb.
    destruct (EndFrame_next _ IHg ltac:(rewrite IHn; exact Hb)) as (-> & _).
    exact IHn.
Qed.

Hypothesis views_positive : 0 < MAX_VIEWS.

Lemma sliceOffset_eq count frame view :
  0 <= count -> count * MAX_VIEWS * MAX_FRAMES < 2 ^ 32 ->
  MAX_VIEWS * MAX_FRAMES < 2 ^ 32 ->
  0 <= frame < MAX_FRAMES -> 0 <= view < MAX_VIEWS ->
  sliceOffset MAX_VIEWS count frame view = count * (MAX_VIEWS * frame + view) /\
  0 <= MAX_VIEWS * frame + view < MAX_VIEWS * MAX_FRAMES.
Proof.
  intros Hc Hb Hvf Hf Hv. unfold sliceOffset.
  assert (0 <= MAX_VIEWS * frame + view < MAX_VIEWS * MAX_FRAMES) as Hi by nia.
  rewrite (wrap32_small (MAX_VIEWS * frame)) by (unfold is_u32; nia).
  rewrite (wrap32_small (MAX_VIEWS * frame + view)) by (unfold is_u32; lia).
  rewrite wrap32_small by (unfold is_u32; nia).
  split; [reflexivity | exact Hi].
Qed.

(** The slices of a per-view buffer. For a buffer of [count] elements
    per view, the slices of two different (frame, view) pairs do not
    overlap and every slice ends inside the
    [count * MAX_VIEWS * MAX_FRAMES] elements. Hence, from [Free] on, a
    slice [CullSurfaces] fills (frame [nextFrame]) never overlaps a
    slice [RenderIndirect] reads (frame [currentFrame]), and the slice
    filled before [EndFrame] is the one read after it. *)
Theorem view_slices_do_not_overlap count :
  0 <= count -> count * MAX_VIEWS * MAX_FRAMES < 2 ^ 32 ->
  MAX_VIEWS * MAX_FRAMES < 2 ^ 32 ->
  (forall frame view frame' view',
     0 <= frame < MAX_FRAMES -> 0 <= view < MAX_VIEWS ->
     0 <= frame' < MAX_FRAMES -> 0 <= view' < MAX_VIEWS ->
     (frame, view) <> (frame', view') ->
     let a := sliceOffset MAX_VIEWS count frame view in
     let b := sliceOffset MAX_VIEWS count frame' view' in
     (a + count <= b \/ b + count <= a) /\
     0 <= a /\ a + count <= count * MAX_VIEWS * MAX_FRAMES) /\
  (forall cs st view view',
     0 <= view < MAX_VIEWS -> 0 <= view' < MAX_VIEWS ->
     let st' := calls MAX_FRAMES cs (Free st) in
     let filled := sliceOffset MAX_VIEWS count (nextFrame st') view in
     let read := sliceOffset MAX_VIEWS count (currentFrame st') view' in
     (filled + count <= read \/ read + count <= filled) /\
     (generatedWorldCommandBuffer st' = true ->
      sliceOffset MAX_VIEWS count (currentFrame (EndFrame MAX_FRAMES st')) view
      = filled)).
Proof.
  intros Hc Hb Hvf.
  assert (forall frame view frame' view',
            0 <= frame < MAX_FRAMES -> 0 <= view < MAX_VIEWS ->
            0 <= frame' < MAX_FRAMES -> 0 <= view' < MAX_VIEWS ->
            (frame, view) <> (frame', view') ->
            let a := sliceOffset MAX_VIEWS count frame view in
            let b := sliceOffset MAX_VIEWS count frame' view' in
            (a + count <= b \/ b + count <= a) /\
            0 <= a /\ a + count <= count * MAX_VIEWS * MAX_FRAMES) as Hslices.
  { intros f v f' v' Hf Hv Hf' Hv' Hne a b. subst a b.
    destruct (sliceOffset_eq count f v Hc Hb Hvf Hf Hv) as [-> Hi].
    destruct (sliceOffset_eq count f' v' Hc Hb Hvf Hf' Hv') as [-> Hi'].
    assert (MAX_VIEWS * f + v <> MAX_VIEWS * f' + v') as Hidx.
    { intros E. apply Hne.
      assert (f = f') by nia. subst f'. f_equal. lia. }
    split; [| nia].
    destruct (Z.lt_total (MAX_VIEWS * f + v) (MAX_VIEWS * f' + v'))
      as [Hlt | [E | Hgt]]; [left; nia | contradiction | right; nia]. }
  split; [exact Hslices |].
  intros cs st v v' Hv Hv' st' filled read. subst filled read.
  destruct (frame_indices_hold cs st) as (Hcur & Hnext & Hne).
  fold st' in Hcur, Hnext, Hne.
  split.
  - apply (Hslices (nextFrame st') v (currentFrame st') v' Hnext Hv Hcur Hv').
    intros E. injection E as E _. congruence.
  - intros Hg. destruct (EndFrame_next st' Hg Hnext) as (-> & _). reflexivity.
Qed.

End WithLimits.

Lemma frame_indices_stay_apart_witness :
  2 <= 2 < 2 ^ 32 /\
  let st' := calls 2 sampleCalls (Free sampleState) in
  (0 <= currentFrame st' < 2 /\ 0 <= nextFrame st' < 2 /\
   currentFrame st' <> nextFrame st') /\
  (generatedWorldCommandBuffer st' = false -> EndFrame 2 st' = st') /\
  (generatedWorldCommandBuffer st' = true ->
   forall k : nat,
     nextFrame (Nat.iter k (EndFrame 2) st') = (nextFrame st' + Z.of_nat k) mod 2 /\
     currentFrame (Nat.iter (S k) (EndFrame 2) st')
     = (nextFrame st' + Z.of_nat k) mod 2).
Proof.
  split; [lia |].
  apply (frame_indices_stay_apart 2 ltac:(lia) sampleCalls sampleState).
Defined.

Lemma view_slices_do_not_overlap_witness :
  (2 <= 2 < 2 ^ 32 /\ 0 < 4 /\ 0 <= 128 /\ 128 * 4 * 2 < 2 ^ 32 /\ 4 * 2 < 2 ^ 32) /\
  (let a := sliceOffset 4 128 0 3 in
   let b := sliceOffset 4 128 1 0 in
   (a + 128 <= b \/ b + 128 <= a) /\ 0 <= a /\ a + 128 <= 128 * 4 * 2) /\
  (let st' := calls 2 sampleCalls (Free sampleState) in
   let filled := sliceOffset 4 128 (nextFrame st') 1 in
   let read := sliceOffset 4 128 (currentFrame st') 1 in
   (filled + 128 <= read \/ read + 128 <= filled) /\
   (generatedWorldCommandBuffer st' = true ->
    sliceOffset 4 128 (currentFrame (EndFrame 2 st')) 1 = filled)).
Proof.
  split; [lia |].
  destruct (view_slices_do_not_overlap 2 4 ltac:(lia) ltac:(lia) 128
              ltac:(lia) ltac:(lia) ltac:(lia)) as [Hslices Hframes].
  split.
  - apply (Hslices 0 3 1 0); try lia. intros E. discriminate E.
  - apply (Hframes sampleCalls sampleState 1 1); lia.
Defined.

(** The sample calls leave frame 0 current and frame 1 next, with two
    views queued in each frame. *)
Example sample_frames :
  let st' := calls 2 sampleCalls (Free sampleState) in
  currentFrame st' = 0 /\ nextFrame st' = 1 /\
  frameViewCount st' 0 = 2 /\ frameViewCount st' 1 = 2.
Proof. vm_compute. repeat split; reflexivity. Qed.

End FrameFacts.

(** ** GenerateWorldCommandBuffer: the batch table and the command ranges *)

Module BatchTableFacts.
Import BatchTable LoopFacts BatchFacts.

Section WithLimits.
Variable MAX_SURFACE_COMMAND_BATCHES : Z.
Variable SURFACE_COMMANDS_PER_BATCH : Z.
Hypothesis batch_positive : 0 < SURFACE_COMMANDS_PER_BATCH.

Local Abbreviation B := SURFACE_COMMANDS_PER_BATCH.
Local Abbreviation MAXB := MAX_SURFACE_COMMAND_BATCHES.
Local Abbreviation ceil := (ceilDiv SURFACE_COMMANDS_PER_BATCH).

Lemma batch_globalID ms :
  forall s (i : nat) m',
    0 <= nextGlobalID s ->
    nextGlobalID s + Z.of_nat (length ms) < 2 ^ 32 ->
    snd (forMaterials (batchStep B) s ms) !! i = Some m' ->
    globalID m' = nextGlobalID s + Z.of_nat i.
Proof.
  induction ms as [| m ms IH]; intros s i m' Hg Hlen Hi; [inversion Hi |].
  cbn [forMaterials] in Hi.
  assert (nextGlobalID (fst (batchStep B s m)) = wrap32 (nextGlobalID s + 1))
    as Hnext by reflexivity.
  assert (globalID (snd (batchStep B s m)) = nextGlobalID s) as Hthis
      by reflexivity.
  destruct (batchStep B s m) as [s1 m1].
  destruct (forMaterials (batchStep B) s1 ms) as [s2 ms'] eqn:E2.
  cbn [fst snd] in *. cbn [length] in Hlen.
  rewrite wrap32_small in Hnext by (unfold is_u32; lia).
  destruct i as [| i].
  - cbn in Hi. injection Hi as <-. lia.
  - cbn [lookup list_lookup] in Hi.
    rewrite (IH s1 i m'); [lia | lia | lia |]. rewrite E2. exact Hi.
Qed.

(** What the first loop leaves, on the flattened list of Materials. *)
Lemma batch_layout packs :
  Forall (fun m => commandCount m < 2 ^ 32) (allMaterials packs) ->
  batchDemand B (allMaterials packs) < 2 ^ 32 ->
  Z.of_nat (length (allMaterials packs)) < 2 ^ 32 ->
  let ms := allMaterials (fst (GenerateWorldCommandBuffer B packs)) in
  snd (GenerateWorldCommandBuffer B packs) = sumZ (batchCounts ms) /\
  Forall (fun x => 0 <= x) (batchCounts ms) /\
  forall (i : nat) m,
    ms !! i = Some m ->
    surfaceCommandBatchOffset m = sumZ (take i (batchCounts ms)) /\
    surfaceCommandBatchCount m = ceil (commandCount m) /\
    globalID m = Z.of_nat i.
Proof.
  intros Hlen Hb Hn. unfold GenerateWorldCommandBuffer.
  set (s0 := Build_BatchPass 0 0 0).
  pose proof (forPacks_flat (batchStep B) packs s0) as Hflat.
  pose proof (batch_pass B batch_positive (allMaterials packs) s0 Hlen
                ltac:(cbn; lia) ltac:(cbn; lia) ltac:(cbn; lia)
                ltac:(cbn [batchOffset s0]; lia)
                ltac:(cbn [totalBatchCount s0]; lia)) as Hpass.
  pose proof (batch_globalID (allMaterials packs) s0) as Hgid.
  rewrite Hflat in Hpass, Hgid. cbn [fst snd] in Hpass, Hgid.
  destruct (forPacks (batchStep B) s0 packs) as [s packs'] eqn:E.
  cbn [fst snd] in *. destruct Hpass as (_ & Htot & Hf & Hoff).
  cbn [batchOffset totalBatchCount nextGlobalID s0] in *.
  split; [lia |]. split; [exact (batchCounts_nonneg B batch_positive _ _ Hf) |].
  intros i m Hi. split; [rewrite (Hoff _ _ Hi); lia |]. split.
  - destruct (Forall2_lookup_r _ _ _ _ _ Hf Hi) as (m0 & _ & Hdc & Hc).
    rewrite Hc. unfold commandCount. now rewrite Hdc.
  - rewrite (Hgid i m ltac:(lia) ltac:(lia) Hi). lia.
Qed.

Lemma fillMaterial_spec n matID offset :
  forall id table,
    0 <= id -> id + Z.of_nat n < 2 ^ 32 ->
    (id + Z.of_nat n <= MAXB ->
     exists table',
       fillMaterial MAXB n matID offset id table = Some (id + Z.of_nat n, table') /\
       forall b,
         table' b
         = if (id <=? b) && (b <? id + Z.of_nat n)
           then {| materialIDs0 := matID; materialIDs1 := offset |}
           else table b) /\
    (id <= MAXB < id + Z.of_nat n ->
     fillMaterial MAXB n matID offset id table = None).
Proof.
  induction n as [| n IH]; intros id table Hid Hb; cbn [fillMaterial].
  - change (Z.of_nat 0) with 0. rewrite Z.add_0_r.
    split; [| lia]. intros _. exists table.
    split; [reflexivity |]. intros b.
    destruct (Z.leb_spec id b), (Z.ltb_spec b id); cbn; first [lia | reflexivity].
  - destruct (Z.leb_spec 0 id); [| lia]. cbn [andb].
    destruct (Z.ltb_spec id MAXB) as [Hlt | Hge].
    + rewrite wrap32_small by (unfold is_u32; lia).
      destruct (IH (id + 1) (upd table id (Build_SurfaceCommandBatch matID offset))
                  ltac:(lia) ltac:(lia)) as [Hok Hfail].
      split.
      * intros Hle. destruct (Hok ltac:(lia)) as (table' & -> & Ht).
        exists table'. split; [f_equal; f_equal; lia |].
        intros b. rewrite Ht. unfold upd.
        destruct (Z.leb_spec (id + 1) b), (Z.ltb_spec b (id + 1 + Z.of_nat n)),
          (Z.leb_spec id b), (Z.ltb_spec b (id + Z.of_nat (S n))),
          (Z.eqb_spec b id); cbn; first [lia | reflexivity].
      * intros Hgt. apply Hfail. lia.
    + split; [lia | reflexivity].
Qed.

Lemma fillBatches_spec ms :
  forall matID id table,
    0 <= id -> 0 <= matID ->
    Forall (fun x => 0 <= x) (batchCounts ms) ->
    id + sumZ (batchCounts ms) < 2 ^ 32 ->
    matID + Z.of_nat (length ms) < 2 ^ 32 ->
    (forall (i : nat) m, ms !! i = Some m ->
       surfaceCommandBatchOffset m = id + sumZ (take i (batchCounts ms))) ->
    (id + sumZ (batchCounts ms) <= MAXB ->
     exists table',
       fillBatches MAXB ms matID id table
       = Some (id + sumZ (batchCounts ms), table') /\
       (forall (i : nat) m b,
          ms !! i = Some m ->
          surfaceCommandBatchOffset m <= b
            < surfaceCommandBatchOffset m + surfaceCommandBatchCount m ->
          table' b = {| materialIDs0 := matID + Z.of_nat i;
                        materialIDs1 := surfaceCommandBatchOffset m |}) /\
       (forall b, b < id \/ id + sumZ (batchCounts ms) <= b -> table' b = table b)) /\
    (id <= MAXB < id + sumZ (batchCounts ms) ->
     fillBatches MAXB ms matID id table = None).
Proof.
  induction ms as [| mat rest IH]; intros matID id table Hid Hmat Hnn Hb Hlen Hoff;
    cbn [fillBatches].
  - unfold batchCounts, sumZ in *. cbn in *. rewrite Z.add_0_r.
    split; [| lia]. intros _. exists table. split; [reflexivity |].
    split; [intros i m b H; inversion H | reflexivity].
  - unfold batchCounts in *. cbn [map] in *.
    apply Forall_cons in Hnn as [Hc Hnn].
    assert (sumZ (surfaceCommandBatchCount mat :: map surfaceCommandBatchCount rest)
            = surfaceCommandBatchCount mat + sumZ (map surfaceCommandBatchCount rest))
      as Hsum by reflexivity.
    rewrite Hsum in *.
    pose proof (sumZ_nonneg _ Hnn) as Hrest.
    pose proof (Hoff 0%nat mat eq_refl) as Hoff0. cbn in Hoff0.
    unfold sumZ in Hoff0. cbn in Hoff0. rewrite Z.add_0_r in Hoff0.
    set (n := Z.to_nat (surfaceCommandBatchCount mat)).
    assert (Z.of_nat n = surfaceCommandBatchCount mat) as Hn by (subst n; lia).
    destruct (fillMaterial_spec n matID (surfaceCommandBatchOffset mat) id table
                Hid ltac:(lia)) as [Hok Hfail].
    cbn [length] in Hlen.
    assert (forall (i : nat) m, rest !! i = Some m ->
              surfaceCommandBatchOffset m
              = id + Z.of_nat n + sumZ (take i (map surfaceCommandBatchCount rest)))
      as Hoff'.
    { intros i m Hi. rewrite (Hoff (S i) m Hi). cbn [take]. unfold sumZ.
      cbn [fold_right]. lia. }
    destruct (Z.le_gt_cases (id + Z.of_nat n) MAXB) as [Hfit | Hover].
    + destruct (Hok Hfit) as (table1 & -> & Ht1).
      rewrite (wrap32_small (matID + 1)) by (unfold is_u32; lia).
      destruct (IH (matID + 1) (id + Z.of_nat n) table1 ltac:(lia)
                  ltac:(lia) Hnn ltac:(lia) ltac:(lia) Hoff')
        as [IHok IHfail].
      split.
      * intros Hle. destruct (IHok ltac:(lia)) as (table' & -> & Hin & Hout).
        exists table'. split; [f_equal; f_equal; lia |]. split.
        -- intros [| i] m b Hi Hbm.
           ++ cbn in Hi. injection Hi as <-.
              rewrite Hout by lia. rewrite Ht1.
              destruct (Z.leb_spec id b), (Z.ltb_spec b (id + Z.of_nat n));
                cbn; try lia. f_equal; lia.
           ++ cbn [lookup list_lookup] in Hi. rewrite (Hin i m b Hi Hbm).
              f_equal. lia.
        -- intros b Hbo. rewrite Hout by lia. rewrite Ht1.
           destruct (Z.leb_spec id b), (Z.ltb_spec b (id + Z.of_nat n));
             cbn; first [lia | reflexivity].
      * intros Hgt. apply IHfail. lia.
    + split; [lia |]. intros Hgt. rewrite (Hfail ltac:(lia)). reflexivity.
Qed.

(** The batch table. After the first loop of
    [GenerateWorldCommandBuffer] the loops that fill
    [surfaceCommandBatches] stay inside the table exactly when
    [totalBatchCount] is at most [MAX_SURFACE_COMMAND_BATCHES]; there is
    no test. When they do, they stop at [id = totalBatchCount]; the
    entry of every batch of a Material holds that Material's [globalID]
    (its position in the order of the packs) and its
    [surfaceCommandBatchOffset]; and the entries from [totalBatchCount]
    on are still empty. *)
Theorem batch_table_names_each_material packs :
  0 <= MAXB ->
  Forall (fun m => commandCount m < 2 ^ 32) (allMaterials packs) ->
  batchDemand B (allMaterials packs) < 2 ^ 32 ->
  Z.of_nat (length (allMaterials packs)) < 2 ^ 32 ->
  let packs' := fst (GenerateWorldCommandBuffer B packs) in
  let total := snd (GenerateWorldCommandBuffer B packs) in
  (total <= MAXB ->
   exists table,
     fillTable MAXB packs' = Some (total, table) /\
     (forall pack m b,
        pack ∈ packs' -> m ∈ materials pack ->
        surfaceCommandBatchOffset m <= b
          < surfaceCommandBatchOffset m + surfaceCommandBatchCount m ->
        table b = {| materialIDs0 := globalID m;
                     materialIDs1 := surfaceCommandBatchOffset m |}) /\
     (forall b, total <= b -> table b = emptyBatch)) /\
  (MAXB < total -> fillTable MAXB packs' = None).
Proof.
  intros Hmax Hlen Hb Hn packs' total.
  destruct (batch_layout packs Hlen Hb Hn) as (Htot & Hnn & Hms).
  fold packs' in Htot, Hnn, Hms. fold total in Htot.
  assert (length (allMaterials packs') = length (allMaterials packs)) as Hsame.
  { subst packs'. unfold GenerateWorldCommandBuffer.
    pose proof (forPacks_flat (batchStep B) packs (Build_BatchPass 0 0 0)) as Hflat.
    pose proof (batch_pass B batch_positive (allMaterials packs)
                  (Build_BatchPass 0 0 0) Hlen
                  ltac:(cbn; lia) ltac:(cbn; lia) ltac:(cbn; lia)
                  ltac:(cbn [batchOffset]; lia)
                  ltac:(cbn [totalBatchCount]; lia)) as (_ & _ & Hf & _).
    rewrite Hflat in Hf.
    destruct (forPacks (batchStep B) _ packs) as [s p']. cbn [fst snd] in *.
    symmetry. eapply Forall2_length. exact Hf. }
  assert (total < 2 ^ 32) as Htb.
  { rewrite Htot.
    assert (sumZ (batchCounts (allMaterials packs'))
            = batchDemand B (allMaterials packs')) as ->; [| ].
    { unfold batchCounts, batchDemand. f_equal.
      apply list_eq. intros i. rewrite !list_lookup_fmap.
      destruct (allMaterials packs' !! i) as [m |] eqn:Em; [| reflexivity].
      cbn. f_equal. apply (Hms i m Em). }
    subst packs'. unfold GenerateWorldCommandBuffer.
    pose proof (forPacks_flat (batchStep B) packs (Build_BatchPass 0 0 0)) as Hflat.
    pose proof (batch_pass B batch_positive (allMaterials packs)
                  (Build_BatchPass 0 0 0) Hlen
                  ltac:(cbn; lia) ltac:(cbn; lia) ltac:(cbn; lia)
                  ltac:(cbn [batchOffset]; lia)
                  ltac:(cbn [totalBatchCount]; lia)) as (_ & _ & Hf & _).
    rewrite Hflat in Hf.
    destruct (forPacks (batchStep B) _ packs) as [s p']. cbn [fst snd] in *.
    assert (batchDemand B (allMaterials p') = batchDemand B (allMaterials packs))
      as ->; [| exact Hb].
    unfold batchDemand. f_equal. clear -Hf.
    induction Hf as [| a b la lb [Hdc _] _ IH]; [reflexivity |].
    cbn [map]. rewrite IH. unfold commandCount. now rewrite Hdc. }
  destruct (fillBatches_spec (allMaterials packs') 0 0 (fun _ => emptyBatch)
              ltac:(lia) ltac:(lia) Hnn ltac:(lia) ltac:(lia)
              ltac:(intros i m Hi; rewrite (proj1 (Hms i m Hi)); lia))
    as [Hok Hfail].
  rewrite Z.add_0_l in Hok, Hfail. rewrite <- Htot in Hok, Hfail.
  split; [| intros Hgt; apply Hfail;
             pose proof (sumZ_nonneg _ Hnn); lia].
  intros Hle. destruct (Hok Hle) as (table & Hrun & Hin & Hout).
  exists table. split; [exact Hrun |]. split.
  - intros pack m b Hpack Hm Hbm.
    pose proof (elem_of_allMaterials _ _ _ Hpack Hm) as Hall.
    apply list_elem_of_lookup in Hall as [i Hi].
    rewrite (Hin i m b Hi Hbm). destruct (Hms i m Hi) as (_ & _ & ->).
    f_equal.
  - intros b Hbt. apply Hout. lia.
Qed.

Lemma sumZ_take_S (l : list Z) (i : nat) x :
  l !! i = Some x -> sumZ (take (S i) l) = sumZ (take i l) + x.
Proof.
  intros H. rewrite (take_S_r _ _ _ H), sumZ_app. unfold sumZ. cbn. lia.
Qed.

(** The end of a Material's batches, in the order of the packs. *)
Lemma batch_range_end (ms : list Material) (i : nat) m :
  Forall (fun x => 0 <= x) (batchCounts ms) ->
  ms !! i = Some m ->
  sumZ (take i (batchCounts ms)) + surfaceCommandBatchCount m
  <= sumZ (batchCounts ms) /\
  forall (j : nat), (i < j)%nat ->
    sumZ (take i (batchCounts ms)) + surfaceCommandBatchCount m
    <= sumZ (take j (batchCounts ms)).
Proof.
  intros Hnn Hi.
  assert (batchCounts ms !! i = Some (surfaceCommandBatchCount m)) as Hc
      by (unfold batchCounts; rewrite list_lookup_fmap, Hi; reflexivity).
  rewrite <- (sumZ_take_S _ _ _ Hc).
  split.
  - rewrite <- (firstn_all (batchCounts ms)) at 2.
    apply sumZ_take_mono; [exact Hnn |].
    apply lookup_lt_Some in Hc. lia.
  - intros j Hij. apply sumZ_take_mono; [exact Hnn | lia].
Qed.

(** The command ids. After the first loop of
    [GenerateWorldCommandBuffer], when the [surfaceCommandsCount]
    commands fit a [uint32_t]: the id of a draw command of a Material
    is its batch offset times [SURFACE_COMMANDS_PER_BATCH] plus its
    index, and it is below [surfaceCommandsCount]; the ids of a Material
    that comes earlier in the order of the packs are all below the ids
    of a later one. So no two draw commands share an id, and the
    commands [RenderIndirect] draws for different Materials do not
    overlap. *)
Theorem command_ids_are_distinct packs :
  Forall (fun m => commandCount m < 2 ^ 32) (allMaterials packs) ->
  batchDemand B (allMaterials packs) < 2 ^ 32 ->
  Z.of_nat (length (allMaterials packs)) < 2 ^ 32 ->
  let ms := allMaterials (fst (GenerateWorldCommandBuffer B packs)) in
  let total := snd (GenerateWorldCommandBuffer B packs) in
  total * B < 2 ^ 32 ->
  (forall (i : nat) m c,
     ms !! i = Some m -> 0 <= c < commandCount m ->
     surfaceCommandID B m c = surfaceCommandBatchOffset m * B + c /\
     0 <= surfaceCommandID B m c < surfaceCommandsCount B total) /\
  (forall (i j : nat) mi mj c c',
     (i < j)%nat -> ms !! i = Some mi -> ms !! j = Some mj ->
     0 <= c < commandCount mi -> 0 <= c' < commandCount mj ->
     surfaceCommandID B mi c < surfaceCommandID B mj c').
Proof.
  intros Hlen Hb Hn ms total Hfit.
  destruct (batch_layout packs Hlen Hb Hn) as (Htot & Hnn & Hms).
  fold ms in Htot, Hnn, Hms. fold total in Htot.
  pose proof (sumZ_nonneg _ Hnn) as Htot0. rewrite <- Htot in Htot0.
  assert (forall (i : nat) m c,
            ms !! i = Some m -> 0 <= c < commandCount m ->
            0 <= surfaceCommandBatchOffset m /\
            surfaceCommandID B m c = surfaceCommandBatchOffset m * B + c /\
            surfaceCommandBatchOffset m * B + c
            < (surfaceCommandBatchOffset m + surfaceCommandBatchCount m) * B /\
            surfaceCommandBatchOffset m + surfaceCommandBatchCount m <= total /\
            forall (j : nat) mj, (i < j)%nat -> ms !! j = Some mj ->
              surfaceCommandBatchOffset m + surfaceCommandBatchCount m
              <= surfaceCommandBatchOffset mj) as Hone.
  { intros i m c Hi Hc.
    destruct (Hms i m Hi) as (Hoff & Hcount & _).
    destruct (batch_range_end ms i m Hnn Hi) as [Hend Hnext].
    rewrite <- Hoff in Hend, Hnext. rewrite <- Htot in Hend.
    assert (0 <= surfaceCommandBatchOffset m) as Ho.
    { rewrite Hoff. apply sumZ_nonneg, Forall_take, Hnn. }
    assert (0 <= surfaceCommandBatchCount m) as Hcn.
    { rewrite Hcount. apply (ceilDiv_range B batch_positive). lia. }
    assert (commandCount m <= B * surfaceCommandBatchCount m) as Hcap.
    { rewrite Hcount.
      destruct (ceilDiv_bounds B batch_positive (commandCount m) ltac:(lia))
        as [[_ ?] | [? _]]; lia. }
    split; [exact Ho |]. split.
    - unfold surfaceCommandID.
      rewrite (wrap32_small (_ * B)) by (unfold is_u32; nia).
      apply wrap32_small. unfold is_u32. nia.
    - split; [nia |]. split; [exact Hend |].
      intros j mj Hij Hj. destruct (Hms j mj Hj) as (-> & _).
      now apply Hnext. }
  split.
  - intros i m c Hi Hc.
    destruct (Hone i m c Hi Hc) as (Ho & -> & Hlt & Hend & _).
    split; [reflexivity |]. unfold surfaceCommandsCount.
    rewrite wrap32_small by (unfold is_u32; nia). nia.
  - intros i j mi mj c c' Hij Hi Hj Hc Hc'.
    destruct (Hone i mi c Hi Hc) as (Ho & -> & Hlt & _ & Hnext).
    destruct (Hone j mj c' Hj Hc') as (Ho' & -> & _).
    specialize (Hnext j mj Hij Hj). nia.
Qed.

End WithLimits.

(** The sample packs of the batch numbering: 7 batches; a table of 8
    entries is filled, one of 6 is overrun. *)
Lemma samplePacks_lengths :
  Forall (fun m => commandCount m < 2 ^ 32) (allMaterials samplePacks) /\
  batchDemand 64 (allMaterials samplePacks) < 2 ^ 32 /\
  Z.of_nat (length (allMaterials samplePacks)) < 2 ^ 32.
Proof.
  split; [repeat constructor; vm_compute; reflexivity |].
  split; vm_compute; reflexivity.
Qed.

Lemma batch_table_names_each_material_witness :
  let packs' := fst (GenerateWorldCommandBuffer 64 samplePacks) in
  let total := snd (GenerateWorldCommandBuffer 64 samplePacks) in
  total <= 8 /\
  (exists table,
     fillTable 8 packs' = Some (total, table) /\
     (forall pack m b,
        pack ∈ packs' -> m ∈ materials pack ->
        surfaceCommandBatchOffset m <= b
          < surfaceCommandBatchOffset m + surfaceCommandBatchCount m ->
        table b = {| materialIDs0 := globalID m;
                     materialIDs1 := surfaceCommandBatchOffset m |}) /\
     (forall b, total <= b -> table b = emptyBatch)) /\
  6 < total /\ fillTable 6 packs' = None.
Proof.
  intros packs' total.
  destruct samplePacks_lengths as (Hlen & Hb & Hn).
  assert (total <= 8) as H8 by (vm_compute; discriminate).
  assert (6 < total) as H6 by (vm_compute; reflexivity).
  split; [exact H8 |]. split.
  - exact (proj1 (batch_table_names_each_material 8 64 ltac:(lia) samplePacks
                    ltac:(lia) Hlen Hb Hn) H8).
  - split; [exact H6 |].
    exact (proj2 (batch_table_names_each_material 6 64 ltac:(lia) samplePacks
                    ltac:(lia) Hlen Hb Hn) H6).
Defined.

Lemma command_ids_are_distinct_witness :
  let ms := allMaterials (fst (GenerateWorldCommandBuffer 64 samplePacks)) in
  let total := snd (GenerateWorldCommandBuffer 64 samplePacks) in
  total * 64 < 2 ^ 32 /\
  (forall (i : nat) m c,
     ms !! i = Some m -> 0 <= c < commandCount m ->
     surfaceCommandID 64 m c = surfaceCommandBatchOffset m * 64 + c /\
     0 <= surfaceCommandID 64 m c < surfaceCommandsCount 64 total) /\
  (forall (i j : nat) mi mj c c',
     (i < j)%nat -> ms !! i = Some mi -> ms !! j = Some mj ->
     0 <= c < commandCount mi -> 0 <= c' < commandCount mj ->
     surfaceCommandID 64 mi c < surfaceCommandID 64 mj c').
Proof.
  intros ms total.
  destruct samplePacks_lengths as (Hlen & Hb & Hn).
  assert (total * 64 < 2 ^ 32) as Hfit by (vm_compute; reflexivity).
  split; [exact Hfit |].
  exact (command_ids_are_distinct 64 ltac:(lia) samplePacks Hlen Hb Hn Hfit).
Defined.

End BatchTableFacts.

(** ** The depth pyramid: sizes of the levels and of the dispatches *)

Module DepthPyramidFacts.
Import DepthPyramid.

Lemma halve_levelSize w i :
  1 <= w -> 0 <= i -> halve (levelSize w i) = levelSize w (i + 1).
Proof.
  intros Hw Hi. unfold halve, levelSize.
  pose proof (Z.shiftr_nonneg w i) as Hnn.
  assert (0 <= Z.shiftr w i) as H0 by (apply Hnn; lia).
  assert (Z.shiftr w (i + 1) = Z.shiftr (Z.shiftr w i) 1) as ->
      by (rewrite Z.shiftr_shiftr by lia; reflexivity).
  rewrite (Z.shiftr_div_pow2 (Z.shiftr w i) 1) by lia.
  change (2 ^ 1) with 2.
  destruct (Z.ltb_spec 1 (Z.max 1 (Z.shiftr w i))) as [H1 | H1].
  - rewrite (Z.max_r 1 (Z.shiftr w i)) by lia.
    rewrite (Z.shiftr_div_pow2 (Z.shiftr w i) 1) by lia. change (2 ^ 1) with 2.
    assert (1 <= Z.shiftr w i / 2) by (apply Z.div_le_lower_bound; lia).
    lia.
  - assert (Z.shiftr w i / 2 = 0) as -> by (apply Z.div_small; lia). lia.
Qed.

Lemma levelSize_0 w : 1 <= w -> levelSize w 0 = w.
Proof. intros H. unfold levelSize. rewrite Z.shiftr_0_r. lia. Qed.

Lemma sizeLevels_spec n :
  forall i w h,
    1 <= w -> 1 <= h -> 0 <= i ->
    sizeLevels n i (levelSize w i) (levelSize h i)
    = (fun k => (k, levelSize w k, levelSize h k)) <$> seqZ i (Z.of_nat n).
Proof.
  induction n as [| n IH]; intros i w h Hw Hh Hi; [reflexivity |].
  cbn [sizeLevels]. rewrite !halve_levelSize by lia.
  rewrite IH by lia. rewrite (seqZ_cons i (Z.of_nat (S n))) by lia.
  cbn [fmap list_fmap]. replace (Z.succ i) with (i + 1) by lia.
  replace (Z.pred (Z.of_nat (S n))) with (Z.of_nat n) by lia. reflexivity.
Qed.

Lemma workgroups_cover w :
  1 <= w < 2 ^ 31 - 7 ->
  8 * (workgroups w - 1) < w <= 8 * workgroups w.
Proof.
  intros Hw. unfold workgroups.
  rewrite Z.quot_div_nonneg by lia.
  pose proof (Z.div_mod (w + 7) 8 ltac:(lia)).
  pose proof (Z.mod_pos_bound (w + 7) 8 ltac:(lia)).
  rewrite wrap32_small by (unfold is_u32; lia). lia.
Qed.

Lemma levelSize_range w i : 1 <= w -> 0 <= i -> 1 <= levelSize w i <= w.
Proof.
  intros Hw Hi. unfold levelSize. rewrite Z.shiftr_div_pow2 by lia.
  assert (0 < 2 ^ i) by (apply Z.pow_pos_nonneg; lia).
  assert (w / 2 ^ i <= w).
  { apply Z.div_le_upper_bound; [lia |]. nia. }
  lia.
Qed.

Lemma reduceLevels_spec n :
  forall i w h,
    1 <= w -> 1 <= h -> 0 <= i ->
    reduceLevels n i (levelSize w i) (levelSize h i)
    = (fun k =>
         {| readLevel := Some k; writeLevel := k + 1; InitialDepthLevel := false;
            ViewWidth := levelSize w (k + 1); ViewHeight := levelSize h (k + 1);
            globalWorkgroupX := workgroups (levelSize w (k + 1));
            globalWorkgroupY := workgroups (levelSize h (k + 1)) |})
        <$> seqZ i (Z.of_nat n).
Proof.
  induction n as [| n IH]; intros i w h Hw Hh Hi; [reflexivity |].
  cbn [reduceLevels]. rewrite !halve_levelSize by lia.
  rewrite IH by lia. rewrite (seqZ_cons i (Z.of_nat (S n))) by lia.
  cbn [fmap list_fmap]. replace (Z.succ i) with (i + 1) by lia.
  replace (Z.pred (Z.of_nat (S n))) with (Z.of_nat n) by lia. reflexivity.
Qed.

(** The depth pyramid of an image [width] by [height]. Level [i] is
    given the size [max 1 (width >> i)] by [max 1 (height >> i)]: every
    level halves the one before, rounding down, and stays at 1. A level
    is 1 by 1 exactly from level [log2 (max width height)] on.
    [DepthReduction] dispatches once for every level from 0 to
    [depthImageLevels], in order; the dispatch that writes a level works
    on that level's size, with just enough work groups of 8 to cover it;
    the levels it writes below [depthImageLevels] are the levels that
    [GenerateDepthImages] sized. With [r_lockpvs] set it dispatches
    nothing. *)
Theorem depth_levels_halve_down_to_one depthImageLevels width height :
  1 <= width < 2 ^ 31 - 7 -> 1 <= height < 2 ^ 31 - 7 -> 0 <= depthImageLevels ->
  GenerateDepthImages depthImageLevels width height
  = (fun i => (i, levelSize width i, levelSize height i))
      <$> seqZ 0 depthImageLevels /\
  (forall i, 0 <= i ->
     (levelSize width i = 1 /\ levelSize height i = 1
      <-> Z.log2 (Z.max width height) <= i)) /\
  writeLevel <$> DepthReduction false depthImageLevels width height
  = seqZ 0 (depthImageLevels + 1) /\
  (forall d,
     d ∈ DepthReduction false depthImageLevels width height ->
     ViewWidth d = levelSize width (writeLevel d) /\
     ViewHeight d = levelSize height (writeLevel d) /\
     8 * (globalWorkgroupX d - 1) < ViewWidth d <= 8 * globalWorkgroupX d /\
     8 * (globalWorkgroupY d - 1) < ViewHeight d <= 8 * globalWorkgroupY d /\
     (writeLevel d < depthImageLevels ->
      (writeLevel d, ViewWidth d, ViewHeight d)
        ∈ GenerateDepthImages depthImageLevels width height)) /\
  DepthReduction true depthImageLevels width height = [].
Proof.
  intros Hw Hh Hl.
  assert (GenerateDepthImages depthImageLevels width height
          = (fun i => (i, levelSize width i, levelSize height i))
              <$> seqZ 0 depthImageLevels) as Hsizes.
  { unfold GenerateDepthImages.
    rewrite <- (levelSize_0 width) at 1 by lia.
    rewrite <- (levelSize_0 height) at 1 by lia.
    rewrite sizeLevels_spec by lia. now rewrite Z2Nat.id by lia. }
  assert (DepthReduction false depthImageLevels width height
          = (fun k =>
               {| readLevel := if k =? 0 then None else Some (k - 1);
                  writeLevel := k; InitialDepthLevel := k =? 0;
                  ViewWidth := levelSize width k; ViewHeight := levelSize height k;
                  globalWorkgroupX := workgroups (levelSize width k);
                  globalWorkgroupY := workgroups (levelSize height k) |})
              <$> seqZ 0 (depthImageLevels + 1)) as Hred.
  { unfold DepthReduction.
    rewrite (seqZ_cons 0 (depthImageLevels + 1)) by lia. cbn [fmap list_fmap].
    rewrite !levelSize_0 by lia. f_equal.
    rewrite <- (levelSize_0 width) at 1 by lia.
    rewrite <- (levelSize_0 height) at 1 by lia.
    rewrite reduceLevels_spec by lia. rewrite Z2Nat.id by lia.
    replace (Z.pred (depthImageLevels + 1)) with depthImageLevels by lia.
    replace (Z.succ 0) with (1 + 0) by lia.
    rewrite <- (fmap_add_seqZ 1 0), <- list_fmap_compose.
    apply list_fmap_ext. intros j k Hk. cbn.
    apply lookup_seqZ in Hk as [-> _].
    destruct (Z.eqb_spec (1 + (0 + Z.of_nat j)) 0) as [E | _]; [lia |].
    replace (1 + (0 + Z.of_nat j)) with (0 + Z.of_nat j + 1) by lia.
    replace (0 + Z.of_nat j + 1 - 1) with (0 + Z.of_nat j) by lia.
    reflexivity. }
  split; [exact Hsizes |]. split; [| split; [| split]].
  - intros i Hi. unfold levelSize.
    rewrite !Z.shiftr_div_pow2 by lia.
    assert (0 < 2 ^ i) as Hp by (apply Z.pow_pos_nonneg; lia).
    assert (forall w, 1 <= w -> (Z.max 1 (w / 2 ^ i) = 1 <-> w < 2 ^ (i + 1))) as Hone.
    { intros w Hw1. rewrite Z.pow_add_r by lia. change (2 ^ 1) with 2. split.
      - intros H. assert (w / 2 ^ i < 2) as Hq by lia.
        pose proof (Z.div_mod w (2 ^ i) ltac:(lia)).
        pose proof (Z.mod_pos_bound w (2 ^ i) Hp). nia.
      - intros H. assert (w / 2 ^ i < 2) by (apply Z.div_lt_upper_bound; lia).
        pose proof (Z.div_pos w (2 ^ i) ltac:(lia) Hp). lia. }
    rewrite (Hone width ltac:(lia)), (Hone height ltac:(lia)).
    rewrite <- Z.lt_succ_r.
    rewrite <- (Z.log2_lt_pow2 (Z.max width height)) by lia.
    replace (Z.succ i) with (i + 1) by lia. lia.
  - rewrite Hred, <- list_fmap_compose. cbn. apply list_fmap_id.
  - intros d Hd. rewrite Hred in Hd.
    apply list_elem_of_fmap in Hd as (k & -> & Hk).
    apply elem_of_seqZ in Hk. cbn.
    pose proof (levelSize_range width k ltac:(lia) ltac:(lia)).
    pose proof (levelSize_range height k ltac:(lia) ltac:(lia)).
    split; [reflexivity |]. split; [reflexivity |].
    split; [apply workgroups_cover; lia |].
    split; [apply workgroups_cover; lia |].
    intros Hlt. rewrite Hsizes.
    apply list_elem_of_fmap. exists k. split; [reflexivity |].
    apply elem_of_seqZ. lia.
  - reflexivity.
Qed.

Lemma depth_levels_halve_down_to_one_witness :
  (1 <= 1920 < 2 ^ 31 - 7 /\ 1 <= 1080 < 2 ^ 31 - 7 /\ 0 <= 11) /\
  GenerateDepthImages 11 1920 1080
  = (fun i => (i, levelSize 1920 i, levelSize 1080 i)) <$> seqZ 0 11 /\
  (forall i, 0 <= i ->
     (levelSize 1920 i = 1 /\ levelSize 1080 i = 1
      <-> Z.log2 (Z.max 1920 1080) <= i)) /\
  writeLevel <$> DepthReduction false 11 1920 1080 = seqZ 0 (11 + 1) /\
  (forall d,
     d ∈ DepthReduction false 11 1920 1080 ->
     ViewWidth d = levelSize 1920 (writeLevel d) /\
     ViewHeight d = levelSize 1080 (writeLevel d) /\
     8 * (globalWorkgroupX d - 1) < ViewWidth d <= 8 * globalWorkgroupX d /\
     8 * (globalWorkgroupY d - 1) < ViewHeight d <= 8 * globalWorkgroupY d /\
     (writeLevel d < 11 ->
      (writeLevel d, ViewWidth d, ViewHeight d)
        ∈ GenerateDepthImages 11 1920 1080)) /\
  DepthReduction true 11 1920 1080 = [].
Proof.
  split; [lia |].
  apply (depth_levels_halve_down_to_one 11 1920 1080); lia.
Defined.

(** A 1920 by 1080 image: 11 levels, the last of them 1 by 1. *)
Example sample_pyramid :
  GenerateDepthImages 11 1920 1080
  = [ (0, 1920, 1080); (1, 960, 540); (2, 480, 270); (3, 240, 135);
      (4, 120, 67); (5, 60, 33); (6, 30, 16); (7, 15, 8); (8, 7, 4);
      (9, 3, 2); (10, 1, 1) ].
Proof. reflexivity. Qed.

End DepthPyramidFacts.

(** ** GeneratePortalBoundingSpheres and portals that get no view *)

Module PortalBoundsFacts.
Import PortalBounds.

Lemma fold_upd_spec {A} (f : Z -> Z) (v : A) l arr x :
  fold_left (fun a j => upd a (f j) v) l arr x
  = if existsb (fun j => x =? f j) l then v else arr x.
Proof.
  revert arr. induction l as [| j l IH]; intros arr; cbn [fold_left existsb];
    [reflexivity |].
  rewrite IH. unfold upd.
  destruct (existsb _ l), (x =? f j); reflexivity.
Qed.

Lemma insertByDistance_Forall (P : PortalSurface -> Prop) x l :
  P x -> Forall P l -> Forall P (insertByDistance x l).
Proof.
  intros Hx Hl. induction Hl as [| y l Hy Hl IH]; cbn.
  - constructor; [exact Hx | constructor].
  - destruct (distance x <=? distance y).
    + constructor; [exact Hx |]. constructor; assumption.
    + constructor; assumption.
Qed.

Lemma sortByDistance_Forall (P : PortalSurface -> Prop) l :
  Forall P l -> Forall P (sortByDistance l).
Proof.
  induction 1 as [| x l Hx Hl IH]; cbn; [constructor |].
  apply insertByDistance_Forall; assumption.
Qed.

Section Fill.
Variable MAX_FRAMES : Z.
Variable MAX_VIEWS : Z.
Hypothesis frames_positive : 1 <= MAX_FRAMES.
Hypothesis views_positive : 1 <= MAX_VIEWS.

Lemma slot_address total index i j :
  0 < total -> 0 <= index < total ->
  MAX_FRAMES * MAX_VIEWS * total < 2 ^ 32 ->
  0 <= i < MAX_FRAMES -> 0 <= j < MAX_VIEWS ->
  wrap32 (index + wrap32 (wrap32 (wrap32 (i * MAX_VIEWS) + j) * total))
  = index + (i * MAX_VIEWS + j) * total.
Proof.
  intros Ht Hi Hb Hfi Hvj.
  assert (i * MAX_VIEWS + j < MAX_FRAMES * MAX_VIEWS) by nia.
  assert (0 <= i * MAX_VIEWS) by nia.
  assert (index + (i * MAX_VIEWS + j) * total < MAX_FRAMES * MAX_VIEWS * total)
    by nia.
  assert (0 <= (i * MAX_VIEWS + j) * total) by nia.
  rewrite (wrap32_small (i * MAX_VIEWS)) by (unfold is_u32; nia).
  rewrite (wrap32_small (i * MAX_VIEWS + j)) by (unfold is_u32; nia).
  rewrite (wrap32_small ((i * MAX_VIEWS + j) * total)) by (unfold is_u32; nia).
  apply wrap32_small. unfold is_u32. lia.
Qed.

Lemma fillFrames_spec total index sphere arr x :
  0 < total -> 0 <= index < total ->
  MAX_FRAMES * MAX_VIEWS * total < 2 ^ 32 ->
  fillFrames MAX_FRAMES MAX_VIEWS total index sphere arr x
  = if (0 <=? x) && (x <? MAX_FRAMES * MAX_VIEWS * total)
       && (x mod total =? index)
    then Some sphere else arr x.
Proof.
  intros Ht Hi Hb. unfold fillFrames.
  assert (forall l a,
             fold_left (fun a i => fillViews MAX_VIEWS total index i sphere a) l a x
             = if existsb
                    (fun i =>
                       existsb
                         (fun j =>
                            x =? wrap32 (index
                                         + wrap32 (wrap32 (wrap32 (i * MAX_VIEWS) + j)
                                                   * total)))
                         (seqZ 0 MAX_VIEWS)) l
               then Some sphere else a x) as Hfold.
  { induction l as [| i l IH]; intros a; cbn [fold_left existsb]; [reflexivity |].
    rewrite IH. unfold fillViews at 1. rewrite fold_upd_spec.
    destruct (existsb _ l), (existsb _ (seqZ 0 MAX_VIEWS)); reflexivity. }
  rewrite Hfold. clear Hfold.
  match goal with
  | |- (if ?a then _ else _) = (if ?b then _ else _) =>
      assert (a = b) as ->; [| reflexivity]
  end.
  apply Bool.eq_iff_eq_true.
  rewrite existsb_exists, !andb_true_iff, Z.leb_le, Z.ltb_lt, Z.eqb_eq.
  split.
  - intros (i & Hin & Hex). apply existsb_exists in Hex as (j & Hjn & Hx).
    apply list_elem_of_In, elem_of_seqZ in Hin.
    apply list_elem_of_In, elem_of_seqZ in Hjn.
    apply Z.eqb_eq in Hx.
    rewrite slot_address in Hx by lia. subst x.
    assert (i * MAX_VIEWS + j < MAX_FRAMES * MAX_VIEWS) by nia.
    assert (0 <= i * MAX_VIEWS + j) by nia.
    split; [split; nia |].
    rewrite Z.mod_add by lia. apply Z.mod_small. lia.
  - intros ((Hx0 & Hx1) & Hm).
    pose proof (Z.div_mod x total ltac:(lia)) as Hdm.
    set (q := x / total) in *.
    assert (0 <= q < MAX_FRAMES * MAX_VIEWS) as Hq.
    { subst q. split; [apply Z.div_pos; lia |].
      apply Z.div_lt_upper_bound; lia. }
    pose proof (Z.div_mod q MAX_VIEWS ltac:(lia)) as Hqm.
    pose proof (Z.mod_pos_bound q MAX_VIEWS ltac:(lia)) as Hjr.
    assert (0 <= q / MAX_VIEWS < MAX_FRAMES) as Hir.
    { split; [apply Z.div_pos; lia |]. apply Z.div_lt_upper_bound; lia. }
    exists (q / MAX_VIEWS). split.
    + apply list_elem_of_In, elem_of_seqZ. lia.
    + apply existsb_exists. exists (q mod MAX_VIEWS). split.
      * apply list_elem_of_In, elem_of_seqZ. lia.
      * apply Z.eqb_eq. rewrite slot_address by lia. lia.
Qed.

Lemma addSpheres_spec tmp :
  forall index s,
    0 <= index ->
    index + Z.of_nat (length tmp) <= totalPortals s ->
    MAX_FRAMES * MAX_VIEWS * totalPortals s < 2 ^ 32 ->
    Z.of_nat (length (portalSurfaces s)) + Z.of_nat (length tmp) <= 2 ^ 32 ->
    let s' := addSpheres MAX_FRAMES MAX_VIEWS tmp index s in
    totalPortals s' = totalPortals s /\
    portalSurfaces s' = portalSurfaces s ++ tmp /\
    portalBounds s'
    = portalBounds s
      ++ spheresFrom (Z.of_nat (length (portalSurfaces s)))
                     (Z.of_nat (length tmp)) /\
    forall x,
      portalSurfs s' x
      = if (0 <=? x) && (x <? MAX_FRAMES * MAX_VIEWS * totalPortals s)
           && (index <=? x mod totalPortals s)
           && (x mod totalPortals s <? index + Z.of_nat (length tmp))
        then Some {| drawSurfID := Z.of_nat (length (portalSurfaces s))
                                   + (x mod totalPortals s - index);
                     distance := -1 |}
        else portalSurfs s x.
Proof.
  induction tmp as [| d tmp IH]; intros index s Hi Hn Hb Hlen s'.
  - subst s'. cbn [addSpheres length]. rewrite !app_nil_r.
    split; [reflexivity |]. split; [reflexivity |]. split; [reflexivity |].
    intros x.
    destruct (index <=? x mod totalPortals s) eqn:E1;
      destruct (x mod totalPortals s <? index + Z.of_nat 0) eqn:E2;
      rewrite ?andb_false_r; try reflexivity.
    apply Z.leb_le in E1. apply Z.ltb_lt in E2. lia.
  - subst s'. cbn [addSpheres]. cbn [length] in Hn, Hlen.
    set (len := Z.of_nat (length (portalSurfaces s))) in *.
    set (s1 := Build_Spheres _ _ _ _).
    assert (0 <= len) as Hlen0 by apply Nat2Z.is_nonneg.
    assert (Z.of_nat (length (portalSurfaces s ++ [d])) = len + 1) as Hlen1.
    { rewrite length_app. cbn [length]. subst len. lia. }
    clearbody len.
    assert (1 <= MAX_FRAMES * MAX_VIEWS) by nia.
    assert (totalPortals s <= MAX_FRAMES * MAX_VIEWS * totalPortals s) by nia.
    assert (wrap32 (index + 1) = index + 1) as Hw
      by (apply wrap32_small; unfold is_u32; lia).
    rewrite Hw.
    specialize (IH (index + 1) s1 ltac:(lia)).
    change (totalPortals s1) with (totalPortals s) in IH.
    change (portalSurfaces s1) with (portalSurfaces s ++ [d]) in IH.
    rewrite Hlen1 in IH.
    specialize (IH ltac:(lia) Hb ltac:(lia)).
    destruct IH as (Ht & Hs & Hbd & Hx).
    split; [exact Ht |]. split; [rewrite Hs, <- app_assoc; reflexivity |].
    split.
    + rewrite Hbd. subst s1. cbn [portalBounds]. rewrite <- app_assoc. f_equal.
      rewrite Hlen1. unfold spheresFrom.
      rewrite (wrap32_small (len + 1 - 1)) by (unfold is_u32; lia).
      cbn [length].
      rewrite Nat2Z.inj_succ, (seqZ_cons 0 (Z.succ (Z.of_nat (length tmp)))) by lia.
      cbn [fmap list_fmap app].
      replace (len + 1 - 1) with (len + 0) by lia. f_equal.
      replace (Z.succ 0) with (1 + 0) by lia.
      rewrite Z.pred_succ, <- (fmap_add_seqZ 1 0), <- list_fmap_compose.
      apply list_fmap_ext. intros _ k _. cbn. f_equal. lia.
    + intros x. rewrite Hx. subst s1. cbn [portalSurfs].
      rewrite fillFrames_spec by lia.
      rewrite Hlen1, (wrap32_small (len + 1 - 1)) by (unfold is_u32; lia).
      cbn [length]. rewrite Nat2Z.inj_succ.
      set (m := x mod totalPortals s).
      destruct (0 <=? x); [| reflexivity].
      destruct (x <? MAX_FRAMES * MAX_VIEWS * totalPortals s); [| reflexivity].
      cbn [andb].
      destruct (Z.leb_spec (index + 1) m), (Z.ltb_spec m (index + 1 + Z.of_nat (length tmp))),
        (Z.leb_spec index m), (Z.ltb_spec m (index + Z.succ (Z.of_nat (length tmp)))),
        (Z.eqb_spec m index); cbn [andb]; try lia; try reflexivity.
      * do 2 f_equal. lia.
      * do 2 f_equal. lia.
Qed.

Lemma GeneratePortalBoundingSpheres_spec tmp surfaces bounds :
  let n := Z.of_nat (length tmp) in
  let len := Z.of_nat (length surfaces) in
  MAX_FRAMES * MAX_VIEWS * n < 2 ^ 32 ->
  len + n <= 2 ^ 32 ->
  let s := GeneratePortalBoundingSpheres MAX_FRAMES MAX_VIEWS tmp surfaces bounds in
  totalPortals s = n /\
  portalSurfaces s = surfaces ++ tmp /\
  portalBounds s = bounds ++ spheresFrom len n /\
  forall x,
    portalSurfs s x
    = if (0 <=? x) && (x <? MAX_FRAMES * MAX_VIEWS * n)
      then Some {| drawSurfID := len + x mod n; distance := -1 |}
      else None.
Proof.
  intros n len Hb Hlen s. subst s. unfold GeneratePortalBoundingSpheres.
  assert (0 <= n) by (subst n; lia).
  assert (1 <= MAX_FRAMES * MAX_VIEWS) by nia.
  assert (n <= MAX_FRAMES * MAX_VIEWS * n) by nia.
  assert (wrap32 n = n) as Hw by (apply wrap32_small; unfold is_u32; lia).
  fold n. rewrite Hw.
  destruct (Z.eqb_spec n 0) as [E | E].
  - cbn [totalPortals portalSurfaces portalBounds portalSurfs].
    assert (tmp = []) as -> by (destruct tmp; [reflexivity | cbn in n; lia]).
    rewrite E, !app_nil_r. unfold spheresFrom. cbn.
    split; [reflexivity |]. split; [reflexivity |]. split; [reflexivity |].
    intros x. rewrite Z.mul_0_r.
    destruct (Z.leb_spec 0 x), (Z.ltb_spec x 0); cbn; try reflexivity. lia.
  - pose proof (addSpheres_spec tmp 0 (Build_Spheres n surfaces bounds (fun _ => None)))
      as Hspec.
    cbn [totalPortals portalSurfaces portalBounds portalSurfs] in Hspec.
    fold n len in Hspec.
    destruct (Hspec ltac:(lia) ltac:(lia) Hb Hlen) as (Ht & Hs & Hbd & Hx).
    split; [exact Ht |]. split; [exact Hs |]. split; [exact Hbd |].
    intros x. rewrite Hx.
    pose proof (Z.mod_pos_bound x n ltac:(lia)).
    destruct (0 <=? x); [| reflexivity].
    destruct (x <? MAX_FRAMES * MAX_VIEWS * n); [| reflexivity].
    destruct (Z.leb_spec 0 (x mod n)), (Z.ltb_spec (x mod n) (0 + n)); cbn [andb];
      try lia.
    do 2 f_equal. lia.
Qed.

Lemma viewSlice_spec (s : Spheres) len viewID :
  0 <= totalPortals s ->
  MAX_FRAMES * MAX_VIEWS * totalPortals s < 2 ^ 32 ->
  (forall x,
     portalSurfs s x
     = if (0 <=? x) && (x <? MAX_FRAMES * MAX_VIEWS * totalPortals s)
       then Some {| drawSurfID := len + x mod totalPortals s; distance := -1 |}
       else None) ->
  0 <= viewID < MAX_FRAMES * MAX_VIEWS ->
  viewSlice s viewID = spheresFrom len (totalPortals s).
Proof.
  intros Hn Hb Hx Hv. unfold viewSlice, spheresFrom.
  set (n := totalPortals s) in *.
  rewrite (wrap32_small (viewID * n)) by (unfold is_u32; nia).
  assert (forall l,
             Forall (fun k => 0 <= k < n) l ->
             omap (fun k => portalSurfs s (viewID * n + k)) l
             = (fun k => {| drawSurfID := len + k; distance := -1 |}) <$> l) as Hl.
  { induction 1 as [| k l Hk _ IH]; [reflexivity |].
    cbn [omap list_omap fmap list_fmap]. rewrite Hx.
    destruct (Z.leb_spec 0 (viewID * n + k)); [| nia].
    destruct (Z.ltb_spec (viewID * n + k) (MAX_FRAMES * MAX_VIEWS * n)); [| nia].
    cbn [andb].
    replace ((viewID * n + k) mod n) with k
      by (rewrite Z.add_comm, Z.mod_add by lia; symmetry; apply Z.mod_small; lia).
    f_equal. exact IH. }
  apply Hl. apply Forall_forall. intros k Hk. apply elem_of_seqZ in Hk. lia.
Qed.
End Fill.

Section Resolver.
Variable MAX_VIEWS : Z.
Variable currentViewFrames : Z -> ViewFrame.t.
Variable portalSurfs : Z -> list PortalSurface.
Variable PortalOffScreenOrOutOfRange : Z -> bool.

(** A portal the loop passes over before any view id is considered. *)
Local Abbreviation skipped :=
  (fun p => distance p = -1 \/ PortalOffScreenOrOutOfRange (drawSurfID p) = true).

Lemma portalLoop_skips rec viewID l count pv st :
  Forall skipped l ->
  portalLoop MAX_VIEWS currentViewFrames PortalOffScreenOrOutOfRange
             rec viewID l count pv st
  = Some (true, pv, st).
Proof.
  induction 1 as [| p l Hp _ IH]; [reflexivity |].
  cbn [portalLoop].
  destruct (Z.eqb_spec (distance p) (-1)) as [E | E]; [exact IH |].
  destruct Hp as [Hp | Hp]; [contradiction |]. rewrite Hp. exact IH.
Qed.

Lemma AddPortalSurface_skips fuel viewID st :
  Forall skipped (portalSurfs viewID) ->
  exists st',
    AddPortalSurface MAX_VIEWS currentViewFrames portalSurfs
                     PortalOffScreenOrOutOfRange (S fuel) viewID st
    = Some (true, st') /\
    viewCount st' = viewCount st /\
    assigned st' = assigned st /\
    (forall v,
       nextViewFrames st' v
       = if v =? viewID
         then {| ViewFrame.viewCount := 0;
                 ViewFrame.portalSurfaceID :=
                   ViewFrame.portalSurfaceID (nextViewFrames st viewID);
                 ViewFrame.portalViews := fun _ => 0 |}
         else nextViewFrames st v) /\
    (forall v,
       portalStack st' v
       = if v =? viewID then set_count 0 (portalStack st viewID)
         else portalStack st v).
Proof.
  intros Hall. cbn [AddPortalSurface].
  rewrite portalLoop_skips by (apply sortByDistance_Forall; exact Hall).
  eexists. split; [reflexivity |].
  cbn [viewCount nextViewFrames portalStack assigned].
  split; [reflexivity |]. split; [reflexivity |]. split.
  - intros v. unfold upd. rewrite Z.eqb_refl.
    destruct (v =? viewID); reflexivity.
  - intros v. reflexivity.
Qed.
End Resolver.

(** [GeneratePortalBoundingSpheres] appends the portals of
    [portalSurfacesTmp] to [portalSurfaces] in order and one sphere for
    each to [portalBounds]; the sphere of a portal names its index in
    [portalSurfaces] and has the distance -1 of a culled portal. In the
    array it fills, the slice of every view of every frame holds these
    spheres, one for each portal in order, and no element outside the
    [MAX_FRAMES * MAX_VIEWS] slices is assigned. With no portal the
    lists are left as they were and no element is assigned. *)
Theorem portal_buffer_starts_all_culled MAX_FRAMES MAX_VIEWS tmp surfaces bounds :
  1 <= MAX_FRAMES -> 1 <= MAX_VIEWS ->
  MAX_FRAMES * MAX_VIEWS * Z.of_nat (length tmp) < 2 ^ 32 ->
  Z.of_nat (length surfaces) + Z.of_nat (length tmp) <= 2 ^ 32 ->
  let s := GeneratePortalBoundingSpheres MAX_FRAMES MAX_VIEWS tmp surfaces bounds in
  let spheres :=
    (fun k => {| drawSurfID := Z.of_nat (length surfaces) + k; distance := -1 |})
      <$> seqZ 0 (Z.of_nat (length tmp)) in
  totalPortals s = Z.of_nat (length tmp) /\
  portalSurfaces s = surfaces ++ tmp /\
  portalBounds s = bounds ++ spheres /\
  (forall viewID,
     0 <= viewID < MAX_FRAMES * MAX_VIEWS -> viewSlice s viewID = spheres) /\
  (forall x,
     x < 0 \/ MAX_FRAMES * MAX_VIEWS * Z.of_nat (length tmp) <= x ->
     portalSurfs s x = None).
Proof.
  intros HF HV Hb Hlen s spheres.
  destruct (GeneratePortalBoundingSpheres_spec MAX_FRAMES MAX_VIEWS HF HV
              tmp surfaces bounds Hb Hlen) as (Ht & Hs & Hbd & Hx).
  fold s in Ht, Hs, Hbd, Hx.
  split; [exact Ht |]. split; [exact Hs |]. split; [exact Hbd |]. split.
  - intros viewID Hv.
    rewrite (viewSlice_spec MAX_FRAMES MAX_VIEWS HF HV s (Z.of_nat (length surfaces)) viewID);
      rewrite ?Ht; try lia; [reflexivity |].
    exact Hx.
  - intros x Hout. rewrite Hx.
    destruct (Z.leb_spec 0 x), (Z.ltb_spec x (MAX_FRAMES * MAX_VIEWS * Z.of_nat (length tmp)));
      cbn [andb]; try reflexivity. lia.
Qed.

Lemma portal_buffer_starts_all_culled_witness :
  (1 <= 2 /\ 1 <= 3 /\ 2 * 3 * Z.of_nat (length [70; 71]) < 2 ^ 32 /\
   Z.of_nat (length [5]) + Z.of_nat (length [70; 71]) <= 2 ^ 32) /\
  let s := GeneratePortalBoundingSpheres 2 3 [70; 71] [5] [] in
  let spheres :=
    (fun k => {| drawSurfID := Z.of_nat (length [5]) + k; distance := -1 |})
      <$> seqZ 0 (Z.of_nat (length [70; 71])) in
  totalPortals s = Z.of_nat (length [70; 71]) /\
  portalSurfaces s = [5] ++ [70; 71] /\
  portalBounds s = [] ++ spheres /\
  (forall viewID, 0 <= viewID < 2 * 3 -> viewSlice s viewID = spheres) /\
  (forall x,
     x < 0 \/ 2 * 3 * Z.of_nat (length [70; 71]) <= x -> portalSurfs s x = None).
Proof.
  split; [cbn; lia |].
  apply (portal_buffer_starts_all_culled 2 3 [70; 71] [5] []); cbn; lia.
Defined.

(** When every portal in the slice of a view is culled (distance -1) or
    off screen, [AddPortalSurface] on that view returns true without a
    recursive call and assigns no view id: [viewCount] is unchanged, the
    view gets the sub-view count 0, the stack count 0 and the sub-view
    list of zeros, and the other views and stack entries are untouched. *)
Theorem skipped_portals_get_no_view MAX_VIEWS currentViewFrames portalSurfs
    PortalOffScreenOrOutOfRange fuel viewID st :
  Forall (fun p =>
            distance p = -1 \/ PortalOffScreenOrOutOfRange (drawSurfID p) = true)
         (portalSurfs viewID) ->
  exists st',
    AddPortalSurface MAX_VIEWS currentViewFrames portalSurfs
                     PortalOffScreenOrOutOfRange (S fuel) viewID st
    = Some (true, st') /\
    viewCount st' = viewCount st /\
    assigned st' = assigned st /\
    ViewFrame.viewCount (nextViewFrames st' viewID) = 0 /\
    (forall j, ViewFrame.portalViews (nextViewFrames st' viewID) j = 0) /\
    ViewFrame.portalSurfaceID (nextViewFrames st' viewID)
    = ViewFrame.portalSurfaceID (nextViewFrames st viewID) /\
    portalStack st' viewID = set_count 0 (portalStack st viewID) /\
    (forall v,
       v <> viewID ->
       nextViewFrames st' v = nextViewFrames st v /\
       portalStack st' v = portalStack st v).
Proof.
  intros Hall.
  destruct (AddPortalSurface_skips MAX_VIEWS currentViewFrames portalSurfs
              PortalOffScreenOrOutOfRange fuel viewID st Hall)
    as (st' & Hrun & Hvc & Has & Hnf & Hps).
  exists st'. split; [exact Hrun |]. split; [exact Hvc |]. split; [exact Has |].
  pose proof (Hnf viewID) as Hn. pose proof (Hps viewID) as Hp.
  rewrite Z.eqb_refl in Hn, Hp. rewrite Hn, Hp. cbn.
  do 4 (split; [intros; reflexivity |]).
  intros v Hv. rewrite Hnf, Hps.
  destruct (Z.eqb_spec v viewID); [contradiction |]. split; reflexivity.
Qed.

Lemma skipped_portals_get_no_view_witness :
  let portalSurfs := fun _ : Z =>
    [ {| drawSurfID := 4; distance := 9 |}; {| drawSurfID := 6; distance := -1 |} ] in
  let off := fun id => id =? 4 in
  let st := {| viewCount := 2; nextViewFrames := sampleHint;
               portalStack := fun _ => {| count := 1; views := fun _ => 2; drawSurf := 3 |};
               assigned := [2; 1] |} in
  Forall (fun p => distance p = -1 \/ off (drawSurfID p) = true) (portalSurfs 1) /\
  exists st',
    AddPortalSurface 4 sampleHint portalSurfs off 1 1 st = Some (true, st') /\
    viewCount st' = viewCount st /\
    assigned st' = assigned st /\
    ViewFrame.viewCount (nextViewFrames st' 1) = 0 /\
    (forall j, ViewFrame.portalViews (nextViewFrames st' 1) j = 0) /\
    ViewFrame.portalSurfaceID (nextViewFrames st' 1)
    = ViewFrame.portalSurfaceID (nextViewFrames st 1) /\
    portalStack st' 1 = set_count 0 (portalStack st 1) /\
    (forall v,
       v <> 1 ->
       nextViewFrames st' v = nextViewFrames st v /\
       portalStack st' v = portalStack st v).
Proof.
  intros portalSurfs off st.
  assert (Forall (fun p => distance p = -1 \/ off (drawSurfID p) = true)
                 (portalSurfs 1)) as Hall.
  { constructor; [right; reflexivity |]. constructor; [left; reflexivity |].
    constructor. }
  split; [exact Hall |].
  exact (skipped_portals_get_no_view 4 sampleHint portalSurfs off 0 1 st Hall).
Defined.

(** The first resolution after [GeneratePortalBoundingSpheres], on the
    buffer as it was filled (no distance written into it yet) and
    whichever frame's block of it is read: [AddPortalSurfaces] returns
    true with [viewCount] 0 and no view id assigned; view 0 gets the
    sub-view count 0 and the sub-view list of zeros, and no other view or
    stack entry is touched. *)
Theorem first_resolution_assigns_no_view MAX_FRAMES MAX_VIEWS currentViewFrames
    PortalOffScreenOrOutOfRange tmp surfaces bounds frame st :
  1 <= MAX_FRAMES -> 1 <= MAX_VIEWS -> tmp <> [] ->
  MAX_FRAMES * MAX_VIEWS * Z.of_nat (length tmp) < 2 ^ 32 ->
  Z.of_nat (length surfaces) + Z.of_nat (length tmp) <= 2 ^ 32 ->
  0 <= frame < MAX_FRAMES ->
  let s := GeneratePortalBoundingSpheres MAX_FRAMES MAX_VIEWS tmp surfaces bounds in
  exists st',
    AddPortalSurfaces MAX_VIEWS currentViewFrames
                      (fun viewID => viewSlice s (frame * MAX_VIEWS + viewID))
                      PortalOffScreenOrOutOfRange (totalPortals s) false st
    = Some (true, st') /\
    viewCount st' = 0 /\ assigned st' = [] /\
    ViewFrame.viewCount (nextViewFrames st' 0) = 0 /\
    (forall j, ViewFrame.portalViews (nextViewFrames st' 0) j = 0) /\
    count (portalStack st' 0) = 0 /\
    (forall v,
       v <> 0 ->
       nextViewFrames st' v = nextViewFrames st v /\
       portalStack st' v = portalStack st v).
Proof.
  intros HF HV Htmp Hb Hlen Hfr s.
  destruct (GeneratePortalBoundingSpheres_spec MAX_FRAMES MAX_VIEWS HF HV
              tmp surfaces bounds Hb Hlen) as (Ht & _ & _ & Hx).
  fold s in Ht, Hx.
  unfold AddPortalSurfaces. rewrite Ht.
  destruct (Z.eqb_spec (Z.of_nat (length tmp)) 0) as [E | _];
    [destruct tmp; [contradiction | cbn in E; lia] |].
  destruct (Z.to_nat MAX_VIEWS) as [| fuel] eqn:Efuel; [lia |].
  destruct (AddPortalSurface_skips MAX_VIEWS currentViewFrames
              (fun viewID => viewSlice s (frame * MAX_VIEWS + viewID))
              PortalOffScreenOrOutOfRange fuel 0
              (frameStart st))
    as (st' & Hrun & Hvc & Has & Hnf & Hps).
  { cbn beta. rewrite Z.add_0_r.
    rewrite (viewSlice_spec MAX_FRAMES MAX_VIEWS HF HV s (Z.of_nat (length surfaces)));
      rewrite ?Ht; try lia; [| exact Hx | nia].
    unfold spheresFrom. apply Forall_fmap, Forall_forall. intros k _.
    left. reflexivity. }
  exists st'. split; [exact Hrun |]. split; [exact Hvc |]. split; [exact Has |].
  pose proof (Hnf 0) as Hn. pose proof (Hps 0) as Hp.
  rewrite Z.eqb_refl in Hn, Hp. rewrite Hn, Hp. cbn.
  do 3 (split; [intros; reflexivity |]).
  intros v Hv. rewrite Hnf, Hps.
  destruct (Z.eqb_spec v 0); [contradiction |]. split; reflexivity.
Qed.

Lemma first_resolution_assigns_no_view_witness :
  let st := {| viewCount := 2; nextViewFrames := sampleHint;
               portalStack := fun _ => {| count := 1; views := fun _ => 2; drawSurf := 3 |};
               assigned := [2; 1] |} in
  (1 <= 2 /\ 1 <= 3 /\ [70; 71] <> [] /\
   2 * 3 * Z.of_nat (length [70; 71]) < 2 ^ 32 /\
   Z.of_nat (length [5]) + Z.of_nat (length [70; 71]) <= 2 ^ 32 /\
   0 <= 1 < 2) /\
  let s := GeneratePortalBoundingSpheres 2 3 [70; 71] [5] [] in
  exists st',
    AddPortalSurfaces 3 sampleHint (fun viewID => viewSlice s (1 * 3 + viewID))
                      (fun _ => false) (totalPortals s) false st
    = Some (true, st') /\
    viewCount st' = 0 /\ assigned st' = [] /\
    ViewFrame.viewCount (nextViewFrames st' 0) = 0 /\
    (forall j, ViewFrame.portalViews (nextViewFrames st' 0) j = 0) /\
    count (portalStack st' 0) = 0 /\
    (forall v,
       v <> 0 ->
       nextViewFrames st' v = nextViewFrames st v /\
       portalStack st' v = portalStack st v).
Proof.
  intros st.
  split; [cbn; repeat split; try lia; discriminate |].
  apply (first_resolution_assigns_no_view 2 3 sampleHint (fun _ => false)
           [70; 71] [5] [] 1 st); cbn; try lia; discriminate.
Defined.

End PortalBoundsFacts.

(** ** AddPortalSurface without a hint from the previous frame *)

Module PortalOrderFacts.
Import PortalBounds.

Lemma insertByDistance_Permutation x l : insertByDistance x l ≡ₚ x :: l.
Proof.
  induction l as [| y l IH]; cbn; [reflexivity |].
  destruct (distance x <=? distance y); [reflexivity |].
  rewrite IH. apply Permutation_swap.
Qed.

Lemma sortByDistance_Permutation l : sortByDistance l ≡ₚ l.
Proof.
  induction l as [| x l IH]; cbn; [reflexivity |].
  rewrite insertByDistance_Permutation, IH. reflexivity.
Qed.

(** Nearest first. *)
Local Abbreviation nearestFirst :=
  (StronglySorted (fun p q => distance p <= distance q)).

Lemma insertByDistance_sorted x l :
  nearestFirst l -> nearestFirst (insertByDistance x l).
Proof.
  induction 1 as [| y l Hl IH Hy]; cbn.
  - constructor; constructor.
  - destruct (Z.leb_spec (distance x) (distance y)).
    + constructor; [constructor; assumption |].
      constructor; [lia |].
      eapply Forall_impl; [exact Hy |]. cbn. intros; lia.
    + constructor; [exact IH |].
      apply PortalBoundsFacts.insertByDistance_Forall; [lia | exact Hy].
Qed.

Lemma sortByDistance_sorted l : nearestFirst (sortByDistance l).
Proof.
  induction l as [| x l IH]; cbn; [constructor |].
  apply insertByDistance_sorted, IH.
Qed.

(** Portals of pairwise different distances have one arrangement by
    increasing distance: whatever [std::sort] does with equal distances,
    it returns that one. *)
Lemma sorted_arrangement_unique (l : list PortalSurface) :
  forall l',
    StronglySorted (fun p q => distance p < distance q) l ->
    nearestFirst l' -> l ≡ₚ l' -> l' = l.
Proof.
  induction l as [| x t IH]; intros l' Hl Hl' Hperm.
  - apply Permutation_nil_l in Hperm. symmetry. exact Hperm.
  - destruct l' as [| y t']; [apply Permutation_nil_r in Hperm; discriminate |].
    apply StronglySorted_inv in Hl as [Ht Hx].
    apply StronglySorted_inv in Hl' as [Ht' Hy].
    rewrite Forall_forall in Hx, Hy.
    assert (y = x) as ->.
    { assert (y ∈ x :: t) as Hyin by (rewrite Hperm; apply list_elem_of_here).
      assert (x ∈ y :: t') as Hxin by (rewrite <- Hperm; apply list_elem_of_here).
      apply elem_of_cons in Hyin as [E | Hyin]; [exact E |].
      apply elem_of_cons in Hxin as [E | Hxin]; [symmetry; exact E |].
      pose proof (Hx y Hyin). pose proof (Hy x Hxin). lia. }
    f_equal. apply IH; [exact Ht | exact Ht' |].
    exact (Permutation_cons_inv Hperm).
Qed.

Lemma filter_sorted (f : PortalSurface -> bool) l :
  nearestFirst l -> nearestFirst (List.filter f l).
Proof.
  induction 1 as [| y l Hl IH Hy]; cbn; [constructor |].
  destruct (f y); [| exact IH].
  constructor; [exact IH |].
  apply Forall_forall. intros q Hq.
  apply list_elem_of_In, filter_In in Hq as [Hq _].
  rewrite Forall_forall in Hy. apply Hy, list_elem_of_In, Hq.
Qed.

Lemma filter_Permutation (f : PortalSurface -> bool) l l' :
  l ≡ₚ l' -> List.filter f l ≡ₚ List.filter f l'.
Proof.
  induction 1 as [| x l l' _ IH | x y l | l l' l'' _ IH1 _ IH2]; cbn.
  - reflexivity.
  - destruct (f x); [rewrite IH |]; [reflexivity | exact IH].
  - destruct (f x), (f y); try reflexivity. apply Permutation_swap.
  - etransitivity; eassumption.
Qed.

Section Resolver.
Variable MAX_VIEWS : Z.
Variable currentViewFrames : Z -> ViewFrame.t.
Variable portalSurfs : Z -> list PortalSurface.
Variable PortalOffScreenOrOutOfRange : Z -> bool.
Hypothesis MAX_VIEWS_range : 0 < MAX_VIEWS < 2 ^ 32.

Local Abbreviation visible := (PortalBounds.visible PortalOffScreenOrOutOfRange).
Local Abbreviation noHint :=
  (fun viewID p => findSubView currentViewFrames viewID (drawSurfID p) = None).

Section Assign.
Variables viewID pid d count : Z.
Variable st : State.
Local Abbreviation st1 := (assignView viewID pid d count st).

Local Ltac eqb_cases :=
  repeat (match goal with
          | |- context [Z.eqb ?a ?b] => destruct (Z.eqb_spec a b)
          end; cbn);
  try reflexivity; try lia; try congruence.

Lemma assignView_frames v :
  ViewFrame.viewCount (nextViewFrames st1 v)
  = (if v =? viewID
     then wrap32 (ViewFrame.viewCount (nextViewFrames st viewID) + 1)
     else ViewFrame.viewCount (nextViewFrames st v)) /\
  ViewFrame.portalSurfaceID (nextViewFrames st1 v)
  = (if v =? pid then d else ViewFrame.portalSurfaceID (nextViewFrames st v)) /\
  ViewFrame.portalViews (nextViewFrames st1 v)
  = ViewFrame.portalViews (nextViewFrames st v).
Proof.
  unfold assignView, upd. cbn [nextViewFrames].
  repeat split; eqb_cases.
Qed.

Lemma assignView_stack v :
  Portals.count (portalStack st1 v)
  = (if v =? viewID then wrap32 (Portals.count (portalStack st viewID) + 1)
     else Portals.count (portalStack st v)) /\
  (forall j,
     views (portalStack st1 v) j
     = if (v =? viewID) && (j =? count) then pid
       else views (portalStack st v) j) /\
  drawSurf (portalStack st1 v)
  = (if v =? pid then d else drawSurf (portalStack st v)).
Proof.
  unfold assignView, upd. cbn [portalStack].
  repeat split; intros; eqb_cases.
Qed.
End Assign.

Lemma nthID_here p vis : nthID (p :: vis) 0 = drawSurfID p.
Proof. reflexivity. Qed.

Lemma nthID_later p vis i : 1 <= i -> nthID (p :: vis) i = nthID vis (i - 1).
Proof.
  intros Hi. unfold nthID.
  replace (Z.to_nat i) with (S (Z.to_nat (i - 1))) by lia. reflexivity.
Qed.

Local Ltac order_cases :=
  repeat (match goal with
          | |- context [Z.eqb ?a ?b] => destruct (Z.eqb_spec a b)
          | |- context [Z.leb ?a ?b] => destruct (Z.leb_spec a b)
          | |- context [Z.ltb ?a ?b] => destruct (Z.ltb_spec a b)
          end; cbn [andb]);
  try reflexivity; try lia; try congruence;
  try (subst; first [lia | congruence]).

(** The loop of [AddPortalSurface] over portals for which the previous
    frame gives no sub-view: every field of the state it leaves. *)
Lemma portalLoop_flat rec viewID l :
  Forall (noHint viewID) l ->
  forall count pv st,
    0 <= count <= viewCount st -> viewCount st <= MAX_VIEWS - 1 ->
    ViewFrame.viewCount (nextViewFrames st viewID) = count ->
    Portals.count (portalStack st viewID) = count ->
    forall k,
      k = Z.min (Z.of_nat (length (List.filter visible l)))
                (MAX_VIEWS - 1 - viewCount st) ->
    exists pv' st',
      portalLoop MAX_VIEWS currentViewFrames PortalOffScreenOrOutOfRange
                 rec viewID l count pv st
      = Some (true, pv', st') /\
      viewCount st' = viewCount st + k /\
      (forall j,
         pv' j = if (count <=? j) && (j <? count + k)
                 then viewCount st + 1 + (j - count) else pv j) /\
      (forall v,
         ViewFrame.viewCount (nextViewFrames st' v)
         = (if v =? viewID then count + k
            else ViewFrame.viewCount (nextViewFrames st v)) /\
         ViewFrame.portalSurfaceID (nextViewFrames st' v)
         = (if (viewCount st <? v) && (v <=? viewCount st + k)
            then nthID (List.filter visible l) (v - viewCount st - 1)
            else ViewFrame.portalSurfaceID (nextViewFrames st v)) /\
         ViewFrame.portalViews (nextViewFrames st' v)
         = ViewFrame.portalViews (nextViewFrames st v) /\
         Portals.count (portalStack st' v)
         = (if v =? viewID then count + k
            else Portals.count (portalStack st v)) /\
         (forall j,
            views (portalStack st' v) j
            = if (v =? viewID) && ((count <=? j) && (j <? count + k))
              then viewCount st + 1 + (j - count)
              else views (portalStack st v) j) /\
         drawSurf (portalStack st' v)
         = (if (viewCount st <? v) && (v <=? viewCount st + k)
            then nthID (List.filter visible l) (v - viewCount st - 1)
            else drawSurf (portalStack st v))).
Proof.
  induction 1 as [| p l Hp Hl IH]; intros count pv st Hc Hm Hvc Hpc k Hk.
  - cbn in Hk. assert (k = 0) as -> by lia. clear Hk.
    eexists _, _. split; [reflexivity |].
    split; [lia |]. split; [intros j; order_cases |].
    intros v. repeat split; intros; order_cases.
  - cbn [portalLoop]. cbn [List.filter] in *.
    destruct (Z.eqb_spec (distance p) (-1)) as [E | E].
    { assert (visible p = false) as Hvis
        by (unfold PortalBounds.visible; rewrite E; reflexivity).
      rewrite Hvis in *. apply IH; assumption. }
    destruct (PortalOffScreenOrOutOfRange (drawSurfID p)) eqn:Eoff.
    { assert (visible p = false) as Hvis
        by (unfold PortalBounds.visible; rewrite Eoff; apply andb_false_r).
      rewrite Hvis in *. apply IH; assumption. }
    assert (visible p = true) as Hvis.
    { unfold PortalBounds.visible. rewrite Eoff.
      destruct (Z.eqb_spec (distance p) (-1)); [contradiction | reflexivity]. }
    rewrite Hvis in *. cbn [length] in *.
    destruct (Z.eqb_spec (wrap32 (viewCount st + 1)) MAX_VIEWS) as [E1 | E1].
    + rewrite (wrap32_small (viewCount st + 1)) in E1 by (unfold is_u32; lia).
      assert (k = 0) as -> by lia.
      destruct (IH count pv st Hc Hm Hvc Hpc 0 ltac:(lia))
        as (pv' & st' & Hrun & Hv & Hpv & Hf).
      exists pv', st'. split; [exact Hrun |]. split; [exact Hv |].
      split; [exact Hpv |].
      intros v. destruct (Hf v) as (H1 & H2 & H3 & H4 & H5 & H6).
      repeat split; try assumption.
      * rewrite H2. order_cases.
      * rewrite H6. order_cases.
    + rewrite (wrap32_small (viewCount st + 1)) in E1 |- * by (unfold is_u32; lia).
      set (st1 := assignView viewID (viewCount st + 1) (drawSurfID p) count st).
      assert (viewCount st1 = viewCount st + 1) as Hv1.
      { subst st1. cbn. apply wrap32_small. unfold is_u32. lia. }
      rewrite (wrap32_small (count + 1)) by (unfold is_u32; lia).
      rewrite Hv1.
      destruct (Z.eqb_spec (count + 1) MAX_VIEWS) as [E2 | _]; [lia |].
      destruct (Z.eqb_spec (viewCount st + 1) MAX_VIEWS) as [E2 | _]; [lia |].
      cbn [orb]. cbn beta in Hp. rewrite Hp.
      pose proof (assignView_frames viewID (viewCount st + 1) (drawSurfID p) count st)
        as Hfr.
      pose proof (assignView_stack viewID (viewCount st + 1) (drawSurfID p) count st)
        as Hsk.
      fold st1 in Hfr, Hsk.
      destruct (IH (count + 1) (upd pv count (viewCount st + 1)) st1) with (k := k - 1)
        as (pv' & st' & Hrun & Hv & Hpv & Hf).
      * lia.
      * lia.
      * destruct (Hfr viewID) as (-> & _). rewrite Z.eqb_refl, Hvc.
        apply wrap32_small. unfold is_u32. lia.
      * destruct (Hsk viewID) as (-> & _). rewrite Z.eqb_refl, Hpc.
        apply wrap32_small. unfold is_u32. lia.
      * rewrite Hv1, Hk, Nat2Z.inj_succ. lia.
      * rewrite Hv1 in *.
        assert (1 <= k) as Hk1 by (rewrite Hk, Nat2Z.inj_succ; lia).
        clear Hk.
        exists pv', st'. split; [exact Hrun |]. split; [lia |].
        split.
        { intros j. rewrite Hpv. unfold upd. order_cases. }
        intros v. destruct (Hf v) as (H1 & H2 & H3 & H4 & H5 & H6).
        destruct (Hfr v) as (F1 & F2 & F3).
        destruct (Hsk v) as (S1 & S2 & S3).
        rewrite H1, H2, H3, H4, H6, F1, F2, F3, S1, S3, Hvc, Hpc.
        rewrite (wrap32_small (count + 1)) by (unfold is_u32; lia).
        repeat split.
        { order_cases. }
        { destruct (Z.eqb_spec v (viewCount st + 1)) as [-> | Hne].
          - replace (viewCount st + 1 - viewCount st - 1) with 0 by lia.
            rewrite nthID_here. order_cases.
          - destruct (Z.ltb_spec (viewCount st + 1) v); cbn [andb].
            + rewrite (nthID_later p) by lia.
              replace (v - viewCount st - 1 - 1) with (v - (viewCount st + 1) - 1)
                by lia.
              order_cases.
            + order_cases. }
        { order_cases. }
        { intros j. rewrite H5, S2. order_cases. }
        { destruct (Z.eqb_spec v (viewCount st + 1)) as [-> | Hne].
          - replace (viewCount st + 1 - viewCount st - 1) with 0 by lia.
            rewrite nthID_here. order_cases.
          - destruct (Z.ltb_spec (viewCount st + 1) v); cbn [andb].
            + rewrite (nthID_later p) by lia.
              replace (v - viewCount st - 1 - 1) with (v - (viewCount st + 1) - 1)
                by lia.
              order_cases.
            + order_cases. }
Qed.

End Resolver.
(** [AddPortalSurface] on a view for whose portals the previous frame
    records no sub-view and whose portals have pairwise different
    distances: [sorted] is their one arrangement by increasing distance,
    which is what [std::sort] returns. With the portals that are neither
    culled nor off screen taken nearest first, the first [k] of them get
    the consecutive
    view ids [viewCount + 1], [viewCount + 2], ... in that order, where
    [k] is their number cut at the [MAX_VIEWS - 1 - viewCount] ids still
    free: the view lists these ids in [portalViews] and on the portal
    stack, each new view records the surface of its portal, the view's
    sub-view count is [k] and [viewCount] rises by [k]. The call returns
    true, and no other view gets a surface. *)
Theorem nearest_portals_get_the_views MAX_VIEWS currentViewFrames portalSurfs
    PortalOffScreenOrOutOfRange fuel viewID st sorted :
  0 < MAX_VIEWS < 2 ^ 32 ->
  0 <= viewCount st <= MAX_VIEWS - 1 ->
  Forall (fun p => findSubView currentViewFrames viewID (drawSurfID p) = None)
         (portalSurfs viewID) ->
  sorted ≡ₚ portalSurfs viewID ->
  StronglySorted (fun p q => distance p < distance q) sorted ->
  let c0 := viewCount st in
  let vis := List.filter (visible PortalOffScreenOrOutOfRange) sorted in
  let k := Z.min (Z.of_nat (length vis)) (MAX_VIEWS - 1 - c0) in
  StronglySorted (fun p q => distance p <= distance q) vis /\
  vis ≡ₚ List.filter (visible PortalOffScreenOrOutOfRange) (portalSurfs viewID) /\
  exists st',
    AddPortalSurface MAX_VIEWS currentViewFrames portalSurfs
                     PortalOffScreenOrOutOfRange (S fuel) viewID st
    = Some (true, st') /\
    viewCount st' = c0 + k /\
    ViewFrame.viewCount (nextViewFrames st' viewID) = k /\
    Portals.count (portalStack st' viewID) = k /\
    (forall j,
       ViewFrame.portalViews (nextViewFrames st' viewID) j
       = if (0 <=? j) && (j <? k) then c0 + 1 + j else 0) /\
    (forall j, 0 <= j < k -> views (portalStack st' viewID) j = c0 + 1 + j) /\
    (forall j p,
       vis !! j = Some p -> Z.of_nat j < k ->
       ViewFrame.portalSurfaceID (nextViewFrames st' (c0 + 1 + Z.of_nat j))
       = drawSurfID p /\
       drawSurf (portalStack st' (c0 + 1 + Z.of_nat j)) = drawSurfID p) /\
    (forall v,
       ~ c0 < v <= c0 + k ->
       ViewFrame.portalSurfaceID (nextViewFrames st' v)
       = ViewFrame.portalSurfaceID (nextViewFrames st v) /\
       drawSurf (portalStack st' v) = drawSurf (portalStack st v)).
Proof.
  intros HM Hc Hno Hperm Hstrict.
  assert (sortByDistance (portalSurfs viewID) = sorted) as Hsorted.
  { apply sorted_arrangement_unique; [exact Hstrict | apply sortByDistance_sorted |].
    rewrite Hperm. symmetry. apply sortByDistance_Permutation. }
  rewrite <- Hsorted. clear Hsorted Hperm Hstrict sorted.
  intros c0 vis k.
  split; [apply filter_sorted, sortByDistance_sorted |].
  split; [apply filter_Permutation, sortByDistance_Permutation |].
  cbn [AddPortalSurface].
  set (st0 := Build_State _ _ _ _).
  assert (forall v,
             ViewFrame.portalSurfaceID (nextViewFrames st0 v)
             = ViewFrame.portalSurfaceID (nextViewFrames st v) /\
             drawSurf (portalStack st0 v) = drawSurf (portalStack st v)) as Hst0.
  { intros v. cbn. unfold upd.
    destruct (Z.eqb_spec v viewID) as [-> | _]; split; reflexivity. }
  destruct (portalLoop_flat MAX_VIEWS currentViewFrames PortalOffScreenOrOutOfRange HM
              (AddPortalSurface MAX_VIEWS currentViewFrames portalSurfs
                                PortalOffScreenOrOutOfRange fuel)
              viewID (sortByDistance (portalSurfs viewID))
              (PortalBoundsFacts.sortByDistance_Forall _ _ Hno)
              0 (fun _ => 0) st0) with (k := k)
    as (pv' & st' & Hrun & Hv & Hpv & Hf).
  - cbn. lia.
  - cbn. lia.
  - cbn. unfold upd. rewrite Z.eqb_refl. reflexivity.
  - cbn. unfold upd. rewrite Z.eqb_refl. reflexivity.
  - reflexivity.
  - rewrite Hrun. change (viewCount st0) with c0 in *. fold vis in Hf.
    eexists. split; [reflexivity |].
    cbn [viewCount nextViewFrames portalStack].
    destruct (Hf viewID) as (H1 & H2 & H3 & H4 & H5 & H6).
    rewrite Z.eqb_refl in H1, H4.
    split; [exact Hv |]. split; [unfold upd; rewrite Z.eqb_refl; cbn; lia |].
    split; [lia |]. split.
    { intros j. unfold upd. rewrite Z.eqb_refl. cbn. rewrite Hpv.
      replace (0 + k) with k by lia. replace (j - 0) with j by lia. reflexivity. }
    split.
    { intros j Hj. rewrite H5, Z.eqb_refl. cbn [andb].
      destruct (Z.leb_spec 0 j), (Z.ltb_spec j (0 + k)); cbn [andb]; lia. }
    split.
    { intros j p Hp Hj.
      destruct (Hf (c0 + 1 + Z.of_nat j)) as (_ & G2 & _ & _ & _ & G6).
      assert (nthID vis (c0 + 1 + Z.of_nat j - c0 - 1) = drawSurfID p) as Hn.
      { unfold nthID.
        replace (Z.to_nat (c0 + 1 + Z.of_nat j - c0 - 1)) with j by lia.
        rewrite Hp. reflexivity. }
      rewrite Hn in G2, G6.
      destruct (Z.ltb_spec c0 (c0 + 1 + Z.of_nat j)); [| lia].
      destruct (Z.leb_spec (c0 + 1 + Z.of_nat j) (c0 + k)); [| lia].
      cbn [andb] in G2, G6. split; [| exact G6].
      unfold upd.
      destruct (Z.eqb_spec (c0 + 1 + Z.of_nat j) viewID) as [Ev | _];
        [rewrite <- Ev; cbn |]; exact G2. }
    intros v Hv'.
    destruct (Hf v) as (_ & G2 & _ & _ & _ & G6).
    assert ((c0 <? v) && (v <=? c0 + k) = false) as Hout.
    { destruct (Z.ltb_spec c0 v), (Z.leb_spec v (c0 + k)); cbn [andb];
        try reflexivity. lia. }
    rewrite Hout in G2, G6. destruct (Hst0 v) as (K2 & K6).
    split; [| congruence].
    unfold upd at 1.
    destruct (Z.eqb_spec v viewID) as [Ev | _];
      [rewrite <- Ev; cbn |]; congruence.
Qed.

Lemma nearest_portals_get_the_views_witness :
  let portalSurfs := fun _ : Z =>
    [ {| drawSurfID := 20; distance := 7 |}; {| drawSurfID := 21; distance := 3 |};
      {| drawSurfID := 22; distance := -1 |}; {| drawSurfID := 23; distance := 9 |} ] in
  let off := fun _ : Z => false in
  let st := {| viewCount := 0; nextViewFrames := sampleHint;
               portalStack := fun _ => {| count := 1; views := fun _ => 2; drawSurf := 3 |};
               assigned := [] |} in
  let sorted :=
    [ {| drawSurfID := 22; distance := -1 |}; {| drawSurfID := 21; distance := 3 |};
      {| drawSurfID := 20; distance := 7 |}; {| drawSurfID := 23; distance := 9 |} ] in
  (0 < 3 < 2 ^ 32 /\ 0 <= viewCount st <= 3 - 1 /\
   Forall (fun p => findSubView sampleHint 0 (drawSurfID p) = None) (portalSurfs 0) /\
   sorted ≡ₚ portalSurfs 0 /\
   StronglySorted (fun p q => distance p < distance q) sorted) /\
  let c0 := viewCount st in
  let vis := List.filter (visible off) sorted in
  let k := Z.min (Z.of_nat (length vis)) (3 - 1 - c0) in
  StronglySorted (fun p q => distance p <= distance q) vis /\
  vis ≡ₚ List.filter (visible off) (portalSurfs 0) /\
  exists st',
    AddPortalSurface 3 sampleHint portalSurfs off 1 0 st = Some (true, st') /\
    viewCount st' = c0 + k /\
    ViewFrame.viewCount (nextViewFrames st' 0) = k /\
    Portals.count (portalStack st' 0) = k /\
    (forall j,
       ViewFrame.portalViews (nextViewFrames st' 0) j
       = if (0 <=? j) && (j <? k) then c0 + 1 + j else 0) /\
    (forall j, 0 <= j < k -> views (portalStack st' 0) j = c0 + 1 + j) /\
    (forall j p,
       vis !! j = Some p -> Z.of_nat j < k ->
       ViewFrame.portalSurfaceID (nextViewFrames st' (c0 + 1 + Z.of_nat j))
       = drawSurfID p /\
       drawSurf (portalStack st' (c0 + 1 + Z.of_nat j)) = drawSurfID p) /\
    (forall v,
       ~ c0 < v <= c0 + k ->
       ViewFrame.portalSurfaceID (nextViewFrames st' v)
       = ViewFrame.portalSurfaceID (nextViewFrames st v) /\
       drawSurf (portalStack st' v) = drawSurf (portalStack st v)).
Proof.
  intros portalSurfs off st sorted.
  assert (Forall (fun p => findSubView sampleHint 0 (drawSurfID p) = None)
                 (portalSurfs 0)) as Hno
    by (repeat (constructor; [reflexivity |]); constructor).
  assert (sorted ≡ₚ portalSurfs 0) as Hperm
    by (change sorted with (sortByDistance (portalSurfs 0));
        apply sortByDistance_Permutation).
  assert (StronglySorted (fun p q => distance p < distance q) sorted) as Hstrict
    by (repeat (constructor; [| repeat constructor; cbn; lia]); constructor).
  split; [split; [lia | split; [cbn; lia | split; [exact Hno |]]] |].
  { split; [exact Hperm | exact Hstrict]. }
  apply (nearest_portals_get_the_views 3 sampleHint portalSurfs off 0 0 st sorted);
    [lia | cbn; lia | exact Hno | exact Hperm | exact Hstrict].
Defined.

(** The sample: the two nearest of three portals in sight get the views 1
    and 2, the third none. *)
Example sample_views :
  let portalSurfs := fun _ : Z =>
    [ {| drawSurfID := 20; distance := 7 |}; {| drawSurfID := 21; distance := 3 |};
      {| drawSurfID := 22; distance := -1 |}; {| drawSurfID := 23; distance := 9 |} ] in
  let st := {| viewCount := 0; nextViewFrames := sampleHint;
               portalStack := fun _ => {| count := 1; views := fun _ => 2; drawSurf := 3 |};
               assigned := [] |} in
  match AddPortalSurface 3 sampleHint portalSurfs (fun _ => false) 1 0 st with
  | Some (true, st') =>
      viewCount st' = 2 /\
      ViewFrame.portalViews (nextViewFrames st' 0) <$> [0; 1; 2] = [1; 2; 0] /\
      (fun v => ViewFrame.portalSurfaceID (nextViewFrames st' v)) <$> [1; 2]
      = [21; 20]
  | _ => False
  end.
Proof. cbn. repeat split. Qed.

End PortalOrderFacts.

(** ** GenerateWorldMaterials: the stages of a surface in drawing order *)

Module StageOrderFacts.
Import Classifier ClassifierFacts.

Section WithConstants.
Variable K : RendererConstants.
Variable Material_eq : Material -> Material -> bool.

(** What the classification leaves for a stage and the stage before
    it. *)
Lemma ordered_stage_ascends n c sh d (k : nat) :
  classifiedOrd n c ->
  stageOrdered K Material_eq c sh d k ->
  0 <= drawSurf_t.materialIDs d (Z.of_nat k)
    < Z.of_nat (length (materialsOf c (packOf K (shader_t.sort sh)))) /\
  ((0 < k)%nat ->
   drawSurf_t.materialIDs d (Z.of_nat k - 1)
   <= drawSurf_t.materialIDs d (Z.of_nat k)) /\
  (comparesSync Material_eq -> (0 < k)%nat ->
   drawSurf_t.materialIDs d (Z.of_nat k - 1)
   < drawSurf_t.materialIDs d (Z.of_nat k)).
Proof.
  intros (_ & _ & I3 & _) (_ & (m & Hm & Hid) & Hle & Hlt).
  pose proof (lookup_lt_Some _ _ _ Hm) as Hlen.
  pose proof (I3 _ _ _ Hm) as Hpos.
  split; [lia |]. split; assumption.
Qed.
End WithConstants.

(** [RenderMaterials] draws the Materials of a pack in the order of
    their ids. After [GenerateWorldMaterials], whatever
    [Material::operator==] is, the stages of every processed surface are
    all in the one pack of the surface's shader, each names a Material
    that exists there, and a later stage has a Material whose id is not
    less than that of an earlier one: the search of [ProcessStage]
    accepts no Material before the sync target, and it does accept the
    sync target itself. When [operator==] tells sync targets apart, the
    id of a later stage is greater: the stages of a surface are then
    drawn in stage order, and no two of them share a Material. *)
Theorem stages_are_drawn_in_stage_order K Material_eq surfs c outs :
  stageCount surfs < 2 ^ 32 ->
  GenerateWorldMaterials K Material_eq surfs = Some (c, outs) ->
  forall d sh,
    d ∈ outs -> eligibleShader d = Some sh ->
    (forall k : nat,
       (k < length (drawSurf_t.stages d))%nat ->
       drawSurf_t.materialPackIDs d (Z.of_nat k) = packOf K (shader_t.sort sh) /\
       0 <= drawSurf_t.materialIDs d (Z.of_nat k)
         < Z.of_nat (length (materialsOf c (packOf K (shader_t.sort sh))))) /\
    (forall j k : nat,
       (j < k < length (drawSurf_t.stages d))%nat ->
       drawSurf_t.materialIDs d (Z.of_nat j)
       <= drawSurf_t.materialIDs d (Z.of_nat k)) /\
    (comparesSync Material_eq ->
     forall j k : nat,
       (j < k < length (drawSurf_t.stages d))%nat ->
       drawSurf_t.materialIDs d (Z.of_nat j)
       < drawSurf_t.materialIDs d (Z.of_nat k)).
Proof.
  intros Hcount Hrun d sh Hd Hsh. unfold GenerateWorldMaterials in Hrun.
  destruct (processSurfs_ord K Material_eq surfs 0 _ c outs (emptyClassified_ord)
              ltac:(lia) ltac:(lia) Hrun) as (Hinv & _ & _ & Hplaced).
  rewrite Forall_forall in Hplaced.
  assert (forall k : nat,
             (k < length (drawSurf_t.stages d))%nat ->
             stageOrdered K Material_eq c sh d k) as Hst
      by (intros k Hk; exact (Hplaced d Hd sh k Hsh Hk)).
  assert (forall k : nat,
             (0 < k < length (drawSurf_t.stages d))%nat ->
             drawSurf_t.materialIDs d (Z.of_nat k - 1)
             <= drawSurf_t.materialIDs d (Z.of_nat k)) as Hstep.
  { intros k Hk.
    apply (ordered_stage_ascends K Material_eq _ c sh d k Hinv (Hst k ltac:(lia))).
    lia. }
  split; [| split].
  - intros k Hk. split; [apply (Hst k Hk) |].
    apply (ordered_stage_ascends K Material_eq _ c sh d k Hinv (Hst k Hk)).
  - intros j k [Hjk Hk]. induction k as [| k IH]; [lia |].
    pose proof (Hstep (S k) ltac:(lia)) as Hs.
    replace (Z.of_nat (S k) - 1) with (Z.of_nat k) in Hs by lia.
    destruct (decide (j = k)) as [-> | Hne]; [exact Hs |].
    specialize (IH ltac:(lia) ltac:(lia)). lia.
  - intros Hcmp j k [Hjk Hk]. induction k as [| k IH]; [lia |].
    assert (drawSurf_t.materialIDs d (Z.of_nat (S k) - 1)
            < drawSurf_t.materialIDs d (Z.of_nat (S k))) as Hs.
    { apply (ordered_stage_ascends K Material_eq _ c sh d (S k) Hinv
               (Hst (S k) ltac:(lia))); [exact Hcmp | lia]. }
    replace (Z.of_nat (S k) - 1) with (Z.of_nat k) in Hs by lia.
    destruct (decide (j = k)) as [-> | Hne]; [exact Hs |].
    specialize (IH ltac:(lia) ltac:(lia)). lia.
Qed.

Lemma stages_are_drawn_in_stage_order_witness :
  stageCount sampleWorld < 2 ^ 32 /\
  exists c outs,
    GenerateWorldMaterials sampleConstants Material_eqb sampleWorld = Some (c, outs) /\
    forall d sh,
      d ∈ outs -> eligibleShader d = Some sh ->
      (forall k : nat,
         (k < length (drawSurf_t.stages d))%nat ->
         drawSurf_t.materialPackIDs d (Z.of_nat k)
         = packOf sampleConstants (shader_t.sort sh) /\
         0 <= drawSurf_t.materialIDs d (Z.of_nat k)
           < Z.of_nat (length (materialsOf c (packOf sampleConstants
                                                     (shader_t.sort sh))))) /\
      (forall j k : nat,
         (j < k < length (drawSurf_t.stages d))%nat ->
         drawSurf_t.materialIDs d (Z.of_nat j)
         <= drawSurf_t.materialIDs d (Z.of_nat k)) /\
      (forall j k : nat,
         (j < k < length (drawSurf_t.stages d))%nat ->
         drawSurf_t.materialIDs d (Z.of_nat j)
         < drawSurf_t.materialIDs d (Z.of_nat k)).
Proof.
  assert (stageCount sampleWorld < 2 ^ 32) as Hc by (vm_compute; reflexivity).
  split; [exact Hc |].
  destruct (GenerateWorldMaterials sampleConstants Material_eqb sampleWorld)
    as [[c outs] |] eqn:E; [| vm_compute in E; discriminate].
  exists c, outs. split; [reflexivity |].
  intros d sh Hd Hsh.
  destruct (stages_are_drawn_in_stage_order sampleConstants Material_eqb
              sampleWorld c outs Hc E d sh Hd Hsh) as (H1 & H2 & H3).
  split; [exact H1 |]. split; [exact H2 |].
  exact (H3 (comparesKeys_sync Material_eqb Material_eqb_key)).
Defined.

(** With an [operator==] that leaves the sync target out, two stages of
    one surface can share a Material: the ids of the third surface of
    [skipWorld] are 0 and 0. *)
Example sample_shared_material :
  match GenerateWorldMaterials sampleConstants Material_eq_noSync skipWorld with
  | Some (c, outs) =>
      map (fun d => (drawSurf_t.materialIDs d 0, drawSurf_t.materialIDs d 1))
          (drop 2 (take 3 outs))
      = [ (0, 0) ]
  | None => False
  end.
Proof. vm_compute. reflexivity. Qed.

End StageOrderFacts.

(** ** GenerateWorldMaterialsBuffer: the regions in the buffer *)

Module RegionFacts.
Import Layout LoopFacts LayoutFacts.

Section WithPaddedSize.
Variable GetPaddedSize : GLShader -> Z.

Local Abbreviation p := (paddedSizeOf GetPaddedSize).
Local Abbreviation wf := (wfMaterial GetPaddedSize).
Local Abbreviation staticEnd :=
  (fun m => staticMaterialsSSBOOffset m + p m * totalStaticDrawSurfCount m).
Local Abbreviation dynamicEnd :=
  (fun m => dynamicMaterialsSSBOOffset m + p m * totalDynamicDrawSurfCount m).

(** The static regions laid out by the first pass, in order: a region
    starts where the one before ends, after a padding below its own
    stride. *)
Lemma static_chain ms :
  forall off,
    Forall wf ms -> 0 <= off -> off + staticDemand GetPaddedSize ms < 2 ^ 32 ->
    let r := forMaterials (staticStep GetPaddedSize) off ms in
    (forall m, snd r !! 0%nat = Some m ->
               off <= staticMaterialsSSBOOffset m < off + p m) /\
    (forall (i : nat) mi mj,
       snd r !! i = Some mi -> snd r !! S i = Some mj ->
       staticEnd mi <= staticMaterialsSSBOOffset mj < staticEnd mi + p mj).
Proof.
  induction ms as [| m ms IH]; intros off Hwf Hoff Hb.
  - cbn. split; intros; discriminate.
  - apply Forall_cons in Hwf as [Hm Hms].
    pose proof (staticDemand_nonneg GetPaddedSize ms Hms) as Hnn.
    rewrite staticDemand_cons, Z.mul_add_distr_l, Z.mul_1_r in Hb.
    pose proof Hm as (Hp & HS & HD).
    assert (0 <= p m * totalStaticDrawSurfCount m) by nia.
    assert (p m < 2 ^ 32) by lia.
    destruct (padding_spec off (p m)) as [Hpad Hal]; [lia | lia |].
    cbn [forMaterials].
    rewrite staticStep_eq
      by (first [assumption | rewrite Z.mul_add_distr_l, Z.mul_1_r; lia]).
    set (off1 := off + padding off (p m) + p m * totalStaticDrawSurfCount m).
    assert (0 <= off1) as Ho1 by (subst off1; lia).
    assert (off1 + staticDemand GetPaddedSize ms < 2 ^ 32) as Hb1
      by (subst off1; lia).
    specialize (IH off1 Hms Ho1 Hb1).
    destruct (forMaterials (staticStep GetPaddedSize) off1 ms) as [o2 ms'] eqn:E.
    cbn [fst snd] in *. destruct IH as [IH0 IHS].
    split.
    + intros m0 Hm0. cbn in Hm0. injection Hm0 as <-.
      rewrite p_set_static. cbn [staticMaterialsSSBOOffset set_staticMaterialsSSBOOffset].
      lia.
    + intros [| i] mi mj Hi Hj; cbn in Hi, Hj.
      * injection Hi as <-. rewrite p_set_static.
        cbn [staticMaterialsSSBOOffset totalStaticDrawSurfCount
             set_staticMaterialsSSBOOffset].
        specialize (IH0 mj Hj). subst off1. lia.
      * exact (IHS i mi mj Hi Hj).
Qed.

Lemma dynamic_chain ms :
  forall s,
    Forall wf ms -> 0 <= offset s ->
    offset s + dynamicDemand GetPaddedSize ms < 2 ^ 32 ->
    let r := forMaterials (dynamicStep GetPaddedSize) s ms in
    (forall m, snd r !! 0%nat = Some m ->
               offset s <= dynamicMaterialsSSBOOffset m < offset s + p m /\
               (dynamicDrawSurfOffsetSet s = false ->
                dynamicDrawSurfsOffset (fst r) = dynamicMaterialsSSBOOffset m)) /\
    (forall (i : nat) mi mj,
       snd r !! i = Some mi -> snd r !! S i = Some mj ->
       dynamicEnd mi <= dynamicMaterialsSSBOOffset mj < dynamicEnd mi + p mj).
Proof.
  induction ms as [| m ms IH]; intros s Hwf Hoff Hb.
  - cbn. split; intros; discriminate.
  - apply Forall_cons in Hwf as [Hm Hms].
    pose proof (dynamicDemand_nonneg GetPaddedSize ms Hms) as Hnn.
    rewrite dynamicDemand_cons, Z.mul_add_distr_l, Z.mul_1_r in Hb.
    pose proof Hm as (Hp & HS & HD).
    assert (0 <= p m * totalDynamicDrawSurfCount m) by nia.
    assert (p m < 2 ^ 32) by lia.
    destruct (padding_spec (offset s) (p m)) as [Hpad Hal]; [lia | lia |].
    cbn [forMaterials].
    rewrite dynamicStep_eq
      by (first [assumption | rewrite Z.mul_add_distr_l, Z.mul_1_r; lia]).
    set (s1 := Build_DynamicPass _ _ _).
    assert (0 <= offset s1) as Ho1 by (subst s1; cbn; lia).
    assert (offset s1 + dynamicDemand GetPaddedSize ms < 2 ^ 32) as Hb1
      by (subst s1; cbn; lia).
    pose proof (dynamic_pass GetPaddedSize ms s1 Hms Ho1 Hb1) as (_ & _ & Hkeep).
    specialize (IH s1 Hms Ho1 Hb1).
    destruct (forMaterials (dynamicStep GetPaddedSize) s1 ms) as [s2 ms'] eqn:E.
    cbn [fst snd] in *. destruct IH as [IH0 IHS].
    split.
    + intros m0 Hm0. cbn in Hm0. injection Hm0 as <-.
      rewrite p_set_dynamic.
      cbn [dynamicMaterialsSSBOOffset set_dynamicMaterialsSSBOOffset].
      split; [lia |]. intros Hset.
      rewrite (Hkeep eq_refl). subst s1. cbn. rewrite Hset. reflexivity.
    + intros [| i] mi mj Hi Hj; cbn in Hi, Hj.
      * injection Hi as <-. rewrite p_set_dynamic.
        cbn [dynamicMaterialsSSBOOffset totalDynamicDrawSurfCount
             set_dynamicMaterialsSSBOOffset].
        destruct (IH0 mj Hj) as [IHr _]. subst s1. cbn [offset] in IHr. lia.
      * exact (IHS i mi mj Hi Hj).
Qed.

(** Consecutive steps add up. *)
Lemma chain_ordered (f g : Material -> Z) (ms : list Material) :
  (forall m, m ∈ ms -> f m <= g m) ->
  (forall (i : nat) mi mj,
     ms !! i = Some mi -> ms !! S i = Some mj -> g mi <= f mj) ->
  forall (i j : nat) mi mj,
    (i < j)%nat -> ms !! i = Some mi -> ms !! j = Some mj -> g mi <= f mj.
Proof.
  intros Hfg Hstep i j mi mj Hij Hi Hj.
  revert mj Hj. induction j as [| j IH]; intros mj Hj; [lia |].
  destruct (lookup_lt_is_Some_2 ms j) as [mk Hk].
  { apply lookup_lt_Some in Hj. lia. }
  pose proof (Hstep j mk mj Hk Hj) as Hs.
  destruct (decide (i = j)) as [-> | Hne].
  - rewrite Hi in Hk. injection Hk as ->. exact Hs.
  - specialize (IH ltac:(lia) mk Hk).
    pose proof (Hfg mk (list_elem_of_lookup_2 _ _ _ Hk)). lia.
Qed.

(** The finished layout: the static regions in the order of the
    Materials, then the dynamic regions in the same order. *)
Lemma layout_chain packs old :
  Forall wf (allMaterials packs) ->
  layoutDemand GetPaddedSize (allMaterials packs) < 2 ^ 32 ->
  let buf := GenerateWorldMaterialsBuffer GetPaddedSize packs old in
  let ms := allMaterials (materialPacks buf) in
  exists o1,
    0 <= o1 <= bufferSize buf /\ bufferSize buf < 2 ^ 32 /\
    Forall wf ms /\
    (forall m, m ∈ ms ->
               0 <= staticMaterialsSSBOOffset m /\ staticEnd m <= o1 /\
               o1 <= dynamicMaterialsSSBOOffset m /\
               dynamicEnd m <= bufferSize buf) /\
    (forall m, ms !! 0%nat = Some m ->
               staticMaterialsSSBOOffset m = 0 /\
               dynamicMaterialsSSBOOffset m = bufferDynamicDrawSurfsOffset buf /\
               dynamicMaterialsSSBOOffset m < o1 + p m) /\
    (forall (i : nat) mi mj,
       ms !! i = Some mi -> ms !! S i = Some mj ->
       staticEnd mi <= staticMaterialsSSBOOffset mj < staticEnd mi + p mj /\
       dynamicEnd mi <= dynamicMaterialsSSBOOffset mj < dynamicEnd mi + p mj).
Proof.
  intros Hwf Hb buf ms.
  rewrite layoutDemand_split in Hb.
  pose proof (staticDemand_nonneg _ _ Hwf) as HnS.
  pose proof (dynamicDemand_nonneg _ _ Hwf) as HnD.
  (* the two passes again, for the order of the regions *)
  pose proof (static_chain (allMaterials packs) 0 Hwf ltac:(lia) ltac:(lia))
    as [Hs0 HsS].
  pose proof (static_pass GetPaddedSize (allMaterials packs) 0 Hwf
                ltac:(lia) ltac:(lia)) as [Hso1 Hst'].
  subst buf ms. unfold GenerateWorldMaterialsBuffer in *.
  pose proof (forPacks_flat (staticStep GetPaddedSize) packs 0) as Hflat1.
  destruct (forPacks (staticStep GetPaddedSize) 0 packs) as [o1' packs1] eqn:E1.
  cbn [fst snd] in Hflat1. rewrite Hflat1 in Hs0, HsS, Hso1, Hst'.
  cbn [fst snd] in Hs0, HsS, Hso1, Hst'.
  set (s1 := Build_DynamicPass _ _ _) in *.
  assert (Forall wf (allMaterials packs1)) as Hwf1.
  { clear -Hwf Hst'. induction Hst' as [| a b la lb Hab _ IH]; [constructor |].
    apply Forall_cons in Hwf as [Ha Hla]. constructor; [| now apply IH].
    destruct Hab as (-> & _). exact Ha. }
  assert (dynamicDemand GetPaddedSize (allMaterials packs1)
          = dynamicDemand GetPaddedSize (allMaterials packs)) as HdemEq.
  { clear -Hst'. unfold dynamicDemand, sumZ.
    induction Hst' as [| a b la lb Hab _ IH]; [reflexivity |].
    cbn [map fold_right]. rewrite IH. destruct Hab as (-> & _). reflexivity. }
  assert (0 <= offset s1) as Hs1 by (subst s1; cbn [offset]; lia).
  assert (offset s1 + dynamicDemand GetPaddedSize (allMaterials packs1) < 2 ^ 32)
    as Hb1 by (rewrite HdemEq; subst s1; cbn [offset]; lia).
  pose proof (dynamic_chain (allMaterials packs1) s1 Hwf1 Hs1 Hb1) as [Hd0 HdS].
  pose proof (dynamic_pass GetPaddedSize (allMaterials packs1) s1 Hwf1 Hs1 Hb1)
    as (Hrange & Hdy' & _).
  pose proof (forPacks_flat (dynamicStep GetPaddedSize) packs1 s1) as Hflat2.
  destruct (forPacks (dynamicStep GetPaddedSize) s1 packs1) as [s2 packs2] eqn:E2.
  cbn [fst snd] in Hflat2. rewrite Hflat2 in Hd0, HdS, Hdy', Hrange.
  cbn [fst snd] in Hd0, HdS, Hdy', Hrange. rewrite HdemEq in Hrange.
  cbn [materialPacks bufferDynamicDrawSurfsOffset dynamicDrawSurfsSize bufferSize]
    in *.
  change (offset s1) with o1' in *.
  (* a Material of the result and its state after the first pass *)
  assert (forall (i : nat) m2,
             allMaterials packs2 !! i = Some m2 ->
             exists m0 m1,
               allMaterials packs !! i = Some m0 /\
               allMaterials packs1 !! i = Some m1 /\
               staticPlaced GetPaddedSize 0 o1' m0 m1 /\
               dynamicPlaced GetPaddedSize o1' (offset s2) m1 m2) as Hrow.
  { intros i m2 Hm2.
    destruct (Forall2_lookup_r _ _ _ _ _ Hdy' Hm2) as (m1 & Hm1 & Hd).
    destruct (Forall2_lookup_r _ _ _ _ _ Hst' Hm1) as (m0 & Hm0 & Hs).
    eauto 10. }
  assert (forall (i : nat) m2,
             allMaterials packs2 !! i = Some m2 ->
             exists m1,
               allMaterials packs1 !! i = Some m1 /\ wf m1 /\
               p m2 = p m1 /\
               staticMaterialsSSBOOffset m2 = staticMaterialsSSBOOffset m1 /\
               totalStaticDrawSurfCount m2 = totalStaticDrawSurfCount m1 /\
               totalDynamicDrawSurfCount m2 = totalDynamicDrawSurfCount m1 /\
               0 <= staticMaterialsSSBOOffset m1 /\ staticEnd m1 <= o1' /\
               o1' <= dynamicMaterialsSSBOOffset m2 /\
               dynamicEnd m2 <= offset s2) as Hfields.
  { intros i m2 Hm2.
    destruct (Hrow i m2 Hm2) as (m0 & m1 & Hm0 & Hm1 & Hs & Hd).
    exists m1. split; [exact Hm1 |].
    split; [exact (proj1 (Forall_lookup _ _) Hwf1 _ _ Hm1) |].
    destruct Hd as (Hd & Hd1 & _ & Hd3). destruct Hs as (Hs & Hz1 & _ & Hz3).
    assert (p m2 = p m1) as F1 by (rewrite Hd; reflexivity).
    assert (staticMaterialsSSBOOffset m2 = staticMaterialsSSBOOffset m1) as F2
      by (rewrite Hd; reflexivity).
    assert (totalStaticDrawSurfCount m2 = totalStaticDrawSurfCount m1) as F3
      by (rewrite Hd; reflexivity).
    assert (totalDynamicDrawSurfCount m2 = totalDynamicDrawSurfCount m1) as F4
      by (rewrite Hd; reflexivity).
    assert (p m1 = p m0) as F5 by (rewrite Hs; reflexivity).
    assert (totalStaticDrawSurfCount m1 = totalStaticDrawSurfCount m0) as F6
      by (rewrite Hs; reflexivity).
    rewrite F1, F4, F5, F6.
    repeat split; try assumption; try reflexivity; lia. }
  exists o1'.
  split; [lia |]. split; [lia |]. split.
  { apply Forall_lookup. intros i m2 Hm2.
    destruct (Hfields i m2 Hm2) as (m1 & _ & (Hw1 & Hw2 & Hw3) & Hp & _ & Hts & Htd & _).
    unfold wfMaterial. rewrite Hp, Hts, Htd. auto. }
  split.
  { intros m2 Hin. apply list_elem_of_lookup in Hin as [i Hm2].
    destruct (Hfields i m2 Hm2)
      as (m1 & _ & _ & Hp & Hso & Hts & Htd & H0 & H1 & H2 & H3).
    rewrite Hso, Hp, Hts. repeat split; lia. }
  split.
  { intros m2 Hm2.
    destruct (Hfields 0%nat m2 Hm2)
      as (m1 & Hm1 & (Hw1 & _) & Hp & Hso & Hts & Htd & H0 & H1 & H2 & H3).
    destruct (Hd0 m2 Hm2) as [Hr Hfirst].
    specialize (Hs0 m1 Hm1). specialize (Hfirst eq_refl).
    rewrite Hso, Hfirst.
    assert (staticMaterialsSSBOOffset m1 = 0) as ->.
    { destruct (Hrow 0%nat m2 Hm2) as (m0 & m1' & Hm0 & Hm1' & Hs & _).
      rewrite Hm1 in Hm1'. injection Hm1' as <-.
      destruct Hs as (_ & _ & Hal & _).
      assert (p m0 = p m1) as Hp01.
      { destruct (Forall2_lookup_r _ _ _ _ _ Hst' Hm1) as (m0' & Hm0' & Hs' & _).
        rewrite Hm0 in Hm0'. injection Hm0' as <-. rewrite Hs'. reflexivity. }
      rewrite Hp01 in Hal.
      rewrite Z.mod_small in Hal by lia. exact Hal. }
    repeat split; lia. }
  intros i mi mj Hi Hj.
  destruct (Hfields i mi Hi) as (mi1 & Hi1 & _ & Hpi & Hsoi & Htsi & Htdi & _).
  destruct (Hfields (S i) mj Hj) as (mj1 & Hj1 & _ & Hpj & Hsoj & Htsj & Htdj & _).
  specialize (HsS i mi1 mj1 Hi1 Hj1). specialize (HdS i mi mj Hi Hj).
  rewrite Hsoi, Hsoj, Hpi, Hpj, Htsi. split; [exact HsS |].
  rewrite <- Hpi, <- Hpj. exact HdS.
Qed.
End WithPaddedSize.

(** The layout [GenerateWorldMaterialsBuffer] computes. In the order of
    the Materials (pack by pack), the static regions come first and the
    dynamic regions after all of them, both in that order: a region
    starts at or after the end of the region before it, less than one of
    its own strides later; the first static region starts at 0 and the
    first dynamic region at [dynamicDrawSurfsOffset]. So no two regions
    overlap, and every region ends inside the buffer. *)
Theorem regions_follow_one_another GetPaddedSize packs old :
  Forall (wfMaterial GetPaddedSize) (allMaterials packs) ->
  layoutDemand GetPaddedSize (allMaterials packs) < 2 ^ 32 ->
  let buf := GenerateWorldMaterialsBuffer GetPaddedSize packs old in
  let ms := allMaterials (materialPacks buf) in
  let p := paddedSizeOf GetPaddedSize in
  let staticEnd m := staticMaterialsSSBOOffset m + p m * totalStaticDrawSurfCount m in
  let dynamicEnd m :=
    dynamicMaterialsSSBOOffset m + p m * totalDynamicDrawSurfCount m in
  (forall (i j : nat) mi mj,
     (i < j)%nat -> ms !! i = Some mi -> ms !! j = Some mj ->
     staticEnd mi <= staticMaterialsSSBOOffset mj /\
     dynamicEnd mi <= dynamicMaterialsSSBOOffset mj) /\
  (forall (i : nat) mi mj,
     ms !! i = Some mi -> ms !! S i = Some mj ->
     staticMaterialsSSBOOffset mj < staticEnd mi + p mj /\
     dynamicMaterialsSSBOOffset mj < dynamicEnd mi + p mj) /\
  (forall m,
     ms !! 0%nat = Some m ->
     staticMaterialsSSBOOffset m = 0 /\
     dynamicMaterialsSSBOOffset m = bufferDynamicDrawSurfsOffset buf) /\
  (forall mi mj,
     mi ∈ ms -> mj ∈ ms ->
     0 <= staticMaterialsSSBOOffset mi <= staticEnd mi /\
     staticEnd mi <= dynamicMaterialsSSBOOffset mj /\
     dynamicMaterialsSSBOOffset mj <= dynamicEnd mj /\
     dynamicEnd mj <= bufferSize buf) /\
  bufferSize buf < 2 ^ 32.
Proof.
  intros Hwf Hb buf ms p staticEnd dynamicEnd.
  destruct (layout_chain GetPaddedSize packs old Hwf Hb)
    as (o1 & Ho1 & Hsize & Hwf2 & Hin & Hfirst & Hstep).
  fold buf in Ho1, Hsize, Hwf2, Hin, Hfirst, Hstep.
  fold ms in Hwf2, Hin, Hfirst, Hstep.
  assert (forall m, m ∈ ms ->
                    staticMaterialsSSBOOffset m <= staticEnd m /\
                    dynamicMaterialsSSBOOffset m <= dynamicEnd m) as Hle.
  { intros m Hm. rewrite Forall_forall in Hwf2.
    destruct (Hwf2 m Hm) as (H1 & H2 & H3). subst staticEnd dynamicEnd p. cbn.
    split; nia. }
  split; [| split; [| split; [| split]]].
  - intros i j mi mj Hij Hi Hj. split.
    + apply (chain_ordered staticMaterialsSSBOOffset staticEnd ms) with (i := i) (j := j);
        try assumption.
      * intros m Hm. apply Hle, Hm.
      * intros k a b Ha Hb'. apply (Hstep k a b Ha Hb').
    + apply (chain_ordered dynamicMaterialsSSBOOffset dynamicEnd ms) with (i := i) (j := j);
        try assumption.
      * intros m Hm. apply Hle, Hm.
      * intros k a b Ha Hb'. apply (Hstep k a b Ha Hb').
  - intros i mi mj Hi Hj. destruct (Hstep i mi mj Hi Hj) as [H1 H2].
    split; [apply H1 | apply H2].
  - intros m Hm. destruct (Hfirst m Hm) as (H1 & H2 & _). split; assumption.
  - intros mi mj Hi Hj.
    destruct (Hin mi Hi) as (H1 & H2 & _). destruct (Hin mj Hj) as (_ & _ & H3 & H4).
    destruct (Hle mi Hi) as [H5 _]. destruct (Hle mj Hj) as [_ H6].
    repeat split; try assumption. subst staticEnd p. cbn in *. lia.
  - exact Hsize.
Qed.

Lemma regions_follow_one_another_witness :
  (Forall (wfMaterial sampleStride) (allMaterials samplePacks) /\
   layoutDemand sampleStride (allMaterials samplePacks) < 2 ^ 32) /\
  let buf := GenerateWorldMaterialsBuffer sampleStride samplePacks 0 in
  let ms := allMaterials (materialPacks buf) in
  let p := paddedSizeOf sampleStride in
  let staticEnd m := staticMaterialsSSBOOffset m + p m * totalStaticDrawSurfCount m in
  let dynamicEnd m :=
    dynamicMaterialsSSBOOffset m + p m * totalDynamicDrawSurfCount m in
  (forall (i j : nat) mi mj,
     (i < j)%nat -> ms !! i = Some mi -> ms !! j = Some mj ->
     staticEnd mi <= staticMaterialsSSBOOffset mj /\
     dynamicEnd mi <= dynamicMaterialsSSBOOffset mj) /\
  (forall (i : nat) mi mj,
     ms !! i = Some mi -> ms !! S i = Some mj ->
     staticMaterialsSSBOOffset mj < staticEnd mi + p mj /\
     dynamicMaterialsSSBOOffset mj < dynamicEnd mi + p mj) /\
  (forall m,
     ms !! 0%nat = Some m ->
     staticMaterialsSSBOOffset m = 0 /\
     dynamicMaterialsSSBOOffset m = bufferDynamicDrawSurfsOffset buf) /\
  (forall mi mj,
     mi ∈ ms -> mj ∈ ms ->
     0 <= staticMaterialsSSBOOffset mi <= staticEnd mi /\
     staticEnd mi <= dynamicMaterialsSSBOOffset mj /\
     dynamicMaterialsSSBOOffset mj <= dynamicEnd mj /\
     dynamicEnd mj <= bufferSize buf) /\
  bufferSize buf < 2 ^ 32.
Proof.
  assert (layoutDemand sampleStride (allMaterials samplePacks) < 2 ^ 32) as Hb
    by (vm_compute; reflexivity).
  split; [split; [exact samplePacks_wf | exact Hb] |].
  exact (regions_follow_one_another sampleStride samplePacks 0 samplePacks_wf Hb).
Defined.

End RegionFacts.

(** ** GenerateWorldMaterials: what the Materials count *)

Module CountFacts.
Import Classifier ClassifierFacts StageUses.

Lemma usesOf_snoc p i us u :
  usesOf p i (us ++ [u]) = usesOf p i us ++ (if uses p i u then [u] else []).
Proof. unfold usesOf. rewrite List.filter_app. reflexivity. Qed.

Lemma usesBy_snoc p i dyn us u :
  usesBy p i dyn (us ++ [u])
  = usesBy p i dyn us
    ++ (if uses p i u && Bool.eqb (useDynamic u) dyn then [u] else []).
Proof. unfold usesBy. rewrite List.filter_app. reflexivity. Qed.

Lemma usesBy_split p i us :
  (length (usesOf p i us)
   = length (usesBy p i false us) + length (usesBy p i true us))%nat.
Proof.
  unfold usesOf, usesBy. induction us as [| u us IH]; [reflexivity |].
  cbn [List.filter]. destruct (uses p i u); cbn [andb]; [| exact IH].
  destruct (useDynamic u); cbn [Bool.eqb length]; lia.
Qed.

Lemma usesBy_le p i dyn us : (length (usesBy p i dyn us) <= length us)%nat.
Proof. apply List.filter_length_le. Qed.

Lemma usesOf_le p i us : (length (usesOf p i us) <= length us)%nat.
Proof. apply List.filter_length_le. Qed.

Lemma elem_of_usesOf p i us u : u ∈ usesOf p i us <-> u ∈ us /\ uses p i u = true.
Proof. unfold usesOf. rewrite !list_elem_of_In. apply List.filter_In. Qed.

(** A stage placed in another Material leaves the row as it is. *)
Lemma row_keep p i us u m :
  countedRow p i us m -> uses p i u = false -> countedRow p i (us ++ [u]) m.
Proof.
  intros (H1 & H2 & H3 & H4 & H5 & H6 & H7) Hu. unfold countedRow.
  rewrite !usesBy_snoc, usesOf_snoc, Hu. cbn [andb]. rewrite !app_nil_r.
  repeat split; try assumption; apply H7.
Qed.

(** The counting steps of [ProcessStage] on the Material the stage is
    placed in. *)
Lemma row_count p i us u m :
  countedRow p i us m -> uses p i u = true ->
  Z.of_nat (length us) + 1 < 2 ^ 32 ->
  countedRow p i (us ++ [u]) (countStage (useDynamic u) (useSurf u) m).
Proof.
  intros (H1 & H2 & H3 & H4 & H5 & H6 & H7) Hu Hroom. unfold countedRow.
  rewrite !usesBy_snoc, usesOf_snoc, Hu. cbn [andb].
  pose proof (usesBy_le p i false us). pose proof (usesBy_le p i true us).
  pose proof (usesOf_le p i us).
  assert (drawSurfs (countStage (useDynamic u) (useSurf u) m)
          = if bool_decide (useSurf u ∈ drawSurfs m) then drawSurfs m
            else drawSurfs m ++ [useSurf u]) as Hds.
  { unfold countStage. destruct (useDynamic u); cbn [drawSurfs set_totalDrawSurfCount
      set_totalDynamicDrawSurfCount set_totalStaticDrawSurfCount];
      destruct (bool_decide _); reflexivity. }
  assert (totalDrawSurfCount (countStage (useDynamic u) (useSurf u) m)
          = wrap32 (totalDrawSurfCount m + 1)) as Ht.
  { unfold countStage. destruct (useDynamic u), (bool_decide _); reflexivity. }
  assert (totalStaticDrawSurfCount (countStage (useDynamic u) (useSurf u) m)
          = if useDynamic u then totalStaticDrawSurfCount m
            else wrap32 (totalStaticDrawSurfCount m + 1)) as Hs.
  { unfold countStage. destruct (useDynamic u), (bool_decide _); reflexivity. }
  assert (totalDynamicDrawSurfCount (countStage (useDynamic u) (useSurf u) m)
          = if useDynamic u then wrap32 (totalDynamicDrawSurfCount m + 1)
            else totalDynamicDrawSurfCount m) as Hd.
  { unfold countStage. destruct (useDynamic u), (bool_decide _); reflexivity. }
  assert (currentStaticDrawSurfCount (countStage (useDynamic u) (useSurf u) m)
          = currentStaticDrawSurfCount m /\
          currentDynamicDrawSurfCount (countStage (useDynamic u) (useSurf u) m)
          = currentDynamicDrawSurfCount m) as [Hc1 Hc2].
  { unfold countStage. destruct (useDynamic u), (bool_decide _); split; reflexivity. }
  rewrite Ht, Hs, Hd, Hc1, Hc2, Hds, H1, H2, H3, !length_app.
  split; [| split; [| split; [| split; [| split; [| split]]]]].
  - destruct (useDynamic u); cbn [Bool.eqb length]; [lia |].
    rewrite wrap32_small by (unfold is_u32; lia). lia.
  - destruct (useDynamic u); cbn [Bool.eqb length]; [| lia].
    rewrite wrap32_small by (unfold is_u32; lia). lia.
  - cbn [length]. rewrite wrap32_small by (unfold is_u32; lia). lia.
  - exact H4.
  - exact H5.
  - destruct (bool_decide_reflect (useSurf u ∈ drawSurfs m)) as [Hin | Hin];
      [exact H6 |].
    apply NoDup_app. split; [exact H6 |]. split; [| apply NoDup_singleton].
    intros x Hx Hx'. apply list_elem_of_singleton in Hx'. subst x. contradiction.
  - intros a.
    assert (a ∈ (if bool_decide (useSurf u ∈ drawSurfs m) then drawSurfs m
                 else drawSurfs m ++ [useSurf u])
            <-> a ∈ drawSurfs m \/ a = useSurf u) as ->.
    { destruct (bool_decide_reflect (useSurf u ∈ drawSurfs m)) as [Hin | Hin].
      - split; [auto |]. intros [Ha | ->]; assumption.
      - rewrite elem_of_app, list_elem_of_singleton. reflexivity. }
    rewrite H7. split.
    + intros [(v & Hv & Ha) | ->].
      * exists v. split; [apply elem_of_app; left; exact Hv | exact Ha].
      * exists u. split; [apply elem_of_app; right; apply list_elem_of_here |].
        reflexivity.
    + intros (v & Hv & Ha). apply elem_of_app in Hv as [Hv | Hv].
      * left. eauto.
      * apply list_elem_of_singleton in Hv. subst v. right. auto.
Qed.

(** A Material as the local variable of [ProcessStage] holds it: nothing
    counted yet. *)
Local Abbreviation fresh :=
  (fun m : Material =>
     totalDrawSurfCount m = 0 /\ totalStaticDrawSurfCount m = 0 /\
     totalDynamicDrawSurfCount m = 0 /\ currentStaticDrawSurfCount m = 0 /\
     currentDynamicDrawSurfCount m = 0 /\ drawSurfs m = []).

Lemma filter_none {A} (f : A -> bool) (l : list A) :
  (forall x, x ∈ l -> f x = false) -> List.filter f l = [].
Proof.
  induction l as [| x l IH]; intros H; [reflexivity |]. cbn.
  rewrite (H x) by apply list_elem_of_here.
  apply IH. intros y Hy. apply H. apply list_elem_of_further, Hy.
Qed.

Lemma row_fresh p i us m :
  fresh m -> (forall u, u ∈ us -> uses p i u = false) -> countedRow p i us m.
Proof.
  intros (H1 & H2 & H3 & H4 & H5 & H6) Hno. unfold countedRow, usesBy, usesOf.
  rewrite !filter_none; [| exact Hno | |].
  - rewrite H1, H2, H3, H4, H5, H6. cbn.
    repeat split; try reflexivity; [constructor | |].
    + intros Ha. inversion Ha.
    + intros (u & Hu & _). inversion Hu.
  - intros u Hu. rewrite (Hno u Hu). reflexivity.
  - intros u Hu. rewrite (Hno u Hu). reflexivity.
Qed.

(** One classification step on the Materials of the pack [p], with the
    stage it places. *)
Lemma classify_counted p material dyn a k (ms : list Material) us :
  packInv ms -> counted p us ms ->
  (forall u, u ∈ us -> usePack u = p -> 0 <= useMaterial u < Z.of_nat (length ms)) ->
  Z.of_nat (length us) + 1 < 2 ^ 32 ->
  fresh material ->
  let r := classify Material_eqb material dyn a (Z.of_nat (length ms)) ms in
  counted p (us ++ [{| useSurf := a; useStage := k; usePack := p;
                       useMaterial := r.1.2; useDynamic := dyn |}]) r.1.1.
Proof.
  intros Hinv Hcnt Hrange Hroom Hfresh. unfold classify.
  pose proof (findMaterial_spec Material_eqb material ms 0%nat) as Hspec.
  destruct (findMaterial Material_eqb material ms 0) as [[i0 it] |] eqn:Efind.
  - destruct Hspec as (j & -> & Hj & _). cbn [fst snd].
    pose proof Hinv as (L1 & _). rewrite (L1 j it Hj), Nat2Z.id.
    set (u := Build_StageUse _ _ _ _ _).
    intros i m' Hm'. destruct (decide (j = i)) as [<- | Hne].
    + rewrite list_lookup_alter_eq, Hj in Hm'. injection Hm' as <-.
      apply (row_count p (Z.of_nat j) us u it); [exact (Hcnt j it Hj) | | exact Hroom].
      unfold uses. subst u. cbn. rewrite !Z.eqb_refl. reflexivity.
    + rewrite list_lookup_alter_ne in Hm' by exact Hne.
      apply row_keep; [exact (Hcnt i m' Hm') |].
      unfold uses. subst u. cbn.
      destruct (Z.eqb_spec (Z.of_nat j) (Z.of_nat i)); [lia |].
      apply andb_false_r.
  - cbn [fst snd]. rewrite Nat2Z.id.
    set (u := Build_StageUse _ _ _ _ _).
    set (ms1 := ms ++ [set_id (Z.of_nat (length ms)) material]).
    assert (ms1 !! length ms = Some (set_id (Z.of_nat (length ms)) material)) as Hlast.
    { subst ms1. rewrite lookup_app_r by lia.
      now replace (length ms - length ms)%nat with 0%nat by lia. }
    intros i m' Hm'. destruct (decide (length ms = i)) as [<- | Hne].
    + rewrite list_lookup_alter_eq, Hlast in Hm'. injection Hm' as <-.
      apply (row_count p (Z.of_nat (length ms)) us u).
      * apply row_fresh; [exact Hfresh |].
        intros v Hv. unfold uses.
        destruct (Z.eqb_spec (usePack v) p) as [Hp | Hp]; [| reflexivity].
        pose proof (Hrange v Hv Hp).
        destruct (Z.eqb_spec (useMaterial v) (Z.of_nat (length ms))); [lia | reflexivity].
      * unfold uses. subst u. cbn. rewrite !Z.eqb_refl. reflexivity.
      * exact Hroom.
    + rewrite list_lookup_alter_ne in Hm' by exact Hne.
      assert (ms !! i = Some m') as Hm.
      { subst ms1. apply lookup_app_Some in Hm' as [H | [Hge H]]; [exact H |].
        destruct (i - length ms)%nat as [| x] eqn:E; [lia | inversion H]. }
      apply row_keep; [exact (Hcnt i m' Hm) |].
      unfold uses. subst u. cbn.
      destruct (Z.eqb_spec (Z.of_nat (length ms)) (Z.of_nat i)); [lia |].
      apply andb_false_r.
Qed.

Section WithConstants.
Variable K : RendererConstants.

Local Abbreviation logInv :=
  (fun c us => (forall p, counted p us (materialsOf c p)) /\ usesInRange c us).

Lemma runMaterialProcessor_fresh f m m' :
  runMaterialProcessor f m = Some m' -> fresh m -> fresh m'.
Proof.
  intros H Hf. destruct f; cbn in H; try discriminate; injection H as <-;
    exact Hf.
Qed.

(** One call of [ProcessStage], with the stages placed before this
    surface in [us0]. *)
Lemma ProcessStage_counted n sh pStage s s' us0 :
  stageLoopInv K n sh s ->
  n + 1 < 2 ^ 32 ->
  logInv (classified s) (us0 ++ imap (useAt (drawSurf s)) (doneStages s)) ->
  Z.of_nat (length (us0 ++ imap (useAt (drawSurf s)) (doneStages s))) <= n ->
  ProcessStage K Material_eqb sh pStage s = Some s' ->
  logInv (classified s') (us0 ++ imap (useAt (drawSurf s')) (doneStages s')) /\
  Z.of_nat (length (us0 ++ imap (useAt (drawSurf s')) (doneStages s'))) <= n + 1.
Proof.
  intros (Hinv & Hstage & Hle & Hprev & Hplaced) Hroom [Hcnt Hrng] Hlen Hrun.
  unfold ProcessStage in Hrun.
  set (p := packOf K (shader_t.sort sh)) in *.
  set (dyn := Dynamics.ComputeDynamics (shaderStage.dynamics pStage)) in *.
  set (d1 := if Dynamics.texturesDynamic dyn
             then drawSurf_t.set_texturesDynamic (stage s) (drawSurf s)
             else drawSurf s) in *.
  set (material0 := candidate K (drawSurf s) pStage sh (stage s)
                              (previousMaterialID s)) in *.
  destruct (runMaterialProcessor _ material0) as [material |] eqn:Eproc;
    [| discriminate].
  destruct (runMaterialProcessor_key _ _ _ Eproc) as [Hkey _].
  assert (fresh material) as Hfresh.
  { apply (runMaterialProcessor_fresh _ _ _ Eproc). subst material0. cbn.
    repeat split. }
  pose proof Hinv as (I1 & I2 & I3 & I4 & I5).
  pose proof (classifiedInv_pack n _ p Hinv) as Hpack.
  rewrite (I1 p) in Hrun.
  assert (useSync material = true ->
          syncMaterial material < Z.of_nat (length (materialsOf (classified s) p)))
    as Hsync.
  { destruct (keyOf_sync _ _ Hkey) as [-> ->]. subst material0. cbn.
    intros Hs. rewrite Hs. apply Z.ltb_lt in Hs.
    destruct (Hprev Hs) as [Hr _]. rewrite (I1 p) in Hr. lia. }
  set (us := us0 ++ imap (useAt (drawSurf s)) (doneStages s)) in *.
  pose proof (classify_spec material (Dynamics.dynamic dyn) (drawSurf_t.addr d1)
                (materialsOf (classified s) p) Hpack
                ltac:(specialize (I2 p); lia) Hsync) as Hc.
  pose proof (classify_counted p material (Dynamics.dynamic dyn)
                (drawSurf_t.addr d1) (stage s)
                (materialsOf (classified s) p) us Hpack (Hcnt p)) as Hcc.
  destruct (classify Material_eqb material _ _ _ _) as [[ms' prev'] id'] eqn:Ecl.
  cbn [fst snd] in Hc, Hcc.
  destruct Hc as (_ & _ & Hprev' & Hlen' & _).
  injection Hrun as <-.
  cbn [classified drawSurf doneStages stage previousMaterialID].
  set (d2 := drawSurf_t.set_stageResult (stage s) prev' p d1).
  assert (drawSurf_t.addr d2 = drawSurf_t.addr (drawSurf s) /\
          drawSurf_t.addr d1 = drawSurf_t.addr (drawSurf s) /\
          drawSurf_t.materialIDs d2
          = upd (drawSurf_t.materialIDs (drawSurf s)) (stage s) prev' /\
          drawSurf_t.materialPackIDs d2
          = upd (drawSurf_t.materialPackIDs (drawSurf s)) (stage s) p)
    as (Haddr & Haddr1 & HmIDs & HpIDs).
  { subst d2 d1. destruct (Dynamics.texturesDynamic dyn); repeat split. }
  set (pStage1 := shaderStage.Build_t _ _ _ _ _).
  set (u := {| useSurf := drawSurf_t.addr d1; useStage := stage s; usePack := p;
               useMaterial := prev'; useDynamic := Dynamics.dynamic dyn |}) in *.
  assert (us0 ++ imap (useAt d2) (doneStages s ++ [pStage1]) = us ++ [u]) as Hus.
  { subst us. rewrite imap_app, app_assoc. f_equal; [f_equal |].
    - apply imap_ext. intros k pS Hk.
      pose proof (lookup_lt_Some _ _ _ Hk) as Hlt.
      unfold useAt. rewrite Haddr, HmIDs, HpIDs, !upd_other by lia. reflexivity.
    - cbn [imap]. unfold useAt. subst u pStage1.
      rewrite Nat.add_0_r, Haddr, Haddr1, HmIDs, HpIDs, <- Hstage, !upd_same.
      reflexivity. }
  rewrite Hus. split; [split |].
  - intros q. cbn [materialsOf]. unfold upd.
    destruct (Z.eqb_spec q p) as [-> | Hne].
    + apply Hcc; [| lia | exact Hfresh].
      intros v Hv Hp. specialize (Hrng v Hv). rewrite Hp in Hrng. exact Hrng.
    + intros i m Hm. apply row_keep; [exact (Hcnt q i m Hm) |].
      unfold uses. subst u. cbn.
      destruct (Z.eqb_spec p q); [congruence | reflexivity].
  - intros v Hv. cbn [materialsOf]. unfold upd.
    apply elem_of_app in Hv as [Hv | Hv].
    + specialize (Hrng v Hv).
      destruct (Z.eqb_spec (usePack v) p) as [E | E]; [| exact Hrng].
      rewrite E in Hrng. lia.
    + apply list_elem_of_singleton in Hv. subst v u. cbn.
      rewrite Z.eqb_refl. exact Hprev'.
  - rewrite length_app. cbn [length]. lia.
Qed.

Lemma processStages_counted sh pStages :
  forall n s s' us0,
    stageLoopInv K n sh s ->
    n + Z.of_nat (length pStages) < 2 ^ 32 ->
    logInv (classified s) (us0 ++ imap (useAt (drawSurf s)) (doneStages s)) ->
    Z.of_nat (length (us0 ++ imap (useAt (drawSurf s)) (doneStages s))) <= n ->
    processStages K Material_eqb sh pStages s = Some s' ->
    logInv (classified s') (us0 ++ imap (useAt (drawSurf s')) (doneStages s')) /\
    Z.of_nat (length (us0 ++ imap (useAt (drawSurf s')) (doneStages s')))
    <= n + Z.of_nat (length pStages).
Proof.
  induction pStages as [| pStage rest IH]; intros n s s' us0 Hinv Hroom Hlog Hlen Hrun;
    cbn [processStages length] in *.
  - injection Hrun as <-. split; [exact Hlog | lia].
  - destruct (ProcessStage K Material_eqb sh pStage s) as [s1 |] eqn:E1; [| discriminate].
    destruct (ProcessStage_spec K n sh pStage s s1 Hinv ltac:(lia) E1)
      as (Hinv1 & _).
    destruct (ProcessStage_counted n sh pStage s s1 us0 Hinv ltac:(lia) Hlog Hlen E1)
      as (Hlog1 & Hlen1).
    destruct (IH (n + 1) s1 s' us0 Hinv1 ltac:(lia) Hlog1 Hlen1 Hrun)
      as (Hlog' & Hlen').
    split; [exact Hlog' | lia].
Qed.

Lemma processSurf_counted n d c c' d' us0 :
  classifiedInv n c -> 0 <= n ->
  n + Z.of_nat (length (drawSurf_t.stages d)) < 2 ^ 32 ->
  logInv c us0 -> Z.of_nat (length us0) <= n ->
  processSurf K Material_eqb d c = Some (c', d') ->
  logInv c' (us0 ++ stageUses d') /\
  Z.of_nat (length (us0 ++ stageUses d'))
  <= n + Z.of_nat (length (drawSurf_t.stages d)).
Proof.
  intros Hinv Hn Hroom Hlog Hlen Hrun. unfold processSurf in Hrun.
  unfold stageUses.
  destruct (eligibleShader d) as [sh |] eqn:Esh.
  - set (s0 := Build_StageLoop c d [] 0 0) in *.
    assert (stageLoopInv K n sh s0) as H0.
    { unfold stageLoopInv. subst s0.
      cbn [classified drawSurf doneStages stage previousMaterialID length].
      split; [exact Hinv |]. split; [reflexivity |]. split; [lia |].
      split; [intros H; lia |]. intros k pS H. inversion H. }
    destruct (processStages K Material_eqb sh (drawSurf_t.stages d) s0) as [s' |] eqn:E;
      [| discriminate].
    injection Hrun as <- <-.
    destruct (processStages_spec K sh _ n s0 s' H0 Hroom E)
      as (_ & _ & _ & _ & Hel).
    change (eligibleShader (drawSurf_t.set_stages (doneStages s') (drawSurf s')))
      with (eligibleShader (drawSurf s')).
    rewrite Hel. subst s0. cbn [drawSurf]. rewrite Esh.
    apply (processStages_counted sh _ n _ s' us0 H0 Hroom); [| | exact E].
    + cbn. rewrite app_nil_r. exact Hlog.
    + cbn. rewrite app_nil_r. exact Hlen.
  - injection Hrun as <- <-. rewrite Esh, app_nil_r. split; [exact Hlog | lia].
Qed.

Lemma processSurfs_counted ds :
  forall n c c' outs us0,
    classifiedInv n c -> 0 <= n ->
    n + stageCount ds < 2 ^ 32 ->
    logInv c us0 -> Z.of_nat (length us0) <= n ->
    processSurfs K Material_eqb ds c = Some (c', outs) ->
    logInv c' (us0 ++ allUses outs).
Proof.
  induction ds as [| d rest IH]; intros n c c' outs us0 Hinv Hn Hroom Hlog Hlen Hrun;
    cbn [processSurfs] in Hrun.
  - injection Hrun as <- <-. unfold allUses. cbn. rewrite app_nil_r. exact Hlog.
  - rewrite stageCount_cons in *. pose proof (stageCount_nonneg rest) as Hnn.
    destruct (processSurf K Material_eqb d c) as [[c1 d1] |] eqn:E1; [| discriminate].
    destruct (processSurfs K Material_eqb rest c1) as [[c2 rest1] |] eqn:E2; [| discriminate].
    injection Hrun as <- <-.
    destruct (processSurf_spec K n d c c1 d1 Hinv Hn ltac:(lia) E1) as (Hinv1 & _).
    destruct (processSurf_counted n d c c1 d1 us0 Hinv Hn ltac:(lia) Hlog Hlen E1)
      as (Hlog1 & Hlen1).
    unfold allUses. cbn [map concat]. rewrite app_assoc.
    apply (IH _ c1 c2 rest1 _ Hinv1 ltac:(lia) ltac:(lia) Hlog1 Hlen1 E2).
Qed.

(** The classification, with every stage it placed. *)
Lemma GenerateWorldMaterials_counted surfs c outs :
  stageCount surfs < 2 ^ 32 ->
  GenerateWorldMaterials K Material_eqb surfs = Some (c, outs) ->
  (forall p, counted p (allUses outs) (materialsOf c p)) /\
  usesInRange c (allUses outs).
Proof.
  intros Hcount Hrun. unfold GenerateWorldMaterials in Hrun.
  apply (processSurfs_counted surfs 0 emptyClassified c outs []
           (emptyClassified_inv) ltac:(lia) ltac:(lia)); [| cbn; lia | exact Hrun].
  split.
  - intros p i m Hm. inversion Hm.
  - intros u Hu. inversion Hu.
Qed.
End WithConstants.

(** What [GenerateWorldMaterials] leaves in the Materials, read against
    the surfaces it processed. A stage of a processed surface is placed
    in the Material that the surface's [materialPackIDs] and
    [materialIDs] name for it, and that Material exists. For every
    Material, [totalStaticDrawSurfCount] is the number of stages placed
    in it that are not dynamic, [totalDynamicDrawSurfCount] the number of
    those that are, and [totalDrawSurfCount] their sum; [drawSurfs] lists
    the surfaces with a stage placed in it, each once; and the two
    current counts are 0. *)
Theorem materials_count_their_stages K surfs c outs :
  stageCount surfs < 2 ^ 32 ->
  GenerateWorldMaterials K Material_eqb surfs = Some (c, outs) ->
  (forall u,
     u ∈ allUses outs ->
     0 <= useMaterial u < Z.of_nat (length (materialsOf c (usePack u)))) /\
  (forall p (i : nat) m,
     materialsOf c p !! i = Some m ->
     totalStaticDrawSurfCount m
     = Z.of_nat (length (usesBy p (Z.of_nat i) false (allUses outs))) /\
     totalDynamicDrawSurfCount m
     = Z.of_nat (length (usesBy p (Z.of_nat i) true (allUses outs))) /\
     totalDrawSurfCount m
     = totalStaticDrawSurfCount m + totalDynamicDrawSurfCount m /\
     totalDrawSurfCount m = Z.of_nat (length (usesOf p (Z.of_nat i) (allUses outs))) /\
     currentStaticDrawSurfCount m = 0 /\ currentDynamicDrawSurfCount m = 0 /\
     NoDup (drawSurfs m) /\
     (forall a,
        a ∈ drawSurfs m
        <-> exists u, u ∈ usesOf p (Z.of_nat i) (allUses outs) /\ useSurf u = a)).
Proof.
  intros Hcount Hrun.
  destruct (GenerateWorldMaterials_counted K surfs c outs Hcount Hrun) as [Hcnt Hrng].
  split; [exact Hrng |].
  intros p i m Hm. destruct (Hcnt p i m Hm) as (H1 & H2 & H3 & H4 & H5 & H6 & H7).
  split; [exact H1 |]. split; [exact H2 |].
  split; [rewrite H1, H2, H3, usesBy_split; lia |].
  repeat split; try assumption; apply H7.
Qed.

Lemma materials_count_their_stages_witness :
  stageCount sampleWorld < 2 ^ 32 /\
  exists c outs,
    GenerateWorldMaterials sampleConstants Material_eqb sampleWorld = Some (c, outs) /\
    (forall u,
       u ∈ allUses outs ->
       0 <= useMaterial u < Z.of_nat (length (materialsOf c (usePack u)))) /\
    (forall p (i : nat) m,
       materialsOf c p !! i = Some m ->
       totalStaticDrawSurfCount m
       = Z.of_nat (length (usesBy p (Z.of_nat i) false (allUses outs))) /\
       totalDynamicDrawSurfCount m
       = Z.of_nat (length (usesBy p (Z.of_nat i) true (allUses outs))) /\
       totalDrawSurfCount m
       = totalStaticDrawSurfCount m + totalDynamicDrawSurfCount m /\
       totalDrawSurfCount m
       = Z.of_nat (length (usesOf p (Z.of_nat i) (allUses outs))) /\
       currentStaticDrawSurfCount m = 0 /\ currentDynamicDrawSurfCount m = 0 /\
       NoDup (drawSurfs m) /\
       (forall a,
          a ∈ drawSurfs m
          <-> exists u, u ∈ usesOf p (Z.of_nat i) (allUses outs) /\ useSurf u = a)).
Proof.
  assert (stageCount sampleWorld < 2 ^ 32) as Hc by (vm_compute; reflexivity).
  split; [exact Hc |].
  destruct (GenerateWorldMaterials sampleConstants Material_eqb sampleWorld) as [[c outs] |] eqn:E;
    [| vm_compute in E; discriminate].
  exists c, outs. split; [reflexivity |].
  exact (materials_count_their_stages sampleConstants sampleWorld c outs Hc E).
Defined.

(** The sample world: five stages in three Materials of pack 1. *)
Example sample_counts :
  match GenerateWorldMaterials sampleConstants Material_eqb sampleWorld with
  | Some (c, outs) =>
      (fun m => (totalDrawSurfCount m, drawSurfs m)) <$> materialsOf c 1
      = [(2, [0; 2]); (2, [0; 2]); (1, [1])] /\
      length (allUses outs) = 5%nat
  | None => False
  end.
Proof. vm_compute. split; reflexivity. Qed.

End CountFacts.

(** ** The words of an instance, at the build and at the update *)

Module SlotFacts.
Import LayoutSamples LoopFacts LayoutFacts.

Section WithPaddedSize.
Variable GetPaddedSize : GLShader -> Z.

Local Abbreviation p := (paddedSizeOf GetPaddedSize).
Local Abbreviation wf := (wfMaterial GetPaddedSize).

Lemma quotient_of_aligned base c ps :
  0 < ps -> base mod ps = 0 -> (base + c * ps) / ps * ps = base + c * ps.
Proof.
  intros Hps Hal.
  pose proof (Z.div_mod base ps ltac:(lia)) as Hb. rewrite Hal in Hb.
  rewrite Z.div_add by lia. lia.
Qed.

(** The slot of the instance [c] of a static region: the region's base
    plus [c] strides, in strides. *)
Lemma static_slot m c :
  0 < p m -> 0 <= staticMaterialsSSBOOffset m ->
  staticMaterialsSSBOOffset m mod p m = 0 -> 0 <= c ->
  staticMaterialsSSBOOffset m + (c + 1) * p m <= 2 ^ 32 ->
  slotAddress GetPaddedSize m
    (stageSlot GetPaddedSize (set_currentStaticDrawSurfCount c m) false)
  = staticMaterialsSSBOOffset m + c * p m.
Proof.
  intros Hp H0 Hal Hc Hfit. unfold slotAddress, stageSlot.
  change (p (set_currentStaticDrawSurfCount c m)) with (p m).
  cbn [staticMaterialsSSBOOffset currentStaticDrawSurfCount
       set_currentStaticDrawSurfCount].
  assert (0 <= c * p m) by nia.
  rewrite (wrap32_small (c * p m)) by (unfold is_u32; nia).
  rewrite (wrap32_small (_ + _)) by (unfold is_u32; nia).
  rewrite quotient_of_aligned by assumption.
  apply wrap32_small. unfold is_u32. nia.
Qed.

Lemma dynamic_slot m c :
  0 < p m -> 0 <= dynamicMaterialsSSBOOffset m ->
  dynamicMaterialsSSBOOffset m mod p m = 0 -> 0 <= c ->
  dynamicMaterialsSSBOOffset m + (c + 1) * p m <= 2 ^ 32 ->
  slotAddress GetPaddedSize m
    (stageSlot GetPaddedSize (set_currentDynamicDrawSurfCount c m) true)
  = dynamicMaterialsSSBOOffset m + c * p m.
Proof.
  intros Hp H0 Hal Hc Hfit. unfold slotAddress, stageSlot.
  change (p (set_currentDynamicDrawSurfCount c m)) with (p m).
  cbn [dynamicMaterialsSSBOOffset currentDynamicDrawSurfCount
       set_currentDynamicDrawSurfCount].
  assert (0 <= c * p m) by nia.
  rewrite (wrap32_small (c * p m)) by (unfold is_u32; nia).
  rewrite (wrap32_small (_ + _)) by (unfold is_u32; nia).
  rewrite quotient_of_aligned by assumption.
  apply wrap32_small. unfold is_u32. nia.
Qed.

(** The slot the update is given for the instance [c] of a dynamic
    region, counted from [base]. *)
Lemma relative_slot base m c :
  0 < p m -> 0 <= base <= dynamicMaterialsSSBOOffset m -> 0 <= c ->
  dynamicMaterialsSSBOOffset m + (c + 1) * p m <= 2 ^ 32 ->
  base + slotAddress GetPaddedSize m (dynamicStageSlot GetPaddedSize base m c)
  = dynamicMaterialsSSBOOffset m + c * p m
    - (dynamicMaterialsSSBOOffset m - base) mod p m.
Proof.
  intros Hp Hb Hc Hfit. unfold slotAddress, dynamicStageSlot.
  assert (0 <= c * p m) by nia.
  rewrite (wrap32_small (c * p m)) by (unfold is_u32; nia).
  rewrite (wrap32_small (_ - _)) by (unfold is_u32; nia).
  rewrite (wrap32_small (_ + _)) by (unfold is_u32; nia).
  rewrite Z.div_add by lia.
  pose proof (Z.div_mod (dynamicMaterialsSSBOOffset m - base) (p m) ltac:(lia)) as Hd.
  pose proof (Z.mod_pos_bound (dynamicMaterialsSSBOOffset m - base) (p m) Hp) as Hr.
  assert (0 <= (dynamicMaterialsSSBOOffset m - base) / p m)
    by (apply Z.div_pos; lia).
  rewrite wrap32_small by (unfold is_u32; nia).
  lia.
Qed.
End WithPaddedSize.

(** The words of an instance. For a Material laid out by
    [GenerateWorldMaterialsBuffer], the slot the third loop computes for
    the instance [c] of the static region gives the updater the word
    [staticMaterialsSSBOOffset + c * stride], and for the instance [c] of
    the dynamic region the word [dynamicMaterialsSSBOOffset + c * stride].
    The slot it stores for the per-frame update of a dynamic instance is
    counted from [dynamicDrawSurfsOffset] in whole strides, rounding
    down: [UpdateDynamicSurfaces] is given the word of the build minus
    the remainder of the region's distance from [dynamicDrawSurfsOffset]
    by the stride. It is the word of the build exactly when the stride
    divides that distance. *)
Theorem update_slot_rounds_down GetPaddedSize packs old m c :
  Forall (wfMaterial GetPaddedSize) (allMaterials packs) ->
  layoutDemand GetPaddedSize (allMaterials packs) < 2 ^ 32 ->
  let buf := GenerateWorldMaterialsBuffer GetPaddedSize packs old in
  let stride := paddedSizeOf GetPaddedSize m in
  let base := bufferDynamicDrawSurfsOffset buf in
  m ∈ allMaterials (materialPacks buf) ->
  (0 <= c < totalStaticDrawSurfCount m ->
   slotAddress GetPaddedSize m
     (stageSlot GetPaddedSize (set_currentStaticDrawSurfCount c m) false)
   = staticMaterialsSSBOOffset m + c * stride) /\
  (0 <= c < totalDynamicDrawSurfCount m ->
   slotAddress GetPaddedSize m
     (stageSlot GetPaddedSize (set_currentDynamicDrawSurfCount c m) true)
   = dynamicMaterialsSSBOOffset m + c * stride /\
   base + slotAddress GetPaddedSize m (dynamicStageSlot GetPaddedSize base m c)
   = dynamicMaterialsSSBOOffset m + c * stride
     - (dynamicMaterialsSSBOOffset m - base) mod stride /\
   (base + slotAddress GetPaddedSize m (dynamicStageSlot GetPaddedSize base m c)
    = dynamicMaterialsSSBOOffset m + c * stride
    <-> (dynamicMaterialsSSBOOffset m - base) mod stride = 0)).
Proof.
  intros Hwf Hb buf stride base Hm.
  destruct (placed_material GetPaddedSize packs old m Hwf Hb Hm)
    as (o1 & Ho1 & Hsz & (Hp & HS & HD) & Hs0 & Hsal & Hsend & Hd0 & Hdal & Hdend & _).
  pose proof (layout_nonempty GetPaddedSize packs old m Hwf Hb Hm) as Hne.
  destruct (dynamic_range GetPaddedSize packs old Hwf Hb Hne) as (Hb0 & _ & _ & Hdr).
  destruct (Hdr m Hm) as (_ & Hbase & _).
  fold buf in Ho1, Hsz, Hdend, Hb0, Hbase. fold base in Hb0, Hbase.
  fold stride in Hp, Hsal, Hsend, Hdal, Hdend.
  split.
  - intros Hc. apply static_slot; try assumption; try lia. fold stride. nia.
  - intros Hc.
    assert (dynamicMaterialsSSBOOffset m + (c + 1) * stride <= 2 ^ 32) as Hfit by nia.
    split; [apply dynamic_slot; try assumption; lia |].
    rewrite relative_slot by (try assumption; lia). fold stride.
    split; [reflexivity | lia].
Qed.

Lemma mixedStridePacks_wf :
  Forall (wfMaterial sampleStride) (allMaterials mixedStridePacks).
Proof. repeat constructor; cbn; lia. Qed.

Lemma update_slot_rounds_down_witness :
  let buf := GenerateWorldMaterialsBuffer sampleStride mixedStridePacks 0 in
  let base := bufferDynamicDrawSurfsOffset buf in
  (Forall (wfMaterial sampleStride) (allMaterials mixedStridePacks) /\
   layoutDemand sampleStride (allMaterials mixedStridePacks) < 2 ^ 32) /\
  exists m,
    m ∈ allMaterials (materialPacks buf) /\
    paddedSizeOf sampleStride m = 12 /\ base = 16 /\
    dynamicMaterialsSSBOOffset m = 24 /\
    slotAddress sampleStride m
      (stageSlot sampleStride (set_currentDynamicDrawSurfCount 0 m) true) = 24 /\
    base + slotAddress sampleStride m (dynamicStageSlot sampleStride base m 0)
    = dynamicMaterialsSSBOOffset m + 0 * paddedSizeOf sampleStride m
      - (dynamicMaterialsSSBOOffset m - base) mod paddedSizeOf sampleStride m.
Proof.
  intros buf base.
  assert (layoutDemand sampleStride (allMaterials mixedStridePacks) < 2 ^ 32) as Hb
    by (vm_compute; reflexivity).
  split; [split; [exact mixedStridePacks_wf | exact Hb] |].
  assert (exists m, allMaterials (materialPacks buf) !! 1%nat = Some m) as [m Hm]
    by (eexists; vm_compute; reflexivity).
  exists m.
  pose proof (list_elem_of_lookup_2 _ _ _ Hm) as Hin.
  vm_compute in Hm. injection Hm as <-.
  split; [exact Hin |]. split; [reflexivity |]. split; [reflexivity |].
  split; [reflexivity |]. split; [reflexivity |].
  match goal with
  | H : ?m ∈ _ |- _ =>
      apply (proj2 (update_slot_rounds_down sampleStride mixedStridePacks 0 m 0
                      mixedStridePacks_wf Hb H))
  end.
  cbn. lia.
Defined.

(** The sample: the dynamic instance of the Material of stride 12 is
    built at word 24, and the update is given word 16, where the dynamic
    instance of the Material of stride 8 is. *)
Example sample_update_slot :
  let buf := GenerateWorldMaterialsBuffer sampleStride mixedStridePacks 0 in
  let base := bufferDynamicDrawSurfsOffset buf in
  (fun m => (paddedSizeOf sampleStride m, dynamicMaterialsSSBOOffset m,
             base + slotAddress sampleStride m
                      (dynamicStageSlot sampleStride base m 0)))
    <$> allMaterials (materialPacks buf)
  = [(8, 16, 16); (12, 24, 16)].
Proof. vm_compute. reflexivity. Qed.

End SlotFacts.

(** ** The third loop of GenerateWorldMaterialsBuffer *)

Module SlotLoopFacts.
Import BuildSlots LoopFacts.

Section WithShaders.
Variable GetPaddedSize : GLShader -> Z.
Variable uniformWords : Updater -> Material -> SurfStage -> list Z.
Variable base : Z.

Local Abbreviation p := (paddedSizeOf GetPaddedSize).
Local Abbreviation slotted := (slottedStage GetPaddedSize base).
Local Abbreviation valid :=
  (fun s : SurfStage => surfaceDataUpdater s <> UpdateSurfaceDataNONE).

Lemma countKind_nil q m dyn : countKind q m dyn [] = 0.
Proof. reflexivity. Qed.

Lemma countKind_cons q m dyn s stages :
  countKind q m dyn (s :: stages)
  = (if kind q m dyn s then 1 else 0) + countKind q m dyn stages.
Proof.
  unfold countKind. cbn [List.filter]. destruct (kind q m dyn s); cbn [length]; lia.
Qed.

Lemma countKind_nonneg q m dyn stages : 0 <= countKind q m dyn stages.
Proof. unfold countKind. lia. Qed.

Lemma kind_atCounts q cs cd m dyn s : kind q (atCounts cs cd m) dyn s = kind q m dyn s.
Proof. reflexivity. Qed.

(** The body of the stage loop on a stage of the Material. *)
Lemma slotStage_spec s cs cd m buf :
  0 < p m -> valid s ->
  exists buf1,
    slotStage GetPaddedSize uniformWords base s (atCounts cs cd m) buf
    = Some (slotted m (if dynamic s then cd else cs) s,
            if dynamic s then atCounts cs (wrap32 (cd + 1)) m
            else atCounts (wrap32 (cs + 1)) cd m,
            buf1).
Proof.
  intros Hp Hv. unfold slotStage.
  change (p (atCounts cs cd m)) with (p m).
  destruct (Z.eqb_spec (p m) 0) as [E | _]; [lia |].
  destruct s as [cD tD dyn upd0 mi mp off ini]. cbn in Hv.
  unfold runUpdater, slottedStage, slotValue, set_materialsSSBOOffset, set_initialized.
  cbn [dynamic surfaceDataUpdater initialized colorDynamic texMatricesDynamic
       materialIDs materialPackIDs materialsSSBOOffset].
  destruct upd0; try contradiction;
    destruct ini, cD, tD, dyn; cbn [negb orb andb];
    eexists; reflexivity.
Qed.

Lemma slottedStages_cons q m cs cd s rest :
  slottedStages GetPaddedSize base q m cs cd (s :: rest)
  = (if matches q m s then slotted m (if dynamic s then cd else cs) s else s)
      :: slottedStages GetPaddedSize base q m
           (cs + (if kind q m false s then 1 else 0))
           (cd + (if kind q m true s then 1 else 0)) rest.
Proof.
  unfold slottedStages. cbn [imap take]. f_equal.
  - rewrite countKind_nil, Z.add_0_r. reflexivity.
  - apply imap_ext. intros k s' Hk. cbn [compose take].
    destruct (matches q m s'); [| reflexivity].
    rewrite countKind_cons. f_equal.
    unfold kind. destruct (matches q m s), (dynamic s), (dynamic s');
      cbn [andb Bool.eqb]; lia.
Qed.

(** The stage loop for one surface and one Material. *)
Lemma slotStages_spec q stages :
  forall cs cd m buf h,
    0 < p m -> Forall valid stages ->
    0 <= cs -> 0 <= cd ->
    cs + countKind q m false stages < 2 ^ 32 ->
    cd + countKind q m true stages < 2 ^ 32 ->
    exists buf1,
      slotStages GetPaddedSize uniformWords base q stages (atCounts cs cd m) buf h
      = Some (slottedStages GetPaddedSize base q m cs cd stages,
              atCounts (cs + countKind q m false stages)
                       (cd + countKind q m true stages) m,
              buf1,
              h || existsb (kind q m true) stages).
Proof.
  induction stages as [| s rest IH]; intros cs cd m buf h Hp Hv Hcs Hcd Hs Hd.
  - exists buf. cbn [slotStages existsb]. rewrite !countKind_nil, !Z.add_0_r, orb_false_r.
    reflexivity.
  - apply Forall_cons in Hv as [Hv1 Hv].
    rewrite countKind_cons in Hs, Hd.
    pose proof (countKind_nonneg q m false rest).
    pose proof (countKind_nonneg q m true rest).
    cbn [slotStages existsb]. rewrite slottedStages_cons, !countKind_cons.
    change (id (atCounts cs cd m)) with (id m).
    fold (matches q m s). unfold kind in *.
    destruct (matches q m s) eqn:Em.
    + (* a stage of the Material *)
      assert (negb (materialIDs s =? id m) || negb (materialPackIDs s =? q) = false)
        as ->.
      { unfold matches in Em. apply andb_true_iff in Em as [-> ->]. reflexivity. }
      destruct (slotStage_spec s cs cd m buf Hp Hv1) as (buf1 & ->).
      cbn [andb] in *.
      destruct (dynamic s) eqn:Edyn; cbn [Bool.eqb] in *.
      * rewrite (wrap32_small (cd + 1)) by (unfold is_u32; lia).
        destruct (IH cs (cd + 1) m buf1 (h || true) Hp Hv Hcs ltac:(lia)
                     ltac:(lia) ltac:(lia)) as (buf2 & ->).
        exists buf2. rewrite !Z.add_0_r, <- orb_assoc, Z.add_0_l, Z.add_assoc.
        reflexivity.
      * rewrite (wrap32_small (cs + 1)) by (unfold is_u32; lia).
        destruct (IH (cs + 1) cd m buf1 (h || false) Hp Hv ltac:(lia) Hcd
                     ltac:(lia) ltac:(lia)) as (buf2 & ->).
        exists buf2. rewrite !Z.add_0_r, <- orb_assoc, Z.add_0_l, Z.add_assoc.
        reflexivity.
    + assert (negb (materialIDs s =? id m) || negb (materialPackIDs s =? q) = true)
        as ->.
      { unfold matches in Em. apply andb_false_iff in Em as [-> | ->];
          [reflexivity | apply orb_true_r]. }
      cbn [andb] in *.
      destruct (IH cs cd m buf h Hp Hv Hcs Hcd ltac:(lia) ltac:(lia)) as (buf2 & ->).
      exists buf2. rewrite !Z.add_0_r, !Z.add_0_l. reflexivity.
Qed.

Lemma countKindIn_cons store q m dyn a addrs :
  countKindIn store q m dyn (a :: addrs)
  = countKind q m dyn (stagesAt store a) + countKindIn store q m dyn addrs.
Proof. reflexivity. Qed.

Lemma countKindIn_nonneg store q m dyn addrs : 0 <= countKindIn store q m dyn addrs.
Proof.
  induction addrs as [| a addrs IH]; [cbn; lia |].
  rewrite countKindIn_cons. pose proof (countKind_nonneg q m dyn (stagesAt store a)).
  lia.
Qed.

Lemma countKindIn_ext store store' q m dyn addrs :
  (forall a, a ∈ addrs -> store' a = store a) ->
  countKindIn store' q m dyn addrs = countKindIn store q m dyn addrs.
Proof.
  intros H. induction addrs as [| a addrs IH]; [reflexivity |].
  rewrite !countKindIn_cons. unfold stagesAt at 1.
  rewrite (H a) by apply list_elem_of_here. fold (stagesAt store a).
  rewrite IH; [reflexivity |]. intros a' Ha'. apply H, list_elem_of_further, Ha'.
Qed.

Lemma surfCopies_ext store store' q m addrs :
  (forall a, a ∈ addrs -> store' a = store a) ->
  forall cs cd,
    surfCopies GetPaddedSize base store' q m cs cd addrs
    = surfCopies GetPaddedSize base store q m cs cd addrs.
Proof.
  induction addrs as [| a addrs IH]; intros H cs cd; [reflexivity |].
  cbn [surfCopies]. unfold stagesAt at 1 2 3 4.
  rewrite (H a) by apply list_elem_of_here. fold (stagesAt store a).
  rewrite IH; [reflexivity |]. intros a' Ha'. apply H, list_elem_of_further, Ha'.
Qed.

(** The loop over the surfaces of one Material. *)
Lemma slotSurfs_spec q addrs :
  forall cs cd m b,
    0 < p m -> NoDup addrs ->
    (forall a, a ∈ addrs ->
               exists stages, surfaces b a = Some stages /\ Forall valid stages) ->
    0 <= cs -> 0 <= cd ->
    cs + countKindIn (surfaces b) q m false addrs < 2 ^ 32 ->
    cd + countKindIn (surfaces b) q m true addrs < 2 ^ 32 ->
    exists b',
      slotSurfs GetPaddedSize uniformWords base q addrs (atCounts cs cd m) b
      = Some (atCounts (cs + countKindIn (surfaces b) q m false addrs)
                       (cd + countKindIn (surfaces b) q m true addrs) m, b') /\
      (forall a, a ∉ addrs -> surfaces b' a = surfaces b a) /\
      (forall (j : nat) a,
         addrs !! j = Some a ->
         surfaces b' a
         = Some (slottedStages GetPaddedSize base q m
                   (cs + countKindIn (surfaces b) q m false (take j addrs))
                   (cd + countKindIn (surfaces b) q m true (take j addrs))
                   (stagesAt (surfaces b) a))) /\
      dynamicDrawSurfs b'
      = dynamicDrawSurfs b
        ++ surfCopies GetPaddedSize base (surfaces b) q m cs cd addrs.
Proof.
  induction addrs as [| a rest IH]; intros cs cd m b Hp Hnd Hpresent Hcs Hcd Hs Hd.
  - exists b. cbn [slotSurfs surfCopies]. unfold countKindIn. cbn.
    rewrite !Z.add_0_r, app_nil_r. split; [reflexivity |].
    split; [reflexivity |]. split; [| reflexivity].
    intros j a H. inversion H.
  - apply NoDup_cons in Hnd as [Hna Hnd].
    rewrite countKindIn_cons in Hs, Hd.
    pose proof (countKindIn_nonneg (surfaces b) q m false rest).
    pose proof (countKindIn_nonneg (surfaces b) q m true rest).
    destruct (Hpresent a (list_elem_of_here _ _)) as (stages & Hst & Hv).
    assert (stagesAt (surfaces b) a = stages) as Hat
      by (unfold stagesAt; rewrite Hst; reflexivity).
    rewrite Hat in Hs, Hd.
    pose proof (countKind_nonneg q m false stages).
    pose proof (countKind_nonneg q m true stages).
    cbn [slotSurfs]. rewrite Hst.
    destruct (slotStages_spec q stages cs cd m (buffer b) false Hp Hv Hcs Hcd
                ltac:(lia) ltac:(lia)) as (buf1 & ->).
    cbn [orb].
    set (b1 := Build_Build _ _ _).
    assert (forall a', a' ∈ rest -> surfaces b1 a' = surfaces b a') as Hsame.
    { intros a' Ha'. subst b1. cbn [surfaces]. apply upd_other.
      intros ->. contradiction. }
    destruct (IH (cs + countKind q m false stages) (cd + countKind q m true stages)
                 m b1 Hp Hnd) as (b' & Hrun & Hout & Hin & Hdyn).
    { intros a' Ha'. rewrite (Hsame a' Ha').
      apply Hpresent, list_elem_of_further, Ha'. }
    { lia. }
    { lia. }
    { rewrite (countKindIn_ext (surfaces b)) by exact Hsame. lia. }
    { rewrite (countKindIn_ext (surfaces b)) by exact Hsame. lia. }
    rewrite !(countKindIn_ext (surfaces b) (surfaces b1)) in Hrun by exact Hsame.
    exists b'. rewrite Hrun, !countKindIn_cons, Hat, !Z.add_assoc.
    split; [reflexivity |]. split; [| split].
    + intros a' Ha'. apply not_elem_of_cons in Ha' as [Hne Ha'].
      rewrite (Hout a' Ha'). subst b1. cbn [surfaces]. apply upd_other. exact Hne.
    + intros [| j] a' Hj; cbn in Hj.
      * injection Hj as <-. rewrite (Hout a Hna). subst b1. cbn [surfaces take].
        rewrite upd_same, Hat. unfold countKindIn. cbn. rewrite !Z.add_0_r.
        reflexivity.
      * pose proof (list_elem_of_lookup_2 _ _ _ Hj) as Ha'.
        rewrite (Hin j a' Hj). cbn [take].
        assert (forall dyn,
                   countKindIn (surfaces b1) q m dyn (take j rest)
                   = countKindIn (surfaces b) q m dyn (take j rest)) as Hc.
        { intros dyn. apply countKindIn_ext. intros x Hx. apply Hsame.
          apply (subseteq_take j rest), Hx. }
        rewrite !Hc, !countKindIn_cons, Hat, !Z.add_assoc.
        unfold stagesAt. rewrite (Hsame a' Ha'). reflexivity.
    + rewrite Hdyn. cbn [surfCopies]. rewrite Hat.
      rewrite (surfCopies_ext (surfaces b) (surfaces b1)) by exact Hsame.
      subst b1. cbn [dynamicDrawSurfs].
      destruct (existsb (kind q m true) stages); cbn [app];
        rewrite <- ?app_assoc; reflexivity.
Qed.
End WithShaders.

End SlotLoopFacts.

(** ** The third loop, Material by Material *)

Module SlotInvariantFacts.
Import BuildSlots LoopFacts SlotLoopFacts.

Lemma sameShape_refl s : sameShape s s.
Proof. repeat split. Qed.

Lemma sameShape_kind q m dyn s s' : sameShape s s' -> kind q m dyn s = kind q m dyn s'.
Proof.
  intros (_ & _ & Hd & _ & Hi & Hp). unfold kind, matches. now rewrite Hd, Hi, Hp.
Qed.

Lemma sameShape_matches q m s s' : sameShape s s' -> matches q m s = matches q m s'.
Proof. intros (_ & _ & _ & _ & Hi & Hp). unfold matches. now rewrite Hi, Hp. Qed.

Lemma countKind_shape q m dyn (l l' : list SurfStage) :
  Forall2 sameShape l l' ->
  forall k, countKind q m dyn (take k l) = countKind q m dyn (take k l').
Proof.
  induction 1 as [| s s' l l' Hs _ IH]; intros [| k]; try reflexivity.
  cbn [take]. rewrite !countKind_cons, (sameShape_kind q m dyn s s' Hs), IH.
  reflexivity.
Qed.

Lemma countKind_shape_all q m dyn (l l' : list SurfStage) :
  Forall2 sameShape l l' -> countKind q m dyn l = countKind q m dyn l'.
Proof.
  intros H. pose proof (countKind_shape q m dyn l l' H (length l)) as Hk.
  rewrite firstn_all in Hk. rewrite (Forall2_length _ _ _ H), firstn_all in Hk.
  exact Hk.
Qed.

Lemma atCounts_self m :
  atCounts (currentStaticDrawSurfCount m) (currentDynamicDrawSurfCount m) m = m.
Proof. destruct m. reflexivity. Qed.

Section WithShaders.
Variable GetPaddedSize : GLShader -> Z.
Variable uniformWords : Updater -> Material -> SurfStage -> list Z.
Variable base : Z.
Variable store0 : Store.

Local Abbreviation p := (paddedSizeOf GetPaddedSize).
Local Abbreviation slotted := (slottedStage GetPaddedSize base).
Local Abbreviation valid :=
  (fun s : SurfStage => surfaceDataUpdater s <> UpdateSurfaceDataNONE).
Local Abbreviation Inv := (storeInv GetPaddedSize base store0).
Local Abbreviation ready := (slotReady GetPaddedSize store0).

Lemma sameShape_slotted m c s : sameShape (slotted m c s) s.
Proof. repeat split. Qed.

(** The stages of a surface between two Materials, against the stages
    it began with. *)
Lemma storeInv_stages done store a stages0 :
  Inv done store -> store0 a = Some stages0 ->
  exists stages,
    store a = Some stages /\ Forall2 sameShape stages stages0 /\
    forall (k : nat) s0,
      stages0 !! k = Some s0 ->
      exists s, stages !! k = Some s /\
                stageInv GetPaddedSize base store0 done a k stages0 s0 s.
Proof.
  intros Hinv Ha. specialize (Hinv a). rewrite Ha in Hinv.
  destruct Hinv as (stages & Hst & Hlen & Hk).
  exists stages. split; [exact Hst |]. split; [| exact Hk].
  apply Forall2_same_length_lookup. split; [exact Hlen |].
  intros k s s0 Hs Hs0. destruct (Hk k s0 Hs0) as (s' & Hs' & Hsh & _).
  unfold drawSurf_t in Hs'. assert (s' = s) as -> by congruence. exact Hsh.
Qed.

Lemma storeInv_stagesAt done store a :
  Inv done store -> Forall2 sameShape (stagesAt store a) (stagesAt store0 a).
Proof.
  intros Hinv. unfold stagesAt.
  destruct (store0 a) as [stages0 |] eqn:Ha.
  - destruct (storeInv_stages done store a stages0 Hinv Ha) as (stages & -> & H & _).
    exact H.
  - specialize (Hinv a). rewrite Ha in Hinv. rewrite Hinv. constructor.
Qed.

Lemma storeInv_countKindIn done store q m dyn addrs :
  Inv done store ->
  countKindIn store q m dyn addrs = countKindIn store0 q m dyn addrs.
Proof.
  intros Hinv. induction addrs as [| a addrs IH]; [reflexivity |].
  rewrite !countKindIn_cons, IH. f_equal.
  apply countKind_shape_all, (storeInv_stagesAt done), Hinv.
Qed.

Lemma instance_sum (dyn : bool) cs cd xs xd c :
  (if dyn then cd + xd else cs + xs) + c
  = (if dyn then cd else cs) + (if dyn then xd else xs) + c.
Proof. destruct dyn; lia. Qed.

(** One Material of the loop. *)
Lemma slotSurfs_step q i m done b :
  ready q i m ->
  Inv done (surfaces b) ->
  (forall q' m', (q', m') ∈ done -> q' <> q \/ id m' <> id m) ->
  exists b',
    slotSurfs GetPaddedSize uniformWords base q (drawSurfs m) m b
    = Some (slotsTaken store0 q m, b') /\
    Inv (done ++ [(q, m)]) (surfaces b') /\
    dynamicDrawSurfs b'
    = dynamicDrawSurfs b
      ++ surfCopies GetPaddedSize base (surfaces b) q m
           (currentStaticDrawSurfCount m) (currentDynamicDrawSurfCount m)
           (drawSurfs m) /\
    (forall (j : nat) a,
       drawSurfs m !! j = Some a ->
       surfaces b' a
       = Some (slottedStages GetPaddedSize base q m
                 (currentStaticDrawSurfCount m
                  + countKindIn store0 q m false (take j (drawSurfs m)))
                 (currentDynamicDrawSurfCount m
                  + countKindIn store0 q m true (take j (drawSurfs m)))
                 (stagesAt (surfaces b) a))).
Proof.
  intros (Hid & Hp & Hnd & Hpresent & Hcs & Hcd & Hs & Hd) Hinv Hother.
  assert (forall dyn addrs,
             countKindIn (surfaces b) q m dyn addrs
             = countKindIn store0 q m dyn addrs) as Hcount
    by (intros; apply (storeInv_countKindIn done), Hinv).
  destruct (slotSurfs_spec GetPaddedSize uniformWords base q (drawSurfs m)
              (currentStaticDrawSurfCount m) (currentDynamicDrawSurfCount m) m b
              Hp Hnd) as (b' & Hrun & Hout & Hin & Hcopies);
    try assumption; try (rewrite Hcount; assumption).
  { intros a Ha. destruct (Hpresent a Ha) as (stages0 & Ha0 & Hv).
    destruct (storeInv_stages done (surfaces b) a stages0 Hinv Ha0)
      as (stages & Hst & Hsh & _).
    exists stages. split; [exact Hst |].
    rewrite Forall_lookup in Hv |- *. intros k s Hk.
    destruct (Forall2_lookup_l _ _ _ _ _ Hsh Hk) as (s0 & Hk0 & (_ & _ & _ & Hu & _)).
    rewrite Hu. exact (Hv k s0 Hk0). }
  rewrite atCounts_self, !Hcount in Hrun.
  exists b'. split; [exact Hrun |].
  split; [| split; [exact Hcopies |]].
  2:{ intros j a Hj. rewrite (Hin j a Hj), !Hcount. reflexivity. }
  intros a. destruct (store0 a) as [stages0 |] eqn:Ha0.
  - destruct (storeInv_stages done (surfaces b) a stages0 Hinv Ha0)
      as (stages & Hst & Hsh & Hk).
    destruct (decide (a ∈ drawSurfs m)) as [Hain | Hain].
    + destruct (proj1 (list_elem_of_lookup _ _) Hain) as [j Hj].
      assert (stagesAt (surfaces b) a = stages) as Hat
        by (unfold stagesAt; rewrite Hst; reflexivity).
      eexists. split; [rewrite (Hin j a Hj), Hat, !Hcount; reflexivity |].
      split.
      { unfold slottedStages. rewrite length_imap.
        exact (Forall2_length _ _ _ Hsh). }
      intros k s0 Hk0.
      destruct (Hk k s0 Hk0) as (s & Hks & Hshape & Hdone & Hfree).
      eexists. split.
      { unfold slottedStages, drawSurf_t in *. rewrite list_lookup_imap, Hks.
        reflexivity. }
      cbn beta. rewrite (sameShape_matches q m s s0 Hshape).
      destruct (matches q m s0) eqn:Hmatch.
      * assert (s = s0) as ->.
        { apply Hfree. intros q' m' Hin' Hm'. exfalso.
          unfold matches in Hmatch, Hm'.
          apply andb_prop in Hmatch as [E1 E2]. apply andb_prop in Hm' as [E3 E4].
          apply Z.eqb_eq in E1, E2, E3, E4.
          destruct (Hother q' m' Hin'); congruence. }
        assert (slotted m
                  ((if dynamic s0
                    then currentDynamicDrawSurfCount m
                         + countKindIn store0 q m true (take j (drawSurfs m))
                    else currentStaticDrawSurfCount m
                         + countKindIn store0 q m false (take j (drawSurfs m)))
                   + countKind q m (dynamic s0) (take k stages)) s0
                = slotted m (instanceOf store0 q m j k stages0 (dynamic s0)) s0)
          as ->.
        { f_equal. unfold instanceOf.
          rewrite (countKind_shape q m (dynamic s0) stages stages0 Hsh k).
          rewrite instance_sum. destruct (dynamic s0); reflexivity. }
        split; [apply sameShape_slotted |]. split.
        -- intros q' m' j' Hin' Hm' Hj'.
           apply elem_of_app in Hin' as [Hin' | Hin'].
           ++ exfalso. unfold matches in Hmatch, Hm'.
              apply andb_prop in Hmatch as [E1 E2]. apply andb_prop in Hm' as [E3 E4].
              apply Z.eqb_eq in E1, E2, E3, E4.
              destruct (Hother q' m' Hin'); congruence.
           ++ apply list_elem_of_singleton in Hin'. injection Hin' as -> ->.
              assert (j' = j) as -> by exact (NoDup_lookup _ _ _ _ Hnd Hj' Hj).
              reflexivity.
        -- intros Hnone. exfalso.
           apply (Hnone q m); [apply elem_of_app; right; apply list_elem_of_here
                              | exact Hmatch | exact Hain].
      * split; [exact Hshape |]. split.
        -- intros q' m' j' Hin' Hm' Hj'.
           apply elem_of_app in Hin' as [Hin' | Hin'].
           ++ exact (Hdone q' m' j' Hin' Hm' Hj').
           ++ apply list_elem_of_singleton in Hin'. injection Hin' as -> ->.
              congruence.
        -- intros Hnone. apply Hfree. intros q' m' Hin'.
           apply Hnone, elem_of_app. left. exact Hin'.
    + exists stages. rewrite (Hout a Hain). split; [exact Hst |].
      split; [exact (Forall2_length _ _ _ Hsh) |].
      intros k s0 Hk0.
      destruct (Hk k s0 Hk0) as (s & Hks & Hshape & Hdone & Hfree).
      exists s. split; [exact Hks |]. split; [exact Hshape |]. split.
      * intros q' m' j' Hin' Hm' Hj'.
        apply elem_of_app in Hin' as [Hin' | Hin'].
        -- exact (Hdone q' m' j' Hin' Hm' Hj').
        -- apply list_elem_of_singleton in Hin'. injection Hin' as -> ->.
           exfalso. apply Hain. exact (list_elem_of_lookup_2 _ _ _ Hj').
      * intros Hnone. apply Hfree. intros q' m' Hin'.
        apply Hnone, elem_of_app. left. exact Hin'.
  - pose proof (Hinv a) as Hnone. rewrite Ha0 in Hnone.
    rewrite Hout; [exact Hnone |].
    intros Hain. destruct (Hpresent a Hain) as (? & Habs & _). congruence.
Qed.

Lemma existsb_shape (f g : SurfStage -> bool) (l l' : list SurfStage) :
  Forall2 (fun s s' => f s = g s') l l' -> existsb f l = existsb g l'.
Proof. induction 1 as [| s s' l l' Hs _ IH]; cbn; [| rewrite Hs, IH]; reflexivity. Qed.

Lemma storeInv_hasDynamic done store q m a :
  Inv done store ->
  existsb (kind q m true) (stagesAt store a)
  = existsb (kind q m true) (stagesAt store0 a).
Proof.
  intros Hinv. apply existsb_shape.
  eapply Forall2_impl; [exact (storeInv_stagesAt done store a Hinv) |].
  intros s s' Hs. apply sameShape_kind, Hs.
Qed.

(** The copies of one Material, against its surfaces with a dynamic
    stage. *)
Lemma surfCopies_spec store q m addrs :
  forall cs cd,
    Forall2
      (fun a copy =>
         exists j : nat,
           addrs !! j = Some a /\
           copy = slottedStages GetPaddedSize base q m
                    (cs + countKindIn store q m false (take j addrs))
                    (cd + countKindIn store q m true (take j addrs))
                    (stagesAt store a))
      (List.filter (fun a => existsb (kind q m true) (stagesAt store a)) addrs)
      (surfCopies GetPaddedSize base store q m cs cd addrs).
Proof.
  induction addrs as [| a rest IH]; intros cs cd; [constructor |].
  cbn [List.filter surfCopies].
  assert (Forall2
            (fun a0 copy =>
               exists j : nat,
                 (a :: rest) !! j = Some a0 /\
                 copy = slottedStages GetPaddedSize base q m
                          (cs + countKindIn store q m false (take j (a :: rest)))
                          (cd + countKindIn store q m true (take j (a :: rest)))
                          (stagesAt store a0))
            (List.filter (fun a => existsb (kind q m true) (stagesAt store a)) rest)
            (surfCopies GetPaddedSize base store q m
               (cs + countKind q m false (stagesAt store a))
               (cd + countKind q m true (stagesAt store a)) rest)) as Hrest.
  { eapply Forall2_impl; [apply IH |].
    intros a0 copy (j & Hj & ->). exists (S j). split; [exact Hj |].
    cbn [take]. rewrite !countKindIn_cons, !Z.add_assoc. reflexivity. }
  destruct (existsb (kind q m true) (stagesAt store a)); [| exact Hrest].
  cbn [app]. constructor; [| exact Hrest].
  exists 0%nat. split; [reflexivity |].
  cbn [take]. unfold countKindIn. cbn. rewrite !Z.add_0_r. reflexivity.
Qed.

Lemma storeInv_surfInv done store a stages :
  Inv done store -> store0 a <> None -> store a = Some stages ->
  surfInv GetPaddedSize base store0 done a stages.
Proof.
  intros Hinv Ha Hst. specialize (Hinv a).
  destruct (store0 a) as [stages0 |] eqn:Ha0; [| congruence].
  destruct Hinv as (stages' & Hst' & Hlen & Hk).
  assert (stages' = stages) as -> by congruence.
  exists stages0. split; [exact Ha0 |]. split; [exact Hlen | exact Hk].
Qed.

(** The Materials of one pack, from the one at position [n] on. *)
Lemma slotMaterials_spec q rest :
  forall (n : nat) done b,
    (forall (i : nat) m, rest !! i = Some m -> ready q (n + i) m) ->
    (forall q' m', (q', m') ∈ done -> q' <> q \/ id m' < Z.of_nat n) ->
    Inv done (surfaces b) ->
    exists b' copies,
      slotMaterials GetPaddedSize uniformWords base q rest b
      = Some (map (slotsTaken store0 q) rest, b') /\
      Inv (done ++ map (pair q) rest) (surfaces b') /\
      dynamicDrawSurfs b' = dynamicDrawSurfs b ++ copies /\
      Forall2 (fun v copy => surfInv GetPaddedSize base store0 (fst v) (snd v) copy)
              (copyVisits store0 q done rest) copies.
Proof.
  induction rest as [| m rest IH]; intros n done b Hready Hdone Hinv.
  - exists b, []. cbn. rewrite !app_nil_r.
    split; [reflexivity |]. split; [exact Hinv |]. split; [reflexivity | constructor].
  - pose proof (Hready 0%nat m eq_refl) as Hm. rewrite Nat.add_0_r in Hm.
    assert (id m = Z.of_nat n) as Hid by apply Hm.
    destruct (slotSurfs_step q n m done b Hm Hinv) as (b1 & Hrun1 & Hinv1 & Hc1 & Hin1).
    { intros q' m' Hin. destruct (Hdone q' m' Hin); [left; assumption | right; lia]. }
    destruct (IH (S n) (done ++ [(q, m)]) b1) as (b2 & copies & Hrun2 & Hinv2 & Hc2 & Hv2).
    { intros i m' Hi. specialize (Hready (S i) m' Hi).
      rewrite Nat.add_succ_r in Hready. exact Hready. }
    { intros q' m' Hin. apply elem_of_app in Hin as [Hin | Hin].
      - destruct (Hdone q' m' Hin); [left; assumption | right; lia].
      - apply list_elem_of_singleton in Hin. injection Hin as -> ->. right. lia. }
    { exact Hinv1. }
    exists b2. eexists. cbn [slotMaterials map copyVisits].
    rewrite Hrun1, Hrun2. split; [reflexivity |].
    split; [rewrite <- app_assoc in Hinv2; exact Hinv2 |].
    split; [rewrite Hc2, Hc1, <- app_assoc; reflexivity |].
    apply Forall2_app; [| exact Hv2].
    apply Forall2_fmap_l. unfold copiedFor.
    assert (List.filter
              (fun a => existsb (kind q m true) (stagesAt store0 a)) (drawSurfs m)
            = List.filter
                (fun a => existsb (kind q m true) (stagesAt (surfaces b) a))
                (drawSurfs m)) as ->.
    { apply List.filter_ext. intros a. symmetry.
      apply (storeInv_hasDynamic done), Hinv. }
    eapply Forall2_impl; [apply surfCopies_spec |].
    intros a copy (j & Hj & ->). unfold compose. cbn [fst snd].
    apply (storeInv_surfInv _ (surfaces b1)); [exact Hinv1 | |].
    + destruct Hm as (_ & _ & _ & Hpresent & _).
      destruct (Hpresent a (list_elem_of_lookup_2 _ _ _ Hj)) as (? & -> & _).
      discriminate.
    + rewrite (Hin1 j a Hj).
      rewrite !(storeInv_countKindIn done (surfaces b)) by exact Hinv.
      reflexivity.
Qed.
End WithShaders.

End SlotInvariantFacts.

(** ** The third loop of [GenerateWorldMaterialsBuffer] as a whole *)

Module ThirdLoopFacts.
Import SlotSamples LoopFacts SlotLoopFacts SlotInvariantFacts.

Lemma stagesAt_Some (store : Store) a stages :
  store a = Some stages -> stagesAt store a = stages.
Proof. intros H. unfold stagesAt. rewrite H. reflexivity. Qed.

Lemma countKind_app q m dyn (l1 l2 : list SurfStage) :
  countKind q m dyn (l1 ++ l2) = countKind q m dyn l1 + countKind q m dyn l2.
Proof. unfold countKind. rewrite List.filter_app, length_app. lia. Qed.

Lemma countKind_take_S q m dyn (l : list SurfStage) (k : nat) s :
  l !! k = Some s ->
  countKind q m dyn (take (S k) l)
  = countKind q m dyn (take k l) + (if kind q m dyn s then 1 else 0).
Proof.
  intros Hk. rewrite (take_S_r l k s Hk), countKind_app. f_equal.
  unfold countKind. cbn. destruct (kind q m dyn s); reflexivity.
Qed.

Lemma countKind_take_le q m dyn (l : list SurfStage) (k : nat) :
  countKind q m dyn (take k l) <= countKind q m dyn l.
Proof.
  rewrite <- (take_drop k l) at 2. rewrite countKind_app.
  pose proof (countKind_nonneg q m dyn (drop k l)). lia.
Qed.

Lemma countKind_take_mono q m dyn (l : list SurfStage) (k k' : nat) :
  (k <= k')%nat -> countKind q m dyn (take k l) <= countKind q m dyn (take k' l).
Proof.
  intros Hk. replace (take k l) with (take k (take k' l)).
  - apply countKind_take_le.
  - rewrite take_take. f_equal. lia.
Qed.

Lemma countKindIn_app store q m dyn (l1 l2 : list Z) :
  countKindIn store q m dyn (l1 ++ l2)
  = countKindIn store q m dyn l1 + countKindIn store q m dyn l2.
Proof. unfold countKindIn. rewrite map_app, sumZ_app. reflexivity. Qed.

Lemma countKindIn_take_S store q m dyn (l : list Z) (j : nat) a :
  l !! j = Some a ->
  countKindIn store q m dyn (take (S j) l)
  = countKindIn store q m dyn (take j l) + countKind q m dyn (stagesAt store a).
Proof.
  intros Hj. rewrite (take_S_r l j a Hj), countKindIn_app. f_equal.
  unfold countKindIn. cbn. lia.
Qed.

Lemma countKindIn_take_le store q m dyn (l : list Z) (j : nat) :
  countKindIn store q m dyn (take j l) <= countKindIn store q m dyn l.
Proof.
  rewrite <- (take_drop j l) at 2. rewrite countKindIn_app.
  pose proof (countKindIn_nonneg store q m dyn (drop j l)). lia.
Qed.

Lemma countKindIn_take_mono store q m dyn (l : list Z) (j j' : nat) :
  (j <= j')%nat ->
  countKindIn store q m dyn (take j l) <= countKindIn store q m dyn (take j' l).
Proof.
  intros Hj. replace (take j l) with (take j (take j' l)).
  - apply countKindIn_take_le.
  - rewrite take_take. f_equal. lia.
Qed.

Section WithStore.
Variable store0 : Store.

Local Abbreviation count0 :=
  (fun (m : Material) (dyn : bool) =>
     if dyn then currentDynamicDrawSurfCount m else currentStaticDrawSurfCount m).

(** The instance of a stage lies after the Material's count on entry
    and before its count on exit. *)
Lemma instanceOf_range q m dyn (j k : nat) a stages0 s0 :
  drawSurfs m !! j = Some a -> store0 a = Some stages0 ->
  stages0 !! k = Some s0 -> kind q m dyn s0 = true ->
  count0 m dyn <= instanceOf store0 q m j k stages0 dyn
  < count0 m dyn + countKindIn store0 q m dyn (drawSurfs m).
Proof.
  intros Hj Ha Hk Hkind. unfold instanceOf.
  pose proof (countKindIn_nonneg store0 q m dyn (take j (drawSurfs m))).
  pose proof (countKind_nonneg q m dyn (take k stages0)).
  pose proof (countKindIn_take_le store0 q m dyn (drawSurfs m) (S j)) as H1.
  rewrite (countKindIn_take_S _ _ _ _ _ _ _ Hj) in H1.
  rewrite (stagesAt_Some _ _ _ Ha) in H1.
  pose proof (countKind_take_le q m dyn stages0 (S k)) as H2.
  rewrite (countKind_take_S _ _ _ _ _ _ Hk), Hkind in H2.
  destruct dyn; lia.
Qed.

(** Instances grow along [drawSurfs] and, in one surface, along its
    stages. *)
Lemma instanceOf_order q m dyn (j k j' k' : nat) a stages0 s0 a' stages0' :
  drawSurfs m !! j = Some a -> store0 a = Some stages0 ->
  stages0 !! k = Some s0 -> kind q m dyn s0 = true ->
  drawSurfs m !! j' = Some a' -> store0 a' = Some stages0' ->
  (j < j')%nat \/ (j = j' /\ (k < k')%nat) ->
  instanceOf store0 q m j k stages0 dyn < instanceOf store0 q m j' k' stages0' dyn.
Proof.
  intros Hj Ha Hk Hkind Hj' Ha' Hlt. unfold instanceOf.
  pose proof (countKind_take_le q m dyn stages0 (S k)) as H2.
  rewrite (countKind_take_S _ _ _ _ _ _ Hk), Hkind in H2.
  destruct Hlt as [Hlt | [-> Hlt]].
  - pose proof (countKindIn_take_mono store0 q m dyn (drawSurfs m) (S j) j'
                  ltac:(lia)) as H1.
    rewrite (countKindIn_take_S _ _ _ _ _ _ _ Hj) in H1.
    rewrite (stagesAt_Some _ _ _ Ha) in H1.
    pose proof (countKind_nonneg q m dyn (take k' stages0')).
    lia.
  - assert (a' = a) as -> by congruence.
    assert (stages0' = stages0) as -> by congruence.
    pose proof (countKind_take_mono q m dyn stages0 (S k) k' ltac:(lia)) as H1.
    rewrite (countKind_take_S _ _ _ _ _ _ Hk), Hkind in H1.
    lia.
Qed.

Lemma instanceOf_inj q m dyn (j k j' k' : nat) a stages0 s0 a' stages0' s0' :
  drawSurfs m !! j = Some a -> store0 a = Some stages0 ->
  stages0 !! k = Some s0 -> kind q m dyn s0 = true ->
  drawSurfs m !! j' = Some a' -> store0 a' = Some stages0' ->
  stages0' !! k' = Some s0' -> kind q m dyn s0' = true ->
  instanceOf store0 q m j k stages0 dyn = instanceOf store0 q m j' k' stages0' dyn ->
  j = j' /\ k = k'.
Proof.
  intros Hj Ha Hk Hkind Hj' Ha' Hk' Hkind' Heq.
  destruct (lt_eq_lt_dec j j') as [[Hlt | ->] | Hlt].
  - pose proof (instanceOf_order q m dyn j k j' k' a stages0 s0 a' stages0'
                  Hj Ha Hk Hkind Hj' Ha' ltac:(left; exact Hlt)). lia.
  - split; [reflexivity |].
    destruct (lt_eq_lt_dec k k') as [[Hlt | ->] | Hlt]; [| reflexivity |].
    + pose proof (instanceOf_order q m dyn j' k j' k' a stages0 s0 a' stages0'
                    Hj Ha Hk Hkind Hj' Ha' ltac:(right; split; [reflexivity | exact Hlt])).
      lia.
    + pose proof (instanceOf_order q m dyn j' k' j' k a' stages0' s0' a stages0
                    Hj' Ha' Hk' Hkind' Hj Ha ltac:(right; split; [reflexivity | exact Hlt])).
      lia.
  - pose proof (instanceOf_order q m dyn j' k' j k a' stages0' s0' a stages0
                  Hj' Ha' Hk' Hkind' Hj Ha ltac:(left; exact Hlt)). lia.
Qed.
End WithStore.

Section WithShaders.
Variable GetPaddedSize : GLShader -> Z.
Variable uniformWords : Updater -> Material -> SurfStage -> list Z.
Variable base : Z.
Variable store0 : Store.

Local Abbreviation Inv := (storeInv GetPaddedSize base store0).
Local Abbreviation ready := (slotReady GetPaddedSize store0).
Local Abbreviation copyOf :=
  (fun (v : list (Z * Material) * Z) (copy : drawSurf_t) =>
     surfInv GetPaddedSize base store0 (fst v) (snd v) copy).

Lemma storeInv_init : Inv [] store0.
Proof.
  intros a. destruct (store0 a) as [stages0 |] eqn:Ha; [| reflexivity].
  exists stages0. split; [reflexivity |]. split; [reflexivity |].
  intros k s0 Hk. exists s0. split; [exact Hk |].
  split; [apply sameShape_refl |]. split; [| reflexivity].
  intros q m j Hin. inversion Hin.
Qed.

(** One round of the loop over the packs. *)
Lemma slotPack_spec (q : nat) packs pack done b :
  packs !! q = Some pack ->
  (forall (i : nat) m, materials pack !! i = Some m -> ready (Z.of_nat q) i m) ->
  (forall q' m', (q', m') ∈ done -> q' <> Z.of_nat q) ->
  Inv done (surfaces b) ->
  exists b' copies,
    slotPack GetPaddedSize uniformWords base (Z.of_nat q) (packs, b)
    = Some (<[q := set_materials
                     (map (slotsTaken store0 (Z.of_nat q)) (materials pack)) pack]>
              packs, b') /\
    Inv (done ++ map (pair (Z.of_nat q)) (materials pack)) (surfaces b') /\
    dynamicDrawSurfs b' = dynamicDrawSurfs b ++ copies /\
    Forall2 copyOf (copyVisits store0 (Z.of_nat q) done (materials pack)) copies.
Proof.
  intros Hpack Hready Hdone Hinv.
  destruct (slotMaterials_spec GetPaddedSize uniformWords base store0 (Z.of_nat q)
              (materials pack) 0 done b)
    as (b' & copies & Hrun & Hinv' & Hc & Hv); try assumption.
  { intros q' m' Hin. left. exact (Hdone q' m' Hin). }
  exists b', copies. unfold slotPack. cbn [fst snd].
  rewrite Nat2Z.id, Hpack, Hrun. repeat split; assumption.
Qed.

(** The three rounds. *)
Lemma slotPacks_spec p0 p1 p2 b :
  (forall (q i : nat) pack m,
     [p0; p1; p2] !! q = Some pack -> materials pack !! i = Some m ->
     ready (Z.of_nat q) i m) ->
  surfaces b = store0 ->
  exists b' copies,
    slotPacks GetPaddedSize uniformWords base [p0; p1; p2] b
    = Some ([ set_materials (map (slotsTaken store0 0) (materials p0)) p0;
              set_materials (map (slotsTaken store0 1) (materials p1)) p1;
              set_materials (map (slotsTaken store0 2) (materials p2)) p2 ], b') /\
    Inv (allDone [p0; p1; p2]) (surfaces b') /\
    dynamicDrawSurfs b' = dynamicDrawSurfs b ++ copies /\
    Forall2 copyOf (allCopyVisits store0 [p0; p1; p2]) copies.
Proof.
  intros Hready Hb.
  pose proof storeInv_init as Hinv0. rewrite <- Hb in Hinv0 at 2.
  destruct (slotPack_spec 0 [p0; p1; p2] p0 [] b eq_refl)
    as (b1 & c1 & R1 & I1 & D1 & V1); try assumption.
  { intros i m. apply (Hready 0%nat i p0 m). reflexivity. }
  { intros q' m' Hin. inversion Hin. }
  cbn [list_insert insert app] in R1, I1.
  set (q0 := set_materials (map (slotsTaken store0 (Z.of_nat 0)) (materials p0)) p0)
    in R1.
  destruct (slotPack_spec 1 [q0; p1; p2] p1
              (map (pair (Z.of_nat 0)) (materials p0)) b1 eq_refl)
    as (b2 & c2 & R2 & I2 & D2 & V2); try assumption.
  { intros i m. apply (Hready 1%nat i p1 m). reflexivity. }
  { intros q' m' Hin. apply list_elem_of_fmap in Hin as (? & [= -> _] & _).
    discriminate. }
  cbn [list_insert insert] in R2.
  set (q1 := set_materials (map (slotsTaken store0 (Z.of_nat 1)) (materials p1)) p1)
    in R2.
  destruct (slotPack_spec 2 [q0; q1; p2] p2
              (map (pair (Z.of_nat 0)) (materials p0)
               ++ map (pair (Z.of_nat 1)) (materials p1)) b2 eq_refl)
    as (b3 & c3 & R3 & I3 & D3 & V3); try assumption.
  { intros i m. apply (Hready 2%nat i p2 m). reflexivity. }
  { intros q' m' Hin. apply elem_of_app in Hin as [Hin | Hin];
      apply list_elem_of_fmap in Hin as (? & [= -> _] & _); discriminate. }
  cbn [list_insert insert] in R3.
  exists b3, (c1 ++ c2 ++ c3). unfold slotPacks.
  change (Z.of_nat 0) with 0 in *. change (Z.of_nat 1) with 1 in *.
  change (Z.of_nat 2) with 2 in *.
  rewrite R1, R2, R3.
  split; [reflexivity |].
  split; [rewrite <- app_assoc in I3; exact I3 |].
  split; [rewrite D3, D2, D1, <- !app_assoc; reflexivity |].
  unfold allCopyVisits, packDone. cbn [lookup list_lookup app].
  repeat apply Forall2_app; assumption.
Qed.

(** The copies of one pack, each with the Materials run for so far. *)
Lemma copyVisits_elem q ms :
  forall done d a,
    (d, a) ∈ copyVisits store0 q done ms ->
    exists pre m post,
      ms = pre ++ m :: post /\ d = done ++ map (pair q) pre ++ [(q, m)] /\
      a ∈ copiedFor store0 q m.
Proof.
  induction ms as [| m rest IH]; intros done d a Hin; [inversion Hin |].
  cbn [copyVisits] in Hin. apply elem_of_app in Hin as [Hin | Hin].
  - apply list_elem_of_fmap in Hin as (a' & [= -> ->] & Ha).
    exists [], m, rest. split; [reflexivity |]. split; [reflexivity | exact Ha].
  - destruct (IH _ _ _ Hin) as (pre & m' & post & -> & -> & Ha).
    exists (m :: pre), m', post. split; [reflexivity |].
    split; [| exact Ha]. cbn [map app]. rewrite <- app_assoc. reflexivity.
Qed.

Lemma copyVisits_surfaces q ms :
  forall done,
    map snd (copyVisits store0 q done ms)
    = flat_map (fun v => copiedFor store0 (fst v) (snd v)) (map (pair q) ms).
Proof.
  induction ms as [| m rest IH]; intros done; [reflexivity |].
  cbn [copyVisits map flat_map fst snd]. rewrite map_app, IH. f_equal.
  rewrite map_map. cbn [snd]. apply map_id.
Qed.

Lemma allCopyVisits_elem p0 p1 p2 d a :
  (d, a) ∈ allCopyVisits store0 [p0; p1; p2] ->
  exists done q m rest,
    d = done ++ [(q, m)] /\ allDone [p0; p1; p2] = d ++ rest /\
    a ∈ drawSurfs m /\ existsb (kind q m true) (stagesAt store0 a) = true.
Proof.
  unfold allCopyVisits, allDone, packDone. cbn [lookup list_lookup].
  intros Hin.
  assert (forall q m, a ∈ copiedFor store0 q m ->
                      a ∈ drawSurfs m /\
                      existsb (kind q m true) (stagesAt store0 a) = true) as Hcopied.
  { intros q m Ha. unfold copiedFor in Ha.
    apply list_elem_of_In, List.filter_In in Ha as [Ha Hd].
    split; [apply list_elem_of_In; exact Ha | exact Hd]. }
  apply elem_of_app in Hin as [Hin | Hin]; [| apply elem_of_app in Hin as [Hin | Hin]];
    destruct (copyVisits_elem _ _ _ _ _ Hin) as (pre & m & post & E & -> & Ha);
    rewrite E; destruct (Hcopied _ _ Ha) as [Ha1 Ha2].
  - exists (map (pair (Z.of_nat 0)) pre), (Z.of_nat 0), m.
    eexists. split; [reflexivity |]. split; [| split; assumption].
    cbn [app]. rewrite map_app. cbn [map]. rewrite <- !app_assoc. reflexivity.
  - exists (map (pair (Z.of_nat 0)) (materials p0) ++ map (pair (Z.of_nat 1)) pre),
      (Z.of_nat 1), m.
    eexists. split; [rewrite <- app_assoc; reflexivity |].
    split; [| split; assumption].
    rewrite map_app. cbn [map]. rewrite <- !app_assoc. reflexivity.
  - exists ((map (pair (Z.of_nat 0)) (materials p0)
             ++ map (pair (Z.of_nat 1)) (materials p1))
            ++ map (pair (Z.of_nat 2)) pre), (Z.of_nat 2), m.
    eexists. split; [rewrite <- !app_assoc; reflexivity |].
    split; [| split; assumption].
    rewrite map_app. cbn [map]. rewrite <- !app_assoc. reflexivity.
Qed.

Lemma allCopyVisits_surfaces p0 p1 p2 :
  map snd (allCopyVisits store0 [p0; p1; p2])
  = flat_map (fun v => copiedFor store0 (fst v) (snd v)) (allDone [p0; p1; p2]).
Proof.
  unfold allCopyVisits, allDone, packDone. cbn [lookup list_lookup].
  rewrite !map_app, !flat_map_app, !copyVisits_surfaces. reflexivity.
Qed.
End WithShaders.

Local Abbreviation count0 :=
  (fun (m : Material) (dyn : bool) =>
     if dyn then currentDynamicDrawSurfCount m else currentStaticDrawSurfCount m).

(** The third loop of [GenerateWorldMaterialsBuffer], run over three
    packs whose Materials have their position as id, a stride that is
    not 0, surfaces that exist and are listed once each, stages with an
    updater that may be called, and counts that do not wrap. The loop
    completes. It raises the two current counts of every Material by the
    number of the Material's stages of each kind in its [drawSurfs]. A
    stage of a surface listed by its Material is left with the slot of an
    instance of its own, every other stage is left as it was. The
    instances of a Material and a kind lie from the count on entry to
    the count on exit, and no two stages share one. *)
Theorem every_stage_gets_its_own_instance GetPaddedSize uniformWords base packs b :
  length packs = 3%nat ->
  (forall (q i : nat) pack m,
     packs !! q = Some pack -> materials pack !! i = Some m ->
     slotReady GetPaddedSize (surfaces b) (Z.of_nat q) i m) ->
  exists packs' b',
    slotPacks GetPaddedSize uniformWords base packs b = Some (packs', b') /\
    (forall (q : nat) pack,
       packs !! q = Some pack ->
       packs' !! q
       = Some (set_materials
                 (map (fun m =>
                         atCounts
                           (currentStaticDrawSurfCount m
                            + countKindIn (surfaces b) (Z.of_nat q) m false (drawSurfs m))
                           (currentDynamicDrawSurfCount m
                            + countKindIn (surfaces b) (Z.of_nat q) m true (drawSurfs m))
                           m)
                      (materials pack)) pack)) /\
    (forall a, surfaces b a = None -> surfaces b' a = None) /\
    (forall a stages0,
       surfaces b a = Some stages0 ->
       exists stages,
         surfaces b' a = Some stages /\ length stages = length stages0 /\
         forall (k : nat) s0,
           stages0 !! k = Some s0 ->
           exists s,
             stages !! k = Some s /\
             (forall q m (j : nat),
                (q, m) ∈ allDone packs -> matches q m s0 = true ->
                drawSurfs m !! j = Some a ->
                s = slottedStage GetPaddedSize base m
                      (instanceOf (surfaces b) q m j k stages0 (dynamic s0)) s0) /\
             ((forall q m,
                 (q, m) ∈ allDone packs -> matches q m s0 = true ->
                 a ∉ drawSurfs m) ->
              s = s0)) /\
    (forall q m dyn (j k : nat) a stages0 s0,
       drawSurfs m !! j = Some a -> surfaces b a = Some stages0 ->
       stages0 !! k = Some s0 -> kind q m dyn s0 = true ->
       count0 m dyn <= instanceOf (surfaces b) q m j k stages0 dyn
       < count0 m dyn + countKindIn (surfaces b) q m dyn (drawSurfs m) /\
       forall (j' k' : nat) a' stages0' s0',
         drawSurfs m !! j' = Some a' -> surfaces b a' = Some stages0' ->
         stages0' !! k' = Some s0' -> kind q m dyn s0' = true ->
         instanceOf (surfaces b) q m j' k' stages0' dyn
         = instanceOf (surfaces b) q m j k stages0 dyn ->
         j' = j /\ k' = k).
Proof.
  intros Hlen Hready.
  destruct packs as [| p0 [| p1 [| p2 [| ? ?]]]]; try discriminate Hlen.
  destruct (slotPacks_spec GetPaddedSize uniformWords base (surfaces b) p0 p1 p2 b
              Hready eq_refl) as (b' & copies & Hrun & Hinv & _ & _).
  eexists. exists b'. split; [exact Hrun |]. split; [| split; [| split]].
  - intros [| [| [| q]]] pack Hq; cbn in Hq; try discriminate Hq;
      injection Hq as <-; reflexivity.
  - intros a Ha. specialize (Hinv a). rewrite Ha in Hinv. exact Hinv.
  - intros a stages0 Ha. specialize (Hinv a). rewrite Ha in Hinv.
    destruct Hinv as (stages & Hst & Hl & Hk).
    exists stages. split; [exact Hst |]. split; [exact Hl |].
    intros k s0 Hk0. destruct (Hk k s0 Hk0) as (s & Hs & _ & H1 & H2).
    exists s. split; [exact Hs |]. split; [exact H1 | exact H2].
  - intros q m dyn j k a stages0 s0 Hj Ha Hk Hkind.
    split; [exact (instanceOf_range (surfaces b) q m dyn j k a stages0 s0 Hj Ha Hk Hkind) |].
    intros j' k' a' stages0' s0' Hj' Ha' Hk' Hkind' Heq.
    exact (instanceOf_inj (surfaces b) q m dyn j' k' j k a' stages0' s0' a stages0 s0
             Hj' Ha' Hk' Hkind' Hj Ha Hk Hkind Heq).
Qed.

(** The copies the third loop appends to [dynamicDrawSurfs], under the
    same conditions. The loop makes one copy for every Material and
    every surface of its [drawSurfs] that has a dynamic stage of it, in
    the order of the loop, so a surface with dynamic stages in two
    Materials is copied twice. A copy holds the surface as it is when the
    Material has run over it: the stages of the Materials the loop has
    run for so far, the one that makes the copy being the last of them,
    have their slot; a stage that belongs to none of them is in the copy
    as it was before the loop, whatever the loop does to it later. *)
Theorem dynamic_copies_are_snapshots GetPaddedSize uniformWords base packs b :
  length packs = 3%nat ->
  (forall (q i : nat) pack m,
     packs !! q = Some pack -> materials pack !! i = Some m ->
     slotReady GetPaddedSize (surfaces b) (Z.of_nat q) i m) ->
  exists packs' b' copies,
    slotPacks GetPaddedSize uniformWords base packs b = Some (packs', b') /\
    dynamicDrawSurfs b' = dynamicDrawSurfs b ++ copies /\
    length copies = length (allCopyVisits (surfaces b) packs) /\
    map snd (allCopyVisits (surfaces b) packs)
    = flat_map (fun v => copiedFor (surfaces b) (fst v) (snd v)) (allDone packs) /\
    forall (n : nat) done a,
      allCopyVisits (surfaces b) packs !! n = Some (done, a) ->
      (exists done0 q m rest,
         done = done0 ++ [(q, m)] /\ allDone packs = done ++ rest /\
         a ∈ drawSurfs m /\
         existsb (kind q m true) (stagesAt (surfaces b) a) = true) /\
      exists copy stages0,
        copies !! n = Some copy /\ surfaces b a = Some stages0 /\
        length copy = length stages0 /\
        forall (k : nat) s0,
          stages0 !! k = Some s0 ->
          exists s,
            copy !! k = Some s /\
            (forall q m (j : nat),
               (q, m) ∈ done -> matches q m s0 = true ->
               drawSurfs m !! j = Some a ->
               s = slottedStage GetPaddedSize base m
                     (instanceOf (surfaces b) q m j k stages0 (dynamic s0)) s0) /\
            ((forall q m,
                (q, m) ∈ done -> matches q m s0 = true -> a ∉ drawSurfs m) ->
             s = s0).
Proof.
  intros Hlen Hready.
  destruct packs as [| p0 [| p1 [| p2 [| ? ?]]]]; try discriminate Hlen.
  destruct (slotPacks_spec GetPaddedSize uniformWords base (surfaces b) p0 p1 p2 b
              Hready eq_refl) as (b' & copies & Hrun & _ & Hc & Hv).
  eexists. exists b', copies. split; [exact Hrun |]. split; [exact Hc |].
  split; [symmetry; exact (Forall2_length _ _ _ Hv) |].
  split; [apply allCopyVisits_surfaces |].
  intros n done a Hn.
  split; [exact (allCopyVisits_elem (surfaces b) p0 p1 p2 done a
                   (list_elem_of_lookup_2 _ _ _ Hn)) |].
  destruct (Forall2_lookup_l _ _ _ _ _ Hv Hn) as (copy & Hcopy & stages0 & Ha & Hl & Hk).
  cbn [fst snd] in Ha, Hl, Hk.
  exists copy, stages0. split; [exact Hcopy |]. split; [exact Ha |].
  split; [exact Hl |].
  intros k s0 Hk0. destruct (Hk k s0 Hk0) as (s & Hs & _ & H1 & H2).
  exists s. split; [exact Hs |]. split; [exact H1 | exact H2].
Qed.

Lemma sampleSlotPacks_ready :
  forall (q i : nat) pack m,
    sampleSlotPacks !! q = Some pack -> materials pack !! i = Some m ->
    slotReady sampleStride (surfaces sampleBuild) (Z.of_nat q) i m.
Proof.
  assert (forall a l,
             a ∈ l -> l = [100; 200] \/ l = [100] ->
             exists stages0,
               sampleStore a = Some stages0 /\
               Forall (fun s => surfaceDataUpdater s <> UpdateSurfaceDataNONE) stages0)
    as Hpresent.
  { intros a l Ha [-> | ->].
    - apply elem_of_cons in Ha as [-> | Ha];
        [| apply list_elem_of_singleton in Ha as ->];
        eexists; (split; [reflexivity |]); repeat constructor; discriminate.
    - apply list_elem_of_singleton in Ha as ->.
      eexists; (split; [reflexivity |]); repeat constructor; discriminate. }
  intros [| [| [| q]]] i pack m Hq Hm; vm_compute in Hq; try discriminate Hq;
    injection Hq as <-; cbn [materials] in Hm;
    try (destruct i; discriminate Hm).
  destruct i as [| [| i]]; cbn in Hm; try discriminate Hm; injection Hm as <-.
  - split; [reflexivity |]. split; [vm_compute; reflexivity |].
    split; [apply NoDup_cons; split;
            [rewrite list_elem_of_singleton; discriminate | apply NoDup_singleton] |].
    split; [intros a Ha; apply (Hpresent a _ Ha); left; reflexivity |].
    vm_compute. repeat split; discriminate.
  - split; [reflexivity |]. split; [vm_compute; reflexivity |].
    split; [apply NoDup_singleton |].
    split; [intros a Ha; apply (Hpresent a _ Ha); right; reflexivity |].
    vm_compute. repeat split; discriminate.
Qed.

Lemma every_stage_gets_its_own_instance_witness :
  length sampleSlotPacks = 3%nat /\
  (forall (q i : nat) pack m,
     sampleSlotPacks !! q = Some pack -> materials pack !! i = Some m ->
     slotReady sampleStride (surfaces sampleBuild) (Z.of_nat q) i m) /\
  exists packs' b',
    slotPacks sampleStride sampleWords sampleBase sampleSlotPacks sampleBuild
    = Some (packs', b') /\
    (forall (q : nat) pack,
       sampleSlotPacks !! q = Some pack ->
       packs' !! q
       = Some (set_materials
                 (map (slotsTaken (surfaces sampleBuild) (Z.of_nat q))
                      (materials pack)) pack)) /\
    forall a, surfaces sampleBuild a = None -> surfaces b' a = None.
Proof.
  split; [reflexivity |]. split; [exact sampleSlotPacks_ready |].
  destruct (every_stage_gets_its_own_instance sampleStride sampleWords sampleBase
              sampleSlotPacks sampleBuild eq_refl sampleSlotPacks_ready)
    as (packs' & b' & Hrun & Hpacks & Hnone & _).
  exists packs', b'. split; [exact Hrun |]. split; [exact Hpacks | exact Hnone].
Defined.

Lemma dynamic_copies_are_snapshots_witness :
  length sampleSlotPacks = 3%nat /\
  (forall (q i : nat) pack m,
     sampleSlotPacks !! q = Some pack -> materials pack !! i = Some m ->
     slotReady sampleStride (surfaces sampleBuild) (Z.of_nat q) i m) /\
  exists packs' b' copies,
    slotPacks sampleStride sampleWords sampleBase sampleSlotPacks sampleBuild
    = Some (packs', b') /\
    dynamicDrawSurfs b' = dynamicDrawSurfs sampleBuild ++ copies /\
    length copies = length (allCopyVisits (surfaces sampleBuild) sampleSlotPacks).
Proof.
  split; [reflexivity |]. split; [exact sampleSlotPacks_ready |].
  destruct (dynamic_copies_are_snapshots sampleStride sampleWords sampleBase
              sampleSlotPacks sampleBuild eq_refl sampleSlotPacks_ready)
    as (packs' & b' & copies & Hrun & Hc & Hl & _).
  exists packs', b', copies. split; [exact Hrun |]. split; [exact Hc | exact Hl].
Defined.

(** The sample: the surface at 100 is copied twice, first by Material 0
    with the stage of Material 1 still as on entry (slot 77, not
    initialized), then by Material 1. *)
Example sample_copies :
  match slotPacks sampleStride sampleWords sampleBase sampleSlotPacks sampleBuild with
  | Some (packs', b') =>
      map (map (fun s => (materialIDs s, materialsSSBOOffset s, initialized s)))
          (dynamicDrawSurfs b')
      = [ [(0, 0, true); (1, 77, false)]; [(0, 0, true); (1, 0, true)] ] /\
      map (fun m => (currentStaticDrawSurfCount m, currentDynamicDrawSurfCount m))
          (allMaterials packs')
      = [(1, 1); (0, 1)]
  | None => False
  end.
Proof. vm_compute. split; reflexivity. Qed.

End ThirdLoopFacts.

(** ** UpdateDynamicSurfaces, frame after frame *)

Module UpdateAgainFacts.
Import UpdateSamples LoopFacts.

(** Two runs of the same writes, on the buffers [x] and [y]: a word is
    the same after both, or each run left it alone. *)
Local Abbreviation sameWrites :=
  (fun x x' y y' : Buffer => forall a, x' a = y' a \/ (x' a = x a /\ y' a = y a)).

Lemma sameWrites_refl (x y : Buffer) : sameWrites x x y y.
Proof. intros a. right. split; reflexivity. Qed.

Lemma sameWrites_trans (x x1 x2 y y1 y2 : Buffer) :
  sameWrites x x1 y y1 -> sameWrites x1 x2 y1 y2 -> sameWrites x x2 y y2.
Proof.
  intros H1 H2 a. destruct (H2 a) as [E | [E1 E2]]; [left; exact E |].
  destruct (H1 a) as [F | [F1 F2]]; [left; congruence | right; split; congruence].
Qed.

Lemma writeWords_sameWrites ws :
  forall q (x y : Buffer), sameWrites x (writeWords q ws x) y (writeWords q ws y).
Proof.
  induction ws as [| w rest IH]; intros q x y a; cbn [writeWords].
  - right. split; reflexivity.
  - destruct (IH (q + 1) (upd x q w) (upd y q w) a) as [E | [E1 E2]];
      [left; exact E |].
    rewrite E1, E2. destruct (Z.eq_dec a q) as [-> | Hne].
    + left. rewrite !upd_same. reflexivity.
    + right. rewrite !upd_other by exact Hne. split; reflexivity.
Qed.

Lemma set_initialized_idle s : initialized s = true -> set_initialized true s = s.
Proof. destruct s. cbn. intros ->. reflexivity. Qed.

Section WithShaders.
Variable GetPaddedSize : GLShader -> Z.
(** The words the updaters store in a run, and in the run after it:
    they are computed from the state of the frame. *)
Variable uniformWords uniformWords' : Updater -> Material -> SurfStage -> list Z.

Local Abbreviation marked :=
  (fun s s' : SurfStage => s' = s \/ s' = set_initialized true s).
Local Abbreviation sameWords :=
  (forall u m s, uniformWords' u m s = uniformWords u m s).

(** One call of an updater, and the call for the stage it returns. *)
Lemma runUpdater_again materialsData material s x x' s' :
  runUpdater GetPaddedSize uniformWords materialsData material s x = Some (x', s') ->
  marked s s' /\ steady s' /\
  materialIDs s' = materialIDs s /\ materialPackIDs s' = materialPackIDs s /\
  forall y,
    exists y',
      runUpdater GetPaddedSize uniformWords' materialsData material s' y
      = Some (y', s') /\
      (sameWords -> steady s -> sameWrites x x' y y').
Proof.
  unfold runUpdater. intros H.
  destruct (surfaceDataUpdater s) eqn:Eu; try discriminate H.
  1: { injection H as <- <-. split; [left; reflexivity |].
       split; [left; exact Eu |]. split; [reflexivity |]. split; [reflexivity |].
       intros y. exists y. rewrite Eu. split; [reflexivity |].
       intros _ _. apply sameWrites_refl. }
  all: destruct (negb (initialized s) || colorDynamic s || texMatricesDynamic s
                 || dynamic s) eqn:Eupd; cbn [negb] in H; injection H as <- <-.
  all: try (split; [right; reflexivity |];
            split; [right; left; reflexivity |];
            split; [reflexivity |]; split; [reflexivity |];
            intros y; cbn [surfaceDataUpdater set_initialized materialsSSBOOffset
                             initialized colorDynamic texMatricesDynamic dynamic negb
                             orb];
            rewrite Eu;
            destruct (colorDynamic s || texMatricesDynamic s || dynamic s) eqn:Ef;
            cbn [negb];
            [ eexists; split; [reflexivity |]; intros Hw _; rewrite Hw;
              apply writeWords_sameWrites
            | eexists; split; [reflexivity |]; intros _ [Hn | [Hi | Hf]];
              [ congruence
              | rewrite Hi in Eupd; cbn [negb orb] in Eupd;
                unfold flagged in *; congruence
              | unfold flagged in Hf; congruence ] ]).
  all: split; [left; reflexivity |];
       (split; [right; left;
                destruct (initialized s); [reflexivity | discriminate Eupd] |]);
       (split; [reflexivity |]); (split; [reflexivity |]);
       intros y; exists y; rewrite Eu, Eupd; cbn [negb];
       (split; [reflexivity |]); intros _ _; apply sameWrites_refl.
Qed.

Lemma updateStages_again packs materialsData stages :
  forall x x' stages',
    updateStages GetPaddedSize uniformWords packs materialsData stages x
    = Some (x', stages') ->
    Forall2 marked stages stages' /\ Forall steady stages' /\
    forall y,
      exists y',
        updateStages GetPaddedSize uniformWords' packs materialsData stages' y
        = Some (y', stages') /\
        (sameWords -> Forall steady stages -> sameWrites x x' y y').
Proof.
  induction stages as [| s rest IH]; intros x x' stages' H; cbn [updateStages] in H.
  - injection H as <- <-. split; [constructor |]. split; [constructor |].
    intros y. exists y. split; [reflexivity |]. intros _ _. apply sameWrites_refl.
  - destruct (materialAt packs _ _) as [material |] eqn:Em; [| discriminate].
    destruct (runUpdater _ _ _ _ _ _) as [[x1 s1] |] eqn:E1; [| discriminate].
    destruct (updateStages _ _ _ _ rest x1) as [[x2 rest1] |] eqn:E2;
      [| discriminate].
    injection H as <- <-.
    destruct (runUpdater_again _ _ _ _ _ _ E1) as (Hm & Hs & Hid & Hpack & Hagain).
    destruct (IH _ _ _ E2) as (Hms & Hss & Hagains).
    split; [constructor; assumption |]. split; [constructor; assumption |].
    intros y. destruct (Hagain y) as (y1 & R1 & W1).
    destruct (Hagains y1) as (y2 & R2 & W2).
    exists y2. cbn [updateStages]. rewrite Hid, Hpack, Em, R1, R2.
    split; [reflexivity |].
    intros Hw Hst. apply Forall_cons in Hst as [Hst1 Hst2].
    exact (sameWrites_trans _ _ _ _ _ _ (W1 Hw Hst1) (W2 Hw Hst2)).
Qed.

Lemma updateSurfs_again packs materialsData surfs :
  forall x x' surfs',
    updateSurfs GetPaddedSize uniformWords packs materialsData surfs x
    = Some (x', surfs') ->
    Forall2 (Forall2 marked) surfs surfs' /\ Forall (Forall steady) surfs' /\
    forall y,
      exists y',
        updateSurfs GetPaddedSize uniformWords' packs materialsData surfs' y
        = Some (y', surfs') /\
        (sameWords -> Forall (Forall steady) surfs -> sameWrites x x' y y').
Proof.
  induction surfs as [| d rest IH]; intros x x' surfs' H; cbn [updateSurfs] in H.
  - injection H as <- <-. split; [constructor |]. split; [constructor |].
    intros y. exists y. split; [reflexivity |]. intros _ _. apply sameWrites_refl.
  - destruct (updateStages _ _ _ _ d x) as [[x1 d1] |] eqn:E1; [| discriminate].
    destruct (updateSurfs _ _ _ _ rest x1) as [[x2 rest1] |] eqn:E2; [| discriminate].
    injection H as <- <-.
    destruct (updateStages_again _ _ _ _ _ _ E1) as (Hm & Hs & Hagain).
    destruct (IH _ _ _ E2) as (Hms & Hss & Hagains).
    split; [constructor; assumption |]. split; [constructor; assumption |].
    intros y. destruct (Hagain y) as (y1 & R1 & W1).
    destruct (Hagains y1) as (y2 & R2 & W2).
    exists y2. cbn [updateSurfs]. rewrite R1, R2. split; [reflexivity |].
    intros Hw Hst. apply Forall_cons in Hst as [Hst1 Hst2].
    exact (sameWrites_trans _ _ _ _ _ _ (W1 Hw Hst1) (W2 Hw Hst2)).
Qed.

Lemma marked_refl (surfs : list drawSurf_t) : Forall2 (Forall2 marked) surfs surfs.
Proof.
  apply Forall_Forall2_diag, Forall_forall. intros d _.
  apply Forall_Forall2_diag, Forall_forall. intros s _. left. reflexivity.
Qed.

(** A run, and the run on what it returns. *)
Lemma UpdateDynamicSurfaces_again packs dOff dSize surfs buf buf1 surfs1 :
  UpdateDynamicSurfaces GetPaddedSize uniformWords packs dOff dSize surfs buf
  = Some (buf1, surfs1) ->
  Forall2 (Forall2 marked) surfs surfs1 /\
  ((dSize =? 0) = false -> Forall (Forall steady) surfs1) /\
  exists buf2,
    UpdateDynamicSurfaces GetPaddedSize uniformWords' packs dOff dSize surfs1 buf1
    = Some (buf2, surfs1) /\
    (sameWords -> Forall (Forall steady) surfs -> forall a, buf2 a = buf1 a).
Proof.
  unfold UpdateDynamicSurfaces. intros H.
  destruct (dSize =? 0) eqn:E0.
  - injection H as <- <-. split; [apply marked_refl |]. split; [discriminate |].
    exists buf. split; [reflexivity |]. intros _ _ a. reflexivity.
  - destruct (updateSurfs_again _ _ _ _ _ _ H) as (Hm & Hs & Hagain).
    split; [exact Hm |]. split; [intros _; exact Hs |].
    destruct (Hagain (memsetZero dOff dSize buf1)) as (buf2 & R & W).
    exists buf2. split; [exact R |].
    intros Hw Hst a. destruct (W Hw Hst a) as [E | [E1 E2]]; [symmetry; exact E |].
    rewrite E2. unfold memsetZero in E1 |- *.
    destruct ((dOff <=? a) && (a <? dOff + dSize)); [symmetry; exact E1 | reflexivity].
Qed.
End WithShaders.

(** [UpdateDynamicSurfaces] in three frames that follow one another, with
    the Materials unchanged; [words1], [words2] and [words3] are the
    words the updaters store in each of them, computed from the state of
    the frame. A run changes the surfaces at most by setting
    [initialized]. The run that follows completes and returns the
    surfaces it was given, and so does the one after it, whatever the
    updaters store. Where two consecutive frames give the updaters the
    same words to store, the third run leaves the buffer as the second
    left it; the second leaves the buffer of the first only if moreover
    every stage with neither [colorDynamic], [texMatricesDynamic] nor
    [dynamic] was initialised at first (or has the updater that does
    nothing): a stage that is written only because it was not
    initialised is written by the first run alone. *)
Theorem update_is_stable_from_second_run GetPaddedSize words1 words2 words3
    packs dOff dSize surfs buf buf1 surfs1 :
  UpdateDynamicSurfaces GetPaddedSize words1 packs dOff dSize surfs buf
  = Some (buf1, surfs1) ->
  Forall2 (Forall2 (fun s s' => s' = s \/ s' = set_initialized true s)) surfs surfs1 /\
  exists buf2,
    UpdateDynamicSurfaces GetPaddedSize words2 packs dOff dSize surfs1 buf1
    = Some (buf2, surfs1) /\
    ((forall u m s, words2 u m s = words1 u m s) ->
     Forall (Forall steady) surfs -> forall a, buf2 a = buf1 a) /\
    exists buf3,
      UpdateDynamicSurfaces GetPaddedSize words3 packs dOff dSize surfs1 buf2
      = Some (buf3, surfs1) /\
      ((forall u m s, words3 u m s = words2 u m s) -> forall a, buf3 a = buf2 a).
Proof.
  intros H.
  destruct (UpdateDynamicSurfaces_again GetPaddedSize words1 words2 _ _ _ _ _ _ _ H)
    as (Hm & _ & buf2 & R2 & W2).
  split; [exact Hm |]. exists buf2. split; [exact R2 |]. split; [exact W2 |].
  destruct (UpdateDynamicSurfaces_again GetPaddedSize words2 words3 _ _ _ _ _ _ _ R2)
    as (_ & Hs2 & buf3 & R3 & W3).
  exists buf3. split; [exact R3 |]. intros Hw.
  destruct (dSize =? 0) eqn:E0.
  - unfold UpdateDynamicSurfaces in R2, R3. rewrite E0 in R2, R3.
    injection R2 as <-. injection R3 as <-. reflexivity.
  - apply (W3 Hw). exact (Hs2 eq_refl).
Qed.

Lemma update_is_stable_from_second_run_witness :
  let layout := GenerateWorldMaterialsBuffer sampleStride Layout.samplePacks 0 in
  let words2 := fun (u : Updater) (m : Material) (s : SurfStage) =>
                  replicate (Z.to_nat (paddedSizeOf sampleStride m)) 9 in
  exists buf1 surfs1,
    UpdateDynamicSurfaces_on sampleStride sampleWords layout [freshSurf] (fun _ => 7)
    = Some (buf1, surfs1) /\
    exists buf2,
      UpdateDynamicSurfaces_on sampleStride words2 layout surfs1 buf1
      = Some (buf2, surfs1) /\
      exists buf3,
        UpdateDynamicSurfaces_on sampleStride words2 layout surfs1 buf2
        = Some (buf3, surfs1) /\
        forall a, buf3 a = buf2 a.
Proof.
  intros layout words2.
  destruct (UpdateDynamicSurfaces_on sampleStride sampleWords layout [freshSurf]
              (fun _ => 7)) as [[buf1 surfs1] |] eqn:E;
    [| vm_compute in E; discriminate].
  exists buf1, surfs1. split; [reflexivity |].
  destruct (update_is_stable_from_second_run sampleStride sampleWords words2 words2
              _ _ _ _ _ _ _ E)
    as (_ & buf2 & R2 & _ & buf3 & R3 & W3).
  exists buf2. split; [exact R2 |]. exists buf3. split; [exact R3 |].
  apply W3. reflexivity.
Defined.

(** The sample: a stage that is neither dynamic nor initialised. The
    first run writes its words at the start of the mapped range (word
    56), the second run clears the range and does not write them again. *)
Example sample_second_run :
  let layout := GenerateWorldMaterialsBuffer sampleStride Layout.samplePacks 0 in
  match UpdateDynamicSurfaces_on sampleStride sampleWords layout [freshSurf]
                                 (fun _ => 7) with
  | Some (buf1, surfs1) =>
      buf1 56 = 255 /\
      match UpdateDynamicSurfaces_on sampleStride sampleWords layout surfs1 buf1 with
      | Some (buf2, _) => buf2 56 = 0
      | None => False
      end
  | None => False
  end.
Proof. vm_compute. split; reflexivity. Qed.

End UpdateAgainFacts.

(** ** From the classification to the slots *)

Module PipelineFacts.
Import Classifier ClassifierFacts StageUses CountFacts Pipeline LoopFacts.

Lemma filter_imap_length {A B C} (P : B -> bool) (Q : C -> bool) (l : list A) :
  forall (f : nat -> A -> B) (g : nat -> A -> C),
    (forall k x, P (f k x) = Q (g k x)) ->
    length (List.filter P (imap f l)) = length (List.filter Q (imap g l)).
Proof.
  induction l as [| x l IH]; intros f g H; [reflexivity |].
  cbn [imap List.filter]. rewrite (H 0%nat x).
  destruct (Q (g 0%nat x)); cbn [length]; [f_equal |]; apply IH; intros k y; apply H.
Qed.

Lemma sumZ_Permutation (l k : list Z) : l ≡ₚ k -> sumZ l = sumZ k.
Proof.
  unfold sumZ. induction 1; cbn [fold_right]; lia.
Qed.

Lemma sumZ_filter {A} (f : A -> Z) (P : A -> bool) (l : list A) :
  (forall x, x ∈ l -> P x = false -> f x = 0) ->
  sumZ (map f l) = sumZ (map f (List.filter P l)).
Proof.
  induction l as [| x l IH]; intros H; [reflexivity |].
  cbn [map List.filter]. unfold sumZ in *. 
  assert (forall y, y ∈ l -> P y = false -> f y = 0) as H'
    by (intros y Hy; apply H, list_elem_of_further, Hy).
  destruct (P x) eqn:E; cbn [map fold_right]; rewrite (IH H'); [reflexivity |].
  rewrite (H x (list_elem_of_here _ _) E). lia.
Qed.

Lemma sumZ_ext {A} (f g : A -> Z) (l : list A) :
  (forall x, x ∈ l -> f x = g x) -> sumZ (map f l) = sumZ (map g l).
Proof.
  induction l as [| x l IH]; intros H; [reflexivity |].
  unfold sumZ in *. cbn [map fold_right].
  rewrite (H x (list_elem_of_here _ _)), IH; [reflexivity |].
  intros y Hy. apply H, list_elem_of_further, Hy.
Qed.

Lemma allUses_cons d ds : allUses (d :: ds) = stageUses d ++ allUses ds.
Proof. reflexivity. Qed.

Lemma usesBy_app p i dyn us1 us2 :
  usesBy p i dyn (us1 ++ us2) = usesBy p i dyn us1 ++ usesBy p i dyn us2.
Proof. unfold usesBy. apply List.filter_app. Qed.

Lemma usesBy_allUses p i dyn ds :
  Z.of_nat (length (usesBy p i dyn (allUses ds))) = sumZ (map (usesIn p i dyn) ds).
Proof.
  induction ds as [| d ds IH]; [reflexivity |].
  rewrite allUses_cons, usesBy_app, length_app, Nat2Z.inj_add, IH. reflexivity.
Qed.

Lemma stageUses_surf d u : u ∈ stageUses d -> useSurf u = drawSurf_t.addr d.
Proof.
  unfold stageUses. destruct (eligibleShader d); [| intros H; inversion H].
  intros H. apply list_elem_of_lookup in H as [k Hk].
  rewrite list_lookup_imap in Hk.
  destruct (drawSurf_t.stages d !! k); [| discriminate]. injection Hk as <-.
  reflexivity.
Qed.

Lemma elem_of_allUses u ds : u ∈ allUses ds <-> exists d, d ∈ ds /\ u ∈ stageUses d.
Proof.
  unfold allUses. rewrite list_elem_of_In, in_concat. split.
  - intros (l & Hl & Hu). apply in_map_iff in Hl as (d & <- & Hd).
    exists d. split; apply list_elem_of_In; assumption.
  - intros (d & Hd & Hu). exists (stageUses d).
    split; [apply in_map | ]; apply list_elem_of_In; assumption.
Qed.

Lemma usesBy_usesOf p i dyn us u : u ∈ usesBy p i dyn us -> u ∈ usesOf p i us.
Proof.
  unfold usesBy, usesOf. rewrite !list_elem_of_In, !List.filter_In.
  intros [H1 H2]. apply andb_prop in H2 as [H2 _]. split; assumption.
Qed.

Section Surfaces.
Variable updaterOf : shaderStage.t -> Update.Updater.
Variable slot0 : Z -> Z -> Z.
Variable init0 : Z -> Z -> bool.

Local Abbreviation stagesOf := (surfStages updaterOf slot0 init0).
Local Abbreviation store := (storeOf updaterOf slot0 init0).

Lemma countKind_surfStages p m dyn d sh :
  eligibleShader d = Some sh ->
  BuildSlots.countKind p m dyn (stagesOf d) = usesIn p (id m) dyn d.
Proof.
  intros Hsh. unfold BuildSlots.countKind, usesIn, stageUses, surfStages.
  rewrite Hsh. f_equal. unfold usesBy. apply filter_imap_length.
  intros k pStage. unfold BuildSlots.kind, BuildSlots.matches, uses.
  cbn. rewrite (andb_comm (_ =? id m)). reflexivity.
Qed.

Lemma storeOf_lookup ds d :
  NoDup (map drawSurf_t.addr ds) -> d ∈ ds ->
  store ds (drawSurf_t.addr d) = Some (stagesOf d).
Proof.
  induction ds as [| d0 ds IH]; intros Hnd Hd; [inversion Hd |].
  cbn [map] in Hnd. apply NoDup_cons in Hnd as [Hnot Hnd].
  cbn [storeOf]. apply elem_of_cons in Hd as [-> | Hd].
  - rewrite Z.eqb_refl. reflexivity.
  - destruct (Z.eqb_spec (drawSurf_t.addr d) (drawSurf_t.addr d0)) as [E | _].
    + exfalso. apply Hnot. rewrite <- E. apply list_elem_of_fmap.
      exists d. split; [reflexivity | exact Hd].
    + exact (IH Hnd Hd).
Qed.

Lemma addr_inj ds d d' :
  NoDup (map drawSurf_t.addr ds) -> d ∈ ds -> d' ∈ ds ->
  drawSurf_t.addr d = drawSurf_t.addr d' -> d = d'.
Proof.
  intros Hnd Hd Hd' E.
  apply list_elem_of_lookup in Hd as [j Hj]. apply list_elem_of_lookup in Hd' as [j' Hj'].
  assert (j = j') as ->.
  { apply (NoDup_lookup _ _ _ (drawSurf_t.addr d) Hnd).
    - rewrite list_lookup_fmap, Hj. reflexivity.
    - rewrite list_lookup_fmap, Hj', E. reflexivity. }
  congruence.
Qed.
End Surfaces.

Section Surfaces.
Variable updaterOf : shaderStage.t -> Update.Updater.
Variable slot0 : Z -> Z -> Z.
Variable init0 : Z -> Z -> bool.

Local Abbreviation stagesOf := (surfStages updaterOf slot0 init0).
Local Abbreviation store := (storeOf updaterOf slot0 init0).

(** The stages of a Material in its surfaces, as the third loop finds
    them, are the stages [ProcessStage] placed in it. *)
Lemma countKindIn_uses ds p (i : nat) m dyn :
  NoDup (map drawSurf_t.addr ds) ->
  id m = Z.of_nat i ->
  NoDup (drawSurfs m) ->
  (forall a,
     a ∈ drawSurfs m
     <-> exists u, u ∈ usesOf p (Z.of_nat i) (allUses ds) /\ useSurf u = a) ->
  BuildSlots.countKindIn (store ds) p m dyn (drawSurfs m)
  = Z.of_nat (length (usesBy p (Z.of_nat i) dyn (allUses ds))).
Proof.
  intros Hnd Hid Hnds Hiff.
  set (P := fun d => bool_decide (drawSurf_t.addr d ∈ drawSurfs m)).
  assert (forall d u, d ∈ ds -> u ∈ usesOf p (Z.of_nat i) (stageUses d) ->
                      drawSurf_t.addr d ∈ drawSurfs m) as Hlisted.
  { intros d u Hd Hu. apply Hiff. exists u.
    apply elem_of_usesOf in Hu as [Hu1 Hu2].
    split; [| exact (stageUses_surf d u Hu1)].
    apply elem_of_usesOf. split; [| exact Hu2].
    apply elem_of_allUses. exists d. split; assumption. }
  assert (forall d, d ∈ ds -> drawSurf_t.addr d ∈ drawSurfs m ->
                    exists sh, eligibleShader d = Some sh) as Helig.
  { intros d Hd Ha. apply Hiff in Ha as (u & Hu & Hsurf).
    apply elem_of_usesOf in Hu as [Hu _].
    apply elem_of_allUses in Hu as (d' & Hd' & Hu').
    assert (d' = d) as ->.
    { apply (addr_inj ds); try assumption.
      rewrite <- (stageUses_surf d' u Hu'). exact Hsurf. }
    unfold stageUses in Hu'. destruct (eligibleShader d) as [sh |]; [eauto |].
    inversion Hu'. }
  rewrite usesBy_allUses, (sumZ_filter _ P).
  2:{ intros d Hd HP. unfold usesIn.
      destruct (usesBy p (Z.of_nat i) dyn (stageUses d)) as [| u us] eqn:E;
        [reflexivity |].
      exfalso. assert (u ∈ usesBy p (Z.of_nat i) dyn (stageUses d)) as Hu
        by (rewrite E; apply list_elem_of_here).
      apply usesBy_usesOf in Hu. pose proof (Hlisted d u Hd Hu) as Ha.
      unfold P in HP. apply bool_decide_eq_false in HP. contradiction. }
  assert (drawSurfs m ≡ₚ map drawSurf_t.addr (List.filter P ds)) as Hperm.
  { apply NoDup_Permutation; [exact Hnds | |].
    - clear -Hnd. induction ds as [| d ds IH]; [constructor |].
      cbn [map] in Hnd. apply NoDup_cons in Hnd as [Hnot Hnd].
      cbn [List.filter]. destruct (P d); [| exact (IH Hnd)].
      cbn [map]. apply NoDup_cons. split; [| exact (IH Hnd)].
      intros Hin. apply Hnot. apply list_elem_of_fmap in Hin as (d' & E & Hd').
      apply list_elem_of_fmap. exists d'. split; [exact E |].
      apply list_elem_of_In, List.filter_In in Hd' as [Hd' _].
      apply list_elem_of_In, Hd'.
    - intros a. split.
      + intros Ha. pose proof Ha as Ha'. apply Hiff in Ha' as (u & Hu & Hsurf).
        apply elem_of_usesOf in Hu as [Hu _].
        apply elem_of_allUses in Hu as (d & Hd & Hu').
        rewrite (stageUses_surf d u Hu') in Hsurf.
        apply list_elem_of_fmap. exists d. split; [symmetry; exact Hsurf |].
        apply list_elem_of_In, List.filter_In. split; [apply list_elem_of_In, Hd |].
        unfold P. apply bool_decide_eq_true. rewrite Hsurf. exact Ha.
      + intros Ha. apply list_elem_of_fmap in Ha as (d & -> & Hd).
        apply list_elem_of_In, List.filter_In in Hd as [_ HP].
        unfold P in HP. apply bool_decide_eq_true in HP. exact HP. }
  unfold BuildSlots.countKindIn.
  rewrite (sumZ_Permutation _ _ (Permutation_map _ Hperm)), map_map.
  apply sumZ_ext. intros d Hd.
  apply list_elem_of_In, List.filter_In in Hd as [Hd HP].
  apply list_elem_of_In in Hd. unfold P in HP. apply bool_decide_eq_true in HP.
  destruct (Helig d Hd HP) as [sh Hsh].
  unfold BuildSlots.stagesAt. rewrite (storeOf_lookup _ _ _ ds d Hnd Hd).
  cbn [default from_option id]. rewrite <- Hid.
  exact (countKind_surfStages _ _ _ p m dyn d sh Hsh).
Qed.
End Surfaces.

(** The layout passes keep the packs and change the two offsets only. *)
Local Abbreviation relaid :=
  (fun m m' : Material =>
     id m' = id m /\ shader m' = shader m /\ drawSurfs m' = drawSurfs m /\
     currentStaticDrawSurfCount m' = currentStaticDrawSurfCount m /\
     currentDynamicDrawSurfCount m' = currentDynamicDrawSurfCount m /\
     totalStaticDrawSurfCount m' = totalStaticDrawSurfCount m /\
     totalDynamicDrawSurfCount m' = totalDynamicDrawSurfCount m).

Lemma layout_shape GetPaddedSize packs old :
  Forall2 (fun pk pk' => Forall2 relaid (materials pk) (materials pk'))
          packs
          (Layout.materialPacks
             (Layout.GenerateWorldMaterialsBuffer GetPaddedSize packs old)).
Proof.
  unfold Layout.GenerateWorldMaterialsBuffer.
  pose proof (forPacks_shape (Layout.staticStep GetPaddedSize) relaid
                ltac:(intros; cbn; repeat split) packs 0) as H1.
  destruct (forPacks (Layout.staticStep GetPaddedSize) 0 packs) as [o1 packs1].
  set (s1 := Layout.Build_DynamicPass _ _ _).
  pose proof (forPacks_shape (Layout.dynamicStep GetPaddedSize) relaid
                ltac:(intros; cbn; repeat split) packs1 s1) as H2.
  destruct (forPacks (Layout.dynamicStep GetPaddedSize) s1 packs1) as [s2 packs2].
  cbn [snd Layout.materialPacks] in *.
  eapply Forall2_chain; [| exact H1 | exact H2].
  intros x y z Hxy Hyz. cbn beta in *.
  eapply Forall2_chain; [| exact Hxy | exact Hyz].
  intros m1 m2 m3 (A1 & A2 & A3 & A4 & A5 & A6 & A7) (B1 & B2 & B3 & B4 & B5 & B6 & B7).
  repeat split; congruence.
Qed.

Lemma countKindIn_id store q m' m dyn addrs :
  id m' = id m ->
  BuildSlots.countKindIn store q m' dyn addrs = BuildSlots.countKindIn store q m dyn addrs.
Proof.
  intros Hid. unfold BuildSlots.countKindIn, BuildSlots.countKind, BuildSlots.kind,
    BuildSlots.matches. rewrite Hid. reflexivity.
Qed.

Lemma slotReady_relaid GetPaddedSize store q i m m' :
  relaid m m' ->
  BuildSlots.slotReady GetPaddedSize store q i m ->
  BuildSlots.slotReady GetPaddedSize store q i m'.
Proof.
  intros (A1 & A2 & A3 & A4 & A5 & _) (H1 & H2 & H3 & H4 & H5 & H6 & H7 & H8).
  unfold BuildSlots.slotReady, Layout.paddedSizeOf in *.
  rewrite A1, A2, A3, A4, A5, !(countKindIn_id store q m' m _ _ A1).
  repeat split; assumption.
Qed.

Section WithConstants.
Variable K : RendererConstants.
Variable updaterOf : shaderStage.t -> Update.Updater.
Variable slot0 : Z -> Z -> Z.
Variable init0 : Z -> Z -> bool.

Local Abbreviation stagesOf := (surfStages updaterOf slot0 init0).
Local Abbreviation store := (storeOf updaterOf slot0 init0).
Local Abbreviation logInv :=
  (fun c us => (forall p, counted p us (materialsOf c p)) /\ usesInRange c us).

(** No more stages are placed than the surfaces have. *)
Lemma processSurfs_uses_le ds :
  forall n c c' outs us0,
    classifiedInv n c -> 0 <= n ->
    n + stageCount ds < 2 ^ 32 ->
    logInv c us0 -> Z.of_nat (length us0) <= n ->
    processSurfs K Material_eqb ds c = Some (c', outs) ->
    Z.of_nat (length (us0 ++ allUses outs)) <= n + stageCount ds.
Proof.
  induction ds as [| d rest IH]; intros n c c' outs us0 Hinv Hn Hroom Hlog Hlen Hrun;
    cbn [processSurfs] in Hrun.
  - injection Hrun as <- <-. unfold allUses, stageCount, sumZ. cbn.
    rewrite app_nil_r. lia.
  - rewrite stageCount_cons in *. pose proof (stageCount_nonneg rest) as Hnn.
    destruct (processSurf K Material_eqb d c) as [[c1 d1] |] eqn:E1; [| discriminate].
    destruct (processSurfs K Material_eqb rest c1) as [[c2 rest1] |] eqn:E2; [| discriminate].
    injection Hrun as <- <-.
    destruct (processSurf_spec K n d c c1 d1 Hinv Hn ltac:(lia) E1) as (Hinv1 & _).
    destruct (processSurf_counted K n d c c1 d1 us0 Hinv Hn ltac:(lia) Hlog Hlen E1)
      as (Hlog1 & Hlen1).
    rewrite allUses_cons, app_assoc, Z.add_assoc.
    apply (IH _ c1 c2 rest1 _ Hinv1 ltac:(lia) ltac:(lia) Hlog1 Hlen1 E2).
Qed.

(** The Materials the classification leaves are ready for the third
    loop. *)
Lemma classified_ready GetPaddedSize surfs c outs :
  stageCount surfs < 2 ^ 32 ->
  GenerateWorldMaterials K Material_eqb surfs = Some (c, outs) ->
  NoDup (map drawSurf_t.addr outs) ->
  (forall pStage, updaterOf pStage <> Update.UpdateSurfaceDataNONE) ->
  (forall m, m ∈ allMaterials (packsOf c) -> 0 < Layout.paddedSizeOf GetPaddedSize m) ->
  forall (q i : nat) pack m,
    packsOf c !! q = Some pack -> materials pack !! i = Some m ->
    BuildSlots.slotReady GetPaddedSize (store outs) (Z.of_nat q) i m /\
    countedRow (Z.of_nat q) (Z.of_nat i) (allUses outs) m /\
    BuildSlots.countKindIn (store outs) (Z.of_nat q) m false (drawSurfs m)
    = totalStaticDrawSurfCount m /\
    BuildSlots.countKindIn (store outs) (Z.of_nat q) m true (drawSurfs m)
    = totalDynamicDrawSurfCount m.
Proof.
  intros Hcount Hrun Hnd Hupd Hstride q i pack m Hq Hm.
  destruct (GenerateWorldMaterials_counted K surfs c outs Hcount Hrun) as [Hcnt Hrng].
  pose proof Hrun as Hrun'. unfold GenerateWorldMaterials in Hrun'.
  destruct (processSurfs_spec K surfs 0 _ c outs (emptyClassified_inv)
              ltac:(lia) ltac:(lia) Hrun') as ((_ & _ & I3 & _) & _ & _).
  pose proof (processSurfs_uses_le surfs 0 emptyClassified c outs []
                (emptyClassified_inv) ltac:(lia) ltac:(lia)
                ltac:(split; [intros p0 i0 m0 H0; inversion H0
                             | intros u Hu; inversion Hu])
                ltac:(cbn; lia) Hrun') as Hle.
  cbn [app] in Hle.
  assert (materials pack = materialsOf c (Z.of_nat q)) as Hpack.
  { unfold packsOf in Hq. destruct q as [| [| [| q]]]; cbn in Hq;
      try discriminate Hq; injection Hq as <-; reflexivity. }
  rewrite Hpack in Hm.
  pose proof (Hcnt (Z.of_nat q) i m Hm) as Hrow.
  pose proof Hrow as (T1 & T2 & _ & C1 & C2 & Hnds & Hiff).
  pose proof (I3 _ _ _ Hm) as Hid.
  pose proof (countKindIn_uses updaterOf slot0 init0 outs (Z.of_nat q) i m false
                Hnd Hid Hnds Hiff) as Hs.
  pose proof (countKindIn_uses updaterOf slot0 init0 outs (Z.of_nat q) i m true
                Hnd Hid Hnds Hiff) as Hd.
  pose proof (usesBy_le (Z.of_nat q) (Z.of_nat i) false (allUses outs)).
  pose proof (usesBy_le (Z.of_nat q) (Z.of_nat i) true (allUses outs)).
  split; [| split; [exact Hrow | split; congruence]].
  split; [exact Hid |]. split.
  { apply Hstride. eapply elem_of_allMaterials.
    - eapply list_elem_of_lookup_2. exact Hq.
    - rewrite Hpack. eapply list_elem_of_lookup_2. exact Hm. }
  split; [exact Hnds |]. split.
  { intros a Ha. apply Hiff in Ha as (u & Hu & <-).
    apply elem_of_usesOf in Hu as [Hu _].
    apply elem_of_allUses in Hu as (d & Hd' & Hu').
    rewrite (stageUses_surf d u Hu').
    exists (stagesOf d). split; [apply storeOf_lookup; assumption |].
    apply Forall_lookup. intros k s Hk. unfold surfStages in Hk.
    rewrite list_lookup_imap in Hk.
    destruct (drawSurf_t.stages d !! k); [| discriminate]. injection Hk as <-.
    apply Hupd. }
  rewrite C1, C2, Hs, Hd. repeat split; lia.
Qed.

Lemma elem_of_allDone l0 l1 l2 (q : nat) pack m :
  [l0; l1; l2] !! q = Some pack -> m ∈ materials pack ->
  (Z.of_nat q, m) ∈ BuildSlots.allDone [l0; l1; l2].
Proof.
  intros Hq Hm. unfold BuildSlots.allDone, BuildSlots.packDone.
  cbn [lookup list_lookup].
  destruct q as [| [| [| q]]]; cbn in Hq; try discriminate Hq; injection Hq as <-.
  - apply elem_of_app. left. apply list_elem_of_fmap. eauto.
  - apply elem_of_app. right. apply elem_of_app. left.
    apply list_elem_of_fmap. eauto.
  - apply elem_of_app. right. apply elem_of_app. right.
    apply list_elem_of_fmap. eauto.
Qed.

Lemma packOf_nat sort :
  exists q : nat, (q < 3)%nat /\ packOf K sort = Z.of_nat q.
Proof.
  unfold packOf. destruct (sort =? SS_DEPTH K); [exists 0%nat; split; [lia | reflexivity] |].
  destruct ((SS_ENVIRONMENT_FOG K <=? sort) && (sort <=? SS_OPAQUE K));
    [exists 1%nat | exists 2%nat]; split; try lia; reflexivity.
Qed.
End WithConstants.

(** [GenerateWorldMaterials] from its loop over the surfaces to the
    return of [GenerateWorldMaterialsBuffer], when the surfaces have
    distinct addresses, no stage has the updater that must not be
    called, and every Material has a stride that is not 0. The third loop
    completes. After it, the two current counts of every Material are its
    two total counts. Every stage of every processed surface holds the
    slot of an instance, and the instance is below the total count of
    the stage's kind in the Material that [materialPackIDs] and
    [materialIDs] name for the stage. *)
Theorem build_uses_up_the_counts K updaterOf slot0 init0 GetPaddedSize uniformWords
    surfs old dynamicDrawSurfs0 c outs :
  stageCount surfs < 2 ^ 32 ->
  GenerateWorldMaterials K Material_eqb surfs = Some (c, outs) ->
  NoDup (map drawSurf_t.addr outs) ->
  (forall pStage, updaterOf pStage <> Update.UpdateSurfaceDataNONE) ->
  (forall m, m ∈ allMaterials (packsOf c) -> 0 < Layout.paddedSizeOf GetPaddedSize m) ->
  let layout := Layout.GenerateWorldMaterialsBuffer GetPaddedSize (packsOf c) old in
  exists buf b',
    GenerateWorldMaterials_built updaterOf slot0 init0 K Material_eqb GetPaddedSize uniformWords
      surfs old dynamicDrawSurfs0
    = Some (buf, b') /\
    (forall m,
       m ∈ allMaterials (Layout.materialPacks buf) ->
       currentStaticDrawSurfCount m = totalStaticDrawSurfCount m /\
       currentDynamicDrawSurfCount m = totalDynamicDrawSurfCount m) /\
    (forall d sh (k : nat) pStage,
       d ∈ outs -> eligibleShader d = Some sh ->
       drawSurf_t.stages d !! k = Some pStage ->
       exists m cnt stages s,
         Update.materialAt (Layout.materialPacks layout)
           (drawSurf_t.materialPackIDs d (Z.of_nat k))
           (drawSurf_t.materialIDs d (Z.of_nat k))
         = Some m /\
         BuildSlots.surfaces b' (drawSurf_t.addr d) = Some stages /\
         stages !! k = Some s /\
         0 <= cnt
         < (if Dynamics.dynamic (shaderStage.dynamics pStage)
            then totalDynamicDrawSurfCount m else totalStaticDrawSurfCount m) /\
         Update.materialsSSBOOffset s
         = BuildSlots.slotValue GetPaddedSize
             (Layout.bufferDynamicDrawSurfsOffset layout) m
             (Dynamics.dynamic (shaderStage.dynamics pStage)) cnt).
Proof.
  intros Hcount Hrun Hnd Hupd Hstride layout.
  set (store0 := storeOf updaterOf slot0 init0 outs).
  (* the packs after the layout passes *)
  pose proof (layout_shape GetPaddedSize (packsOf c) old) as Hshape.
  fold layout in Hshape.
  assert (forall (q i : nat) pack m,
             Layout.materialPacks layout !! q = Some pack ->
             materials pack !! i = Some m ->
             BuildSlots.slotReady GetPaddedSize store0 (Z.of_nat q) i m /\
             id m = Z.of_nat i /\
             currentStaticDrawSurfCount m = 0 /\ currentDynamicDrawSurfCount m = 0 /\
             BuildSlots.countKindIn store0 (Z.of_nat q) m false (drawSurfs m)
             = totalStaticDrawSurfCount m /\
             BuildSlots.countKindIn store0 (Z.of_nat q) m true (drawSurfs m)
             = totalDynamicDrawSurfCount m /\
             (forall a,
                a ∈ drawSurfs m
                <-> exists u,
                      u ∈ usesOf (Z.of_nat q) (Z.of_nat i) (allUses outs) /\
                      useSurf u = a)) as Hlaid.
  { intros q i pack m Hq Hm.
    destruct (Forall2_lookup_r _ _ _ _ _ Hshape Hq) as (pack0 & Hq0 & Hms).
    destruct (Forall2_lookup_r _ _ _ _ _ Hms Hm) as (m0 & Hm0 & Hrel).
    destruct (classified_ready K updaterOf slot0 init0 GetPaddedSize surfs c outs
                Hcount Hrun Hnd Hupd Hstride q i pack0 m0 Hq0 Hm0)
      as (Hready & Hrow & Hs & Hd).
    destruct Hrow as (_ & _ & _ & C1 & C2 & _ & Hiff).
    pose proof Hrel as (A1 & A2 & A3 & A4 & A5 & A6 & A7).
    split; [exact (slotReady_relaid _ _ _ _ _ _ Hrel Hready) |].
    split; [rewrite A1; apply Hready |].
    rewrite A3, A4, A5, A6, A7, !(countKindIn_id store0 (Z.of_nat q) m m0 _ _ A1).
    repeat split; try assumption; apply Hiff. }
  assert (exists l0 l1 l2, Layout.materialPacks layout = [l0; l1; l2])
    as (l0 & l1 & l2 & Hpacks).
  { pose proof (Forall2_length _ _ _ Hshape) as Hlen. unfold packsOf in Hlen.
    cbn [map length] in Hlen.
    destruct (Layout.materialPacks layout) as [| l0 [| l1 [| l2 [| ? ?]]]];
      try discriminate Hlen. eauto. }
  rewrite Hpacks in Hlaid.
  destruct (ThirdLoopFacts.slotPacks_spec GetPaddedSize uniformWords
              (Layout.bufferDynamicDrawSurfsOffset layout) store0 l0 l1 l2
              {| BuildSlots.buffer := fun _ => 0; BuildSlots.surfaces := store0;
                 BuildSlots.dynamicDrawSurfs := dynamicDrawSurfs0 |})
    as (b' & copies & Hslots & Hinv & _ & _).
  { intros q i pack m Hq Hm. apply (Hlaid q i pack m Hq Hm). }
  { reflexivity. }
  unfold GenerateWorldMaterials_built. rewrite Hrun.
  unfold BuildSlots.GenerateWorldMaterialsBuffer_all. fold layout. fold store0.
  rewrite Hpacks, Hslots. eexists _, b'. split; [reflexivity |].
  cbn [Layout.materialPacks]. split.
  - (* the counts *)
    intros m Hm. unfold allMaterials in Hm. cbn [map concat] in Hm.
    rewrite app_nil_r in Hm.
    assert (exists (q : nat) pack m1,
               [l0; l1; l2] !! q = Some pack /\ m1 ∈ materials pack /\
               m = BuildSlots.slotsTaken store0 (Z.of_nat q) m1)
      as (q & pack & m1 & Hq & Hm1 & ->).
    { cbn [materials set_materials] in Hm.
      apply elem_of_app in Hm as [Hm | Hm]; [| apply elem_of_app in Hm as [Hm | Hm]];
        apply list_elem_of_fmap in Hm as (m1 & -> & Hm1).
      - exists 0%nat, l0, m1. repeat split; assumption.
      - exists 1%nat, l1, m1. repeat split; assumption.
      - exists 2%nat, l2, m1. repeat split; assumption. }
    apply list_elem_of_lookup in Hm1 as [i Hi].
    destruct (Hlaid q i pack m1 Hq Hi) as (_ & _ & C1 & C2 & Hs & Hd & _).
    unfold BuildSlots.slotsTaken. destruct m1. cbn in *. lia.
  - (* the stages *)
    intros d sh k pStage Hd Hsh Hk.
    pose proof Hrun as Hrun'. unfold GenerateWorldMaterials in Hrun'.
    destruct (processSurfs_spec K surfs 0 _ c outs (emptyClassified_inv)
                ltac:(lia) ltac:(lia) Hrun') as ((_ & _ & I3 & _) & _ & Hplaced).
    rewrite Forall_forall in Hplaced.
    destruct (Hplaced d Hd sh k pStage Hsh Hk) as (Hp & m0 & Hm0 & Hid0 & _).
    destruct (packOf_nat K (shader_t.sort sh)) as (q & Hq3 & Hq).
    rewrite Hq in Hp, Hm0.
    set (i := Z.to_nat (drawSurf_t.materialIDs d (Z.of_nat k))) in *.
    pose proof (I3 _ _ _ Hm0) as Hpos.
    assert (drawSurf_t.materialIDs d (Z.of_nat k) = Z.of_nat i) as Hi by congruence.
    (* the Material after the layout passes *)
    assert (exists pack0, packsOf c !! q = Some pack0 /\
                          materials pack0 = materialsOf c (Z.of_nat q))
      as (pack0 & Hq0 & Hpack0).
    { unfold packsOf. destruct q as [| [| [| q]]]; try lia; eexists;
        (split; [reflexivity |]); reflexivity. }
    destruct (Forall2_lookup_l _ _ _ _ _ Hshape Hq0) as (pack & Hqp & Hms).
    rewrite Hpack0 in Hms.
    destruct (Forall2_lookup_l _ _ _ _ _ Hms Hm0) as (m & Hm & _).
    pose proof Hqp as Hqp'. rewrite Hpacks in Hqp'.
    destruct (Hlaid q i pack m Hqp' Hm) as (Hready & Hid & C1 & C2 & Hs & Hdy & Hiff).
    (* the surface is listed by the Material *)
    set (u := useAt d k pStage).
    assert (drawSurf_t.addr d ∈ drawSurfs m) as Hlisted.
    { apply Hiff. exists u. split; [| reflexivity].
      apply elem_of_usesOf. split.
      - apply elem_of_allUses. exists d. split; [exact Hd |].
        unfold stageUses. rewrite Hsh.
        apply (list_elem_of_lookup_2 _ k). rewrite list_lookup_imap, Hk. reflexivity.
      - unfold uses, u. cbn. rewrite Hp, Hi, !Z.eqb_refl. reflexivity. }
    apply list_elem_of_lookup in Hlisted as [j Hj].
    (* the stage as the loop leaves it *)
    set (s0 := surfStage updaterOf slot0 init0 d k pStage).
    assert (store0 (drawSurf_t.addr d)
            = Some (surfStages updaterOf slot0 init0 d)) as Hstore
      by (apply storeOf_lookup; assumption).
    assert (surfStages updaterOf slot0 init0 d !! k = Some s0) as Hk0
      by (unfold surfStages, Update.drawSurf_t; rewrite list_lookup_imap, Hk;
          reflexivity).
    specialize (Hinv (drawSurf_t.addr d)). rewrite Hstore in Hinv.
    destruct Hinv as (stages & Hst & _ & Hstages).
    destruct (Hstages k s0 Hk0) as (s & Hks & _ & Hdone & _).
    assert (BuildSlots.matches (Z.of_nat q) m s0 = true) as Hmatch.
    { unfold BuildSlots.matches, s0. cbn. rewrite Hp, Hi, Hid, !Z.eqb_refl.
      reflexivity. }
    pose proof (Hdone (Z.of_nat q) m j
                  (elem_of_allDone l0 l1 l2 q pack m Hqp'
                     (list_elem_of_lookup_2 _ _ _ Hm))
                  Hmatch Hj) as Hs0.
    assert (BuildSlots.kind (Z.of_nat q) m (Update.dynamic s0) s0 = true) as Hkind.
    { unfold BuildSlots.kind. rewrite Hmatch. destruct (Update.dynamic s0); reflexivity. }
    pose proof (ThirdLoopFacts.instanceOf_range store0 (Z.of_nat q) m
                  (Update.dynamic s0) j k (drawSurf_t.addr d) _ s0 Hj Hstore Hk0 Hkind)
      as Hrange.
    exists m, (BuildSlots.instanceOf store0 (Z.of_nat q) m j k
                 (surfStages updaterOf slot0 init0 d) (Update.dynamic s0)),
      stages, s.
    split.
    { unfold Update.materialAt. rewrite Hp, Hi, !Nat2Z.id, Hqp'. exact Hm. }
    split; [exact Hst |]. split; [exact Hks |].
    change (Dynamics.dynamic (shaderStage.dynamics pStage)) with (Update.dynamic s0).
    split.
    { destruct (Update.dynamic s0); lia. }
    rewrite Hs0. reflexivity.
Qed.

Lemma sampleWorld_built :
  match GenerateWorldMaterials sampleConstants Material_eqb sampleWorld with
  | Some (c, outs) =>
      NoDup (map drawSurf_t.addr outs) /\
      forall m,
        m ∈ allMaterials (packsOf c) -> 0 < Layout.paddedSizeOf Layout.sampleStride m
  | None => False
  end.
Proof.
  destruct (GenerateWorldMaterials sampleConstants Material_eqb sampleWorld) as [[c outs] |] eqn:E;
    [| vm_compute in E; discriminate].
  vm_compute in E. injection E as <- <-. split.
  - cbn [map drawSurf_t.addr].
    repeat (apply NoDup_cons; split;
            [rewrite ?elem_of_cons, elem_of_nil; lia |]).
    apply NoDup_nil_2.
  - intros m Hm. unfold packsOf, allMaterials in Hm. cbn in Hm.
    repeat (apply elem_of_cons in Hm as [-> | Hm]; [vm_compute; reflexivity |]).
    inversion Hm.
Qed.

Lemma build_uses_up_the_counts_witness :
  stageCount sampleWorld < 2 ^ 32 /\
  exists c outs,
    GenerateWorldMaterials sampleConstants Material_eqb sampleWorld = Some (c, outs) /\
    NoDup (map drawSurf_t.addr outs) /\
    (forall m,
       m ∈ allMaterials (packsOf c) ->
       0 < Layout.paddedSizeOf Layout.sampleStride m) /\
    exists buf b',
      GenerateWorldMaterials_built
        (fun _ => Update.UpdateSurfaceDataGeneric3D) (fun _ _ => 77) (fun _ _ => false)
        sampleConstants Material_eqb Layout.sampleStride Update.sampleWords
        sampleWorld 0 []
      = Some (buf, b') /\
      forall m,
        m ∈ allMaterials (Layout.materialPacks buf) ->
        currentStaticDrawSurfCount m = totalStaticDrawSurfCount m /\
        currentDynamicDrawSurfCount m = totalDynamicDrawSurfCount m.
Proof.
  assert (stageCount sampleWorld < 2 ^ 32) as Hc by (vm_compute; reflexivity).
  split; [exact Hc |].
  pose proof sampleWorld_built as Hs.
  destruct (GenerateWorldMaterials sampleConstants Material_eqb sampleWorld) as [[c outs] |] eqn:E;
    [| contradiction].
  destruct Hs as [Hnd Hstride].
  exists c, outs. split; [reflexivity |]. split; [exact Hnd |].
  split; [exact Hstride |].
  destruct (build_uses_up_the_counts sampleConstants
              (fun _ => Update.UpdateSurfaceDataGeneric3D) (fun _ _ => 77)
              (fun _ _ => false) Layout.sampleStride Update.sampleWords sampleWorld 0 []
              c outs Hc E Hnd ltac:(discriminate) Hstride)
    as (buf & b' & Hrun & Hcounts & _).
  exists buf, b'. split; [exact Hrun | exact Hcounts].
Defined.

(** The sample world after the build: the counts of the three Materials,
    and the slots of the five stages. *)
Example sample_build :
  match GenerateWorldMaterials_built
          (fun _ => Update.UpdateSurfaceDataGeneric3D) (fun _ _ => 77)
          (fun _ _ => false) sampleConstants Material_eqb Layout.sampleStride
          Update.sampleWords sampleWorld 0 [] with
  | Some (buf, b') =>
      map (fun m => (currentStaticDrawSurfCount m, totalStaticDrawSurfCount m,
                     staticMaterialsSSBOOffset m))
          (allMaterials (Layout.materialPacks buf))
      = [(2, 2, 0); (2, 2, 24); (1, 1, 40)] /\
      map (fun a => option_map (map Update.materialsSSBOOffset)
                               (BuildSlots.surfaces b' a)) [0; 1; 2]
      = [Some [0; 3]; Some [5]; Some [1; 4]]
  | None => False
  end.
Proof. vm_compute. split; reflexivity. Qed.

End PipelineFacts.

(** ** The first update after a build *)

Module UpdateEscapeFacts.
Import MaterialTypes BuildSamples.

(** C6. [UpdateDynamicSurfaces] does not keep to the dynamic region. The
    world is one surface with a scrolling stage of the generic shader
    (stride 8) and a plain stage of the light-mapping shader (stride 12).
    [GenerateWorldMaterials] and [GenerateWorldMaterialsBuffer] lay out a
    buffer of 24 words with the dynamic region at the words 16 to 23,
    and copy the surface to [dynamicDrawSurfs] when the first Material
    has run over it: in the copy the second stage, which is not dynamic,
    is not initialised and holds the slot 0 it had on entry. The first
    [UpdateDynamicSurfaces] calls the updater of that stage too; it
    stores the stage's words from the start of the mapped range on, over
    the instance of the dynamic stage and on to the words 24 to 27,
    behind the mapped range and behind the buffer. *)
Theorem UpdateDynamicSurfaces_writes_behind_the_dynamic_region :
  match scrollBuild with
  | Some (layout, b) =>
      Layout.bufferDynamicDrawSurfsOffset layout = 16 /\
      Layout.dynamicDrawSurfsSize layout = 8 /\
      Layout.bufferSize layout = 24 /\
      map (map (fun s => (Update.dynamic s, Update.materialsSSBOOffset s,
                          Update.initialized s)))
          (BuildSlots.dynamicDrawSurfs b)
      = [ [ (true, 0, true); (false, 0, false) ] ] /\
      map (BuildSlots.buffer b) [16; 23; 24; 27; 28] = [255; 255; 0; 0; 0] /\
      match Update.UpdateDynamicSurfaces_on Layout.sampleStride frameWords layout
              (BuildSlots.dynamicDrawSurfs b) (BuildSlots.buffer b) with
      | Some (buf', _) => map buf' [16; 23; 24; 27; 28] = [2; 2; 2; 2; 0]
      | None => False
      end
  | None => False
  end.
Proof. vm_compute. repeat split; reflexivity. Qed.

End UpdateEscapeFacts.
